(** * a314d: the Raspberry-side bridge daemon of the A314 board

    A shallow embedding of [Software/a314d/a314d.cc] and proofs about its
    channel multiplexer, its ring codec and its client endpoint.

    Conventions of the embedding:
    - C integers are [Z]; the conversions the C code performs implicitly
      ([uint8_t], [uint32_t], [int]) are written out with [u8], [u32], [to_int].
    - [std::list] and [std::vector] are [list]; a byte is a [Z] in [0, 256).
    - A [LogicalChannel*] is the [channel_id] of the record it points to and a
      [ClientConnection*] is the [fd] of the record it points to; dereferencing
      a pointer whose record is gone is undefined behaviour ([Fault]).
    - The daemon talks to the outside through system calls.  The results of
      the calls whose result the code reads come from a script held in the
      world; every call is appended to a trace. *)

From Stdlib Require Import ZArith List Bool Lia.
From Stdlib Require Ascii String.
Import String.StringSyntax.
Import ListNotations.
Open Scope Z_scope.

(* Arithmetic on machine integers stays folded under [simpl]. *)
#[local] Arguments Z.add _ _ : simpl never.
#[local] Arguments Z.sub _ _ : simpl never.
#[local] Arguments Z.mul _ _ : simpl never.
#[local] Arguments Z.opp _ : simpl never.
#[local] Arguments Z.land _ _ : simpl never.
#[local] Arguments Z.lor _ _ : simpl never.
#[local] Arguments Z.shiftl _ _ : simpl never.
#[local] Arguments Z.shiftr _ _ : simpl never.
#[local] Arguments Z.modulo _ _ : simpl never.

(** ** Machine integers *)

Definition u8 (x : Z) : Z := Z.land x 255.
Definition u32 (x : Z) : Z := Z.land x 4294967295.
Definition to_int (x : Z) : Z :=
  let y := u32 x in if y <? 2147483648 then y else y - 4294967296.
Definition INT_MAX : Z := 2147483647.

Definition zlen {A} (l : list A) : Z := Z.of_nat (List.length l).
Definition ztake {A} (n : Z) (l : list A) : list A := firstn (Z.to_nat n) l.
Definition zdrop {A} (n : Z) (l : list A) : list A := skipn (Z.to_nat n) l.
Definition zeros (n : Z) : list Z := repeat 0 (Z.to_nat n).

Fixpoint bytes_eqb (a b : list Z) : bool :=
  match a, b with
  | [], [] => true
  | x :: a', y :: b' => (x =? y) && bytes_eqb a' b'
  | _, _ => false
  end.

(** The bytes of a string literal of the source. *)
Definition text (s : String.string) : list Z :=
  map (fun a => Z.of_N (Ascii.N_of_ascii a)) (String.list_ascii_of_string s).
Arguments text s%_string_scope.

(** Little-endian 32-bit fields, as the packed [MessageHeader] lies in memory
    on the little-endian hosts the daemon runs on. *)
Definition le32 (x : Z) : list Z :=
  [Z.land x 255; Z.land (Z.shiftr x 8) 255;
   Z.land (Z.shiftr x 16) 255; Z.land (Z.shiftr x 24) 255].
Definition of_le32 (b : list Z) : Z :=
  Z.lor (u8 (nth 0 b 0))
    (Z.lor (Z.shiftl (u8 (nth 1 b 0)) 8)
       (Z.lor (Z.shiftl (u8 (nth 2 b 0)) 16) (Z.shiftl (u8 (nth 3 b 0)) 24))).

(** ** Constants of the source *)

Definition READ_SRAM_CMD : Z := 0.
Definition WRITE_SRAM_CMD : Z := 1.
Definition READ_CMEM_CMD : Z := 2.
Definition WRITE_CMEM_CMD : Z := 3.
Definition READ_SRAM_HDR_LEN : Z := 4.

Definition R_EVENTS_ADDRESS : Z := 12.
Definition R_ENABLE_ADDRESS : Z := 13.
Definition A_EVENTS_ADDRESS : Z := 14.
Definition A_ENABLE_ADDRESS : Z := 15.

Definition R_EVENT_A2R_TAIL : Z := 1.
Definition R_EVENT_R2A_HEAD : Z := 2.
Definition R_EVENT_BASE_ADDRESS : Z := 4.

Definition A_EVENT_R2A_TAIL : Z := 1.
Definition A_EVENT_A2R_HEAD : Z := 2.

Definition A2R_TAIL_OFFSET : Z := 0.
Definition R2A_HEAD_OFFSET : Z := 1.
Definition R2A_TAIL_OFFSET : Z := 2.
Definition A2R_HEAD_OFFSET : Z := 3.

Definition PKT_CONNECT : Z := 4.
Definition PKT_CONNECT_RESPONSE : Z := 5.
Definition PKT_DATA : Z := 6.
Definition PKT_EOS : Z := 7.
Definition PKT_RESET : Z := 8.

Definition CONNECT_OK : Z := 0.
Definition CONNECT_UNKNOWN_SERVICE : Z := 3.

Definition MSG_REGISTER_REQ : Z := 1.
Definition MSG_REGISTER_RES : Z := 2.
Definition MSG_DEREGISTER_REQ : Z := 3.
Definition MSG_DEREGISTER_RES : Z := 4.
Definition MSG_READ_MEM_REQ : Z := 5.
Definition MSG_READ_MEM_RES : Z := 6.
Definition MSG_WRITE_MEM_REQ : Z := 7.
Definition MSG_WRITE_MEM_RES : Z := 8.
Definition MSG_CONNECT : Z := 9.
Definition MSG_CONNECT_RESPONSE : Z := 10.
Definition MSG_DATA : Z := 11.
Definition MSG_EOS : Z := 12.
Definition MSG_RESET : Z := 13.

Definition MSG_SUCCESS : Z := 1.
Definition MSG_FAIL : Z := 0.

(** Constants of the system headers the source includes, with the values
    they have on Linux, the only platform the daemon builds on (it uses
    epoll and spidev). *)
Definition EAGAIN : Z := 11.
Definition EWOULDBLOCK : Z := 11.
Definition ECONNRESET : Z := 104.
Definition EINTR : Z := 4.
Definition AF_INET : Z := 2.
Definition AF_UNIX : Z := 1.
Definition SOCK_STREAM : Z := 1.
Definition SOCK_CLOEXEC : Z := 524288.
Definition INADDR_ANY : Z := 0.
Definition INADDR_LOOPBACK : Z := 2130706433.
Definition SHUT_WR : Z := 1.
Definition EPOLLIN : Z := 1.
Definition EPOLLPRI : Z := 2.
Definition EPOLLOUT : Z := 4.
Definition EPOLLERR : Z := 8.
Definition EPOLLET : Z := 2147483648.
Definition sizeof_MessageHeader : Z := 9.
Definition O_RDONLY : Z := 0.
Definition O_WRONLY : Z := 1.
Definition O_RDWR : Z := 2.
Definition O_NONBLOCK : Z := 2048.
Definition O_CLOEXEC : Z := 524288.
Definition EPOLL_CLOEXEC : Z := 524288.
Definition SIG_BLOCK : Z := 0.
Definition SIGTERM : Z := 15.
Definition SPI_CS_HIGH : Z := 4.
Definition SPI_IOC_WR_MODE : Z := 1073834753.
Definition SPI_IOC_WR_BITS_PER_WORD : Z := 1073834755.
Definition SPI_IOC_WR_MAX_SPEED_HZ : Z := 1074031364.

(** The macro IRQ_GPIO and the static variables [mode], [bits] and [speed]. *)
Definition IRQ_GPIO : list Z := text "25".
Definition mode : Z := SPI_CS_HIGH.
Definition bits : Z := 8.
Definition speed : Z := 67000000.

(** [htons] on a little-endian host, and its inverse. *)
Definition htons (x : Z) : Z :=
  Z.lor (Z.shiftl (Z.land x 255) 8) (Z.land (Z.shiftr x 8) 255).
Definition ntohs (x : Z) : Z := htons x.

(** ** Data model *)

Record MessageHeader := mkMessageHeader {
  mh_length : Z;
  mh_stream_id : Z;
  mh_type : Z
}.

Record MessageBuffer := mkMessageBuffer {
  mb_pos : Z;
  mb_data : list Z
}.

Record RegisteredService := mkRegisteredService {
  srv_name : list Z;
  srv_cc : Z
}.

Record PacketBuffer := mkPacketBuffer {
  pb_type : Z;
  pb_data : list Z
}.

Record ClientConnection := mkClientConnection {
  fd : Z;
  next_stream_id : Z;
  bytes_read : Z;
  header : MessageHeader;
  payload : list Z;
  message_queue : list MessageBuffer;
  associations : list Z
}.

Record LogicalChannel := mkLogicalChannel {
  channel_id : Z;
  association : option Z;
  stream_id : Z;
  got_eos_from_ami : bool;
  got_eos_from_client : bool;
  packet_queue : list PacketBuffer
}.

Record OnDemandStart := mkOnDemandStart {
  service_name : list Z;
  program : list Z;
  arguments : list (list Z)
}.

(** [channel_status], an array of four [uint8_t]. *)
Record ChannelStatus := mkChannelStatus {
  cs0 : Z; cs1 : Z; cs2 : Z; cs3 : Z
}.

(** Reads and writes of an element go through [uint8_t]. *)
Definition cs_get (i : Z) (cs : ChannelStatus) : Z :=
  u8 (if i =? 0 then cs0 cs else if i =? 1 then cs1 cs
      else if i =? 2 then cs2 cs else cs3 cs).

Definition cs_set (i : Z) (v : Z) (cs : ChannelStatus) : ChannelStatus :=
  if i =? 0 then mkChannelStatus (u8 v) (cs1 cs) (cs2 cs) (cs3 cs)
  else if i =? 1 then mkChannelStatus (cs0 cs) (u8 v) (cs2 cs) (cs3 cs)
  else if i =? 2 then mkChannelStatus (cs0 cs) (cs1 cs) (u8 v) (cs3 cs)
  else mkChannelStatus (cs0 cs) (cs1 cs) (cs2 cs) (u8 v).

Record sockaddr_in := mk_sockaddr_in {
  sin_family : Z;
  sin_addr : Z;
  sin_port : Z
}.

(** ** The outside world *)

(** A system call issued by the daemon. *)
Inductive Call :=
| c_sigprocmask (how : Z) (signals : list Z)
| c_sigaction (signal : Z)
| c_open (path : list Z) (flags : Z)
| c_ioctl (f request arg : Z)
| c_nanosleep (sec nsec : Z)
| c_epoll_create1 (flags : Z)
| c_socket (domain type protocol : Z)
| c_bind (sock : Z) (address : sockaddr_in)
| c_listen (sock backlog : Z)
| c_accept (sock : Z)
| c_fcntl_cloexec (f : Z)
| c_fcntl_nonblock (f : Z)
| c_setsockopt_nodelay (f : Z)
| c_epoll_add (f events : Z)
| c_epoll_pwait (timeout : Z)
| c_socketpair
| c_fork (service : list Z)
| c_execvp (program : list Z) (args : list (list Z))
| c_read (f count : Z)
| c_write (f : Z) (buf : list Z)
| c_shutdown (f how : Z)
| c_close (f : Z)
| c_gpio_read
| c_spi (tx : list Z) (len : Z).

(** What a call returns: the return value, [errno] and the bytes it stores in
    the caller's buffer (for [socketpair], the two descriptors). *)
Record SysRes := mkSysRes {
  sr_ret : Z;
  sr_errno : Z;
  sr_data : list Z
}.

(** An entry of the trace: a system call, the hand-over of a message to
    [create_and_send_msg] (client, type, stream id, payload), or the erasure of
    a record from [channels] (the record as it is when it is erased). *)
Inductive Event :=
| ev_sys (c : Call)
| ev_msg (cc type sid : Z) (data : list Z)
| ev_erase (c : LogicalChannel).

Record World := mkWorld {
  connections : list ClientConnection;
  services : list RegisteredService;
  channels : list LogicalChannel;
  send_queue : list Z;
  on_demand_services : list OnDemandStart;
  have_base_address : bool;
  base_address : Z;
  channel_status : ChannelStatus;
  channel_status_updated : Z;
  recv_buf : list Z;
  server_socket : Z;
  gpio_fd : Z;
  script : list SysRes;
  trace : list Event
}.

Definition set_connections (v : list ClientConnection) (w : World) : World :=
  mkWorld v (services w) (channels w) (send_queue w) (on_demand_services w)
    (have_base_address w) (base_address w) (channel_status w)
    (channel_status_updated w) (recv_buf w) (server_socket w) (gpio_fd w)
    (script w) (trace w).
Definition set_services (v : list RegisteredService) (w : World) : World :=
  mkWorld (connections w) v (channels w) (send_queue w) (on_demand_services w)
    (have_base_address w) (base_address w) (channel_status w)
    (channel_status_updated w) (recv_buf w) (server_socket w) (gpio_fd w)
    (script w) (trace w).
Definition set_channels (v : list LogicalChannel) (w : World) : World :=
  mkWorld (connections w) (services w) v (send_queue w) (on_demand_services w)
    (have_base_address w) (base_address w) (channel_status w)
    (channel_status_updated w) (recv_buf w) (server_socket w) (gpio_fd w)
    (script w) (trace w).
Definition set_send_queue (v : list Z) (w : World) : World :=
  mkWorld (connections w) (services w) (channels w) v (on_demand_services w)
    (have_base_address w) (base_address w) (channel_status w)
    (channel_status_updated w) (recv_buf w) (server_socket w) (gpio_fd w)
    (script w) (trace w).
Definition set_have_base_address (v : bool) (w : World) : World :=
  mkWorld (connections w) (services w) (channels w) (send_queue w)
    (on_demand_services w) v (base_address w) (channel_status w)
    (channel_status_updated w) (recv_buf w) (server_socket w) (gpio_fd w)
    (script w) (trace w).
Definition set_base_address (v : Z) (w : World) : World :=
  mkWorld (connections w) (services w) (channels w) (send_queue w)
    (on_demand_services w) (have_base_address w) v (channel_status w)
    (channel_status_updated w) (recv_buf w) (server_socket w) (gpio_fd w)
    (script w) (trace w).
Definition set_channel_status (v : ChannelStatus) (w : World) : World :=
  mkWorld (connections w) (services w) (channels w) (send_queue w)
    (on_demand_services w) (have_base_address w) (base_address w) v
    (channel_status_updated w) (recv_buf w) (server_socket w) (gpio_fd w)
    (script w) (trace w).
Definition set_channel_status_updated (v : Z) (w : World) : World :=
  mkWorld (connections w) (services w) (channels w) (send_queue w)
    (on_demand_services w) (have_base_address w) (base_address w)
    (channel_status w) v (recv_buf w) (server_socket w) (gpio_fd w)
    (script w) (trace w).
Definition set_recv_buf (v : list Z) (w : World) : World :=
  mkWorld (connections w) (services w) (channels w) (send_queue w)
    (on_demand_services w) (have_base_address w) (base_address w)
    (channel_status w) (channel_status_updated w) v (server_socket w)
    (gpio_fd w) (script w) (trace w).
Definition set_server_socket (v : Z) (w : World) : World :=
  mkWorld (connections w) (services w) (channels w) (send_queue w)
    (on_demand_services w) (have_base_address w) (base_address w)
    (channel_status w) (channel_status_updated w) (recv_buf w) v
    (gpio_fd w) (script w) (trace w).
Definition set_gpio_fd (v : Z) (w : World) : World :=
  mkWorld (connections w) (services w) (channels w) (send_queue w)
    (on_demand_services w) (have_base_address w) (base_address w)
    (channel_status w) (channel_status_updated w) (recv_buf w)
    (server_socket w) v (script w) (trace w).
Definition set_script (v : list SysRes) (w : World) : World :=
  mkWorld (connections w) (services w) (channels w) (send_queue w)
    (on_demand_services w) (have_base_address w) (base_address w)
    (channel_status w) (channel_status_updated w) (recv_buf w)
    (server_socket w) (gpio_fd w) v (trace w).
Definition set_trace (v : list Event) (w : World) : World :=
  mkWorld (connections w) (services w) (channels w) (send_queue w)
    (on_demand_services w) (have_base_address w) (base_address w)
    (channel_status w) (channel_status_updated w) (recv_buf w)
    (server_socket w) (gpio_fd w) (script w) v.

(** The daemon right after its static initialisers ran and the configuration
    was loaded: [on_demand] is the table [load_config_file] produced and
    [scr] the results of the system calls to come. *)
Definition initial_world (on_demand : list OnDemandStart) (scr : list SysRes)
  : World :=
  mkWorld [] [] [] [] on_demand false 0 (mkChannelStatus 0 0 0 0) 0
    (zeros 256) (-1) (-1) scr [].

(** The daemon when [init_driver] has returned and [main] calls
    [main_loop]: the listening socket is [s] and the value file of the GPIO
    is [g]; the tables and the state of the board are as the static
    initialisers left them.  [t] are the calls made so far. *)
Definition serving_world (on_demand : list OnDemandStart) (s g : Z)
  (scr : list SysRes) (t : list Event) : World :=
  mkWorld [] [] [] [] on_demand false 0 (mkChannelStatus 0 0 0 0) 0
    (zeros 256) s g scr t.

(** ** The monad of daemon code *)

Inductive Outcome (A : Type) : Type :=
| Ret (a : A) (w : World)      (* the function returned *)
| Exit (code : Z) (w : World)  (* the process called exit *)
| Fault                        (* undefined behaviour of the C++ code *)
| Stuck.                       (* the script ran out, or gave a result the
                                  kernel cannot give *)
Arguments Ret {A} a w.
Arguments Exit {A} code w.
Arguments Fault {A}.
Arguments Stuck {A}.

Definition M (A : Type) : Type := World -> Outcome A.

Definition ret {A} (a : A) : M A := fun w => Ret a w.
Definition bind {A B} (m : M A) (k : A -> M B) : M B :=
  fun w => match m w with
           | Ret a w' => k a w'
           | Exit c w' => Exit c w'
           | Fault => Fault
           | Stuck => Stuck
           end.
Definition exit {A} (code : Z) : M A := fun w => Exit code w.
Definition fault {A} : M A := fun _ => Fault.
Definition stuck {A} : M A := fun _ => Stuck.
Definition gets {A} (f : World -> A) : M A := fun w => Ret (f w) w.
Definition modify (f : World -> World) : M unit := fun w => Ret tt (f w).
Definition when (b : bool) (m : M unit) : M unit := if b then m else ret tt.

(** A loop whose turns are bounded by a quantity [g] of the world it starts
    in: the length of the script when every turn makes a system call, the
    length of a list when every turn erases an element. *)
Definition fueled {A} (g : World -> nat) (f : nat -> M A) : M A :=
  fun w => f (g w) w.
Definition script_length (w : World) : nat := S (List.length (script w)).

Declare Scope daemon_scope.
Delimit Scope daemon_scope with daemon.
Notation "x <- c1 ;; c2" := (bind c1 (fun x => c2))
  (at level 61, c1 at next level, right associativity) : daemon_scope.
Notation "c1 ;; c2" := (bind c1 (fun _ => c2))
  (at level 61, right associativity) : daemon_scope.
Open Scope daemon_scope.

Definition log (e : Event) : M unit :=
  modify (fun w => set_trace (trace w ++ [e]) w).

(** A system call whose result the code reads: the result is the next entry
    of the script. *)
Definition sys (c : Call) : M SysRes :=
  fun w => match script w with
           | [] => Stuck
           | r :: rest => Ret r (set_trace (trace w ++ [ev_sys c]) (set_script rest w))
           end.

(** A system call whose result the code ignores. *)
Definition sys_ (c : Call) : M unit := log (ev_sys c).

(** ** Pointers to bytes *)

(** A [uint8_t*]: the null pointer, or a pointer into a buffer of which
    [bytes] are the bytes from the pointer to the end of the buffer.  Reading
    past the end is undefined behaviour. *)
Inductive Ptr :=
| nullptr
| ptr (bytes : list Z).

(** [std::string s((char * )data, n)]. *)
Definition read_bytes (data : Ptr) (n : Z) : M (list Z) :=
  if n <=? 0 then ret []
  else match data with
       | nullptr => fault
       | ptr b => if n <=? zlen b then ret (ztake n b) else fault
       end.

(** [v.resize(n); if (n && data) memcpy(&v[0], data, n);] on a fresh vector. *)
Definition resize_and_copy (data : Ptr) (n : Z) : M (list Z) :=
  match data with
  | nullptr => ret (zeros n)
  | ptr b => if n =? 0 then ret []
             else if n <=? zlen b then ret (ztake n b) else fault
  end.

(** ** Records behind pointers *)

Definition set_association (v : option Z) (c : LogicalChannel) :=
  mkLogicalChannel (channel_id c) v (stream_id c) (got_eos_from_ami c)
    (got_eos_from_client c) (packet_queue c).
Definition set_stream_id (v : Z) (c : LogicalChannel) :=
  mkLogicalChannel (channel_id c) (association c) v (got_eos_from_ami c)
    (got_eos_from_client c) (packet_queue c).
Definition set_got_eos_from_ami (v : bool) (c : LogicalChannel) :=
  mkLogicalChannel (channel_id c) (association c) (stream_id c) v
    (got_eos_from_client c) (packet_queue c).
Definition set_got_eos_from_client (v : bool) (c : LogicalChannel) :=
  mkLogicalChannel (channel_id c) (association c) (stream_id c)
    (got_eos_from_ami c) v (packet_queue c).
Definition set_packet_queue (v : list PacketBuffer) (c : LogicalChannel) :=
  mkLogicalChannel (channel_id c) (association c) (stream_id c)
    (got_eos_from_ami c) (got_eos_from_client c) v.

Definition set_next_stream_id (v : Z) (k : ClientConnection) :=
  mkClientConnection (fd k) v (bytes_read k) (header k) (payload k)
    (message_queue k) (associations k).
Definition set_bytes_read (v : Z) (k : ClientConnection) :=
  mkClientConnection (fd k) (next_stream_id k) v (header k) (payload k)
    (message_queue k) (associations k).
Definition set_header (v : MessageHeader) (k : ClientConnection) :=
  mkClientConnection (fd k) (next_stream_id k) (bytes_read k) v (payload k)
    (message_queue k) (associations k).
Definition set_payload (v : list Z) (k : ClientConnection) :=
  mkClientConnection (fd k) (next_stream_id k) (bytes_read k) (header k) v
    (message_queue k) (associations k).
Definition set_message_queue (v : list MessageBuffer) (k : ClientConnection) :=
  mkClientConnection (fd k) (next_stream_id k) (bytes_read k) (header k)
    (payload k) v (associations k).
Definition set_associations (v : list Z) (k : ClientConnection) :=
  mkClientConnection (fd k) (next_stream_id k) (bytes_read k) (header k)
    (payload k) (message_queue k) v.

Definition find_channel (ch : Z) (l : list LogicalChannel) : option LogicalChannel :=
  find (fun c => channel_id c =? ch) l.
Definition find_connection (cc : Z) (l : list ClientConnection) : option ClientConnection :=
  find (fun k => fd k =? cc) l.

Definition update_channel (ch : Z) (f : LogicalChannel -> LogicalChannel)
  (l : list LogicalChannel) : list LogicalChannel :=
  map (fun c => if channel_id c =? ch then f c else c) l.
Definition update_connection (cc : Z) (f : ClientConnection -> ClientConnection)
  (l : list ClientConnection) : list ClientConnection :=
  map (fun k => if fd k =? cc then f k else k) l.

(** Reading through a [LogicalChannel*] and a [ClientConnection*]. *)
Definition deref_ch (ch : Z) : M LogicalChannel :=
  fun w => match find_channel ch (channels w) with
           | Some c => Ret c w
           | None => Fault
           end.
Definition deref_cc (cc : Z) : M ClientConnection :=
  fun w => match find_connection cc (connections w) with
           | Some k => Ret k w
           | None => Fault
           end.

(** Writing through them. *)
Definition update_ch (ch : Z) (f : LogicalChannel -> LogicalChannel) : M unit :=
  modify (fun w => set_channels (update_channel ch f (channels w)) w).
Definition update_cc (cc : Z) (f : ClientConnection -> ClientConnection) : M unit :=
  modify (fun w => set_connections (update_connection cc f (connections w)) w).

(** [l.erase(std::find(l.begin(), l.end(), x))]; [None] when [x] is not in
    [l], where the C++ code erases [end()]. *)
Fixpoint erase_first (x : Z) (l : list Z) : option (list Z) :=
  match l with
  | [] => None
  | y :: t => if y =? x then Some t
              else match erase_first x t with
                   | Some t' => Some (y :: t')
                   | None => None
                   end
  end.

(** ** The bus: SPI transfers *)

(** [transfer(len)] when the caller goes on to read [rx_buf]: the bytes the
    transfer stored there come from the script.  The callers ignore the
    return value of the ioctl. *)
Definition transfer (tx : list Z) (len : Z) : M (list Z) :=
  if (len <? 0) || (65536 <? len) then fault
  else r <- sys (c_spi tx len);;
       if zlen (sr_data r) =? len then ret (map u8 (sr_data r)) else stuck.

(** [transfer(len)] when the caller reads nothing back. *)
Definition transfer_ (tx : list Z) (len : Z) : M unit :=
  if (len <? 0) || (65536 <? len) then fault
  else sys_ (c_spi tx len).

Definition sram_header (cmd address : Z) : Z :=
  Z.lor (Z.shiftl cmd 20) (Z.land address 1048575).

Definition spi_read_mem (address len : Z) : M (list Z) :=
  let hdr := sram_header READ_SRAM_CMD address in
  transfer [u8 (Z.land (Z.shiftr hdr 16) 255); u8 (Z.land (Z.shiftr hdr 8) 255);
            u8 (Z.land hdr 255); 0]
           (len + 4).

Definition spi_write_mem (address : Z) (buf : list Z) (len : Z) : M unit :=
  let hdr := sram_header WRITE_SRAM_CMD address in
  transfer_ ([u8 (Z.land (Z.shiftr hdr 16) 255); u8 (Z.land (Z.shiftr hdr 8) 255);
              u8 (Z.land hdr 255)] ++ ztake len buf)
            (len + 3).

Definition spi_read_cmem (address : Z) : M Z :=
  rx <- transfer [u8 (Z.lor (Z.shiftl READ_CMEM_CMD 4) (Z.land address 15)); 0] 2;;
  ret (nth 1 rx 0).

Definition spi_write_cmem (address data : Z) : M unit :=
  transfer_ [u8 (Z.lor (Z.shiftl WRITE_CMEM_CMD 4) (Z.land address 15));
             u8 (Z.land data 15)] 2.

Definition spi_ack_irq : M Z := spi_read_cmem R_EVENTS_ADDRESS.

(** ** The listening socket *)

Definition init_server_socket : M Z :=
  r <- sys (c_socket AF_INET (Z.lor SOCK_STREAM SOCK_CLOEXEC) 0);;
  modify (set_server_socket (sr_ret r));;
  if sr_ret r =? -1 then ret (-1)
  else
    let address := mk_sockaddr_in AF_INET INADDR_ANY (htons 7110) in
    res <- sys (c_bind (sr_ret r) address);;
    if sr_ret res <? 0 then ret (-1)
    else sys_ (c_listen (sr_ret r) 16);; ret 0.

Definition shutdown_server_socket : M unit :=
  s <- gets server_socket;;
  when (negb (s =? -1)) (sys_ (c_close s));;
  modify (set_server_socket (-1)).

(** ** Starting the driver *)

(** The descriptor of the SPI device, [spi_fd], and that of the epoll
    instance, [epfd], are not part of the world: the calls that go to them
    ([c_spi], [c_epoll_add], [c_epoll_pwait]) do not name them.  Nor are
    [original_sigset], [gpio_exported] and [gpio_edge_set], which only
    [epoll_pwait] and [shutdown_driver] read. *)

Definition init_sigterm : M unit :=
  sys_ (c_sigprocmask SIG_BLOCK [SIGTERM]);;
  sys_ (c_sigaction SIGTERM).

Definition init_spi : M Z :=
  r <- sys (c_open (text "/dev/spidev0.0") (Z.lor O_RDWR O_CLOEXEC));;
  if sr_ret r <? 0 then ret (-1)
  else
    r1 <- sys (c_ioctl (sr_ret r) SPI_IOC_WR_MODE mode);;
    r2 <- sys (c_ioctl (sr_ret r) SPI_IOC_WR_BITS_PER_WORD bits);;
    r3 <- sys (c_ioctl (sr_ret r) SPI_IOC_WR_MAX_SPEED_HZ speed);;
    let res := Z.lor (Z.lor (sr_ret r1) (sr_ret r2)) (sr_ret r3) in
    if negb (res =? 0) then ret res else ret 0.

Definition open_write_close (filename : list Z) (txt : list Z) : M Z :=
  r <- sys (c_open filename O_WRONLY);;
  if sr_ret r =? -1 then ret (-1)
  else
    sys_ (c_write (sr_ret r) txt);;
    sys_ (c_close (sr_ret r));;
    ret 0.

Definition sleep_10ms : M unit := sys_ (c_nanosleep 0 10000000).

(** The name of a file of the GPIO of the interrupt:
    ["/sys/class/gpio/gpio" IRQ_GPIO "/direction"] and the like. *)
Definition gpio_file (name : list Z) : list Z :=
  text "/sys/class/gpio/gpio" ++ IRQ_GPIO ++ name.

(** [for (int retry = 0; retry < 100; retry++)] in [set_direction];
    [retries] are the turns that are left. *)
Fixpoint set_direction_loop (retries : nat) : M unit :=
  match retries with
  | O => ret tt
  | S retries' =>
    r <- sys (c_open (gpio_file (text "/direction")) O_WRONLY);;
    if negb (sr_ret r =? -1) then
      sys_ (c_write (sr_ret r) (text "in"));;
      sys_ (c_close (sr_ret r))
    else
      sleep_10ms;;
      set_direction_loop retries'
  end.

Definition set_direction : M unit := set_direction_loop 100.

Definition init_gpio : M Z :=
  r <- open_write_close (text "/sys/class/gpio/export") IRQ_GPIO;;
  if negb (r =? 0) then ret (-1)
  else
    set_direction;;
    r' <- open_write_close (gpio_file (text "/edge")) (text "both");;
    if r' =? -1 then ret (-1)
    else
      g <- sys (c_open (gpio_file (text "/value"))
                  (Z.lor O_RDONLY (Z.lor O_NONBLOCK O_CLOEXEC)));;
      modify (set_gpio_fd (sr_ret g));;
      if sr_ret g =? -1 then ret (-1) else ret 0.

Definition init_driver : M Z :=
  init_sigterm;;
  r <- init_server_socket;;
  if negb (r =? 0) then ret (-1)
  else
    r <- init_spi;;
    if negb (r =? 0) then ret (-1)
    else
      r <- init_gpio;;
      if negb (r =? 0) then ret (-1)
      else
        e <- sys (c_epoll_create1 EPOLL_CLOEXEC);;
        if sr_ret e =? -1 then ret (-1)
        else
          gfd <- gets gpio_fd;;
          a <- sys (c_epoll_add gfd (Z.lor EPOLLPRI EPOLLERR));;
          if negb (sr_ret a =? 0) then ret (-1)
          else
            ss <- gets server_socket;;
            b <- sys (c_epoll_add ss EPOLLIN);;
            if negb (sr_ret b =? 0) then ret (-1) else ret 0.

(** ** Messages to clients *)

Definition encode_header (len sid ty : Z) : list Z :=
  le32 (u32 len) ++ le32 (u32 sid) ++ [u8 ty].

Definition push_message (cc : Z) (mb : MessageBuffer) : M unit :=
  update_cc cc (fun k => set_message_queue (message_queue k ++ [mb]) k).

(** The [while (1)] loop of [create_and_send_msg].  Every turn makes one
    [write]; [fuel] bounds the turns by the length of the script. *)
Fixpoint send_loop (fuel : nat) (cc : Z) (mb : MessageBuffer) : M unit :=
  match fuel with
  | O => stuck
  | S fuel' =>
    let left := zlen (mb_data mb) - mb_pos mb in
    let src := zdrop (mb_pos mb) (mb_data mb) in
    k <- deref_cc cc;;
    r <- sys (c_write (fd k) src);;
    if sr_ret r =? -1 then
      if (sr_errno r =? EAGAIN) || (sr_errno r =? EWOULDBLOCK) then
        push_message cc mb
      else if sr_errno r =? ECONNRESET then
        (* Do not close connection here; it will get done at some other place. *)
        ret tt
      else exit (-1)
    else if (1 <=? sr_ret r) && (sr_ret r <=? left) then
      let mb' := mkMessageBuffer (mb_pos mb + sr_ret r) (mb_data mb) in
      if sr_ret r =? left then ret tt else send_loop fuel' cc mb'
    else stuck
  end.

Definition create_and_send_msg (cc ty sid : Z) (data : Ptr) (len : Z) : M unit :=
  if len <? 0 then fault
  else
    body <- resize_and_copy data len;;
    log (ev_msg cc (u8 ty) (u32 sid) body);;
    let mb := mkMessageBuffer 0 (encode_header len sid ty ++ body) in
    k <- deref_cc cc;;
    match message_queue k with
    | _ :: _ => push_message cc mb
    | [] => fueled script_length (fun fuel => send_loop fuel cc mb)
    end.

(** ** The send queue *)

Definition remove_association (ch : Z) : M unit :=
  c <- deref_ch ch;;
  match association c with
  | None => fault
  | Some cc =>
    k <- deref_cc cc;;
    match erase_first ch (associations k) with
    | None => fault
    | Some ass =>
      update_cc cc (set_associations ass);;
      update_ch ch (fun c => set_stream_id 0 (set_association None c))
    end
  end.

Definition clear_packet_queue (ch : Z) : M unit :=
  c <- deref_ch ch;;
  match packet_queue c with
  | [] => ret tt
  | _ :: _ =>
    update_ch ch (set_packet_queue []);;
    sq <- gets send_queue;;
    match erase_first ch sq with
    | None => fault
    | Some sq' => modify (set_send_queue sq')
    end
  end.

(** The parameters [type] and [length] are [uint8_t]: the arguments are
    converted at the call. *)
Definition create_and_enqueue_packet (ch ty : Z) (data : Ptr) (len : Z) : M unit :=
  let ty := u8 ty in
  let len := u8 len in
  c <- deref_ch ch;;
  (match packet_queue c with
   | [] => modify (fun w => set_send_queue (send_queue w ++ [ch]) w)
   | _ :: _ => ret tt
   end);;
  bytes <- resize_and_copy data len;;
  update_ch ch (fun c => set_packet_queue (packet_queue c ++ [mkPacketBuffer ty bytes]) c).

(** ** Messages from clients *)

Definition handle_msg_register_req (cc : Z) : M unit :=
  k <- deref_cc cc;;
  let name := payload k in
  srvs <- gets services;;
  match find (fun s => bytes_eqb (srv_name s) name) srvs with
  | Some _ =>
    create_and_send_msg cc MSG_REGISTER_RES 0 (ptr [MSG_FAIL]) 1
  | None =>
    modify (set_services (srvs ++ [mkRegisteredService name cc]));;
    create_and_send_msg cc MSG_REGISTER_RES 0 (ptr [MSG_SUCCESS]) 1
  end.

(** The first service of that name and owner is erased. *)
Fixpoint erase_service (name : list Z) (cc : Z) (l : list RegisteredService)
  : option (list RegisteredService) :=
  match l with
  | [] => None
  | s :: t => if bytes_eqb (srv_name s) name && (srv_cc s =? cc) then Some t
              else match erase_service name cc t with
                   | Some t' => Some (s :: t')
                   | None => None
                   end
  end.

Definition handle_msg_deregister_req (cc : Z) : M unit :=
  k <- deref_cc cc;;
  let name := payload k in
  srvs <- gets services;;
  match erase_service name cc srvs with
  | Some srvs' =>
    modify (set_services srvs');;
    create_and_send_msg cc MSG_DEREGISTER_RES 0 (ptr [MSG_SUCCESS]) 1
  | None =>
    create_and_send_msg cc MSG_DEREGISTER_RES 0 (ptr [MSG_FAIL]) 1
  end.

Definition handle_msg_read_mem_req (cc : Z) : M unit :=
  k <- deref_cc cc;;
  if zlen (payload k) <? 8 then fault
  else
    let address := of_le32 (ztake 4 (payload k)) in
    let len := of_le32 (ztake 4 (zdrop 4 (payload k))) in
    rx <- spi_read_mem address len;;
    create_and_send_msg cc MSG_READ_MEM_RES 0 (ptr (zdrop READ_SRAM_HDR_LEN rx)) len.

Definition handle_msg_write_mem_req (cc : Z) : M unit :=
  k <- deref_cc cc;;
  if zlen (payload k) <? 4 then fault
  else
    let address := of_le32 (ztake 4 (payload k)) in
    let len := zlen (payload k) - 4 in
    spi_write_mem address (zdrop 4 (payload k)) len;;
    create_and_send_msg cc MSG_WRITE_MEM_RES 0 nullptr 0.

(** The loop over [cc->associations]; every pointer in the list is read. *)
Fixpoint first_with_stream_id (sid : Z) (ass : list Z) : M (option Z) :=
  match ass with
  | [] => ret None
  | ch :: rest =>
    c <- deref_ch ch;;
    if stream_id c =? sid then ret (Some ch) else first_with_stream_id sid rest
  end.

(** The parameter [stream_id] is an [int]. *)
Definition get_associated_channel_by_stream_id (cc sid : Z) : M (option Z) :=
  k <- deref_cc cc;;
  first_with_stream_id (to_int sid) (associations k).

Definition handle_msg_connect (cc : Z) : M unit :=
  (* We currently don't handle that a client tries to connect to a service on the Amiga. *)
  ret tt.

Definition handle_msg_connect_response (cc : Z) : M unit :=
  k <- deref_cc cc;;
  och <- get_associated_channel_by_stream_id cc (mh_stream_id (header k));;
  match och with
  | None => ret tt
  | Some ch =>
    create_and_enqueue_packet ch PKT_CONNECT_RESPONSE (ptr (payload k)) (zlen (payload k));;
    match payload k with
    | [] => fault
    | b :: _ => when (negb (b =? CONNECT_OK)) (remove_association ch)
    end
  end.

Definition handle_msg_data (cc : Z) : M unit :=
  k <- deref_cc cc;;
  och <- get_associated_channel_by_stream_id cc (mh_stream_id (header k));;
  match och with
  | None => ret tt
  | Some ch =>
    create_and_enqueue_packet ch PKT_DATA (ptr (payload k)) (mh_length (header k))
  end.

Definition handle_msg_eos (cc : Z) : M unit :=
  k <- deref_cc cc;;
  och <- get_associated_channel_by_stream_id cc (mh_stream_id (header k));;
  match och with
  | None => ret tt
  | Some ch =>
    c <- deref_ch ch;;
    if got_eos_from_client c then ret tt
    else
      update_ch ch (set_got_eos_from_client true);;
      create_and_enqueue_packet ch PKT_EOS nullptr 0;;
      when (got_eos_from_ami c) (remove_association ch)
  end.

Definition handle_msg_reset (cc : Z) : M unit :=
  k <- deref_cc cc;;
  och <- get_associated_channel_by_stream_id cc (mh_stream_id (header k));;
  match och with
  | None => ret tt
  | Some ch =>
    remove_association ch;;
    clear_packet_queue ch;;
    create_and_enqueue_packet ch PKT_RESET nullptr 0
  end.

Definition handle_received_message (cc : Z) : M unit :=
  k <- deref_cc cc;;
  let ty := mh_type (header k) in
  if ty =? MSG_REGISTER_REQ then handle_msg_register_req cc
  else if ty =? MSG_DEREGISTER_REQ then handle_msg_deregister_req cc
  else if ty =? MSG_READ_MEM_REQ then handle_msg_read_mem_req cc
  else if ty =? MSG_WRITE_MEM_REQ then handle_msg_write_mem_req cc
  else if ty =? MSG_CONNECT then handle_msg_connect cc
  else if ty =? MSG_CONNECT_RESPONSE then handle_msg_connect_response cc
  else if ty =? MSG_DATA then handle_msg_data cc
  else if ty =? MSG_EOS then handle_msg_eos cc
  else if ty =? MSG_RESET then handle_msg_reset cc
  else (* This is bad, probably should disconnect from client. *) ret tt.

(** The loop of [close_and_remove_connection] over [cc->associations]. *)
Fixpoint reset_associations (cc : Z) (ass : list Z) : M unit :=
  match ass with
  | [] => ret tt
  | ch :: rest =>
    clear_packet_queue ch;;
    create_and_enqueue_packet ch PKT_RESET nullptr 0;;
    update_ch ch (fun c => set_stream_id 0 (set_association None c));;
    update_cc cc (set_associations rest);;
    reset_associations cc rest
  end.

(** [connections.erase(it)] for the first record at the address [cc]. *)
Fixpoint erase_connection (cc : Z) (l : list ClientConnection) : list ClientConnection :=
  match l with
  | [] => []
  | k :: t => if fd k =? cc then t else k :: erase_connection cc t
  end.

Definition close_and_remove_connection (cc : Z) : M unit :=
  k <- deref_cc cc;;
  sys_ (c_shutdown (fd k) SHUT_WR);;
  sys_ (c_close (fd k));;
  modify (fun w => set_services (filter (fun s => negb (srv_cc s =? cc)) (services w)) w);;
  reset_associations cc (associations k);;
  modify (fun w => set_connections (erase_connection cc (connections w)) w).

(** ** Packets from the Amiga *)

Definition new_connection (f : Z) : ClientConnection :=
  mkClientConnection f 1 0 (mkMessageHeader 0 0 0) [] [] [].

(** [connections.emplace_back()] for a descriptor the kernel just handed out;
    the kernel hands out no descriptor that is still open. *)
Definition add_connection (f : Z) : M unit :=
  conns <- gets connections;;
  if existsb (fun k => fd k =? f) conns then stuck
  else modify (set_connections (conns ++ [new_connection f])).

(** [ch.association = cc; ch.stream_id = cc->next_stream_id;
     cc->next_stream_id += 2; cc->associations.push_back(&ch);] *)
Definition associate (ch cc : Z) : M Z :=
  k <- deref_cc cc;;
  update_ch ch (fun c => set_stream_id (next_stream_id k) (set_association (Some cc) c));;
  if INT_MAX <? next_stream_id k + 2 then fault
  else
    update_cc cc (fun k => set_associations (associations k ++ [ch])
                             (set_next_stream_id (next_stream_id k + 2) k));;
    ret (next_stream_id k).

(** [std::to_string(fd)]: the decimal digits of an [int]. *)
Fixpoint digits (d : Decimal.uint) : list Z :=
  match d with
  | Decimal.Nil => []
  | Decimal.D0 d' => 48 :: digits d'
  | Decimal.D1 d' => 49 :: digits d'
  | Decimal.D2 d' => 50 :: digits d'
  | Decimal.D3 d' => 51 :: digits d'
  | Decimal.D4 d' => 52 :: digits d'
  | Decimal.D5 d' => 53 :: digits d'
  | Decimal.D6 d' => 54 :: digits d'
  | Decimal.D7 d' => 55 :: digits d'
  | Decimal.D8 d' => 56 :: digits d'
  | Decimal.D9 d' => 57 :: digits d'
  end.
Definition to_string (x : Z) : list Z :=
  match Z.to_int x with
  | Decimal.Pos d => digits d
  | Decimal.Neg d => 45 :: digits d
  end.

Definition ondemand_flag : list Z := text "-ondemand".

(** The body of the loop over [on_demand_services] in [handle_pkt_connect]
    for an entry whose name is the one asked for; [next] is what follows this
    turn of the loop.
    - The parent returns from [handle_pkt_connect]: the program of the
      on-demand service was started, its socket becomes a client that owns the
      service [name], and the channel is associated with it.
    - The child closes its copy of the parent's socket and calls [execvp],
      which returns only when it fails; nothing ends the child then, and it
      goes on with the loop as a copy of the daemon.  When [execvp] succeeds
      the process runs the program and no code of the daemon any more: the
      script has no entry for a result of [execvp] other than -1. *)
Definition start_on_demand (on_demand : OnDemandStart) (cid : Z) (name : list Z)
  (data : Ptr) (plen : Z) (next : M unit) : M unit :=
  sp <- sys c_socketpair;;
  if negb (sr_ret sp =? 0) then exit (-1)
  else
    let fds0 := nth 0 (sr_data sp) 0 in
    let fds1 := nth 1 (sr_data sp) 0 in
    child <- sys (c_fork name);;
    if sr_ret child =? -1 then exit (-1)
    else if sr_ret child =? 0 then
      sys_ (c_close fds0);;
      r <- sys (c_execvp (program on_demand)
                  (arguments on_demand ++ [ondemand_flag; to_string fds1]));;
      if sr_ret r =? -1 then next else stuck
    else
      sys_ (c_close fds1);;
      st1 <- sys (c_fcntl_cloexec fds0);;
      if sr_ret st1 =? -1 then exit (-1)
      else
        st2 <- sys (c_fcntl_nonblock fds0);;
        if sr_ret st2 =? -1 then exit (-1)
        else
          sys_ (c_setsockopt_nodelay fds0);;
          add_connection fds0;;
          st3 <- sys (c_epoll_add fds0 (Z.lor EPOLLIN (Z.lor EPOLLOUT EPOLLET)));;
          if negb (sr_ret st3 =? 0) then exit (-1)
          else
            modify (fun w => set_services
                      (services w ++ [mkRegisteredService name fds0]) w);;
            sid <- associate cid fds0;;
            create_and_send_msg fds0 MSG_CONNECT sid data plen.

(** [for (auto &on_demand : on_demand_services)] and what follows the loop
    in [handle_pkt_connect]: the answer CONNECT_UNKNOWN_SERVICE, which is
    reached when the loop ends without a [return]. *)
Fixpoint on_demand_loop (ods : list OnDemandStart) (cid : Z) (name : list Z)
  (data : Ptr) (plen : Z) : M unit :=
  match ods with
  | [] =>
    create_and_enqueue_packet cid PKT_CONNECT_RESPONSE
      (ptr [CONNECT_UNKNOWN_SERVICE]) 1
  | on_demand :: rest =>
    if bytes_eqb (service_name on_demand) name
    then start_on_demand on_demand cid name data plen
           (on_demand_loop rest cid name data plen)
    else on_demand_loop rest cid name data plen
  end.

Definition handle_pkt_connect (cid : Z) (data : Ptr) (plen : Z) : M unit :=
  chs <- gets channels;;
  if existsb (fun c => channel_id c =? cid) chs then
    (* Received a CONNECT packet on a channel that was believed to be
       previously allocated *)
    exit (-1)
  else
    modify (set_channels (chs ++ [mkLogicalChannel cid None 0 false false []]));;
    name <- read_bytes data plen;;
    srvs <- gets services;;
    match find (fun s => bytes_eqb (srv_name s) name) srvs with
    | Some srv =>
      sid <- associate cid (srv_cc srv);;
      create_and_send_msg (srv_cc srv) MSG_CONNECT sid data plen
    | None =>
      ods <- gets on_demand_services;;
      on_demand_loop ods cid name data plen
    end.

Definition handle_pkt_data (cid : Z) (data : Ptr) (plen : Z) : M unit :=
  chs <- gets channels;;
  match find_channel cid chs with
  | None => ret tt
  | Some ch =>
    match association ch with
    | Some cc =>
      if negb (got_eos_from_ami ch) then
        create_and_send_msg cc MSG_DATA (stream_id ch) data plen
      else ret tt
    | None => ret tt
    end
  end.

Definition handle_pkt_eos (cid : Z) : M unit :=
  chs <- gets channels;;
  match find_channel cid chs with
  | None => ret tt
  | Some ch =>
    match association ch with
    | Some cc =>
      if negb (got_eos_from_ami ch) then
        update_ch cid (set_got_eos_from_ami true);;
        create_and_send_msg cc MSG_EOS (stream_id ch) nullptr 0;;
        when (got_eos_from_client ch) (remove_association cid)
      else ret tt
    | None => ret tt
    end
  end.

Definition handle_pkt_reset (cid : Z) : M unit :=
  chs <- gets channels;;
  match find_channel cid chs with
  | None => ret tt
  | Some ch =>
    clear_packet_queue cid;;
    match association ch with
    | Some cc =>
      create_and_send_msg cc MSG_RESET (stream_id ch) nullptr 0;;
      remove_association cid
    | None => ret tt
    end
  end.

(** [channels.erase(it)] for the first record with that [channel_id]. *)
Fixpoint erase_channel (cid : Z) (l : list LogicalChannel) : list LogicalChannel :=
  match l with
  | [] => []
  | c :: t => if channel_id c =? cid then t else c :: erase_channel cid t
  end.

Definition remove_channel_if_not_associated_and_empty_pq (cid : Z) : M unit :=
  chs <- gets channels;;
  match find_channel cid chs with
  | None => ret tt
  | Some it =>
    match association it, packet_queue it with
    | None, [] => log (ev_erase it);; modify (set_channels (erase_channel cid chs))
    | _, _ => ret tt
    end
  end.

Definition handle_received_pkt (ptype cid : Z) (data : Ptr) (plen : Z) : M unit :=
  (if ptype =? PKT_CONNECT then handle_pkt_connect cid data plen
   else if ptype =? PKT_DATA then handle_pkt_data cid data plen
   else if ptype =? PKT_EOS then handle_pkt_eos cid
   else if ptype =? PKT_RESET then handle_pkt_reset cid
   else ret tt);;
  remove_channel_if_not_associated_and_empty_pq cid.

(** ** The rings *)

(** [memcpy(&buf[off], bytes, n)]. *)
Definition splice (off : Z) (bytes : list Z) (buf : list Z) : list Z :=
  ztake off buf ++ bytes ++ zdrop (off + zlen bytes) buf.

(** The [while (p < recv_buf + len)] loop of [receive_from_a2r]; [p] is the
    offset of the pointer into [recv_buf], an array of 256 bytes. *)
Fixpoint parse_loop (fuel : nat) (p len : Z) : M unit :=
  if p <? len then
    match fuel with
    | O => stuck
    | S fuel' =>
      buf <- gets recv_buf;;
      if 255 <? p + 2 then fault
      else
        let plen := u8 (nth (Z.to_nat p) buf 0) in
        let ptype := u8 (nth (Z.to_nat (p + 1)) buf 0) in
        let cid := u8 (nth (Z.to_nat (p + 2)) buf 0) in
        handle_received_pkt ptype cid (ptr (zdrop (p + 3) buf)) plen;;
        parse_loop fuel' (p + 3 + plen) len
    end
  else ret tt.

Definition receive_from_a2r : M bool :=
  cs <- gets channel_status;;
  let head := cs_get A2R_HEAD_OFFSET cs in
  let tail := cs_get A2R_TAIL_OFFSET cs in
  let len := Z.land (tail - head) 255 in
  if len =? 0 then ret false
  else
    base <- gets base_address;;
    (if head <? tail then
       rx <- spi_read_mem (base + 4 + head) (tail - head);;
       modify (fun w => set_recv_buf
                 (splice 0 (ztake len (zdrop READ_SRAM_HDR_LEN rx)) (recv_buf w)) w)
     else
       rx <- spi_read_mem (base + 4 + head) (256 - head);;
       modify (fun w => set_recv_buf
                 (splice 0 (ztake (256 - head) (zdrop READ_SRAM_HDR_LEN rx)) (recv_buf w)) w);;
       if negb (tail =? 0) then
         rx2 <- spi_read_mem (base + 4) tail;;
         modify (fun w => set_recv_buf
                   (splice (len - tail) (ztake tail (zdrop READ_SRAM_HDR_LEN rx2))
                      (recv_buf w)) w)
       else ret tt);;
    parse_loop (Z.to_nat len) 0 len;;
    modify (fun w => set_channel_status
              (cs_set A2R_HEAD_OFFSET (cs_get A2R_TAIL_OFFSET (channel_status w))
                 (channel_status w)) w);;
    modify (fun w => set_channel_status_updated
              (u8 (Z.lor (channel_status_updated w) A_EVENT_A2R_HEAD)) w);;
    ret true.

(** The bytes of a packet in the ring. *)
Definition frame (cid : Z) (pb : PacketBuffer) : list Z :=
  [u8 (zlen (pb_data pb)); u8 (pb_type pb); u8 cid] ++ pb_data pb.

(** The [while (!send_queue.empty())] loop of [flush_send_queue].  [buf] is
    [send_buf[0..pos)].  A turn that does not break takes at least 3 from
    [left], so [left] turns are enough. *)
Fixpoint flush_loop (fuel : nat) (left pos : Z) (buf : list Z) : M (Z * list Z) :=
  sq <- gets send_queue;;
  match sq with
  | [] => ret (pos, buf)
  | ch :: sq_rest =>
    c <- deref_ch ch;;
    match packet_queue c with
    | [] => fault
    | pb :: pq_rest =>
      let plen := 3 + zlen (pb_data pb) in
      if left <? plen then ret (pos, buf)
      else
        match fuel with
        | O => stuck
        | S fuel' =>
          update_ch ch (set_packet_queue pq_rest);;
          modify (set_send_queue sq_rest);;
          (match pq_rest with
           | _ :: _ => modify (fun w => set_send_queue (send_queue w ++ [ch]) w)
           | [] => remove_channel_if_not_associated_and_empty_pq (channel_id c)
           end);;
          flush_loop fuel' (left - plen) (pos + plen) (buf ++ frame (channel_id c) pb)
        end
    end
  end.

Definition flush_send_queue : M bool :=
  cs <- gets channel_status;;
  let tail := cs_get R2A_TAIL_OFFSET cs in
  let head := cs_get R2A_HEAD_OFFSET cs in
  let len := Z.land (tail - head) 255 in
  let left := 255 - len in
  r <- flush_loop (Z.to_nat left) left 0 [];;
  let to_write := fst r in
  let send_buf := snd r in
  if to_write =? 0 then ret false
  else
    base <- gets base_address;;
    let at_end := 256 - tail in
    r2 <- (if at_end <? to_write then
             spi_write_mem (base + 260 + tail) send_buf at_end;;
             ret (zdrop at_end send_buf, to_write - at_end, 0)
           else ret (send_buf, to_write, tail));;
    let p := fst (fst r2) in
    let to_write := snd (fst r2) in
    let tail := snd r2 in
    spi_write_mem (base + 260 + tail) p to_write;;
    let tail := Z.land (tail + to_write) 255 in
    modify (fun w => set_channel_status
              (cs_set R2A_TAIL_OFFSET tail (channel_status w)) w);;
    modify (fun w => set_channel_status_updated
              (u8 (Z.lor (channel_status_updated w) A_EVENT_R2A_TAIL)) w);;
    ret true.

(** ** The communication area *)

(** [for (i = ...; i < 5; i++) ba |= spi_read_cmem(i) << (i * 4);] *)
Fixpoint read_nibbles (addrs : list Z) (ba : Z) : M Z :=
  match addrs with
  | [] => ret ba
  | i :: rest =>
    v <- spi_read_cmem i;;
    read_nibbles rest (u32 (Z.lor ba (Z.shiftl v (i * 4))))
  end.

Definition read_base_address : M unit :=
  modify (set_have_base_address false);;
  ba1 <- read_nibbles [0; 1; 2; 3; 4] 0;;
  if Z.land ba1 1 =? 1 then
    ba2 <- read_nibbles [0; 1; 2; 3; 4] 0;;
    if ba1 =? ba2 then
      modify (set_have_base_address true);;
      modify (set_base_address (Z.land ba1 (Z.lnot 1)))
    else ret tt
  else ret tt.

Definition read_channel_status : M unit :=
  base <- gets base_address;;
  rx <- spi_read_mem base 4;;
  modify (set_channel_status
            (mkChannelStatus (nth 4 rx 0) (nth 5 rx 0) (nth 6 rx 0) (nth 7 rx 0)));;
  modify (set_channel_status_updated 0).

Definition write_channel_status : M unit :=
  upd <- gets channel_status_updated;;
  if negb (upd =? 0) then
    base <- gets base_address;;
    cs <- gets channel_status;;
    spi_write_mem (base + 2) [cs_get R2A_TAIL_OFFSET cs; cs_get A2R_HEAD_OFFSET cs] 2;;
    spi_write_cmem A_EVENTS_ADDRESS upd;;
    modify (set_channel_status_updated 0)
  else ret tt.

(** The loop of [close_all_logical_channels]: the iterator is always at the
    front of [channels]. *)
Fixpoint close_loop (fuel : nat) : M unit :=
  chs <- gets channels;;
  match chs with
  | [] => ret tt
  | ch :: _ =>
    match fuel with
    | O => stuck
    | S fuel' =>
      (match association ch with
       | Some cc =>
         create_and_send_msg cc MSG_RESET (stream_id ch) nullptr 0;;
         remove_association (channel_id ch)
       | None => ret tt
       end);;
      chs' <- gets channels;;
      match chs' with
      | [] => fault
      | it :: rest => log (ev_erase it);; modify (set_channels rest)
      end;;
      close_loop fuel'
    end
  end.

Definition close_all_logical_channels : M unit :=
  modify (set_send_queue []);;
  fueled (fun w => List.length (channels w)) close_loop.

Definition handle_a314_irq : M unit :=
  events <- spi_ack_irq;;
  if events =? 0 then ret tt
  else
    hba <- gets have_base_address;;
    (if negb (Z.land events R_EVENT_BASE_ADDRESS =? 0) || negb hba then
       close_all_logical_channels;;
       read_base_address
     else ret tt);;
    hba' <- gets have_base_address;;
    if negb hba' then ret tt
    else
      read_channel_status;;
      any_rcvd <- receive_from_a2r;;
      any_sent <- flush_send_queue;;
      when (any_rcvd || any_sent) write_channel_status.

(** ** Client sockets *)

(** The bytes of [h] with [bytes] stored at offset [off], read back as a
    header: [read(fd, (uint8_t * )&cc->header + off, ...)]. *)
Definition write_header_bytes (off : Z) (bytes : list Z) (h : MessageHeader)
  : MessageHeader :=
  let raw := splice off bytes
               (le32 (mh_length h) ++ le32 (mh_stream_id h) ++ [mh_type h]) in
  mkMessageHeader (of_le32 (ztake 4 raw)) (of_le32 (ztake 4 (zdrop 4 raw)))
    (u8 (nth 8 raw 0)).

(** The read loop of [handle_client_connection_event]; the result says
    whether the handler returned from inside the loop.  A payload of 2 GiB or
    more, for which [left] is negative, is outside the model. *)
Fixpoint read_loop (fuel : nat) (cc : Z) : M bool :=
  match fuel with
  | O => stuck
  | S fuel' =>
    k <- deref_cc cc;;
    let left := match payload k with
                | [] => sizeof_MessageHeader - bytes_read k
                | _ :: _ => to_int (mh_length (header k) - bytes_read k)
                end in
    r <- sys (c_read (fd k) left);;
    if sr_ret r =? -1 then
      if (sr_errno r =? EAGAIN) || (sr_errno r =? EWOULDBLOCK) then ret false
      else exit (-1)
    else if sr_ret r =? 0 then
      close_and_remove_connection cc;;
      ret true
    else if (1 <=? sr_ret r) && (sr_ret r <=? left) && (zlen (sr_data r) =? sr_ret r) then
      let bytes := map u8 (sr_data r) in
      update_cc cc (fun k =>
        set_bytes_read (bytes_read k + sr_ret r)
          match payload k with
          | [] => set_header (write_header_bytes (bytes_read k) bytes (header k)) k
          | _ :: _ => set_payload (splice (bytes_read k) bytes (payload k)) k
          end);;
      (if left - sr_ret r =? 0 then
         (match payload k with
          | [] =>
            k' <- deref_cc cc;;
            if mh_length (header k') =? 0 then handle_received_message cc
            else update_cc cc (set_payload (zeros (mh_length (header k'))))
          | _ :: _ =>
            handle_received_message cc;;
            update_cc cc (set_payload [])
          end);;
         update_cc cc (set_bytes_read 0)
       else ret tt);;
      read_loop fuel' cc
    else stuck
  end.

(** The write loop of [handle_client_connection_event] (EPOLLOUT). *)
Fixpoint drain_loop (fuel : nat) (cc : Z) : M unit :=
  k <- deref_cc cc;;
  match message_queue k with
  | [] => ret tt
  | mb :: rest =>
    match fuel with
    | O => stuck
    | S fuel' =>
      let left := zlen (mb_data mb) - mb_pos mb in
      r <- sys (c_write (fd k) (zdrop (mb_pos mb) (mb_data mb)));;
      if sr_ret r =? -1 then
        if (sr_errno r =? EAGAIN) || (sr_errno r =? EWOULDBLOCK) then ret tt
        else if sr_errno r =? ECONNRESET then close_and_remove_connection cc
        else exit (-1)
      else if (1 <=? sr_ret r) && (sr_ret r <=? left) then
        update_cc cc (set_message_queue
          (if sr_ret r =? left then rest
           else mkMessageBuffer (mb_pos mb + sr_ret r) (mb_data mb) :: rest));;
        drain_loop fuel' cc
      else stuck
    end
  end.

Definition handle_client_connection_event (cc events : Z) : M unit :=
  if negb (Z.land events EPOLLERR =? 0) then close_and_remove_connection cc
  else
    returned <- (if negb (Z.land events EPOLLIN =? 0)
                 then fueled script_length (fun fuel => read_loop fuel cc)
                 else ret false);;
    if (returned : bool) then ret tt
    else if negb (Z.land events EPOLLOUT =? 0)
         then fueled script_length (fun fuel => drain_loop fuel cc)
         else ret tt.

Definition handle_server_socket_ready : M unit :=
  ss <- gets server_socket;;
  a <- sys (c_accept ss);;
  if sr_ret a <? 0 then exit (-1)
  else
    st1 <- sys (c_fcntl_cloexec (sr_ret a));;
    if sr_ret st1 =? -1 then exit (-1)
    else
      st2 <- sys (c_fcntl_nonblock (sr_ret a));;
      if sr_ret st2 =? -1 then exit (-1)
      else
        sys_ (c_setsockopt_nodelay (sr_ret a));;
        add_connection (sr_ret a);;
        st3 <- sys (c_epoll_add (sr_ret a) (Z.lor EPOLLIN (Z.lor EPOLLOUT EPOLLET)));;
        if negb (sr_ret st3 =? 0) then exit (-1) else ret tt.

(** ** The main loop *)

Record LoopState := mkLoopState {
  first_gpio_event : bool;
  shutting_down : bool;
  done : bool
}.

(** [while (!connections.empty()) close_and_remove_connection(&connections.front());] *)
Fixpoint close_all_connections (fuel : nat) : M unit :=
  conns <- gets connections;;
  match conns with
  | [] => ret tt
  | k :: _ =>
    match fuel with
    | O => stuck
    | S fuel' => close_and_remove_connection (fd k);; close_all_connections fuel'
    end
  end.

(** One turn of the [while (!done)] loop of [main_loop]. *)
Definition main_loop_body (st : LoopState) : M LoopState :=
  r <- sys (c_epoll_pwait (if shutting_down st then 10000 else -1));;
  if sr_ret r =? -1 then
    if sr_errno r =? EINTR then
      shutdown_server_socket;;
      fueled (fun w => List.length (connections w)) close_all_connections;;
      sent <- flush_send_queue;;
      when sent write_channel_status;;
      chs <- gets channels;;
      match chs with
      | _ :: _ => ret (mkLoopState (first_gpio_event st) true (done st))
      | [] => ret (mkLoopState (first_gpio_event st) (shutting_down st) true)
      end
    else exit (-1)
  else if sr_ret r =? 0 then
    if shutting_down st
    then ret (mkLoopState (first_gpio_event st) (shutting_down st) true)
    else exit (-1)
  else
    let ev_fd := nth 0 (sr_data r) 0 in
    let ev_events := nth 1 (sr_data r) 0 in
    gfd <- gets gpio_fd;;
    ss <- gets server_socket;;
    if ev_fd =? gfd then
      rd <- sys c_gpio_read;;
      if negb (sr_ret rd =? 1) then exit (-1)
      else if first_gpio_event st
      then ret (mkLoopState false (shutting_down st) (done st))
      else
        handle_a314_irq;;
        chs <- gets channels;;
        match chs with
        | [] => if shutting_down st
                then ret (mkLoopState (first_gpio_event st) (shutting_down st) true)
                else ret st
        | _ :: _ => ret st
        end
    else if ev_fd =? ss then
      handle_server_socket_ready;;
      ret st
    else
      conns <- gets connections;;
      match find_connection ev_fd conns with
      | None => exit (-1)
      | Some k =>
        handle_client_connection_event (fd k) ev_events;;
        sent <- flush_send_queue;;
        when sent write_channel_status;;
        ret st
      end.

(** [main_loop]: the pending work is pumped once, then the loop turns until
    [done]; every turn takes a result of [epoll_pwait] from the script. *)
Fixpoint main_loop_turns (fuel : nat) (st : LoopState) : M unit :=
  if done st then ret tt
  else match fuel with
       | O => stuck
       | S fuel' => st' <- main_loop_body st;; main_loop_turns fuel' st'
       end.

Definition main_loop : M unit :=
  handle_a314_irq;;
  fueled script_length (fun fuel => main_loop_turns fuel (mkLoopState true false false)).

(** * Reasoning about daemon code *)

(** [hoare P m Q]: when [m] runs in a world satisfying [P] and returns, the
    result and the world it leaves satisfy [Q]. *)
Definition hoare {A} (P : World -> Prop) (m : M A) (Q : A -> World -> Prop) : Prop :=
  forall w a w', m w = Ret a w' -> P w -> Q a w'.

Definition preserves {A} (P : World -> Prop) (m : M A) : Prop :=
  hoare P m (fun _ => P).

Lemma bind_inv {A B} (m : M A) (k : A -> M B) w b w' :
  bind m k w = Ret b w' ->
  exists a w1, m w = Ret a w1 /\ k a w1 = Ret b w'.
Proof.
  unfold bind. destruct (m w) as [a w1| | |]; try discriminate.
  intros H. exists a, w1. split; [reflexivity | exact H].
Qed.

Lemma bind_ret_eq {A B} (m : M A) (k : A -> M B) w a w1 :
  m w = Ret a w1 -> bind m k w = k a w1.
Proof. unfold bind. intros ->. reflexivity. Qed.

Lemma hoare_bind {A B} P (m : M A) Q (k : A -> M B) R :
  hoare P m Q -> (forall a, hoare (Q a) (k a) R) -> hoare P (bind m k) R.
Proof.
  intros Hm Hk w b w' H HP.
  apply bind_inv in H. destruct H as (a & w1 & H1 & H2).
  eapply Hk; [exact H2 |]. eapply Hm; eauto.
Qed.

Lemma hoare_conseq {A} (P P' : World -> Prop) (m : M A) (Q Q' : A -> World -> Prop) :
  hoare P' m Q' -> (forall w, P w -> P' w) -> (forall a w, Q' a w -> Q a w) ->
  hoare P m Q.
Proof. intros H HP HQ w a w' E Hw. apply HQ. eapply H; eauto. Qed.

Lemma preserves_bind {A B} P (m : M A) (k : A -> M B) :
  preserves P m -> (forall a, preserves P (k a)) -> preserves P (bind m k).
Proof. intros Hm Hk. eapply hoare_bind; [exact Hm | exact Hk]. Qed.

Lemma preserves_ret {A} P (a : A) : preserves P (ret a).
Proof. intros w b w' H HP. inversion H; subst; exact HP. Qed.

Lemma preserves_gets {A} P (f : World -> A) : preserves P (gets f).
Proof. intros w b w' H HP. inversion H; subst; exact HP. Qed.

Lemma preserves_exit {A} P c : preserves P (@exit A c).
Proof. intros w b w' H; discriminate. Qed.

Lemma preserves_fault {A} P : preserves P (@fault A).
Proof. intros w b w' H; discriminate. Qed.

Lemma preserves_stuck {A} P : preserves P (@stuck A).
Proof. intros w b w' H; discriminate. Qed.

Lemma preserves_when P b m : preserves P m -> preserves P (when b m).
Proof. intros H. destruct b; [exact H | apply preserves_ret]. Qed.

Lemma preserves_fueled {A} P (f : nat -> M A) (g : World -> nat) :
  (forall n, preserves P (f n)) -> preserves P (fueled g f).
Proof. intros H w a w' E HP. eapply H; eauto. Qed.

Lemma preserves_and {A} (P Q : World -> Prop) (m : M A) :
  preserves P m -> preserves Q m -> preserves (fun w => P w /\ Q w) m.
Proof.
  intros HP HQ w a w' E [H1 H2]. split; [eapply HP | eapply HQ]; eauto.
Qed.

(** ** Code that leaves the multiplexer's tables alone *)

(** The part of the world the invariants of the send queue and of the
    registry are about. *)
Definition core (w : World) :=
  (services w, channels w, send_queue w).

(** [keeps m]: [m] changes neither [services], nor [channels], nor
    [send_queue]. *)
Definition keeps {A} (m : M A) : Prop :=
  forall w a w', m w = Ret a w' -> core w' = core w.

Lemma keeps_preserves {A} (m : M A) (R : _ -> Prop) :
  keeps m -> preserves (fun w => R (core w)) m.
Proof. intros K w a w' E HP. rewrite (K _ _ _ E). exact HP. Qed.

(** [respects P]: [P] is about those tables only. *)
Definition respects (P : World -> Prop) : Prop :=
  forall w w', core w' = core w -> P w -> P w'.

Lemma keeps_respects {A} (m : M A) P : keeps m -> respects P -> preserves P m.
Proof. intros K HR w a w' E HP. exact (HR _ _ (K _ _ _ E) HP). Qed.

Lemma respects_and (P Q : World -> Prop) :
  respects P -> respects Q -> respects (fun w => P w /\ Q w).
Proof. intros HP HQ w w' E [H1 H2]. split; [eapply HP | eapply HQ]; eauto. Qed.

Lemma keeps_bind {A B} (m : M A) (k : A -> M B) :
  keeps m -> (forall a, keeps (k a)) -> keeps (bind m k).
Proof.
  intros Hm Hk w b w' H. apply bind_inv in H.
  destruct H as (a & w1 & H1 & H2).
  rewrite (Hk _ _ _ _ H2). eapply Hm; eauto.
Qed.

Lemma keeps_ret {A} (a : A) : keeps (ret a).
Proof. intros w b w' H. inversion H; subst; reflexivity. Qed.

Lemma keeps_gets {A} (f : World -> A) : keeps (gets f).
Proof. intros w b w' H. inversion H; subst; reflexivity. Qed.

Lemma keeps_exit {A} c : keeps (@exit A c).
Proof. intros w b w' H; discriminate. Qed.

Lemma keeps_fault {A} : keeps (@fault A).
Proof. intros w b w' H; discriminate. Qed.

Lemma keeps_stuck {A} : keeps (@stuck A).
Proof. intros w b w' H; discriminate. Qed.

Lemma keeps_modify (g : World -> World) :
  (forall w, core (g w) = core w) -> keeps (modify g).
Proof. intros Hg w b w' H. inversion H; subst. apply Hg. Qed.

Lemma keeps_when b m : keeps m -> keeps (when b m).
Proof. intros H. destruct b; [exact H | apply keeps_ret]. Qed.

Lemma keeps_fueled {A} (f : nat -> M A) (g : World -> nat) :
  (forall n, keeps (f n)) -> keeps (fueled g f).
Proof. intros H w a w' E. eapply H; eauto. Qed.

Lemma keeps_sys c : keeps (sys c).
Proof.
  intros w r w' H. unfold sys in H.
  destruct (script w); [discriminate |]. inversion H; subst. reflexivity.
Qed.

Lemma keeps_log e : keeps (log e).
Proof. apply keeps_modify. reflexivity. Qed.

Lemma keeps_sys_ c : keeps (sys_ c).
Proof. apply keeps_log. Qed.

Lemma keeps_deref_cc cc : keeps (deref_cc cc).
Proof.
  intros w k w' H. unfold deref_cc in H.
  destruct (find_connection cc (connections w)); [| discriminate].
  inversion H; subst. reflexivity.
Qed.

Lemma keeps_deref_ch ch : keeps (deref_ch ch).
Proof.
  intros w k w' H. unfold deref_ch in H.
  destruct (find_channel ch (channels w)); [| discriminate].
  inversion H; subst. reflexivity.
Qed.

Lemma keeps_update_cc cc f : keeps (update_cc cc f).
Proof. apply keeps_modify. reflexivity. Qed.

Create HintDb keeps.
#[export] Hint Resolve keeps_ret keeps_gets keeps_exit keeps_fault keeps_stuck
  keeps_sys keeps_log keeps_sys_ keeps_deref_cc keeps_deref_ch keeps_update_cc
  : keeps.

(** One step through code built from the monad's combinators. *)
Ltac keeps_step :=
  match goal with
  | |- keeps (bind _ _) => apply keeps_bind; [| intro]
  | |- keeps (when _ _) => apply keeps_when
  | |- keeps (modify _) => apply keeps_modify; intro; reflexivity
  | |- keeps (match ?x with _ => _ end) => destruct x
  | |- keeps (fueled _ _) => apply keeps_fueled; intro
  | |- keeps _ => solve [eauto with keeps]
  end.
Ltac keeps_tac := repeat keeps_step.

Lemma keeps_read_bytes data n : keeps (read_bytes data n).
Proof. unfold read_bytes. keeps_tac. Qed.

Lemma keeps_resize_and_copy data n : keeps (resize_and_copy data n).
Proof. unfold resize_and_copy. keeps_tac. Qed.

Lemma keeps_transfer tx len : keeps (transfer tx len).
Proof. unfold transfer. keeps_tac. Qed.

Lemma keeps_transfer_ tx len : keeps (transfer_ tx len).
Proof. unfold transfer_. keeps_tac. Qed.
#[export] Hint Resolve keeps_read_bytes keeps_resize_and_copy keeps_transfer
  keeps_transfer_ : keeps.

Lemma keeps_spi_read_mem a n : keeps (spi_read_mem a n).
Proof. unfold spi_read_mem. keeps_tac. Qed.

Lemma keeps_spi_write_mem a b n : keeps (spi_write_mem a b n).
Proof. unfold spi_write_mem. keeps_tac. Qed.

Lemma keeps_spi_read_cmem a : keeps (spi_read_cmem a).
Proof. unfold spi_read_cmem. keeps_tac. Qed.

Lemma keeps_spi_write_cmem a d : keeps (spi_write_cmem a d).
Proof. unfold spi_write_cmem. keeps_tac. Qed.
#[export] Hint Resolve keeps_spi_read_mem keeps_spi_write_mem keeps_spi_read_cmem
  keeps_spi_write_cmem : keeps.

Lemma keeps_push_message cc mb : keeps (push_message cc mb).
Proof. unfold push_message. keeps_tac. Qed.
#[export] Hint Resolve keeps_push_message : keeps.

Lemma keeps_send_loop fuel cc mb : keeps (send_loop fuel cc mb).
Proof.
  revert mb. induction fuel as [| fuel IH]; intros mb; simpl.
  - apply keeps_stuck.
  - keeps_tac.
Qed.
#[export] Hint Resolve keeps_send_loop : keeps.

Lemma keeps_create_and_send_msg cc ty sid data len :
  keeps (create_and_send_msg cc ty sid data len).
Proof. unfold create_and_send_msg. keeps_tac. Qed.
#[export] Hint Resolve keeps_create_and_send_msg : keeps.

Lemma keeps_read_nibbles addrs ba : keeps (read_nibbles addrs ba).
Proof.
  revert ba. induction addrs as [| i rest IH]; intros ba; simpl.
  - apply keeps_ret.
  - keeps_tac.
Qed.
#[export] Hint Resolve keeps_read_nibbles : keeps.

Lemma keeps_read_base_address : keeps read_base_address.
Proof. unfold read_base_address. keeps_tac. Qed.

Lemma keeps_read_channel_status : keeps read_channel_status.
Proof. unfold read_channel_status. keeps_tac. Qed.

Lemma keeps_write_channel_status : keeps write_channel_status.
Proof. unfold write_channel_status. keeps_tac. Qed.

Lemma keeps_shutdown_server_socket : keeps shutdown_server_socket.
Proof. unfold shutdown_server_socket. keeps_tac. Qed.

Lemma keeps_init_server_socket : keeps init_server_socket.
Proof. unfold init_server_socket. keeps_tac. Qed.

Lemma keeps_open_write_close filename txt : keeps (open_write_close filename txt).
Proof. unfold open_write_close. keeps_tac. Qed.

Lemma keeps_set_direction_loop retries : keeps (set_direction_loop retries).
Proof.
  induction retries as [| retries IH]; simpl; unfold sleep_10ms; keeps_tac.
Qed.
#[export] Hint Resolve keeps_open_write_close keeps_set_direction_loop : keeps.

Lemma keeps_init_driver : keeps init_driver.
Proof.
  unfold init_driver, init_sigterm, init_server_socket, init_spi, init_gpio,
    set_direction.
  keeps_tac.
Qed.

Lemma keeps_handle_msg_read_mem_req cc : keeps (handle_msg_read_mem_req cc).
Proof. unfold handle_msg_read_mem_req. keeps_tac. Qed.

Lemma keeps_handle_msg_write_mem_req cc : keeps (handle_msg_write_mem_req cc).
Proof. unfold handle_msg_write_mem_req. keeps_tac. Qed.

Lemma keeps_handle_msg_connect cc : keeps (handle_msg_connect cc).
Proof. unfold handle_msg_connect. keeps_tac. Qed.

Lemma keeps_add_connection f : keeps (add_connection f).
Proof. unfold add_connection. keeps_tac. Qed.

Lemma keeps_handle_server_socket_ready : keeps handle_server_socket_ready.
Proof.
  pose proof keeps_add_connection.
  unfold handle_server_socket_ready. keeps_tac.
Qed.
#[export] Hint Resolve keeps_read_base_address keeps_read_channel_status
  keeps_write_channel_status keeps_shutdown_server_socket keeps_init_server_socket
  keeps_handle_msg_read_mem_req keeps_handle_msg_write_mem_req
  keeps_handle_msg_connect keeps_add_connection keeps_handle_server_socket_ready
  : keeps.

(** * The invariants of the send queue and of the registry *)

(** A channel is queued when the first record of [channels] with its id has
    a packet to send. *)
Definition queued (chs : list LogicalChannel) (ch : Z) : Prop :=
  exists c, find_channel ch chs = Some c /\ packet_queue c <> [].

(** No channel is twice in [send_queue], and every channel in it has a
    non-empty [packet_queue]. *)
Definition sq_ok (chs : list LogicalChannel) (sq : list Z) : Prop :=
  NoDup sq /\ forall ch, In ch sq -> queued chs ch.

Definition send_queue_ok (w : World) : Prop :=
  sq_ok (channels w) (send_queue w).

(** No two registered services share a name. *)
Definition registry_ok (w : World) : Prop :=
  NoDup (map srv_name (services w)).

Definition tables_ok (w : World) : Prop :=
  send_queue_ok w /\ registry_ok w.

Lemma respects_tables_ok : respects tables_ok.
Proof.
  intros w w' Hc H. unfold core in Hc. injection Hc as Hs Hch Hsq.
  unfold tables_ok, send_queue_ok, registry_ok in *.
  rewrite Hs, Hch, Hsq. exact H.
Qed.

Lemma keeps_tables_ok {A} (m : M A) : keeps m -> preserves tables_ok m.
Proof. intros K. apply keeps_respects; [exact K | exact respects_tables_ok]. Qed.

(** ** Lists of records *)

Lemma bytes_eqb_eq a b : bytes_eqb a b = true <-> a = b.
Proof.
  revert b. induction a as [| x a IH]; intros [| y b]; simpl;
    try (split; [discriminate | discriminate]); try tauto.
  rewrite andb_true_iff, Z.eqb_eq, IH. split.
  - intros [-> ->]. reflexivity.
  - intros H. inversion H. auto.
Qed.

Lemma bytes_eqb_refl a : bytes_eqb a a = true.
Proof. apply bytes_eqb_eq. reflexivity. Qed.

Lemma find_channel_update ch f l x :
  (forall c, channel_id (f c) = channel_id c) ->
  find_channel x (update_channel ch f l) =
  if x =? ch then option_map f (find_channel x l) else find_channel x l.
Proof.
  intros Hid. unfold find_channel, update_channel.
  induction l as [| c l IH]; simpl.
  - destruct (x =? ch); reflexivity.
  - destruct (channel_id c =? ch) eqn:Ec.
    + rewrite Hid. destruct (channel_id c =? x) eqn:Ex.
      * apply Z.eqb_eq in Ec, Ex. subst. rewrite Z.eqb_refl. reflexivity.
      * exact IH.
    + destruct (channel_id c =? x) eqn:Ex.
      * apply Z.eqb_eq in Ex. subst. rewrite Ec. reflexivity.
      * exact IH.
Qed.

Lemma find_channel_erase cid l x :
  x <> cid -> find_channel x (erase_channel cid l) = find_channel x l.
Proof.
  intros Hne. unfold find_channel.
  induction l as [| c l IH]; simpl; [reflexivity |].
  destruct (channel_id c =? cid) eqn:Ec; simpl.
  - apply Z.eqb_eq in Ec.
    destruct (channel_id c =? x) eqn:Ex; [| reflexivity].
    apply Z.eqb_eq in Ex. congruence.
  - destruct (channel_id c =? x); [reflexivity | exact IH].
Qed.

Lemma find_channel_app l c x :
  find_channel x (l ++ [c]) =
  match find_channel x l with
  | Some y => Some y
  | None => if channel_id c =? x then Some c else None
  end.
Proof.
  unfold find_channel. induction l as [| d l IH]; simpl; [reflexivity |].
  destruct (channel_id d =? x); [reflexivity | exact IH].
Qed.

Lemma find_channel_id x l c : find_channel x l = Some c -> channel_id c = x.
Proof.
  unfold find_channel. intros H. apply find_some in H.
  destruct H as [_ H]. apply Z.eqb_eq in H. exact H.
Qed.

Lemma find_channel_tail x c l :
  channel_id c <> x -> find_channel x (c :: l) = find_channel x l.
Proof.
  intros H. unfold find_channel. simpl.
  destruct (channel_id c =? x) eqn:E; [| reflexivity].
  apply Z.eqb_eq in E. contradiction.
Qed.

Lemma erase_first_spec x l l' :
  erase_first x l = Some l' ->
  In x l /\ (forall y, In y l' -> In y l) /\
  (forall y, y <> x -> In y l -> In y l') /\
  (NoDup l -> NoDup l' /\ ~ In x l').
Proof.
  revert l'. induction l as [| y t IH]; simpl; intros l' H; [discriminate |].
  destruct (y =? x) eqn:E.
  - apply Z.eqb_eq in E. inversion H; subst. repeat split.
    + left; reflexivity.
    + intros z Hz; right; exact Hz.
    + intros z Hne [Hz | Hz]; [congruence | exact Hz].
    + inversion H0; assumption.
    + inversion H0; assumption.
  - apply Z.eqb_neq in E.
    destruct (erase_first x t) as [t' |] eqn:Et; [| discriminate].
    inversion H; subst. destruct (IH t' eq_refl) as (I1 & I2 & I3 & I4).
    repeat split.
    + right; exact I1.
    + intros z [Hz | Hz]; [left; exact Hz | right; apply I2; exact Hz].
    + intros z Hne [Hz | Hz]; [left; exact Hz | right; apply I3; assumption].
    + inversion H0; subst. destruct (I4 H4) as [N1 N2].
      constructor; [| exact N1]. intros Hin. apply H3. apply I2. exact Hin.
    + inversion H0; subst. destruct (I4 H4) as [N1 N2].
      intros [Hin | Hin]; [congruence | contradiction].
Qed.

Lemma erase_first_in x l : In x l -> exists l', erase_first x l = Some l'.
Proof.
  induction l as [| y t IH]; simpl; [intros [] |].
  intros H. destruct (y =? x) eqn:E; [eexists; reflexivity |].
  apply Z.eqb_neq in E. destruct H as [H | H]; [contradiction |].
  destruct (IH H) as [t' ->]. eexists; reflexivity.
Qed.

Lemma find_service_none name l :
  find (fun s => bytes_eqb (srv_name s) name) l = None ->
  ~ In name (map srv_name l).
Proof.
  intros H Hin. apply in_map_iff in Hin. destruct Hin as (s & Hs & Hin).
  apply (find_none _ _ H) in Hin. simpl in Hin.
  rewrite Hs, bytes_eqb_refl in Hin. discriminate.
Qed.

Lemma NoDup_map_app_one {A B} (f : A -> B) l x :
  NoDup (map f l) -> ~ In (f x) (map f l) -> NoDup (map f (l ++ [x])).
Proof.
  intros Hnd Hnin. rewrite map_app. simpl.
  apply NoDup_app; [exact Hnd | constructor; [intros [] | constructor] |].
  intros y Hy [E | []]. subst. contradiction.
Qed.

Lemma NoDup_map_filter {A B} (f : A -> B) p l :
  NoDup (map f l) -> NoDup (map f (filter p l)).
Proof.
  induction l as [| x l IH]; simpl; intros H; [constructor |].
  inversion H; subst. destruct (p x); simpl; [| apply IH; assumption].
  constructor; [| apply IH; assumption].
  intros Hin. apply H2. apply in_map_iff in Hin.
  destruct Hin as (y & Hy & Hin). apply filter_In in Hin.
  apply in_map_iff. exists y. tauto.
Qed.

Lemma erase_service_spec name cc l l' :
  erase_service name cc l = Some l' ->
  (forall s, In s l' -> In s l) /\
  (NoDup (map srv_name l) -> NoDup (map srv_name l')).
Proof.
  revert l'. induction l as [| s t IH]; simpl; intros l' H; [discriminate |].
  destruct (bytes_eqb (srv_name s) name && (srv_cc s =? cc)).
  - inversion H; subst. split; [intros; right; assumption |].
    intros Hn; inversion Hn; assumption.
  - destruct (erase_service name cc t) as [t' |]; [| discriminate].
    inversion H; subst. destruct (IH t' eq_refl) as [I1 I2]. split.
    + intros x [Hx | Hx]; [left; exact Hx | right; apply I1; exact Hx].
    + simpl. intros Hn. inversion Hn; subst. constructor; [| apply I2; assumption].
      intros Hin. apply H2. apply in_map_iff in Hin.
      destruct Hin as (y & Hy & Hin). apply in_map_iff. exists y.
      split; [exact Hy | apply I1; exact Hin].
Qed.

(** ** Running code step by step *)

Lemma deref_ch_inv ch w c w' :
  deref_ch ch w = Ret c w' -> w' = w /\ find_channel ch (channels w) = Some c.
Proof.
  unfold deref_ch. destruct (find_channel ch (channels w)); [| discriminate].
  intros H; inversion H; subst. auto.
Qed.

Lemma deref_cc_inv cc w k w' :
  deref_cc cc w = Ret k w' -> w' = w /\ find_connection cc (connections w) = Some k.
Proof.
  unfold deref_cc. destruct (find_connection cc (connections w)); [| discriminate].
  intros H; inversion H; subst. auto.
Qed.

Lemma update_ch_inv ch f w a w' :
  update_ch ch f w = Ret a w' ->
  w' = set_channels (update_channel ch f (channels w)) w.
Proof. intros H; inversion H; reflexivity. Qed.

Lemma update_cc_inv cc f w a w' :
  update_cc cc f w = Ret a w' ->
  w' = set_connections (update_connection cc f (connections w)) w.
Proof. intros H; inversion H; reflexivity. Qed.

Lemma modify_inv g w a w' : modify g w = Ret a w' -> w' = g w.
Proof. intros H; inversion H; reflexivity. Qed.

Lemma gets_inv {A} (f : World -> A) w a w' :
  gets f w = Ret a w' -> w' = w /\ a = f w.
Proof. intros H; inversion H; auto. Qed.

Lemma ret_inv {A} (x : A) w a w' : ret x w = Ret a w' -> w' = w /\ a = x.
Proof. intros H; inversion H; auto. Qed.

Lemma log_inv e w a w' : log e w = Ret a w' -> w' = set_trace (trace w ++ [e]) w.
Proof. intros H; inversion H; reflexivity. Qed.

Lemma sys_inv c w r w' :
  sys c w = Ret r w' ->
  exists rest, script w = r :: rest /\
               w' = set_trace (trace w ++ [ev_sys c]) (set_script rest w).
Proof.
  unfold sys. destruct (script w) as [| r0 rest]; [discriminate |].
  intros H; inversion H; subst. exists rest. auto.
Qed.

Lemma resize_and_copy_inv data n w b w' :
  resize_and_copy data n w = Ret b w' -> w' = w.
Proof.
  unfold resize_and_copy. destruct data as [| bytes].
  - intros H; inversion H; reflexivity.
  - destruct (n =? 0); [intros H; inversion H; reflexivity |].
    destruct (n <=? zlen bytes); [intros H; inversion H; reflexivity | discriminate].
Qed.

Lemma read_bytes_inv data n w b w' :
  read_bytes data n w = Ret b w' -> w' = w.
Proof.
  unfold read_bytes. destruct (n <=? 0); [intros H; inversion H; reflexivity |].
  destruct data as [| bytes]; [discriminate |].
  destruct (n <=? zlen bytes); [intros H; inversion H; reflexivity | discriminate].
Qed.

(** Takes a run [H : m w = Ret a w'] of a composite [m] apart. *)
Ltac run_step :=
  match goal with
  | H : bind _ _ _ = Ret _ _ |- _ =>
    let a := fresh "a" in let w := fresh "w" in let H1 := fresh "R" in
    apply bind_inv in H; destruct H as (a & w & H1 & H)
  | H : ret _ _ = Ret _ _ |- _ => apply ret_inv in H; destruct H as [? ?]; subst
  | H : gets _ _ = Ret _ _ |- _ => apply gets_inv in H; destruct H as [? ?]; subst
  | H : modify _ _ = Ret _ _ |- _ => apply modify_inv in H; subst
  | H : log _ _ = Ret _ _ |- _ => apply log_inv in H; subst
  | H : sys_ _ _ = Ret _ _ |- _ => apply log_inv in H; subst
  | H : update_ch _ _ _ = Ret _ _ |- _ => apply update_ch_inv in H; subst
  | H : update_cc _ _ _ = Ret _ _ |- _ => apply update_cc_inv in H; subst
  | H : deref_ch _ _ = Ret _ _ |- _ => apply deref_ch_inv in H; destruct H as [? H]; subst
  | H : deref_cc _ _ = Ret _ _ |- _ => apply deref_cc_inv in H; destruct H as [? H]; subst
  | H : resize_and_copy _ _ _ = Ret _ _ |- _ => apply resize_and_copy_inv in H; subst
  | H : read_bytes _ _ _ = Ret _ _ |- _ => apply read_bytes_inv in H; subst
  | H : sys _ _ = Ret _ _ |- _ =>
    let rest := fresh "rest" in let E := fresh "Escript" in
    apply sys_inv in H; destruct H as (rest & E & H); subst
  | H : exit _ _ = Ret _ _ |- _ => discriminate H
  | H : fault _ = Ret _ _ |- _ => discriminate H
  | H : stuck _ = Ret _ _ |- _ => discriminate H
  | H : when ?b _ _ = Ret _ _ |- _ => destruct b eqn:?; cbn [when] in H
  | H : (let _ := _ in _) _ = Ret _ _ |- _ => cbv zeta in H
  | H : (match ?x with _ => _ end) _ = Ret _ _ |- _ => destruct x eqn:?
  end.
Ltac run := repeat run_step.

(** Reduces the projections of a world built with the setters, and nothing
    else. *)
Ltac proj :=
  simpl connections in *; simpl services in *; simpl channels in *;
  simpl send_queue in *; simpl on_demand_services in *;
  simpl have_base_address in *; simpl base_address in *;
  simpl channel_status in *; simpl channel_status_updated in *;
  simpl recv_buf in *; simpl server_socket in *; simpl gpio_fd in *;
  simpl script in *; simpl trace in *.

(** ** The primitives keep the tables in order *)

(** A change of a channel record that touches neither its id nor its
    packet queue. *)
Definition harmless (f : LogicalChannel -> LogicalChannel) : Prop :=
  (forall c, channel_id (f c) = channel_id c) /\
  (forall c, packet_queue (f c) = packet_queue c).

Lemma harmless_set_association v : harmless (set_association v).
Proof. split; reflexivity. Qed.
Lemma harmless_set_stream_id v : harmless (set_stream_id v).
Proof. split; reflexivity. Qed.
Lemma harmless_set_got_eos_from_ami v : harmless (set_got_eos_from_ami v).
Proof. split; reflexivity. Qed.
Lemma harmless_set_got_eos_from_client v : harmless (set_got_eos_from_client v).
Proof. split; reflexivity. Qed.
Lemma harmless_compose f g : harmless f -> harmless g -> harmless (fun c => f (g c)).
Proof.
  intros [F1 F2] [G1 G2]. split; intros c; [rewrite F1, G1 | rewrite F2, G2]; reflexivity.
Qed.
Create HintDb tables.
#[export] Hint Resolve harmless_set_association harmless_set_stream_id
  harmless_set_got_eos_from_ami harmless_set_got_eos_from_client
  harmless_compose : tables.

Lemma queued_update ch f chs x :
  (forall c, channel_id (f c) = channel_id c) ->
  (forall c, packet_queue c <> [] -> packet_queue (f c) <> []) ->
  queued chs x -> queued (update_channel ch f chs) x.
Proof.
  intros Hid Hpq (c & Hc & Hne). unfold queued.
  rewrite find_channel_update by exact Hid. rewrite Hc.
  destruct (x =? ch); simpl.
  - exists (f c). split; [reflexivity | apply Hpq; exact Hne].
  - exists c. auto.
Qed.

Lemma sq_ok_update ch f chs sq :
  harmless f -> sq_ok chs sq -> sq_ok (update_channel ch f chs) sq.
Proof.
  intros [Hid Hpq] [Hnd Hq]. split; [exact Hnd |].
  intros x Hx. apply queued_update; auto.
  intros c Hc. rewrite Hpq. exact Hc.
Qed.

Lemma respects_send_queue_ok : respects send_queue_ok.
Proof.
  intros w w' Hc H. unfold core in Hc. injection Hc as _ Hch Hsq.
  unfold send_queue_ok in *. rewrite Hch, Hsq. exact H.
Qed.

(** [keeps_services m]: [m] does not change the registry. *)
Definition keeps_services {A} (m : M A) : Prop :=
  forall w a w', m w = Ret a w' -> services w' = services w.

Lemma preserves_tables_ok_of {A} (m : M A) :
  preserves send_queue_ok m -> keeps_services m -> preserves tables_ok m.
Proof.
  intros Hsq Hs w a w' H [H1 H2]. split; [eapply Hsq; eauto |].
  unfold registry_ok. rewrite (Hs _ _ _ H). exact H2.
Qed.

Lemma preserves_update_ch ch f : harmless f -> preserves tables_ok (update_ch ch f).
Proof.
  intros Hf w a w' H [Hsq Hreg]. run. split; [| exact Hreg].
  unfold send_queue_ok in *. proj. apply sq_ok_update; assumption.
Qed.

Lemma queued_not_empty chs ch c :
  find_channel ch chs = Some c -> packet_queue c = [] -> ~ queued chs ch.
Proof. intros Hc He (c' & Hc' & Hne). congruence. Qed.

(** Pushing a packet on a channel whose queue is not empty. *)
Lemma sq_ok_push chs sq ch pkt :
  sq_ok chs sq ->
  sq_ok (update_channel ch (fun c => set_packet_queue (packet_queue c ++ [pkt]) c) chs) sq.
Proof.
  intros [Hnd Hq]. split; [exact Hnd |].
  intros x Hx. apply queued_update; auto.
  intros c _. simpl. destruct (packet_queue c); discriminate.
Qed.

(** Pushing a packet on a channel whose queue is empty: the channel enters
    the send queue. *)
Lemma sq_ok_push_first chs sq ch c pkt :
  sq_ok chs sq -> find_channel ch chs = Some c -> packet_queue c = [] ->
  sq_ok (update_channel ch (fun c => set_packet_queue (packet_queue c ++ [pkt]) c) chs)
        (sq ++ [ch]).
Proof.
  intros Hok Hc He. pose proof (sq_ok_push chs sq ch pkt Hok) as [Hnd' Hq'].
  destruct Hok as [Hnd Hq]. split.
  - apply NoDup_app; [exact Hnd | constructor; [intros [] | constructor] |].
    intros x Hx [E | []]. subst x.
    apply (queued_not_empty _ _ _ Hc He). apply Hq. exact Hx.
  - intros x Hx. apply in_app_iff in Hx. destruct Hx as [Hx | [<- | []]]; [auto |].
    unfold queued. rewrite find_channel_update by reflexivity.
    rewrite Z.eqb_refl, Hc. simpl. eexists. split; [reflexivity |].
    simpl. rewrite He. discriminate.
Qed.

Lemma create_and_enqueue_packet_send_queue_ok ch ty data len :
  preserves send_queue_ok (create_and_enqueue_packet ch ty data len).
Proof.
  intros w a w' H Hsq. unfold create_and_enqueue_packet in H. run;
    unfold send_queue_ok in *; proj.
  - eapply sq_ok_push_first; eauto.
  - apply sq_ok_push; assumption.
Qed.

Lemma create_and_enqueue_packet_services ch ty data len :
  keeps_services (create_and_enqueue_packet ch ty data len).
Proof.
  intros w a w' H. unfold create_and_enqueue_packet in H. run; proj; reflexivity.
Qed.

Lemma preserves_create_and_enqueue_packet ch ty data len :
  preserves tables_ok (create_and_enqueue_packet ch ty data len).
Proof.
  apply preserves_tables_ok_of;
    [apply create_and_enqueue_packet_send_queue_ok
    | apply create_and_enqueue_packet_services].
Qed.

(** Clearing the queue of a channel and taking it out of the send queue. *)
Lemma sq_ok_clear chs sq sq' ch :
  sq_ok chs sq -> erase_first ch sq = Some sq' ->
  sq_ok (update_channel ch (set_packet_queue []) chs) sq'.
Proof.
  intros [Hnd Hq] He. destruct (erase_first_spec _ _ _ He) as (I1 & I2 & I3 & I4).
  destruct (I4 Hnd) as [Hnd' Hnin]. split; [exact Hnd' |].
  intros x Hx. assert (Hne : x <> ch) by (intros ->; contradiction).
  destruct (Hq x (I2 x Hx)) as (c & Hc & Hcne). exists c.
  rewrite find_channel_update by reflexivity.
  apply Z.eqb_neq in Hne. rewrite Hne. auto.
Qed.

Lemma clear_packet_queue_send_queue_ok ch :
  preserves send_queue_ok (clear_packet_queue ch).
Proof.
  intros w a w' H Hsq. unfold clear_packet_queue in H. run;
    unfold send_queue_ok in *; proj.
  - exact Hsq.
  - eapply sq_ok_clear; eauto.
Qed.

Lemma clear_packet_queue_services ch : keeps_services (clear_packet_queue ch).
Proof.
  intros w a w' H. unfold clear_packet_queue in H. run; proj; reflexivity.
Qed.

Lemma preserves_clear_packet_queue ch : preserves tables_ok (clear_packet_queue ch).
Proof.
  apply preserves_tables_ok_of;
    [apply clear_packet_queue_send_queue_ok | apply clear_packet_queue_services].
Qed.

(** Erasing a channel that has nothing to send. *)
Lemma sq_ok_erase chs sq cid c :
  sq_ok chs sq -> find_channel cid chs = Some c -> packet_queue c = [] ->
  sq_ok (erase_channel cid chs) sq.
Proof.
  intros [Hnd Hq] Hc He. split; [exact Hnd |].
  intros x Hx. destruct (Hq x Hx) as (d & Hd & Hdne).
  assert (Hne : x <> cid) by (intros ->; congruence).
  exists d. rewrite find_channel_erase by exact Hne. auto.
Qed.

Lemma remove_channel_send_queue_ok cid :
  preserves send_queue_ok (remove_channel_if_not_associated_and_empty_pq cid).
Proof.
  intros w a w' H Hsq.
  unfold remove_channel_if_not_associated_and_empty_pq in H. run;
    try assumption.
  unfold send_queue_ok in *; proj. eapply sq_ok_erase; eauto.
Qed.

Lemma remove_channel_services cid :
  keeps_services (remove_channel_if_not_associated_and_empty_pq cid).
Proof.
  intros w a w' H.
  unfold remove_channel_if_not_associated_and_empty_pq in H. run; proj; reflexivity.
Qed.

Lemma preserves_remove_channel cid :
  preserves tables_ok (remove_channel_if_not_associated_and_empty_pq cid).
Proof.
  apply preserves_tables_ok_of;
    [apply remove_channel_send_queue_ok | apply remove_channel_services].
Qed.

Lemma preserves_remove_association ch : preserves tables_ok (remove_association ch).
Proof.
  intros w a w' H [Hsq Hreg]. unfold remove_association in H. run.
  split; [| exact Hreg]. unfold send_queue_ok in *; proj.
  apply sq_ok_update; auto with tables.
Qed.

Lemma preserves_associate ch cc : preserves tables_ok (associate ch cc).
Proof.
  intros w a w' H [Hsq Hreg]. unfold associate in H. run.
  split; [| exact Hreg]. unfold send_queue_ok in *; proj.
  apply sq_ok_update; auto with tables.
Qed.

(** One turn of the loop of [flush_send_queue]: the front channel gives its
    first packet and leaves the front of the send queue. *)
Lemma sq_ok_pop chs ch sq c pb pq :
  sq_ok chs (ch :: sq) -> find_channel ch chs = Some c ->
  packet_queue c = pb :: pq ->
  sq_ok (update_channel ch (set_packet_queue pq) chs)
        (match pq with [] => sq | _ :: _ => sq ++ [ch] end).
Proof.
  intros [Hnd Hq] Hc Hpq. inversion Hnd as [| ? ? Hnin Hnd']; subst.
  assert (Hother : forall x, In x sq ->
            queued (update_channel ch (set_packet_queue pq) chs) x).
  { intros x Hx. assert (Hne : x <> ch) by (intros ->; contradiction).
    destruct (Hq x (or_intror Hx)) as (d & Hd & Hdne). exists d.
    rewrite find_channel_update by reflexivity.
    apply Z.eqb_neq in Hne. rewrite Hne. auto. }
  destruct pq as [| pb' pq'].
  - split; assumption.
  - split.
    + apply NoDup_app; [exact Hnd' | constructor; [intros [] | constructor] |].
      intros x Hx [E | []]. subst x. contradiction.
    + intros x Hx. apply in_app_iff in Hx. destruct Hx as [Hx | [<- | []]]; [auto |].
      unfold queued. rewrite find_channel_update by reflexivity.
      rewrite Z.eqb_refl, Hc. simpl. eexists. split; [reflexivity |]. discriminate.
Qed.

Lemma flush_loop_send_queue_ok fuel left pos buf :
  preserves send_queue_ok (flush_loop fuel left pos buf).
Proof.
  revert left pos buf. induction fuel as [| fuel IH]; intros left pos buf w a w' H Hsq;
    simpl in H; run; try assumption.
  - eapply IH; [eassumption |].
    eapply remove_channel_send_queue_ok; [eassumption |].
    unfold send_queue_ok in *; proj.
    match goal with
    | Hc : find_channel _ _ = Some _, Hp : packet_queue _ = _ :: [],
      Hs : send_queue _ = _ |- _ =>
      rewrite Hs in Hsq; apply (sq_ok_pop _ _ _ _ _ _ Hsq Hc Hp)
    end.
  - eapply IH; [eassumption |].
    unfold send_queue_ok in *; proj.
    match goal with
    | Hc : find_channel _ _ = Some _, Hp : packet_queue _ = _ :: _ :: _,
      Hs : send_queue _ = _ |- _ =>
      rewrite Hs in Hsq; apply (sq_ok_pop _ _ _ _ _ _ Hsq Hc Hp)
    end.
Qed.

Lemma flush_loop_services fuel left pos buf :
  keeps_services (flush_loop fuel left pos buf).
Proof.
  revert left pos buf. induction fuel as [| fuel IH]; intros left pos buf w a w' H;
    simpl in H; run; try reflexivity.
  - apply IH in H.
    match goal with
    | R : remove_channel_if_not_associated_and_empty_pq _ _ = Ret _ _ |- _ =>
      apply remove_channel_services in R; proj; congruence
    end.
  - apply IH in H. proj. exact H.
Qed.

Lemma preserves_flush_loop fuel left pos buf :
  preserves tables_ok (flush_loop fuel left pos buf).
Proof.
  apply preserves_tables_ok_of;
    [apply flush_loop_send_queue_ok | apply flush_loop_services].
Qed.

Lemma tables_ok_append_channel w c :
  tables_ok w -> packet_queue c = [] ->
  tables_ok (set_channels (channels w ++ [c]) w).
Proof.
  intros [[Hnd Hq] Hreg] He. split; [| exact Hreg]. split; [exact Hnd |].
  proj. intros x Hx. destruct (Hq x Hx) as (d & Hd & Hdne). exists d.
  rewrite find_channel_app, Hd. auto.
Qed.

Lemma tables_ok_add_service w name cc :
  tables_ok w ->
  find (fun s => bytes_eqb (srv_name s) name) (services w) = None ->
  tables_ok (set_services (services w ++ [mkRegisteredService name cc]) w).
Proof.
  intros [Hsq Hreg] Hf. split; [exact Hsq |]. unfold registry_ok in *. proj.
  apply NoDup_map_app_one; [exact Hreg |]. apply find_service_none. exact Hf.
Qed.

Lemma preserves_filter_services p :
  preserves tables_ok (modify (fun w => set_services (filter p (services w)) w)).
Proof.
  intros w a w' H [Hsq Hreg]. run. split; [exact Hsq |].
  unfold registry_ok in *. proj. apply NoDup_map_filter. exact Hreg.
Qed.

#[export] Hint Resolve preserves_ret preserves_gets preserves_exit
  preserves_fault preserves_stuck : tables.
#[export] Hint Resolve preserves_update_ch preserves_create_and_enqueue_packet
  preserves_clear_packet_queue preserves_remove_channel
  preserves_remove_association preserves_associate preserves_flush_loop
  preserves_filter_services respects_tables_ok respects_send_queue_ok
  flush_loop_send_queue_ok : tables.

(** One step through code built from the monad's combinators. *)
Ltac pres_step :=
  match goal with
  | |- preserves _ (bind _ _) => apply preserves_bind; [| intro]
  | |- preserves _ (when _ _) => apply preserves_when
  | |- preserves _ (fueled _ _) => apply preserves_fueled; intro
  | |- preserves _ (match ?x with _ => _ end) => destruct x
  | |- preserves _ _ =>
    solve [auto with tables
          | apply keeps_respects; [keeps_tac | auto with tables]]
  end.
Ltac pres := repeat pres_step.

(** From the invariant of the world a call left back to the world it
    started in. *)
Ltac back :=
  match goal with
  | H : ?m ?w1 = Ret ?a ?w2 |- ?P ?w2 =>
    let Q := fresh "Q" in
    assert (Q : preserves P m)
      by (solve [auto with tables
                | apply keeps_respects; [keeps_tac | auto with tables]]);
    apply (Q _ _ _ H); clear Q H
  end.

Lemma keeps_first_with_stream_id sid ass : keeps (first_with_stream_id sid ass).
Proof. induction ass as [| ch rest IH]; simpl; keeps_tac. Qed.
#[export] Hint Resolve keeps_first_with_stream_id : keeps.

Lemma keeps_get_associated_channel_by_stream_id cc sid :
  keeps (get_associated_channel_by_stream_id cc sid).
Proof. unfold get_associated_channel_by_stream_id. keeps_tac. Qed.
#[export] Hint Resolve keeps_get_associated_channel_by_stream_id : keeps.

(** ** From the primitives to the whole daemon *)

(** A property of the tables that the operations on the tables preserve is
    preserved by every handler and by the main loop. *)
Section Walk.
Variable P : World -> Prop.
Hypothesis P_respects : respects P.
Hypothesis P_update_ch :
  forall ch f, harmless f -> preserves P (update_ch ch f).
Hypothesis P_create_and_enqueue_packet :
  forall ch ty data len, preserves P (create_and_enqueue_packet ch ty data len).
Hypothesis P_clear_packet_queue :
  forall ch, preserves P (clear_packet_queue ch).
Hypothesis P_remove_channel :
  forall cid, preserves P (remove_channel_if_not_associated_and_empty_pq cid).
Hypothesis P_remove_association :
  forall ch, preserves P (remove_association ch).
Hypothesis P_flush_loop :
  forall fuel left pos buf, preserves P (flush_loop fuel left pos buf).
Hypothesis P_filter_services :
  forall p, preserves P (modify (fun w => set_services (filter p (services w)) w)).
Hypothesis P_handle_msg_register_req :
  forall cc, preserves P (handle_msg_register_req cc).
Hypothesis P_handle_msg_deregister_req :
  forall cc, preserves P (handle_msg_deregister_req cc).
Hypothesis P_handle_pkt_connect :
  forall cid data plen, preserves P (handle_pkt_connect cid data plen).
Hypothesis P_close_all_logical_channels :
  preserves P close_all_logical_channels.

Lemma walk_handle_msg_connect_response cc :
  preserves P (handle_msg_connect_response cc).
Proof. unfold handle_msg_connect_response. pres. Qed.

Lemma walk_handle_msg_data cc : preserves P (handle_msg_data cc).
Proof. unfold handle_msg_data. pres. Qed.

Lemma walk_handle_msg_eos cc : preserves P (handle_msg_eos cc).
Proof. unfold handle_msg_eos. pres. Qed.

Lemma walk_handle_msg_reset cc : preserves P (handle_msg_reset cc).
Proof. unfold handle_msg_reset. pres. Qed.
#[local] Hint Resolve walk_handle_msg_connect_response walk_handle_msg_data
  walk_handle_msg_eos walk_handle_msg_reset : tables.

Lemma walk_handle_received_message cc : preserves P (handle_received_message cc).
Proof. unfold handle_received_message. pres. Qed.
#[local] Hint Resolve walk_handle_received_message : tables.

Lemma walk_reset_associations cc ass : preserves P (reset_associations cc ass).
Proof. induction ass as [| ch rest IH]; simpl; pres. Qed.
#[local] Hint Resolve walk_reset_associations : tables.

Lemma walk_close_and_remove_connection cc :
  preserves P (close_and_remove_connection cc).
Proof. unfold close_and_remove_connection. pres. Qed.
#[local] Hint Resolve walk_close_and_remove_connection : tables.

Lemma walk_handle_pkt_data cid data plen : preserves P (handle_pkt_data cid data plen).
Proof. unfold handle_pkt_data. pres. Qed.

Lemma walk_handle_pkt_eos cid : preserves P (handle_pkt_eos cid).
Proof. unfold handle_pkt_eos. pres. Qed.

Lemma walk_handle_pkt_reset cid : preserves P (handle_pkt_reset cid).
Proof. unfold handle_pkt_reset. pres. Qed.
#[local] Hint Resolve walk_handle_pkt_data walk_handle_pkt_eos
  walk_handle_pkt_reset : tables.

Lemma walk_handle_received_pkt ptype cid data plen :
  preserves P (handle_received_pkt ptype cid data plen).
Proof. unfold handle_received_pkt. pres. Qed.
#[local] Hint Resolve walk_handle_received_pkt : tables.

Lemma walk_parse_loop fuel p len : preserves P (parse_loop fuel p len).
Proof. revert p. induction fuel as [| fuel IH]; intros p; simpl; pres. Qed.
#[local] Hint Resolve walk_parse_loop : tables.

Lemma walk_receive_from_a2r : preserves P receive_from_a2r.
Proof. unfold receive_from_a2r. pres. Qed.

Lemma walk_flush_send_queue : preserves P flush_send_queue.
Proof. unfold flush_send_queue. pres. Qed.
#[local] Hint Resolve walk_receive_from_a2r walk_flush_send_queue : tables.

Lemma walk_handle_a314_irq : preserves P handle_a314_irq.
Proof. unfold handle_a314_irq. pres. Qed.
#[local] Hint Resolve walk_handle_a314_irq : tables.

Lemma walk_read_loop fuel cc : preserves P (read_loop fuel cc).
Proof. induction fuel as [| fuel IH]; simpl; pres. Qed.

Lemma walk_drain_loop fuel cc : preserves P (drain_loop fuel cc).
Proof. induction fuel as [| fuel IH]; simpl; pres. Qed.
#[local] Hint Resolve walk_read_loop walk_drain_loop : tables.

Lemma walk_handle_client_connection_event cc events :
  preserves P (handle_client_connection_event cc events).
Proof. unfold handle_client_connection_event. pres. Qed.
#[local] Hint Resolve walk_handle_client_connection_event : tables.

Lemma walk_close_all_connections fuel : preserves P (close_all_connections fuel).
Proof. induction fuel as [| fuel IH]; simpl; pres. Qed.
#[local] Hint Resolve walk_close_all_connections : tables.

Lemma walk_main_loop_body st : preserves P (main_loop_body st).
Proof. unfold main_loop_body. pres. Qed.
#[local] Hint Resolve walk_main_loop_body : tables.

Lemma walk_main_loop_turns fuel st : preserves P (main_loop_turns fuel st).
Proof. revert st. induction fuel as [| fuel IH]; intros st; simpl; pres. Qed.
#[local] Hint Resolve walk_main_loop_turns : tables.

Lemma walk_main_loop : preserves P main_loop.
Proof. unfold main_loop. pres. Qed.

Lemma walk_write_channel_status : preserves P write_channel_status.
Proof. pres. Qed.

Lemma walk_handle_server_socket_ready : preserves P handle_server_socket_ready.
Proof. pres. Qed.
End Walk.

(** * Reachable worlds *)

(** What the daemon does between two worlds: the start of the driver, a
    turn of the main loop, one of the handlers the loop calls, or one of the
    operations on the queues. *)
Inductive step (w w' : World) : Prop :=
| step_main_loop_body st st' :
    main_loop_body st w = Ret st' w' -> step w w'
| step_handle_a314_irq :
    handle_a314_irq w = Ret tt w' -> step w w'
| step_handle_server_socket_ready :
    handle_server_socket_ready w = Ret tt w' -> step w w'
| step_handle_client_connection_event cc events :
    handle_client_connection_event cc events w = Ret tt w' -> step w w'
| step_close_and_remove_connection cc :
    close_and_remove_connection cc w = Ret tt w' -> step w w'
| step_close_all_logical_channels :
    close_all_logical_channels w = Ret tt w' -> step w w'
| step_handle_received_pkt ptype cid data plen :
    handle_received_pkt ptype cid data plen w = Ret tt w' -> step w w'
| step_handle_received_message cc :
    handle_received_message cc w = Ret tt w' -> step w w'
| step_flush_send_queue b :
    flush_send_queue w = Ret b w' -> step w w'
| step_write_channel_status :
    write_channel_status w = Ret tt w' -> step w w'
| step_create_and_enqueue_packet ch ty data len :
    create_and_enqueue_packet ch ty data len w = Ret tt w' -> step w w'
| step_clear_packet_queue ch :
    clear_packet_queue ch w = Ret tt w' -> step w w'
| step_init_server_socket r :
    init_server_socket w = Ret r w' -> step w w'
| step_init_driver r :
    init_driver w = Ret r w' -> step w w'.

(** The worlds the daemon can be in: it starts with the static initialisers
    and the configuration, and from there on it takes steps; the first one,
    in [main], is [init_driver], which leaves it listening. *)
Inductive reachable : World -> Prop :=
| reach_init on_demand scr : reachable (initial_world on_demand scr)
| reach_step w w' : reachable w -> step w w' -> reachable w'.

(** A property of the tables that holds when the daemon starts and that the
    operations on the tables preserve holds in every reachable world. *)
Section Invariant.
Variable P : World -> Prop.
Hypothesis P_initial : forall on_demand scr, P (initial_world on_demand scr).
Hypothesis P_respects : respects P.
Hypothesis P_update_ch :
  forall ch f, harmless f -> preserves P (update_ch ch f).
Hypothesis P_create_and_enqueue_packet :
  forall ch ty data len, preserves P (create_and_enqueue_packet ch ty data len).
Hypothesis P_clear_packet_queue :
  forall ch, preserves P (clear_packet_queue ch).
Hypothesis P_remove_channel :
  forall cid, preserves P (remove_channel_if_not_associated_and_empty_pq cid).
Hypothesis P_remove_association :
  forall ch, preserves P (remove_association ch).
Hypothesis P_flush_loop :
  forall fuel left pos buf, preserves P (flush_loop fuel left pos buf).
Hypothesis P_filter_services :
  forall p, preserves P (modify (fun w => set_services (filter p (services w)) w)).
Hypothesis P_handle_msg_register_req :
  forall cc, preserves P (handle_msg_register_req cc).
Hypothesis P_handle_msg_deregister_req :
  forall cc, preserves P (handle_msg_deregister_req cc).
Hypothesis P_handle_pkt_connect :
  forall cid data plen, preserves P (handle_pkt_connect cid data plen).
Hypothesis P_close_all_logical_channels :
  preserves P close_all_logical_channels.

Lemma step_preserves w w' : step w w' -> P w -> P w'.
Proof.
  intros [] HP;
    match goal with
    | H : ?m w = Ret _ w' |- _ =>
      let Q := fresh "Q" in
      assert (Q : preserves P m);
      [| exact (Q _ _ _ H HP)]
    end;
    first
      [ solve [auto]
      | apply walk_main_loop_body
      | apply walk_handle_a314_irq
      | apply walk_handle_server_socket_ready
      | apply walk_handle_client_connection_event
      | apply walk_close_and_remove_connection
      | apply walk_handle_received_pkt
      | apply walk_handle_received_message
      | apply walk_flush_send_queue
      | apply walk_write_channel_status
      | apply keeps_respects; [apply keeps_init_server_socket | exact P_respects]
      | apply keeps_respects; [apply keeps_init_driver | exact P_respects] ];
    auto.
Qed.

Lemma reachable_invariant w : reachable w -> P w.
Proof.
  induction 1 as [on_demand scr | w w' _ IH Hstep].
  - apply P_initial.
  - eapply step_preserves; eauto.
Qed.
End Invariant.

(** ** The send queue and the registry *)

Lemma preserves_handle_msg_register_req cc :
  preserves tables_ok (handle_msg_register_req cc).
Proof.
  intros w a w' H Hok. unfold handle_msg_register_req in H. run; back.
  - exact Hok.
  - apply tables_ok_add_service; assumption.
Qed.

Lemma preserves_handle_msg_deregister_req cc :
  preserves tables_ok (handle_msg_deregister_req cc).
Proof.
  intros w a w' H Hok. unfold handle_msg_deregister_req in H. run; back.
  - destruct Hok as [Hsq Hreg]. split; [exact Hsq |].
    unfold registry_ok in *. proj.
    match goal with
    | E : erase_service _ _ _ = Some _ |- _ =>
      apply (proj2 (erase_service_spec _ _ _ _ E)); exact Hreg
    end.
  - exact Hok.
Qed.

(** The service [name] is not registered. *)
Definition unregistered (name : list Z) (w : World) : Prop :=
  find (fun s => bytes_eqb (srv_name s) name) (services w) = None.

Lemma respects_unregistered name : respects (unregistered name).
Proof.
  intros w w' Hc H. unfold core in Hc. injection Hc as Hs _ _.
  unfold unregistered in *. rewrite Hs. exact H.
Qed.

Lemma hoare_add_service name cc :
  hoare (fun w => tables_ok w /\ unregistered name w)
    (modify (fun w => set_services (services w ++ [mkRegisteredService name cc]) w))
    (fun _ => tables_ok).
Proof.
  intros w a w' H [Hok Hun]. run. apply tables_ok_add_service; assumption.
Qed.

(** Through the system calls of [start_on_demand] up to the registration of
    the service, with an assertion [I] that is about the tables only. *)
Ltac to_registration HR :=
  repeat first
    [ eapply hoare_bind;
      [ apply keeps_respects; [solve [keeps_tac] | exact HR] | intro; cbv beta ]
    | match goal with
      | |- hoare _ (exit _) _ => intros ? ? ? E; discriminate E
      | |- hoare _ stuck _ => intros ? ? ? E; discriminate E
      | |- hoare _ (match ?x with _ => _ end) _ => destruct x
      end ].

Lemma hoare_start_on_demand od cid name data plen next :
  hoare (fun w => tables_ok w /\ unregistered name w) next (fun _ => tables_ok) ->
  hoare (fun w => tables_ok w /\ unregistered name w)
    (start_on_demand od cid name data plen next) (fun _ => tables_ok).
Proof.
  intros Hnext.
  pose proof (respects_and _ _ respects_tables_ok (respects_unregistered name)) as HR.
  unfold start_on_demand. to_registration HR.
  - exact Hnext.
  - eapply hoare_bind; [apply hoare_add_service |]. intro. cbv beta.
    apply preserves_bind; [apply preserves_associate | intro].
    apply keeps_tables_ok. keeps_tac.
Qed.

Lemma hoare_on_demand_loop ods cid name data plen :
  hoare (fun w => tables_ok w /\ unregistered name w)
    (on_demand_loop ods cid name data plen) (fun _ => tables_ok).
Proof.
  induction ods as [| od rest IH]; cbn [on_demand_loop].
  - intros w a w' H [Hok _].
    exact (preserves_create_and_enqueue_packet _ _ _ _ _ _ _ H Hok).
  - destruct (bytes_eqb (service_name od) name);
      [apply hoare_start_on_demand |]; exact IH.
Qed.

Lemma preserves_handle_pkt_connect cid data plen :
  preserves tables_ok (handle_pkt_connect cid data plen).
Proof.
  intros w a w' H Hok. unfold handle_pkt_connect in H.
  pose proof (tables_ok_append_channel w
                (mkLogicalChannel cid None 0 false false []) Hok eq_refl) as Hok1.
  apply bind_inv in H. destruct H as (chs & w0 & H0 & H).
  apply gets_inv in H0. destruct H0 as [-> ->].
  destruct (existsb _ (channels w)); [discriminate H |].
  apply bind_inv in H. destruct H as (u & w1 & H1 & H).
  apply modify_inv in H1. subst w1.
  apply bind_inv in H. destruct H as (name & w2 & H2 & H).
  pose proof (read_bytes_inv _ _ _ _ _ H2) as ->. clear H2.
  apply bind_inv in H. destruct H as (srvs & w3 & H3 & H).
  apply gets_inv in H3. destruct H3 as [-> ->].
  destruct (find _ _) as [srv |] eqn:Ef.
  - apply bind_inv in H. destruct H as (sid & w4 & H4 & H).
    back. back. exact Hok1.
  - apply bind_inv in H. destruct H as (ods & w4 & H4 & H).
    apply gets_inv in H4. destruct H4 as [-> ->].
    eapply hoare_on_demand_loop; [exact H |]. split; [exact Hok1 |].
    unfold unregistered. exact Ef.
Qed.

Lemma flush_send_queue_send_queue_ok : preserves send_queue_ok flush_send_queue.
Proof. unfold flush_send_queue. pres. Qed.

(** [close_all_logical_channels] leaves no channel and an empty send queue. *)
Lemma remove_association_frame ch w a w' :
  remove_association ch w = Ret a w' ->
  services w' = services w /\ send_queue w' = send_queue w.
Proof. intros H. unfold remove_association in H. run. proj. auto. Qed.

Lemma close_loop_spec fuel w a w' :
  close_loop fuel w = Ret a w' ->
  services w' = services w /\ send_queue w' = send_queue w /\ channels w' = [].
Proof.
  revert w. induction fuel as [| fuel IH]; intros w H; simpl in H.
  - run; auto.
  - apply bind_inv in H. destruct H as (chs & w0 & H0 & H).
    apply gets_inv in H0. destruct H0 as [-> ->].
    destruct (channels w) as [| ch rest] eqn:Ech.
    + run. auto.
    + apply bind_inv in H. destruct H as (u & w1 & H1 & H).
      assert (F1 : services w1 = services w /\ send_queue w1 = send_queue w).
      { destruct (association ch).
        - apply bind_inv in H1. destruct H1 as (u1 & w2 & H1 & H2).
          apply keeps_create_and_send_msg in H1. unfold core in H1.
          injection H1 as E1 _ E3.
          apply remove_association_frame in H2. destruct H2 as [E4 E5].
          split; congruence.
        - run. auto. }
      clear H1.
      apply bind_inv in H. destruct H as (chs' & w2 & H2 & H).
      apply gets_inv in H2. destruct H2 as [-> ->].
      apply bind_inv in H. destruct H as (u2 & w3 & H3 & H).
      assert (F3 : services w3 = services w1 /\ send_queue w3 = send_queue w1).
      { destruct (channels w1); [discriminate |]. run. proj. auto. }
      clear H3. apply IH in H. destruct H as (E1 & E2 & E3).
      destruct F1, F3. repeat split; congruence.
Qed.

Lemma close_all_logical_channels_spec w a w' :
  close_all_logical_channels w = Ret a w' ->
  services w' = services w /\ send_queue w' = [] /\ channels w' = [].
Proof.
  intros H. unfold close_all_logical_channels in H.
  apply bind_inv in H. destruct H as (u & w1 & H1 & H).
  apply modify_inv in H1. subst w1. unfold fueled in H.
  apply close_loop_spec in H. proj. exact H.
Qed.

Lemma preserves_close_all_logical_channels :
  preserves tables_ok close_all_logical_channels.
Proof.
  intros w a w' H [Hsq Hreg].
  apply close_all_logical_channels_spec in H. destruct H as (E1 & E2 & E3).
  split.
  - unfold send_queue_ok. rewrite E2, E3. split; [constructor | intros x []].
  - unfold registry_ok in *. rewrite E1. exact Hreg.
Qed.

Lemma tables_ok_initial on_demand scr : tables_ok (initial_world on_demand scr).
Proof.
  split.
  - split; [constructor | intros x []].
  - constructor.
Qed.

Lemma reachable_tables_ok w : reachable w -> tables_ok w.
Proof.
  apply reachable_invariant.
  - exact tables_ok_initial.
  - exact respects_tables_ok.
  - exact preserves_update_ch.
  - exact preserves_create_and_enqueue_packet.
  - exact preserves_clear_packet_queue.
  - exact preserves_remove_channel.
  - exact preserves_remove_association.
  - exact preserves_flush_loop.
  - exact preserves_filter_services.
  - exact preserves_handle_msg_register_req.
  - exact preserves_handle_msg_deregister_req.
  - exact preserves_handle_pkt_connect.
  - exact preserves_close_all_logical_channels.
Qed.

(** ** The ids of the channels *)

(** No two records of [channels] have the same [channel_id]: a
    [LogicalChannel*] and a [channel_id] name the same record. *)
Definition channel_ids_ok (w : World) : Prop :=
  NoDup (map channel_id (channels w)).

Lemma respects_channel_ids_ok : respects channel_ids_ok.
Proof.
  intros w w' Hc H. unfold core in Hc. injection Hc as _ Hch _.
  unfold channel_ids_ok in *. rewrite Hch. exact H.
Qed.
#[export] Hint Resolve respects_channel_ids_ok : tables.

Lemma channel_ids_update ch f l :
  (forall c, channel_id (f c) = channel_id c) ->
  map channel_id (update_channel ch f l) = map channel_id l.
Proof.
  intros Hid. unfold update_channel. rewrite map_map. apply map_ext.
  intros c. destruct (channel_id c =? ch); [apply Hid | reflexivity].
Qed.

Lemma channel_ids_erase cid l :
  NoDup (map channel_id l) -> NoDup (map channel_id (erase_channel cid l)).
Proof.
  induction l as [| c l IH]; simpl; intros H; [constructor |].
  inversion H; subst. destruct (channel_id c =? cid); [assumption |].
  simpl. constructor; [| apply IH; assumption].
  intros Hin. apply H2. apply in_map_iff in Hin. destruct Hin as (d & Hd & Hin).
  apply in_map_iff. exists d. split; [exact Hd |].
  clear - Hin. induction l as [| e l IH]; simpl in *; [contradiction |].
  destruct (channel_id e =? cid); [right; exact Hin |].
  destruct Hin as [-> | Hin]; [left; reflexivity | right; apply IH; exact Hin].
Qed.

Lemma channel_ids_append cid l c :
  existsb (fun c => channel_id c =? cid) l = false -> channel_id c = cid ->
  NoDup (map channel_id l) -> NoDup (map channel_id (l ++ [c])).
Proof.
  intros He Hc Hnd. apply NoDup_map_app_one; [exact Hnd |].
  intros Hin. apply in_map_iff in Hin. destruct Hin as (d & Hd & Hin).
  assert (existsb (fun c => channel_id c =? cid) l = true).
  { apply existsb_exists. exists d. split; [exact Hin |].
    apply Z.eqb_eq. congruence. }
  congruence.
Qed.

(** A function that changes [channels] only through [update_channel] with
    changes that keep the id. *)
Ltac ids_by_update :=
  unfold channel_ids_ok in *; proj;
  repeat rewrite channel_ids_update by (intros; reflexivity);
  try assumption.

Lemma ids_update_ch ch f : harmless f -> preserves channel_ids_ok (update_ch ch f).
Proof.
  intros [Hid _] w a w' H Hok. run. unfold channel_ids_ok in *. proj.
  rewrite channel_ids_update by exact Hid. exact Hok.
Qed.

Lemma ids_create_and_enqueue_packet ch ty data len :
  preserves channel_ids_ok (create_and_enqueue_packet ch ty data len).
Proof.
  intros w a w' H Hok. unfold create_and_enqueue_packet in H. run; ids_by_update.
Qed.

Lemma ids_clear_packet_queue ch : preserves channel_ids_ok (clear_packet_queue ch).
Proof.
  intros w a w' H Hok. unfold clear_packet_queue in H. run; ids_by_update.
Qed.

Lemma ids_remove_channel cid :
  preserves channel_ids_ok (remove_channel_if_not_associated_and_empty_pq cid).
Proof.
  intros w a w' H Hok.
  unfold remove_channel_if_not_associated_and_empty_pq in H. run; try assumption.
  unfold channel_ids_ok in *. proj. apply channel_ids_erase. exact Hok.
Qed.

Lemma ids_remove_association ch : preserves channel_ids_ok (remove_association ch).
Proof.
  intros w a w' H Hok. unfold remove_association in H. run. ids_by_update.
Qed.

Lemma ids_associate ch cc : preserves channel_ids_ok (associate ch cc).
Proof.
  intros w a w' H Hok. unfold associate in H. run. ids_by_update.
Qed.

Lemma ids_flush_loop fuel left pos buf :
  preserves channel_ids_ok (flush_loop fuel left pos buf).
Proof.
  revert left pos buf. induction fuel as [| fuel IH]; intros left pos buf w a w' H Hok;
    simpl in H; run; try assumption.
  - eapply IH; [eassumption |]. eapply ids_remove_channel; [eassumption |].
    ids_by_update.
  - eapply IH; [eassumption |]. ids_by_update.
Qed.

Lemma ids_set_services f :
  preserves channel_ids_ok (modify (fun w => set_services (f w) w)).
Proof. intros w a w' H Hok. run. exact Hok. Qed.

Lemma ids_filter_services p :
  preserves channel_ids_ok
    (modify (fun w => set_services (filter p (services w)) w)).
Proof. apply (ids_set_services (fun w => filter p (services w))). Qed.
#[export] Hint Resolve ids_update_ch ids_create_and_enqueue_packet
  ids_clear_packet_queue ids_remove_channel ids_remove_association
  ids_associate ids_flush_loop ids_filter_services : tables.

Lemma ids_handle_msg_register_req cc :
  preserves channel_ids_ok (handle_msg_register_req cc).
Proof.
  intros w a w' H Hok. unfold handle_msg_register_req in H. run; back; exact Hok.
Qed.

Lemma ids_handle_msg_deregister_req cc :
  preserves channel_ids_ok (handle_msg_deregister_req cc).
Proof.
  intros w a w' H Hok. unfold handle_msg_deregister_req in H. run; back; exact Hok.
Qed.

Lemma ids_start_on_demand od cid name data plen next :
  preserves channel_ids_ok next ->
  preserves channel_ids_ok (start_on_demand od cid name data plen next).
Proof.
  intros Hnext.
  unfold start_on_demand. to_registration respects_channel_ids_ok.
  - exact Hnext.
  - eapply hoare_bind;
      [eapply (ids_set_services (fun w => services w ++ [_])) |].
    intro. cbv beta.
    apply preserves_bind; [apply ids_associate | intro].
    apply keeps_respects; [keeps_tac | exact respects_channel_ids_ok].
Qed.

Lemma ids_on_demand_loop ods cid name data plen :
  preserves channel_ids_ok (on_demand_loop ods cid name data plen).
Proof.
  induction ods as [| od rest IH]; cbn [on_demand_loop].
  - apply ids_create_and_enqueue_packet.
  - destruct (bytes_eqb (service_name od) name);
      [apply ids_start_on_demand |]; exact IH.
Qed.

Lemma ids_handle_pkt_connect cid data plen :
  preserves channel_ids_ok (handle_pkt_connect cid data plen).
Proof.
  intros w a w' H Hok. unfold handle_pkt_connect in H.
  apply bind_inv in H. destruct H as (chs & w0 & H0 & H).
  apply gets_inv in H0. destruct H0 as [-> ->].
  destruct (existsb (fun c => channel_id c =? cid) (channels w)) eqn:He;
    [discriminate |].
  assert (Hok1 : channel_ids_ok
            (set_channels (channels w ++ [mkLogicalChannel cid None 0 false false []]) w)).
  { unfold channel_ids_ok in *. proj.
    apply (channel_ids_append cid); [exact He | reflexivity | exact Hok]. }
  apply bind_inv in H. destruct H as (u & w1 & H1 & H).
  apply modify_inv in H1. subst w1.
  apply bind_inv in H. destruct H as (name & w2 & H2 & H).
  pose proof (read_bytes_inv _ _ _ _ _ H2) as ->. clear H2.
  apply bind_inv in H. destruct H as (srvs & w3 & H3 & H).
  apply gets_inv in H3. destruct H3 as [-> ->].
  destruct (find _ _) as [srv |].
  - apply bind_inv in H. destruct H as (sid & w4 & H4 & H).
    back. back. exact Hok1.
  - apply bind_inv in H. destruct H as (ods & w4 & H4 & H).
    apply gets_inv in H4. destruct H4 as [-> ->].
    eapply ids_on_demand_loop; eassumption.
Qed.

Lemma ids_close_all_logical_channels :
  preserves channel_ids_ok close_all_logical_channels.
Proof.
  intros w a w' H _. apply close_all_logical_channels_spec in H.
  destruct H as (_ & _ & E). unfold channel_ids_ok. rewrite E. constructor.
Qed.

Lemma reachable_channel_ids_ok w : reachable w -> channel_ids_ok w.
Proof.
  apply reachable_invariant.
  - intros. constructor.
  - exact respects_channel_ids_ok.
  - exact ids_update_ch.
  - exact ids_create_and_enqueue_packet.
  - exact ids_clear_packet_queue.
  - exact ids_remove_channel.
  - exact ids_remove_association.
  - exact ids_flush_loop.
  - exact ids_filter_services.
  - exact ids_handle_msg_register_req.
  - exact ids_handle_msg_deregister_req.
  - exact ids_handle_pkt_connect.
  - exact ids_close_all_logical_channels.
Qed.

(** * Example worlds *)

Definition ok (v : Z) : SysRes := mkSysRes v 0 [].
Definition ok_data (d : list Z) : SysRes := mkSysRes 0 0 d.
Definition err (e : Z) : SysRes := mkSysRes (-1) e [].

(** The world a function leaves, when it returns. *)
Definition after {A} (m : M A) (w : World) : World :=
  match m w with
  | Ret _ w' => w'
  | _ => w
  end.

(** The results of the calls of an [init_driver] that goes well: the
    listening socket is descriptor 3 and the value file of the GPIO is
    descriptor 4. *)
Definition init_script : list SysRes :=
  [ok 3; ok 0;                  (* socket, bind *)
   ok 10; ok 0; ok 0; ok 0;     (* the SPI device and its three settings *)
   ok 11; ok 11; ok 11; ok 4;   (* export, direction, edge, value *)
   ok 12; ok 0; ok 0].          (* the epoll instance and its two sockets *)

(** The daemon when [main] has started the driver; [scr] are the results
    of the calls to come. *)
Definition world_started (on_demand : list OnDemandStart) (scr : list SysRes)
  : World :=
  after init_driver (initial_world on_demand (init_script ++ scr)).

(** The answers of the board to the first interrupt: the event A2R_TAIL, the
    base address 0 (read twice), the four status bytes and the bytes of the
    A2R ring. *)
Definition first_irq_script (status ring : list Z) : list SysRes :=
  [ok_data [0; 1];
   ok_data [0; 1]; ok_data [0; 0]; ok_data [0; 0]; ok_data [0; 0]; ok_data [0; 0];
   ok_data [0; 1]; ok_data [0; 0]; ok_data [0; 0]; ok_data [0; 0]; ok_data [0; 0];
   ok_data ([0; 0; 0; 0] ++ status);
   ok_data ([0; 0; 0; 0] ++ ring)].

(** The Amiga asks for the unknown service "x" on channel 9 while the R2A
    ring has room for two bytes only: the answer stays queued. *)
Definition world_before_irq : World :=
  initial_world [] (first_irq_script [4; 3; 0; 0] [1; PKT_CONNECT; 9; 120]).
Definition world_unknown_service : World :=
  after handle_a314_irq world_before_irq.

Lemma world_unknown_service_reachable : reachable world_unknown_service.
Proof.
  apply (reach_step world_before_irq); [apply reach_init |].
  apply step_handle_a314_irq. vm_compute. reflexivity.
Defined.

(** The same request in a daemon that serves: it listens on descriptor 3 and
    has the GPIO open as descriptor 4. *)
Lemma world_started_reachable on_demand scr :
  reachable (world_started on_demand scr).
Proof.
  apply (reach_step (initial_world on_demand (init_script ++ scr)));
    [apply reach_init |].
  apply (step_init_driver _ _ 0). vm_compute. reflexivity.
Defined.

Definition world_serving_before_irq : World :=
  world_started [] (first_irq_script [4; 3; 0; 0] [1; PKT_CONNECT; 9; 120]).
Definition world_serving : World :=
  after handle_a314_irq world_serving_before_irq.

Lemma world_serving_reachable : reachable world_serving.
Proof.
  apply (reach_step world_serving_before_irq);
    [apply world_started_reachable |].
  apply step_handle_a314_irq. vm_compute. reflexivity.
Defined.

(** * The send queue (C3) *)

(** C3. In every reachable world no channel is in [send_queue] more than
    once and every channel in [send_queue] has a non-empty [packet_queue];
    [create_and_enqueue_packet], [flush_send_queue] and [clear_packet_queue]
    each preserve this. *)
Theorem send_queue_uniqueness :
  (forall w, reachable w ->
     NoDup (send_queue w) /\
     forall ch, In ch (send_queue w) ->
       exists c, find_channel ch (channels w) = Some c /\ packet_queue c <> []) /\
  (forall ch ty data len w a w',
     create_and_enqueue_packet ch ty data len w = Ret a w' ->
     send_queue_ok w -> send_queue_ok w') /\
  (forall w b w', flush_send_queue w = Ret b w' ->
     send_queue_ok w -> send_queue_ok w') /\
  (forall ch w a w', clear_packet_queue ch w = Ret a w' ->
     send_queue_ok w -> send_queue_ok w').
Proof.
  split; [| split; [| split]].
  - intros w Hr. exact (proj1 (reachable_tables_ok w Hr)).
  - intros ch ty data len. apply create_and_enqueue_packet_send_queue_ok.
  - apply flush_send_queue_send_queue_ok.
  - intros ch. apply clear_packet_queue_send_queue_ok.
Qed.

Lemma send_queue_uniqueness_witness :
  send_queue world_serving = [9] /\
  NoDup (send_queue world_serving) /\
  (forall ch, In ch (send_queue world_serving) ->
     exists c, find_channel ch (channels world_serving) = Some c /\
               packet_queue c <> []) /\
  send_queue_ok
    (after (create_and_enqueue_packet 9 PKT_DATA (ptr [1; 2]) 2) world_serving).
Proof.
  split; [vm_compute; reflexivity |].
  pose proof (proj1 send_queue_uniqueness _ world_serving_reachable) as H.
  split; [exact (proj1 H) | split; [exact (proj2 H) |]].
  eapply (proj1 (proj2 send_queue_uniqueness) 9 PKT_DATA (ptr [1; 2]) 2
            world_serving tt).
  - vm_compute. reflexivity.
  - exact H.
Defined.

(** * Machine integers, again *)

Lemma u8_mod x : u8 x = x mod 256.
Proof. unfold u8. change 255 with (Z.ones 8). rewrite Z.land_ones by lia. reflexivity. Qed.

Lemma u8_range x : 0 <= u8 x < 256.
Proof. rewrite u8_mod. apply Z.mod_pos_bound. lia. Qed.

Lemma land_255_range x : 0 <= Z.land x 255 <= 255.
Proof. pose proof (u8_range x) as H. unfold u8 in H. lia. Qed.

Lemma zlen_nonneg {A} (l : list A) : 0 <= zlen l.
Proof. unfold zlen. lia. Qed.

Lemma zlen_app {A} (l l' : list A) : zlen (l ++ l') = zlen l + zlen l'.
Proof. unfold zlen. rewrite length_app. lia. Qed.

Lemma zlen_ztake {A} n (l : list A) : 0 <= n <= zlen l -> zlen (ztake n l) = n.
Proof.
  unfold zlen, ztake. intros H. rewrite firstn_length_le by lia. lia.
Qed.

Lemma sys_eq c w r rest :
  script w = r :: rest ->
  sys c w = Ret r (set_trace (trace w ++ [ev_sys c]) (set_script rest w)).
Proof. intros H. unfold sys. rewrite H. reflexivity. Qed.

(** * The listening socket (C7) *)

Definition htonl (x : Z) : Z :=
  Z.lor (Z.shiftl (Z.land x 255) 24)
    (Z.lor (Z.shiftl (Z.land (Z.shiftr x 8) 255) 16)
       (Z.lor (Z.shiftl (Z.land (Z.shiftr x 16) 255) 8)
          (Z.land (Z.shiftr x 24) 255))).

(** C7. When [socket] and [bind] succeed, [init_server_socket] makes a TCP
    socket, binds it to port 7110 and listens with backlog 16; the address it
    binds is [INADDR_ANY], every interface of the host, and not the loopback
    address 127.0.0.1. *)
Theorem init_server_socket_binds_any_address w s b rest :
  script w = s :: b :: rest -> sr_ret s <> -1 -> 0 <= sr_ret b ->
  exists w',
    init_server_socket w = Ret 0 w' /\
    trace w' = trace w ++
      [ev_sys (c_socket AF_INET (Z.lor SOCK_STREAM SOCK_CLOEXEC) 0);
       ev_sys (c_bind (sr_ret s)
                 (mk_sockaddr_in AF_INET INADDR_ANY (htons 7110)));
       ev_sys (c_listen (sr_ret s) 16)] /\
    server_socket w' = sr_ret s /\
    INADDR_ANY <> htonl INADDR_LOOPBACK /\
    ntohs (htons 7110) = 7110.
Proof.
  intros Hs Hsock Hbind. unfold init_server_socket.
  erewrite bind_ret_eq by (apply sys_eq; exact Hs).
  erewrite bind_ret_eq by reflexivity.
  apply Z.eqb_neq in Hsock. rewrite Hsock.
  erewrite bind_ret_eq by (apply sys_eq; reflexivity).
  assert (Hb : (sr_ret b <? 0) = false) by (apply Z.ltb_ge; exact Hbind).
  rewrite Hb.
  erewrite bind_ret_eq by reflexivity.
  eexists. split; [reflexivity |]. proj.
  rewrite <- !app_assoc. simpl.
  repeat split; try reflexivity. vm_compute. discriminate.
Qed.

Lemma init_server_socket_binds_any_address_witness :
  exists w',
    init_server_socket (initial_world [] [ok 3; ok 0]) = Ret 0 w' /\
    trace w' =
      [ev_sys (c_socket AF_INET (Z.lor SOCK_STREAM SOCK_CLOEXEC) 0);
       ev_sys (c_bind 3 (mk_sockaddr_in AF_INET INADDR_ANY (htons 7110)));
       ev_sys (c_listen 3 16)] /\
    server_socket w' = 3 /\
    INADDR_ANY <> htonl INADDR_LOOPBACK /\
    ntohs (htons 7110) = 7110.
Proof.
  apply (init_server_socket_binds_any_address
           (initial_world [] [ok 3; ok 0]) (ok 3) (ok 0) []).
  - reflexivity.
  - simpl. lia.
  - simpl. lia.
Defined.

(** * Packets too long for the ring (C9) *)

Lemma flush_loop_eq fuel left pos buf :
  flush_loop fuel left pos buf =
  (sq <- gets send_queue;;
   match sq with
   | [] => ret (pos, buf)
   | ch :: sq_rest =>
     c <- deref_ch ch;;
     match packet_queue c with
     | [] => fault
     | pb :: pq_rest =>
       let plen := 3 + zlen (pb_data pb) in
       if left <? plen then ret (pos, buf)
       else
         match fuel with
         | O => stuck
         | S fuel' =>
           update_ch ch (set_packet_queue pq_rest);;
           modify (set_send_queue sq_rest);;
           (match pq_rest with
            | _ :: _ => modify (fun w => set_send_queue (send_queue w ++ [ch]) w)
            | [] => remove_channel_if_not_associated_and_empty_pq (channel_id c)
            end);;
           flush_loop fuel' (left - plen) (pos + plen) (buf ++ frame (channel_id c) pb)
         end
     end
   end).
Proof. destruct fuel; reflexivity. Qed.

Lemma flush_loop_blocked fuel left pos buf w ch sq c pb pq :
  send_queue w = ch :: sq ->
  find_channel ch (channels w) = Some c ->
  packet_queue c = pb :: pq ->
  left < 3 + zlen (pb_data pb) ->
  flush_loop fuel left pos buf w = Ret (pos, buf) w.
Proof.
  intros Hsq Hc Hpq Hlt.
  assert (Hb : (left <? 3 + zlen (pb_data pb)) = true) by (apply Z.ltb_lt; exact Hlt).
  rewrite flush_loop_eq. unfold bind, gets, deref_ch.
  rewrite Hsq, Hc, Hpq. cbv zeta. rewrite Hb. reflexivity.
Qed.

(** C9. When the packet at the front of the send queue has a payload of 253
    bytes or more, [flush_send_queue] returns [false] and changes nothing,
    whatever the ring state: neither this packet nor a packet behind it is
    written. *)
Theorem oversized_packet_blocks_flush w ch sq c pb pq :
  send_queue w = ch :: sq ->
  find_channel ch (channels w) = Some c ->
  packet_queue c = pb :: pq ->
  253 <= zlen (pb_data pb) ->
  flush_send_queue w = Ret false w.
Proof.
  intros Hsq Hc Hpq Hlen.
  pose proof (land_255_range
                (cs_get R2A_TAIL_OFFSET (channel_status w) -
                 cs_get R2A_HEAD_OFFSET (channel_status w))) as Hr.
  unfold flush_send_queue.
  unfold bind at 1. unfold gets at 1.
  rewrite (bind_ret_eq _ _ w (0, []) w).
  - reflexivity.
  - apply (flush_loop_blocked _ _ 0 [] w ch sq c pb pq Hsq Hc Hpq). lia.
Qed.

(** A channel with a single queued packet of 253 bytes. *)
Definition world_oversized : World :=
  after (create_and_enqueue_packet 9 PKT_DATA (ptr (zeros 253)) 253)
    (set_channels [mkLogicalChannel 9 None 0 false false []] (initial_world [] [])).

Lemma oversized_packet_blocks_flush_witness :
  send_queue world_oversized = [9] /\
  flush_send_queue world_oversized = Ret false world_oversized.
Proof.
  split; [reflexivity |].
  apply (oversized_packet_blocks_flush world_oversized 9 []
           (mkLogicalChannel 9 None 0 false false
              [mkPacketBuffer PKT_DATA (zeros 253)])
           (mkPacketBuffer PKT_DATA (zeros 253)) []).
  - reflexivity.
  - reflexivity.
  - reflexivity.
  - vm_compute. discriminate.
Defined.

(** * Enqueueing a packet *)

Lemma deref_cc_eq cc w k :
  find_connection cc (connections w) = Some k -> deref_cc cc w = Ret k w.
Proof. intros H. unfold deref_cc. rewrite H. reflexivity. Qed.

Lemma deref_ch_eq ch w c :
  find_channel ch (channels w) = Some c -> deref_ch ch w = Ret c w.
Proof. intros H. unfold deref_ch. rewrite H. reflexivity. Qed.

Lemma resize_and_copy_ptr bytes n w :
  0 <= n <= zlen bytes -> resize_and_copy (ptr bytes) n w = Ret (ztake n bytes) w.
Proof.
  intros H. unfold resize_and_copy. destruct (n =? 0) eqn:E.
  - apply Z.eqb_eq in E. subst. reflexivity.
  - assert (Hle : (n <=? zlen bytes) = true) by (apply Z.leb_le; lia).
    rewrite Hle. reflexivity.
Qed.

(** The world [create_and_enqueue_packet] leaves. *)
Definition enqueued (ch : Z) (c : LogicalChannel) (pkt : PacketBuffer) (w : World)
  : World :=
  set_channels
    (update_channel ch (fun c => set_packet_queue (packet_queue c ++ [pkt]) c)
       (channels w))
    (match packet_queue c with
     | [] => set_send_queue (send_queue w ++ [ch]) w
     | _ :: _ => w
     end).

Lemma create_and_enqueue_packet_eq ch ty data len w c bytes :
  find_channel ch (channels w) = Some c ->
  (forall w0, resize_and_copy data (u8 len) w0 = Ret bytes w0) ->
  create_and_enqueue_packet ch ty data len w =
  Ret tt (enqueued ch c (mkPacketBuffer (u8 ty) bytes) w).
Proof.
  intros Hc Hb. unfold create_and_enqueue_packet, enqueued.
  erewrite bind_ret_eq by (apply deref_ch_eq; exact Hc).
  destruct (packet_queue c).
  - erewrite bind_ret_eq by reflexivity.
    erewrite bind_ret_eq by apply Hb. reflexivity.
  - erewrite bind_ret_eq by reflexivity.
    erewrite bind_ret_eq by apply Hb. reflexivity.
Qed.

Lemma find_channel_enqueued ch c pkt w :
  find_channel ch (channels w) = Some c ->
  find_channel ch (channels (enqueued ch c pkt w)) =
  Some (set_packet_queue (packet_queue c ++ [pkt]) c).
Proof.
  intros Hc. unfold enqueued. proj.
  rewrite find_channel_update by reflexivity.
  rewrite Z.eqb_refl, Hc. reflexivity.
Qed.

(** * Data from a client (C10) *)

(** C10. For a MSG_DATA message on an associated stream whose payload has
    the length the header announces, [handle_msg_data] puts at the back of the
    channel's queue a PKT_DATA packet that holds the first [length mod 256]
    bytes of the payload: a longer payload is cut. *)
Theorem handle_msg_data_truncates w cc k ch c :
  find_connection cc (connections w) = Some k ->
  first_with_stream_id (to_int (mh_stream_id (header k))) (associations k) w =
    Ret (Some ch) w ->
  find_channel ch (channels w) = Some c ->
  0 <= mh_length (header k) ->
  zlen (payload k) = mh_length (header k) ->
  exists w' data,
    handle_msg_data cc w = Ret tt w' /\
    find_channel ch (channels w') =
      Some (set_packet_queue (packet_queue c ++ [mkPacketBuffer PKT_DATA data]) c) /\
    data = ztake (mh_length (header k) mod 256) (payload k) /\
    zlen data = mh_length (header k) mod 256.
Proof.
  intros Hk Hfirst Hc Hpos Hlen.
  assert (Hm : 0 <= mh_length (header k) mod 256 < 256)
    by (apply Z.mod_pos_bound; lia).
  assert (Hle : mh_length (header k) mod 256 <= mh_length (header k))
    by (apply Z.mod_le; lia).
  exists (enqueued ch c
            (mkPacketBuffer PKT_DATA
               (ztake (mh_length (header k) mod 256) (payload k))) w),
         (ztake (mh_length (header k) mod 256) (payload k)).
  split; [| split; [| split]].
  - unfold handle_msg_data.
    erewrite bind_ret_eq by (apply deref_cc_eq; exact Hk).
    erewrite bind_ret_eq.
    2:{ unfold get_associated_channel_by_stream_id.
        erewrite bind_ret_eq by (apply deref_cc_eq; exact Hk). exact Hfirst. }
    cbv beta iota.
    apply (create_and_enqueue_packet_eq ch PKT_DATA (ptr (payload k))
             (mh_length (header k)) w c
             (ztake (mh_length (header k) mod 256) (payload k)) Hc).
    intros w0. rewrite u8_mod. apply resize_and_copy_ptr. lia.
  - apply find_channel_enqueued. exact Hc.
  - reflexivity.
  - apply zlen_ztake. lia.
Qed.

(** A client with a stream on channel 7 that sent a MSG_DATA of 300 bytes. *)
Definition client_with_long_message : ClientConnection :=
  mkClientConnection 5 3 0 (mkMessageHeader 300 1 MSG_DATA) (zeros 300) [] [7].
Definition world_long_message : World :=
  set_connections [client_with_long_message]
    (set_channels [mkLogicalChannel 7 (Some 5) 1 false false []]
       (initial_world [] [])).

Lemma handle_msg_data_truncates_witness :
  exists w' data,
    handle_msg_data 5 world_long_message = Ret tt w' /\
    find_channel 7 (channels w') =
      Some (mkLogicalChannel 7 (Some 5) 1 false false [mkPacketBuffer PKT_DATA data]) /\
    data = zeros 44 /\ zlen data = 44.
Proof.
  destruct (handle_msg_data_truncates world_long_message 5 client_with_long_message 7
              (mkLogicalChannel 7 (Some 5) 1 false false []))
    as (w' & data & H1 & H2 & H3 & H4).
  - reflexivity.
  - reflexivity.
  - reflexivity.
  - simpl. lia.
  - reflexivity.
  - exists w', data. split; [exact H1 |]. split; [exact H2 |].
    split; [rewrite H3; reflexivity | exact H4].
Defined.

(** * Flushing the send queue (C1, C9) *)

(** The packets queued on a channel. *)
Definition pq_of (ch : Z) (chs : list LogicalChannel) : list PacketBuffer :=
  match find_channel ch chs with
  | Some c => packet_queue c
  | None => []
  end.

(** The bytes of a sequence of packets, each with the id of its channel. *)
Definition frames (sent : list (Z * PacketBuffer)) : list Z :=
  concat (map (fun x => frame (fst x) (snd x)) sent).

(** The packets of a sequence that belong to a channel. *)
Definition sent_on (ch : Z) (sent : list (Z * PacketBuffer)) : list PacketBuffer :=
  map snd (filter (fun x => fst x =? ch) sent).

(** The system calls of a trace. *)
Definition syscalls (t : list Event) : list Call :=
  flat_map (fun e => match e with ev_sys c => [c] | _ => [] end) t.

(** The bytes an SPI write stores in SRAM. *)
Definition spi_payload (c : Call) : list Z :=
  match c with
  | c_spi tx _ => zdrop 3 tx
  | _ => []
  end.

Lemma syscalls_app t t' : syscalls (t ++ t') = syscalls t ++ syscalls t'.
Proof. unfold syscalls. apply flat_map_app. Qed.

Lemma zlen_frame cid pb : zlen (frame cid pb) = 3 + zlen (pb_data pb).
Proof. unfold frame. rewrite zlen_app. reflexivity. Qed.

Lemma find_channel_erase_same cid l :
  NoDup (map channel_id l) -> find_channel cid (erase_channel cid l) = None.
Proof.
  unfold find_channel. induction l as [| c l IH]; simpl; intros H; [reflexivity |].
  inversion H; subst. destruct (channel_id c =? cid) eqn:E.
  - apply Z.eqb_eq in E. subst.
    destruct (find (fun c0 => channel_id c0 =? channel_id c) l) eqn:F; [| reflexivity].
    apply find_some in F. destruct F as [F1 F2]. apply Z.eqb_eq in F2.
    exfalso. apply H2. rewrite <- F2. apply in_map. exact F1.
  - simpl. rewrite E. apply IH. assumption.
Qed.

Lemma pq_of_pop chs ch c pb pq x :
  find_channel ch chs = Some c -> packet_queue c = pb :: pq ->
  pq_of x chs =
  (if ch =? x then [pb] else []) ++
  pq_of x (update_channel ch (set_packet_queue pq) chs).
Proof.
  intros Hc Hpq. unfold pq_of. rewrite find_channel_update by reflexivity.
  rewrite (Z.eqb_sym ch x). destruct (x =? ch) eqn:E.
  - apply Z.eqb_eq in E. subst. rewrite Hc. simpl. exact Hpq.
  - reflexivity.
Qed.

Lemma pq_of_erase chs cid c x :
  NoDup (map channel_id chs) ->
  find_channel cid chs = Some c -> packet_queue c = [] ->
  pq_of x (erase_channel cid chs) = pq_of x chs.
Proof.
  intros Hnd Hc He. unfold pq_of. destruct (Z.eq_dec x cid) as [-> | Hne].
  - rewrite find_channel_erase_same by exact Hnd. rewrite Hc, He. reflexivity.
  - rewrite find_channel_erase by exact Hne. reflexivity.
Qed.

(** What [remove_channel_if_not_associated_and_empty_pq] changes. *)
Lemma remove_channel_inv cid w a w' :
  remove_channel_if_not_associated_and_empty_pq cid w = Ret a w' ->
  send_queue w' = send_queue w /\
  channel_status w' = channel_status w /\
  base_address w' = base_address w /\
  syscalls (trace w') = syscalls (trace w) /\
  (channels w' = channels w \/
   exists c, find_channel cid (channels w) = Some c /\ packet_queue c = [] /\
             association c = None /\
             channels w' = erase_channel cid (channels w)).
Proof.
  intros H. unfold remove_channel_if_not_associated_and_empty_pq in H.
  run; proj; repeat split; auto.
  - rewrite syscalls_app. simpl. apply app_nil_r.
  - right. eexists. eauto.
Qed.

Lemma remove_channel_returns cid w :
  exists w', remove_channel_if_not_associated_and_empty_pq cid w = Ret tt w'.
Proof.
  unfold remove_channel_if_not_associated_and_empty_pq, bind, gets.
  destruct (find_channel cid (channels w)) as [c |]; [| eexists; reflexivity].
  destruct (association c); [eexists; reflexivity |].
  destruct (packet_queue c); eexists; reflexivity.
Qed.

Ltac pairs :=
  repeat match goal with
         | H : (_, _) = (_, _) |- _ => inversion H; subst; clear H
         end.

(** The packets a flush takes, as a function of the send queue [sq] and of
    the packets queued on the channels, [pq]: the packet at the front of the
    channel at the head of the send queue, for as long as it fits in the
    [room] that is left; a channel that was served leaves the head of the
    send queue and goes to its back if it has more to send.  The result is
    the packets taken, in the order they are taken, and the send queue that
    is left.  Every packet takes three bytes at least, so that [room] turns
    are enough. *)
Fixpoint taken (turns : nat) (room : Z) (sq : list Z) (pq : Z -> list PacketBuffer)
  : list (Z * PacketBuffer) * list Z :=
  match turns with
  | O => ([], sq)
  | S turns' =>
    match sq with
    | [] => ([], [])
    | ch :: rest =>
      match pq ch with
      | [] => ([], sq)
      | pb :: more =>
        if room <? 3 + zlen (pb_data pb) then ([], sq)
        else
          let r := taken turns' (room - (3 + zlen (pb_data pb)))
                     (match more with [] => rest | _ :: _ => rest ++ [ch] end)
                     (fun x => if x =? ch then more else pq x) in
          ((ch, pb) :: fst r, snd r)
      end
    end
  end.

Lemma taken_ext turns :
  forall room sq pq pq', (forall x, pq x = pq' x) ->
  taken turns room sq pq = taken turns room sq pq'.
Proof.
  induction turns as [| turns IH]; intros room sq pq pq' He; [reflexivity |].
  cbn [taken]. destruct sq as [| ch rest]; [reflexivity |].
  rewrite <- (He ch). destruct (pq ch) as [| pb more]; [reflexivity |].
  destruct (room <? 3 + zlen (pb_data pb)); [reflexivity |]. cbv zeta.
  rewrite (IH _ _ _ (fun x => if x =? ch then more else pq' x)); [reflexivity |].
  intros x. destruct (x =? ch); [reflexivity | apply He].
Qed.

Lemma taken_stop turns room sq pq :
  match sq with
  | [] => True
  | ch :: _ => exists pb more, pq ch = pb :: more /\ room < 3 + zlen (pb_data pb)
  end ->
  taken turns room sq pq = ([], sq).
Proof.
  intros H. destruct turns as [| turns]; [reflexivity |]. cbn [taken].
  destruct sq as [| ch rest]; [reflexivity |].
  destruct H as (pb & more & -> & Hlt). apply Z.ltb_lt in Hlt. rewrite Hlt.
  reflexivity.
Qed.

(** More turns than the room has bytes change nothing: a packet takes three
    bytes at least. *)
Lemma taken_turns n :
  forall m room sq pq,
    (Z.to_nat room <= n)%nat -> (Z.to_nat room <= m)%nat ->
    taken n room sq pq = taken m room sq pq.
Proof.
  induction n as [| n IH]; intros m room sq pq Hn Hm.
  - destruct m as [| m]; [reflexivity |]. cbn [taken].
    destruct sq as [| ch rest]; [reflexivity |].
    destruct (pq ch) as [| pb more]; [reflexivity |].
    pose proof (zlen_nonneg (pb_data pb)) as Hl.
    replace (room <? 3 + zlen (pb_data pb)) with true; [reflexivity |].
    symmetry. apply Z.ltb_lt. lia.
  - destruct m as [| m]; cbn [taken].
    + destruct sq as [| ch rest]; [reflexivity |].
      destruct (pq ch) as [| pb more]; [reflexivity |].
      pose proof (zlen_nonneg (pb_data pb)) as Hl.
      replace (room <? 3 + zlen (pb_data pb)) with true; [reflexivity |].
      symmetry. apply Z.ltb_lt. lia.
    + destruct sq as [| ch rest]; [reflexivity |].
      destruct (pq ch) as [| pb more]; [reflexivity |].
      pose proof (zlen_nonneg (pb_data pb)) as Hl.
      destruct (room <? 3 + zlen (pb_data pb)) eqn:E; [reflexivity |].
      apply Z.ltb_ge in E. cbv zeta.
      rewrite (IH m) by lia. reflexivity.
Qed.

(** What the loop of [flush_send_queue] does, when it returns. *)
Definition flush_loop_post (fuel : nat) (left pos : Z) (buf : list Z) (w : World)
  (pos' : Z) (buf' : list Z) (w' : World) : Prop :=
  exists sent,
    (sent, send_queue w') =
      taken fuel left (send_queue w) (fun x => pq_of x (channels w)) /\
    buf' = buf ++ frames sent /\
    pos' = pos + zlen (frames sent) /\
    zlen (frames sent) <= left /\
    (forall x, pq_of x (channels w) = sent_on x sent ++ pq_of x (channels w')) /\
    match send_queue w' with
    | [] => True
    | ch :: _ =>
      exists c pb pq, find_channel ch (channels w') = Some c /\
                      packet_queue c = pb :: pq /\
                      left - zlen (frames sent) < 3 + zlen (pb_data pb)
    end /\
    channel_status w' = channel_status w /\
    base_address w' = base_address w /\
    syscalls (trace w') = syscalls (trace w).

Lemma flush_loop_post_stop fuel left pos buf w :
  0 <= left ->
  match send_queue w with
  | [] => True
  | ch :: _ =>
    exists c pb pq, find_channel ch (channels w) = Some c /\
                    packet_queue c = pb :: pq /\
                    left < 3 + zlen (pb_data pb)
  end ->
  flush_loop_post fuel left pos buf w pos buf w.
Proof.
  intros Hleft Hstop. exists []. unfold frames, sent_on.
  cbn [map concat filter app]. change (zlen (@nil Z)) with 0.
  rewrite app_nil_r, Z.add_0_r, Z.sub_0_r.
  split; [| repeat split; auto].
  symmetry. apply taken_stop. destruct (send_queue w) as [| ch sq]; [exact I |].
  destruct Hstop as (c & pb & pq & Hc & Hpq & Hlt).
  exists pb, pq. unfold pq_of. rewrite Hc. auto.
Qed.

Lemma flush_loop_spec fuel :
  forall left pos buf w pos' buf' w',
  flush_loop fuel left pos buf w = Ret (pos', buf') w' ->
  0 <= left -> channel_ids_ok w ->
  flush_loop_post fuel left pos buf w pos' buf' w'.
Proof.
  induction fuel as [| fuel IH]; intros left pos buf w pos' buf' w' H Hleft Hids;
    rewrite flush_loop_eq in H.
  - run; pairs; apply flush_loop_post_stop; try assumption;
      match goal with E : send_queue _ = _ |- _ => rewrite E end; [exact I |].
    eexists _, _, _. repeat split; eauto. apply Z.ltb_lt. assumption.
  - apply bind_inv in H. destruct H as (sq & w0 & H0 & H).
    apply gets_inv in H0. destruct H0 as [-> ->].
    destruct (send_queue w) as [| ch sq_rest] eqn:Esq.
    { run. pairs. apply flush_loop_post_stop; [assumption |]. rewrite Esq. exact I. }
    apply bind_inv in H. destruct H as (c & w0 & H0 & H).
    apply deref_ch_inv in H0. destruct H0 as [-> Hc].
    destruct (packet_queue c) as [| pb pq_rest] eqn:Epq; [discriminate |].
    cbv zeta in H.
    destruct (left <? 3 + zlen (pb_data pb)) eqn:Elt.
    { run. pairs. apply flush_loop_post_stop; [assumption |]. rewrite Esq.
      eexists _, _, _. repeat split; eauto. apply Z.ltb_lt. assumption. }
    pose proof Elt as Elt'. apply Z.ltb_ge in Elt.
    apply bind_inv in H. destruct H as (u1 & w1 & H1 & H).
    apply update_ch_inv in H1. subst w1.
    apply bind_inv in H. destruct H as (u2 & w2 & H2 & H).
    apply modify_inv in H2. subst w2.
    apply bind_inv in H. destruct H as (u3 & w3 & H3 & H).
    pose proof (find_channel_id _ _ _ Hc) as Hid.
    pose proof (zlen_nonneg (pb_data pb)) as Hnn.
    rewrite Hid in H3, H.
    assert (F : send_queue w3 = match pq_rest with
                                | [] => sq_rest
                                | _ :: _ => sq_rest ++ [ch]
                                end /\
                channel_status w3 = channel_status w /\
                base_address w3 = base_address w /\
                syscalls (trace w3) = syscalls (trace w) /\
                channel_ids_ok w3 /\
                forall x, pq_of x (channels w) =
                          (if ch =? x then [pb] else []) ++ pq_of x (channels w3)).
    { assert (Hids1 : NoDup (map channel_id
                        (update_channel ch (set_packet_queue pq_rest) (channels w)))).
      { rewrite channel_ids_update by reflexivity. exact Hids. }
      destruct pq_rest as [| pb2 pq2].
      - pose proof (remove_channel_inv _ _ _ _ H3) as (E1 & E2 & E3 & E4 & E5).
        proj. repeat split; auto.
        + unfold channel_ids_ok. destruct E5 as [-> | (d & _ & _ & _ & ->)];
            [exact Hids1 | apply channel_ids_erase; exact Hids1].
        + intros x. rewrite (pq_of_pop _ _ _ _ _ x Hc Epq). f_equal.
          destruct E5 as [-> | (d & Hd & Hde & _ & ->)]; [reflexivity |].
          symmetry. eapply pq_of_erase; eauto.
      - apply modify_inv in H3. subst w3. proj. repeat split; auto.
        intros x. apply (pq_of_pop _ _ _ _ _ x Hc Epq). }
    clear H3. destruct F as (F1 & F2 & F3 & F4 & F5 & F6).
    apply IH in H; [| lia | exact F5].
    destruct H as (sent & S0 & S1 & S2 & S3 & S4 & S5 & S6 & S7 & S8).
    exists ((ch, pb) :: sent).
    assert (Hfr : frames ((ch, pb) :: sent) = frame ch pb ++ frames sent)
      by reflexivity.
    rewrite Hfr, zlen_app, zlen_frame.
    split.
    { rewrite Esq. cbn [taken].
      replace (pq_of ch (channels w)) with (pb :: pq_rest)
        by (unfold pq_of; rewrite Hc; symmetry; exact Epq).
      rewrite Elt'. cbv zeta. rewrite F1 in S0.
      rewrite (taken_ext fuel _ _ _ (fun x => pq_of x (channels w3))).
      - rewrite <- S0. reflexivity.
      - intros x. pose proof (F6 x) as Hx. rewrite (Z.eqb_sym x ch).
        destruct (ch =? x) eqn:Ex.
        + apply Z.eqb_eq in Ex. subst x. unfold pq_of in Hx at 1.
          rewrite Hc, Epq in Hx. cbn [app] in Hx. congruence.
        + exact Hx. }
    split; [rewrite S1, <- app_assoc; reflexivity |].
    split; [rewrite S2; lia |].
    split; [lia |].
    split.
    { intros x. rewrite F6, S4. unfold sent_on. simpl.
      destruct (ch =? x); reflexivity. }
    split.
    { destruct (send_queue w'); [exact I |].
      destruct S5 as (c' & pb' & pq' & G1 & G2 & G3).
      exists c', pb', pq'. repeat split; auto. lia. }
    repeat split; congruence.
Qed.

Lemma sq_ok_front chs ch sq :
  sq_ok chs (ch :: sq) ->
  exists c pb pq, find_channel ch chs = Some c /\ packet_queue c = pb :: pq.
Proof.
  intros [_ Hq]. destruct (Hq ch (or_introl eq_refl)) as (c & Hc & Hne).
  destruct (packet_queue c) as [| pb pq] eqn:E; [contradiction |].
  exists c, pb, pq. auto.
Qed.

(** The loop returns: it neither reads through a dangling pointer nor runs
    out of turns. *)
Lemma flush_loop_returns fuel :
  forall left pos buf w,
  send_queue_ok w -> left <= Z.of_nat fuel ->
  exists r w', flush_loop fuel left pos buf w = Ret r w'.
Proof.
  induction fuel as [| fuel IH]; intros left pos buf w Hok Hfuel;
    rewrite flush_loop_eq; unfold bind at 1; unfold gets at 1;
    unfold send_queue_ok in Hok;
    destruct (send_queue w) as [| ch sq] eqn:Esq; try (eexists _, _; reflexivity);
    destruct (sq_ok_front _ _ _ Hok) as (c & pb & pq & Hc & Hpq);
    erewrite bind_ret_eq by (apply deref_ch_eq; exact Hc);
    rewrite Hpq; cbv zeta;
    pose proof (zlen_nonneg (pb_data pb)) as Hnn;
    destruct (left <? 3 + zlen (pb_data pb)) eqn:Elt;
    try (eexists _, _; reflexivity); apply Z.ltb_ge in Elt.
  - simpl in Hfuel. lia.
  - erewrite bind_ret_eq by reflexivity.
    erewrite bind_ret_eq by reflexivity.
    pose proof (sq_ok_pop _ _ _ _ _ _ Hok Hc Hpq) as Hok1.
    destruct pq as [| pb2 pq2].
    + destruct (remove_channel_returns (channel_id c)
                  (set_send_queue sq
                     (set_channels
                        (update_channel ch (set_packet_queue []) (channels w)) w)))
        as (w3 & H3).
      erewrite bind_ret_eq by exact H3.
      apply IH; [| lia].
      eapply remove_channel_send_queue_ok; [exact H3 |].
      unfold send_queue_ok. proj. exact Hok1.
    + erewrite bind_ret_eq by reflexivity.
      apply IH; [| lia]. unfold send_queue_ok. proj. exact Hok1.
Qed.

Lemma transfer__eq tx len w :
  0 <= len <= 65536 ->
  transfer_ tx len w = Ret tt (set_trace (trace w ++ [ev_sys (c_spi tx len)]) w).
Proof.
  intros H. unfold transfer_.
  assert (E : (len <? 0) || (65536 <? len) = false).
  { apply orb_false_iff. split; [apply Z.ltb_ge | apply Z.ltb_ge]; lia. }
  rewrite E. reflexivity.
Qed.

(** The call [spi_write_mem] makes. *)
Definition sram_write (address : Z) (buf : list Z) (len : Z) : Call :=
  let hdr := sram_header WRITE_SRAM_CMD address in
  c_spi ([u8 (Z.land (Z.shiftr hdr 16) 255); u8 (Z.land (Z.shiftr hdr 8) 255);
          u8 (Z.land hdr 255)] ++ ztake len buf) (len + 3).

Lemma spi_write_mem_eq address buf len w :
  0 <= len <= 65533 ->
  spi_write_mem address buf len w =
  Ret tt (set_trace (trace w ++ [ev_sys (sram_write address buf len)]) w).
Proof. intros H. unfold spi_write_mem, sram_write. apply transfer__eq. lia. Qed.

Lemma spi_payload_sram_write address buf len :
  spi_payload (sram_write address buf len) = ztake len buf.
Proof. reflexivity. Qed.

Lemma ztake_all {A} (l : list A) : ztake (zlen l) l = l.
Proof. unfold ztake, zlen. rewrite Nat2Z.id. apply firstn_all. Qed.

Lemma ztake_zdrop {A} n (l : list A) : ztake n l ++ zdrop n l = l.
Proof. unfold ztake, zdrop. apply firstn_skipn. Qed.

Lemma zlen_zdrop {A} n (l : list A) : 0 <= n <= zlen l -> zlen (zdrop n l) = zlen l - n.
Proof. unfold zlen, zdrop. intros H. rewrite length_skipn. lia. Qed.

Lemma land_255 x : Z.land x 255 = x mod 256.
Proof. apply u8_mod. Qed.

(** The length of the R2A ring. *)
Definition r2a_len (w : World) : Z :=
  Z.land (cs_get R2A_TAIL_OFFSET (channel_status w) -
          cs_get R2A_HEAD_OFFSET (channel_status w)) 255.

Lemma r2a_len_advance cs n :
  0 <= n ->
  Z.land (cs_get R2A_TAIL_OFFSET cs - cs_get R2A_HEAD_OFFSET cs) 255 + n <= 255 ->
  Z.land (cs_get R2A_TAIL_OFFSET
            (cs_set R2A_TAIL_OFFSET (Z.land (cs_get R2A_TAIL_OFFSET cs + n) 255) cs) -
          cs_get R2A_HEAD_OFFSET
            (cs_set R2A_TAIL_OFFSET (Z.land (cs_get R2A_TAIL_OFFSET cs + n) 255) cs))
    255 =
  Z.land (cs_get R2A_TAIL_OFFSET cs - cs_get R2A_HEAD_OFFSET cs) 255 + n.
Proof.
  intros Hn Hle. unfold cs_get, cs_set, R2A_TAIL_OFFSET, R2A_HEAD_OFFSET in *.
  simpl in *. unfold u8 in *. rewrite !land_255 in *.
  rewrite !Z.mod_mod by lia.
  pose proof (Z.mod_pos_bound (cs2 cs mod 256 - cs1 cs mod 256) 256 ltac:(lia)) as Hb.
  rewrite Zminus_mod_idemp_l.
  replace (cs2 cs mod 256 + n - cs1 cs mod 256)
    with ((cs2 cs mod 256 - cs1 cs mod 256) + n) by lia.
  rewrite <- Zplus_mod_idemp_l. apply Z.mod_small. lia.
Qed.

Lemma r2a_len_range w : 0 <= r2a_len w <= 255.
Proof. apply land_255_range. Qed.

Lemma land_255_wrap tail n :
  Z.land (0 + (n - (256 - tail))) 255 = Z.land (tail + n) 255.
Proof.
  rewrite !land_255. replace (0 + (n - (256 - tail))) with (tail + n + (-1) * 256) by lia.
  apply Z.mod_add. lia.
Qed.

Lemma cs_get_range i cs : 0 <= cs_get i cs < 256.
Proof. unfold cs_get. apply u8_range. Qed.

Lemma cs_get_set_tail v cs :
  cs_get R2A_TAIL_OFFSET (cs_set R2A_TAIL_OFFSET (Z.land v 255) cs) = Z.land v 255.
Proof.
  change (u8 (u8 (u8 v)) = u8 v). unfold u8.
  rewrite <- !Z.land_assoc. reflexivity.
Qed.

(** The calls with which [flush_send_queue] writes [n] bytes of [data]
    into the R2A ring of 256 bytes, which lies at [base + 260], from the index
    [tail] on: one write, or two when the bytes go around the end of the
    ring, the first up to the end and the second from the start. *)
Definition ring_writes (base tail : Z) (data : list Z) (n : Z) : list Call :=
  if n =? 0 then []
  else if 256 - tail <? n then
    [sram_write (base + 260 + tail) data (256 - tail);
     sram_write (base + 260 + 0) (zdrop (256 - tail) data) (n - (256 - tail))]
  else [sram_write (base + 260 + tail) data n].

(** C1. In a world whose send queue is in order, [flush_send_queue] returns.
    The packets it writes into the R2A ring, [sent], are the packets [taken]
    in turn from the channels of the send queue, up to the first packet that
    does not fit in the [255 - r2a_len w] bytes of room, and the send queue
    it leaves is the one [taken] leaves: whole packets, each from the front
    of its channel's queue, the other packets staying queued in their order.
    Their frames are at most [255 - r2a_len w] bytes, and the packet left at
    the front of the send queue does not fit in the room that remains.  The
    frames are written with [ring_writes], at the tail of the ring, and the
    tail moves on by their length; the ring holds [r2a_len w] plus the bytes
    written afterwards, at most 255.  The result says whether anything was
    written. *)
Theorem flush_send_queue_within_ring w :
  send_queue_ok w -> channel_ids_ok w ->
  exists b w' sent calls,
    flush_send_queue w = Ret b w' /\
    (sent, send_queue w') =
      taken (Z.to_nat (255 - r2a_len w)) (255 - r2a_len w) (send_queue w)
        (fun ch => pq_of ch (channels w)) /\
    b = negb (zlen (frames sent) =? 0) /\
    zlen (frames sent) <= 255 - r2a_len w /\
    (forall ch, pq_of ch (channels w) = sent_on ch sent ++ pq_of ch (channels w')) /\
    match send_queue w' with
    | [] => True
    | ch :: _ =>
      exists c pb pq, find_channel ch (channels w') = Some c /\
                      packet_queue c = pb :: pq /\
                      255 - r2a_len w - zlen (frames sent) < 3 + zlen (pb_data pb)
    end /\
    syscalls (trace w') = syscalls (trace w) ++ calls /\
    calls = ring_writes (base_address w)
              (cs_get R2A_TAIL_OFFSET (channel_status w))
              (frames sent) (zlen (frames sent)) /\
    concat (map spi_payload calls) = frames sent /\
    cs_get R2A_TAIL_OFFSET (channel_status w') =
      Z.land (cs_get R2A_TAIL_OFFSET (channel_status w) + zlen (frames sent)) 255 /\
    cs_get R2A_HEAD_OFFSET (channel_status w') =
      cs_get R2A_HEAD_OFFSET (channel_status w) /\
    r2a_len w' = r2a_len w + zlen (frames sent) /\
    r2a_len w' <= 255.
Proof.
  intros Hok Hids. pose proof (r2a_len_range w) as Hr.
  destruct (flush_loop_returns (Z.to_nat (255 - r2a_len w)) (255 - r2a_len w) 0 [] w Hok)
    as ([pos' buf'] & w1 & Hloop); [lia |].
  destruct (flush_loop_spec _ _ _ _ _ _ _ _ Hloop ltac:(lia) Hids)
    as (sent & S0 & S1 & S2 & S3 & S4 & S5 & S6 & S7 & S8).
  simpl in S1. rewrite Z.add_0_l in S2. subst pos' buf'.
  pose proof (zlen_nonneg (frames sent)) as Hnn.
  pose proof (cs_get_range R2A_TAIL_OFFSET (channel_status w)) as Htail.
  unfold flush_send_queue. unfold bind at 1. unfold gets at 1. cbv zeta.
  unfold r2a_len in Hloop. rewrite (bind_ret_eq _ _ _ _ _ Hloop). cbn [fst snd].
  destruct (zlen (frames sent) =? 0) eqn:Ez.
  - exists false, w1, sent, [].
    split; [reflexivity |]. split; [exact S0 |].
    split; [rewrite Ez; reflexivity |].
    assert (Er : ring_writes (base_address w)
                   (cs_get R2A_TAIL_OFFSET (channel_status w))
                   (frames sent) (zlen (frames sent)) = [])
      by (unfold ring_writes; rewrite Ez; reflexivity).
    apply Z.eqb_eq in Ez. split; [exact S3 |].
    split; [exact S4 |]. split; [exact S5 |].
    split; [rewrite app_nil_r; exact S8 |].
    split; [symmetry; exact Er |].
    split.
    { simpl. symmetry. apply length_zero_iff_nil. unfold zlen in Ez. lia. }
    rewrite S6, Ez, Z.add_0_r.
    split; [symmetry; rewrite land_255; apply Z.mod_small; lia |].
    split; [reflexivity |].
    unfold r2a_len. rewrite S6. fold (r2a_len w). lia.
  - assert (Hb : true = negb (zlen (frames sent) =? 0)) by (rewrite Ez; reflexivity).
    pose proof Ez as Ez'.
    apply Z.eqb_neq in Ez.
    erewrite bind_ret_eq by reflexivity. rewrite S7.
    set (tail := cs_get R2A_TAIL_OFFSET (channel_status w)) in *.
    set (n := zlen (frames sent)) in *.
    destruct (256 - tail <? n) eqn:Ewrap.
    + apply Z.ltb_lt in Ewrap.
      erewrite bind_ret_eq.
      2:{ erewrite bind_ret_eq by (apply spi_write_mem_eq; lia). reflexivity. }
      cbn [fst snd].
      erewrite bind_ret_eq by (apply spi_write_mem_eq; lia).
      erewrite bind_ret_eq by reflexivity.
      erewrite bind_ret_eq by reflexivity.
      eexists true, _, sent, _.
      split; [reflexivity |]. split; [exact S0 |]. split; [exact Hb |].
      split; [exact S3 |].
      proj. split; [exact S4 |]. split; [exact S5 |].
      split.
      { rewrite <- app_assoc, !syscalls_app, S8. simpl. reflexivity. }
      split.
      { unfold ring_writes. fold n. rewrite Ez'.
        replace (256 - tail <? n) with true by (symmetry; apply Z.ltb_lt; exact Ewrap).
        reflexivity. }
      split.
      { cbn [map concat]. rewrite !spi_payload_sram_write, app_nil_r.
        replace (n - (256 - tail))
          with (zlen (zdrop (256 - tail) (frames sent)))
          by (rewrite zlen_zdrop; fold n; lia).
        rewrite ztake_all. apply ztake_zdrop. }
      rewrite S6. fold tail.
      split; [rewrite land_255_wrap; apply cs_get_set_tail |].
      split; [reflexivity |].
      unfold r2a_len. simpl channel_status. rewrite ?S6, ?land_255_wrap.
      subst tail n. rewrite r2a_len_advance by (fold (r2a_len w); lia).
      fold (r2a_len w). lia.
    + apply Z.ltb_ge in Ewrap.
      erewrite bind_ret_eq by reflexivity.
      cbn [fst snd].
      erewrite bind_ret_eq by (apply spi_write_mem_eq; lia).
      erewrite bind_ret_eq by reflexivity.
      erewrite bind_ret_eq by reflexivity.
      eexists true, _, sent, _.
      split; [reflexivity |]. split; [exact S0 |]. split; [exact Hb |].
      split; [exact S3 |].
      proj. split; [exact S4 |]. split; [exact S5 |].
      split.
      { rewrite syscalls_app, S8. simpl. reflexivity. }
      split.
      { unfold ring_writes. fold n. rewrite Ez'.
        replace (256 - tail <? n) with false by (symmetry; apply Z.ltb_ge; exact Ewrap).
        reflexivity. }
      split.
      { cbn [map concat]. rewrite !spi_payload_sram_write, app_nil_r.
        apply ztake_all. }
      rewrite S6. fold tail.
      split; [apply cs_get_set_tail |].
      split; [reflexivity |].
      unfold r2a_len. simpl channel_status. rewrite ?S6.
      subst tail n. rewrite r2a_len_advance by (fold (r2a_len w); lia).
      fold (r2a_len w). lia.
Qed.

(** The Amiga asked for the unknown service "x" on channel 9; the answer is
    queued and the R2A ring is empty. *)
Definition world_answer_queued : World :=
  after (handle_received_pkt PKT_CONNECT 9 (ptr [120]) 1) (initial_world [] []).

Lemma world_answer_queued_reachable : reachable world_answer_queued.
Proof.
  apply (reach_step (initial_world [] [])); [apply reach_init |].
  apply (step_handle_received_pkt _ _ PKT_CONNECT 9 (ptr [120]) 1).
  vm_compute. reflexivity.
Defined.

Example flush_answer :
  exists w',
    flush_send_queue world_answer_queued = Ret true w' /\
    syscalls (trace w') = [sram_write 260 [1; PKT_CONNECT_RESPONSE; 9; 3] 4] /\
    channels w' = [] /\ send_queue w' = [] /\ r2a_len w' = 4.
Proof. eexists. vm_compute. repeat split; reflexivity. Qed.

Lemma flush_send_queue_within_ring_witness :
  exists b w' sent calls,
    flush_send_queue world_answer_queued = Ret b w' /\
    (sent, send_queue w') =
      taken (Z.to_nat (255 - r2a_len world_answer_queued))
        (255 - r2a_len world_answer_queued) (send_queue world_answer_queued)
        (fun ch => pq_of ch (channels world_answer_queued)) /\
    b = negb (zlen (frames sent) =? 0) /\
    zlen (frames sent) <= 255 - r2a_len world_answer_queued /\
    (forall ch, pq_of ch (channels world_answer_queued) =
                sent_on ch sent ++ pq_of ch (channels w')) /\
    match send_queue w' with
    | [] => True
    | ch :: _ =>
      exists c pb pq, find_channel ch (channels w') = Some c /\
                      packet_queue c = pb :: pq /\
                      255 - r2a_len world_answer_queued - zlen (frames sent) <
                      3 + zlen (pb_data pb)
    end /\
    syscalls (trace w') = syscalls (trace world_answer_queued) ++ calls /\
    calls = ring_writes (base_address world_answer_queued)
              (cs_get R2A_TAIL_OFFSET (channel_status world_answer_queued))
              (frames sent) (zlen (frames sent)) /\
    concat (map spi_payload calls) = frames sent /\
    cs_get R2A_TAIL_OFFSET (channel_status w') =
      Z.land (cs_get R2A_TAIL_OFFSET (channel_status world_answer_queued) +
              zlen (frames sent)) 255 /\
    cs_get R2A_HEAD_OFFSET (channel_status w') =
      cs_get R2A_HEAD_OFFSET (channel_status world_answer_queued) /\
    r2a_len w' = r2a_len world_answer_queued + zlen (frames sent) /\
    r2a_len w' <= 255.
Proof.
  apply (flush_send_queue_within_ring world_answer_queued).
  - split.
    + repeat constructor. simpl. tauto.
    + intros ch [<- | []]. eexists. split; [reflexivity | discriminate].
  - repeat constructor. simpl. tauto.
Defined.

(** * Erasing channels (C2) *)

(** The channel records erased so far, as they were when they were erased. *)
Definition erased (t : list Event) : list LogicalChannel :=
  flat_map (fun e => match e with ev_erase c => [c] | _ => [] end) t.

Lemma erased_app t t' : erased (t ++ t') = erased t ++ erased t'.
Proof. unfold erased. apply flat_map_app. Qed.

(** [no_erasure m]: [m] erases no channel and leaves [channels] alone. *)
Definition no_erasure {A} (m : M A) : Prop :=
  forall w a w', m w = Ret a w' ->
  erased (trace w') = erased (trace w) /\ channels w' = channels w.

Lemma no_erasure_bind {A B} (m : M A) (k : A -> M B) :
  no_erasure m -> (forall a, no_erasure (k a)) -> no_erasure (bind m k).
Proof.
  intros Hm Hk w b w' H. apply bind_inv in H. destruct H as (a & w1 & H1 & H2).
  destruct (Hm _ _ _ H1) as [E1 E2]. destruct (Hk _ _ _ _ H2) as [E3 E4].
  split; congruence.
Qed.

Lemma no_erasure_ret {A} (a : A) : no_erasure (ret a).
Proof. intros w b w' H. run. auto. Qed.

Lemma no_erasure_exit {A} c : no_erasure (@exit A c).
Proof. intros w b w' H. discriminate. Qed.

Lemma no_erasure_fault {A} : no_erasure (@fault A).
Proof. intros w b w' H. discriminate. Qed.

Lemma no_erasure_stuck {A} : no_erasure (@stuck A).
Proof. intros w b w' H. discriminate. Qed.

Lemma no_erasure_sys c : no_erasure (sys c).
Proof.
  intros w b w' H. run. proj. rewrite erased_app. simpl. rewrite app_nil_r. auto.
Qed.

Lemma no_erasure_log_msg cc ty sid data : no_erasure (log (ev_msg cc ty sid data)).
Proof.
  intros w b w' H. run. proj. rewrite erased_app. simpl. rewrite app_nil_r. auto.
Qed.

Lemma no_erasure_deref_cc cc : no_erasure (deref_cc cc).
Proof. intros w b w' H. run. auto. Qed.

Lemma no_erasure_update_cc cc f : no_erasure (update_cc cc f).
Proof. intros w b w' H. run. auto. Qed.

Lemma no_erasure_resize_and_copy data n : no_erasure (resize_and_copy data n).
Proof. intros w b w' H. run. auto. Qed.

Lemma no_erasure_fueled {A} (f : nat -> M A) g :
  (forall n, no_erasure (f n)) -> no_erasure (fueled g f).
Proof. intros H w a w' E. eapply H; eauto. Qed.

Create HintDb erasure.
#[export] Hint Resolve no_erasure_ret no_erasure_exit no_erasure_fault
  no_erasure_stuck no_erasure_sys no_erasure_log_msg no_erasure_deref_cc
  no_erasure_update_cc no_erasure_resize_and_copy : erasure.

Ltac no_erasure_step :=
  match goal with
  | |- no_erasure (bind _ _) => apply no_erasure_bind; [| intro]
  | |- no_erasure (fueled _ _) => apply no_erasure_fueled; intro
  | |- no_erasure (match ?x with _ => _ end) => destruct x
  | |- no_erasure _ => solve [eauto with erasure]
  end.

Lemma no_erasure_send_loop fuel cc mb : no_erasure (send_loop fuel cc mb).
Proof.
  revert mb. induction fuel as [| fuel IH]; intros mb; simpl.
  - apply no_erasure_stuck.
  - unfold push_message. repeat no_erasure_step.
Qed.
#[export] Hint Resolve no_erasure_send_loop : erasure.

Lemma no_erasure_create_and_send_msg cc ty sid data len :
  no_erasure (create_and_send_msg cc ty sid data len).
Proof. unfold create_and_send_msg, push_message. repeat no_erasure_step. Qed.

(** What [remove_association] does to the channels. *)
Lemma remove_association_inv ch w a w' :
  remove_association ch w = Ret a w' ->
  erased (trace w') = erased (trace w) /\
  channels w' =
  update_channel ch (fun c => set_stream_id 0 (set_association None c)) (channels w).
Proof. intros H. unfold remove_association in H. run. proj. auto. Qed.

Lemma close_loop_erased fuel :
  forall w a w', close_loop fuel w = Ret a w' ->
  exists l, erased (trace w') = erased (trace w) ++ l /\
            Forall (fun c => association c = None) l.
Proof.
  induction fuel as [| fuel IH]; intros w a w' H; simpl in H.
  - run. exists []. rewrite app_nil_r. auto.
  - apply bind_inv in H. destruct H as (chs & w0 & H0 & H).
    apply gets_inv in H0. destruct H0 as [-> ->].
    destruct (channels w) as [| ch rest] eqn:Ech.
    { run. exists []. rewrite app_nil_r. auto. }
    apply bind_inv in H. destruct H as (u & w1 & H1 & H).
    assert (F1 : erased (trace w1) = erased (trace w) /\
                 exists it rest1, channels w1 = it :: rest1 /\ association it = None).
    { destruct (association ch) as [cc |] eqn:Eas.
      - apply bind_inv in H1. destruct H1 as (u1 & w2 & H1 & H2).
        apply no_erasure_create_and_send_msg in H1. destruct H1 as [E1 E2].
        apply remove_association_inv in H2. destruct H2 as [E3 E4].
        split; [congruence |]. rewrite E4, E2, Ech. simpl.
        rewrite Z.eqb_refl. eexists _, _. split; [reflexivity | reflexivity].
      - run. split; [reflexivity |]. eexists _, _. split; [exact Ech | exact Eas]. }
    clear H1. destruct F1 as (E1 & it & rest1 & E2 & E3).
    apply bind_inv in H. destruct H as (chs' & w2 & H2 & H).
    apply gets_inv in H2. destruct H2 as [-> ->]. rewrite E2 in H.
    apply bind_inv in H. destruct H as (u2 & w3 & H3 & H).
    assert (F3 : erased (trace w3) = erased (trace w1) ++ [it]).
    { run. proj. rewrite erased_app. reflexivity. }
    clear H3. apply IH in H. destruct H as (l & L1 & L2).
    exists (it :: l). split.
    + rewrite L1, F3, E1, <- app_assoc. reflexivity.
    + constructor; assumption.
Qed.

(** C2, as the code has it.  [remove_channel_if_not_associated_and_empty_pq]
    erases at most the record with the id it is given, and only when its
    [association] is null and its [packet_queue] is empty.
    [close_all_logical_channels] erases every record; each is dissociated
    before it is erased, whatever its [packet_queue] holds. *)
Theorem channel_erasure_conditions :
  (forall cid w a w',
     remove_channel_if_not_associated_and_empty_pq cid w = Ret a w' ->
     (erased (trace w') = erased (trace w) /\ channels w' = channels w) \/
     (exists c, find_channel cid (channels w) = Some c /\
                association c = None /\ packet_queue c = [] /\
                erased (trace w') = erased (trace w) ++ [c] /\
                channels w' = erase_channel cid (channels w))) /\
  (forall w a w',
     close_all_logical_channels w = Ret a w' ->
     channels w' = [] /\ send_queue w' = [] /\
     exists l, erased (trace w') = erased (trace w) ++ l /\
               Forall (fun c => association c = None) l).
Proof.
  split.
  - intros cid w a w' H.
    unfold remove_channel_if_not_associated_and_empty_pq in H. run; auto.
    right. eexists. proj. rewrite erased_app. simpl. repeat split; eauto.
  - intros w a w' H.
    pose proof (close_all_logical_channels_spec _ _ _ H) as (_ & E2 & E3).
    split; [exact E3 |]. split; [exact E2 |].
    unfold close_all_logical_channels in H.
    apply bind_inv in H. destruct H as (u & w1 & H1 & H).
    apply modify_inv in H1. subst w1. unfold fueled in H.
    apply close_loop_erased in H. proj. exact H.
Qed.

Lemma channel_erasure_conditions_witness :
  channels (after close_all_logical_channels world_unknown_service) = [] /\
  send_queue (after close_all_logical_channels world_unknown_service) = [] /\
  exists l,
    erased (trace (after close_all_logical_channels world_unknown_service)) =
      erased (trace world_unknown_service) ++ l /\
    Forall (fun c => association c = None) l.
Proof.
  apply (proj2 channel_erasure_conditions world_unknown_service tt).
  vm_compute. reflexivity.
Defined.

(** The claim as it is written fails: after the peer's reset,
    [close_all_logical_channels] erases channel 9 while its answer is still
    in its [packet_queue]. *)
Lemma close_all_erases_queued_channel :
  exists w' c,
    close_all_logical_channels world_unknown_service = Ret tt w' /\
    erased (trace world_unknown_service) = [] /\
    erased (trace w') = [c] /\
    association c = None /\
    packet_queue c = [mkPacketBuffer PKT_CONNECT_RESPONSE [CONNECT_UNKNOWN_SERVICE]] /\
    ~ (association c = None /\ packet_queue c = []).
Proof.
  eexists _, _. split; [vm_compute; reflexivity |].
  split; [vm_compute; reflexivity |]. split; [vm_compute; reflexivity |].
  split; [reflexivity |]. split; [reflexivity |].
  intros [_ H]. discriminate H.
Qed.

(** * The interrupt and the base address (C4) *)

(** The call [spi_read_cmem] makes. *)
Definition cmem_read (address : Z) : Call :=
  c_spi [u8 (Z.lor (Z.shiftl READ_CMEM_CMD 4) (Z.land address 15)); 0] 2.

(** The byte [spi_read_cmem] returns, [rx_buf[1]]. *)
Definition cmem_value (r : SysRes) : Z := u8 (nth 1 (sr_data r) 0).

(** A result the bus can give to a transfer of two bytes. *)
Definition cmem_answer (r : SysRes) : Prop := zlen (sr_data r) = 2.

Lemma spi_read_cmem_eq address w r rest :
  script w = r :: rest -> cmem_answer r ->
  spi_read_cmem address w =
  Ret (cmem_value r)
      (set_trace (trace w ++ [ev_sys (cmem_read address)]) (set_script rest w)).
Proof.
  intros Hs Hr. unfold spi_read_cmem, transfer.
  change ((2 <? 0) || (65536 <? 2)) with false. cbv iota.
  erewrite bind_ret_eq.
  2:{ erewrite bind_ret_eq by (apply sys_eq; exact Hs).
      unfold cmem_answer in Hr. rewrite Hr. reflexivity. }
  unfold ret, cmem_value. f_equal.
  change 0 with (u8 0) at 1. apply map_nth.
Qed.

(** The value the loop of [read_base_address] builds from the bytes read. *)
Fixpoint or_nibbles (addrs vs : list Z) (ba : Z) : Z :=
  match addrs, vs with
  | i :: addrs', v :: vs' => or_nibbles addrs' vs' (u32 (Z.lor ba (Z.shiftl v (i * 4))))
  | _, _ => ba
  end.

Lemma read_nibbles_spec addrs :
  forall ba w rs rest,
  script w = rs ++ rest -> List.length rs = List.length addrs ->
  Forall cmem_answer rs ->
  exists w',
    read_nibbles addrs ba w = Ret (or_nibbles addrs (map cmem_value rs) ba) w' /\
    script w' = rest /\
    trace w' = trace w ++ map (fun a => ev_sys (cmem_read a)) addrs /\
    have_base_address w' = have_base_address w /\
    base_address w' = base_address w /\
    core w' = core w /\ connections w' = connections w.
Proof.
  induction addrs as [| i addrs IH]; intros ba w rs rest Hs Hlen Hrs.
  - destruct rs; [| discriminate]. simpl in Hs. exists w. simpl.
    rewrite app_nil_r. repeat split; auto.
  - destruct rs as [| r rs]; [discriminate |]. simpl in Hs, Hlen.
    inversion Hrs as [| ? ? Hr Hrs']; subst.
    destruct (IH (u32 (Z.lor ba (Z.shiftl (cmem_value r) (i * 4))))
                (set_trace (trace w ++ [ev_sys (cmem_read i)])
                   (set_script (rs ++ rest) w))
                rs rest eq_refl ltac:(lia) Hrs')
      as (w' & E1 & E2 & E3 & E4 & E5 & E6 & E7).
    exists w'. simpl.
    erewrite bind_ret_eq by (apply (spi_read_cmem_eq i w r (rs ++ rest)); assumption).
    split; [exact E1 |]. proj.
    rewrite <- app_assoc in E3. repeat split; assumption.
Qed.

(** The rest of [handle_a314_irq], after the base address was looked at. *)
Definition service_rings : M unit :=
  hba' <- gets have_base_address;;
  if negb hba' then ret tt
  else
    read_channel_status;;
    any_rcvd <- receive_from_a2r;;
    any_sent <- flush_send_queue;;
    when (any_rcvd || any_sent) write_channel_status.

(** What [read_base_address] reads and what it caches. *)
Lemma read_base_address_spec w rs1 rest :
  script w = rs1 ++ rest -> List.length rs1 = 5%nat -> Forall cmem_answer rs1 ->
  let ba1 := or_nibbles [0; 1; 2; 3; 4] (map cmem_value rs1) 0 in
  (Z.land ba1 1 <> 1 ->
   exists w',
     read_base_address w = Ret tt w' /\
     have_base_address w' = false /\ base_address w' = base_address w /\
     script w' = rest /\
     trace w' = trace w ++ map (fun a => ev_sys (cmem_read a)) [0; 1; 2; 3; 4]) /\
  (Z.land ba1 1 = 1 ->
   forall rs2 rest2,
   rest = rs2 ++ rest2 -> List.length rs2 = 5%nat -> Forall cmem_answer rs2 ->
   let ba2 := or_nibbles [0; 1; 2; 3; 4] (map cmem_value rs2) 0 in
   exists w',
     read_base_address w = Ret tt w' /\
     have_base_address w' = (ba1 =? ba2) /\
     base_address w' = (if ba1 =? ba2 then Z.land ba1 (Z.lnot 1) else base_address w) /\
     script w' = rest2 /\
     trace w' = trace w ++ map (fun a => ev_sys (cmem_read a)) [0; 1; 2; 3; 4]
                        ++ map (fun a => ev_sys (cmem_read a)) [0; 1; 2; 3; 4]).
Proof.
  intros Hs Hlen Hrs ba1.
  destruct (read_nibbles_spec [0; 1; 2; 3; 4] 0 (set_have_base_address false w)
              rs1 rest Hs Hlen Hrs)
    as (w1 & E1 & E2 & E3 & E4 & E5 & _ & _).
  fold ba1 in E1. proj. split.
  - intros Hlow. exists w1. unfold read_base_address.
    erewrite bind_ret_eq by reflexivity.
    erewrite bind_ret_eq by exact E1.
    apply Z.eqb_neq in Hlow. rewrite Hlow. repeat split; assumption.
  - intros Hlow rs2 rest2 Hs2 Hlen2 Hrs2 ba2.
    rewrite Hs2 in E2.
    destruct (read_nibbles_spec [0; 1; 2; 3; 4] 0 w1 rs2 rest2 E2 Hlen2 Hrs2)
      as (w2 & F1 & F2 & F3 & F4 & F5 & _ & _).
    fold ba2 in F1. unfold read_base_address.
    erewrite bind_ret_eq by reflexivity.
    erewrite bind_ret_eq by exact E1.
    apply Z.eqb_eq in Hlow. rewrite Hlow.
    erewrite bind_ret_eq by exact F1.
    destruct (ba1 =? ba2).
    + erewrite bind_ret_eq by reflexivity.
      eexists. split; [reflexivity |]. proj.
      rewrite F3, E3, <- app_assoc. repeat split; auto.
    + exists w2. split; [reflexivity |].
      rewrite F3, E3, <- app_assoc. repeat split; congruence.
Qed.

Lemma bind_assoc {A B C} (m : M A) (f : A -> M B) (g : B -> M C) w :
  bind (bind m f) g w = bind m (fun a => bind (f a) g) w.
Proof. unfold bind. destruct (m w); reflexivity. Qed.

(** C4, as the code has it.  [handle_a314_irq] first reads (and so
    acknowledges) [R_EVENTS].  When the events read are zero it returns at
    once.  When they are not zero and [R_EVENT_BASE_ADDRESS] is among them or no
    base address is cached, it closes all channels and runs
    [read_base_address] before it serves the rings; otherwise it serves the
    rings with the cached address.  [read_base_address] reads CMEM 0..4 once,
    and once more only if the low bit of the value read is 1; it has a base
    address only if both values are equal, and caches the value with the low
    bit cleared. *)
Theorem irq_acknowledges_and_rediscovers :
  (forall w r rest,
     script w = r :: rest -> cmem_answer r ->
     let events := cmem_value r in
     let w1 := set_trace (trace w ++ [ev_sys (cmem_read R_EVENTS_ADDRESS)])
                 (set_script rest w) in
     (events = 0 -> handle_a314_irq w = Ret tt w1) /\
     (events <> 0 ->
      Z.land events R_EVENT_BASE_ADDRESS <> 0 \/ have_base_address w = false ->
      handle_a314_irq w =
      (close_all_logical_channels;; read_base_address;; service_rings) w1) /\
     (events <> 0 ->
      Z.land events R_EVENT_BASE_ADDRESS = 0 -> have_base_address w = true ->
      handle_a314_irq w = service_rings w1)) /\
  (forall w rs1 rest,
     script w = rs1 ++ rest -> List.length rs1 = 5%nat -> Forall cmem_answer rs1 ->
     let ba1 := or_nibbles [0; 1; 2; 3; 4] (map cmem_value rs1) 0 in
     (Z.land ba1 1 <> 1 ->
      exists w',
        read_base_address w = Ret tt w' /\
        have_base_address w' = false /\ base_address w' = base_address w /\
        script w' = rest /\
        trace w' = trace w ++ map (fun a => ev_sys (cmem_read a)) [0; 1; 2; 3; 4]) /\
     (Z.land ba1 1 = 1 ->
      forall rs2 rest2,
      rest = rs2 ++ rest2 -> List.length rs2 = 5%nat -> Forall cmem_answer rs2 ->
      let ba2 := or_nibbles [0; 1; 2; 3; 4] (map cmem_value rs2) 0 in
      exists w',
        read_base_address w = Ret tt w' /\
        have_base_address w' = (ba1 =? ba2) /\
        base_address w' =
          (if ba1 =? ba2 then Z.land ba1 (Z.lnot 1) else base_address w) /\
        script w' = rest2 /\
        trace w' = trace w ++ map (fun a => ev_sys (cmem_read a)) [0; 1; 2; 3; 4]
                           ++ map (fun a => ev_sys (cmem_read a)) [0; 1; 2; 3; 4])).
Proof.
  split; [| exact read_base_address_spec].
  intros w r rest Hs Hr events w1.
  assert (Hack : forall (k : Z -> M unit),
            bind spi_ack_irq k w = k events w1).
  { intros k. apply bind_ret_eq. unfold spi_ack_irq.
    apply spi_read_cmem_eq; assumption. }
  unfold handle_a314_irq. rewrite Hack. fold service_rings.
  split; [| split].
  - intros E. rewrite E. reflexivity.
  - intros Hne Hcond. apply Z.eqb_neq in Hne. rewrite Hne.
    unfold bind at 1. unfold gets at 1.
    assert (Hc : negb (Z.land events R_EVENT_BASE_ADDRESS =? 0) ||
                 negb (have_base_address w1) = true).
    { apply orb_true_iff. destruct Hcond as [Hbit | Hno].
      - left. apply negb_true_iff. apply Z.eqb_neq. exact Hbit.
      - right. unfold w1. proj. rewrite Hno. reflexivity. }
    rewrite Hc. apply bind_assoc.
  - intros Hne Hbit Hhave. apply Z.eqb_neq in Hne. rewrite Hne.
    unfold bind at 1. unfold gets at 1.
    assert (Hc : negb (Z.land events R_EVENT_BASE_ADDRESS =? 0) ||
                 negb (have_base_address w1) = false).
    { apply orb_false_iff. split.
      - apply negb_false_iff. apply Z.eqb_eq. exact Hbit.
      - unfold w1. proj. rewrite Hhave. reflexivity. }
    rewrite Hc. reflexivity.
Qed.

(** The board announces nothing; the daemon has no base address yet. *)
Definition world_no_events : World :=
  initial_world []
    [ok_data [0; 0];
     ok_data [0; 1]; ok_data [0; 0]; ok_data [0; 0]; ok_data [0; 0]; ok_data [0; 0];
     ok_data [0; 1]; ok_data [0; 0]; ok_data [0; 0]; ok_data [0; 0]; ok_data [0; 0]].

Lemma irq_acknowledges_and_rediscovers_witness :
  handle_a314_irq world_before_irq =
  (close_all_logical_channels;; read_base_address;; service_rings)
    (set_trace (trace world_before_irq ++ [ev_sys (cmem_read R_EVENTS_ADDRESS)])
       (set_script (tl (script world_before_irq)) world_before_irq)).
Proof.
  apply (proj1 irq_acknowledges_and_rediscovers world_before_irq
           (ok_data [0; 1]) (tl (script world_before_irq))).
  - reflexivity.
  - reflexivity.
  - vm_compute. discriminate.
  - right. reflexivity.
Defined.

(** The claim as it is written fails: with no event announced the handler
    returns after the acknowledgement; it does not read CMEM 0..4 although
    no base address is cached and the board would answer. *)
Lemma irq_without_events_skips_rediscovery :
  have_base_address world_no_events = false /\
  exists w',
    handle_a314_irq world_no_events = Ret tt w' /\
    syscalls (trace w') = [cmem_read R_EVENTS_ADDRESS] /\
    have_base_address w' = false /\
    List.length (script w') = 10%nat.
Proof.
  split; [reflexivity |]. eexists. vm_compute. repeat split; reflexivity.
Qed.

(** * Messages handed to clients *)

(** The messages handed to [create_and_send_msg] so far: client, type,
    stream id and payload. *)
Definition messages (t : list Event) : list (Z * Z * Z * list Z) :=
  flat_map (fun e => match e with
                     | ev_msg cc ty sid data => [(cc, ty, sid, data)]
                     | _ => []
                     end) t.

Lemma messages_app t t' : messages (t ++ t') = messages t ++ messages t'.
Proof. unfold messages. apply flat_map_app. Qed.

(** What the multiplexer knows of a client: its descriptor and the channels
    associated with it. *)
Definition skel (k : ClientConnection) : Z * list Z := (fd k, associations k).

(** The tables, the clients and their associations, the messages handed over
    and the channels erased. *)
Definition view (w : World) :=
  (core w, map skel (connections w), messages (trace w), erased (trace w)).

(** [quiet m]: [m] leaves all of that as it is; it may write to sockets and
    queue bytes for clients. *)
Definition quiet {A} (m : M A) : Prop :=
  forall w a w', m w = Ret a w' -> view w' = view w.

Lemma quiet_bind {A B} (m : M A) (k : A -> M B) :
  quiet m -> (forall a, quiet (k a)) -> quiet (bind m k).
Proof.
  intros Hm Hk w b w' H. apply bind_inv in H. destruct H as (a & w1 & H1 & H2).
  rewrite (Hk _ _ _ _ H2). eapply Hm; eauto.
Qed.

Lemma quiet_ret {A} (a : A) : quiet (ret a).
Proof. intros w b w' H. run. reflexivity. Qed.

Lemma quiet_exit {A} c : quiet (@exit A c).
Proof. intros w b w' H. discriminate. Qed.

Lemma quiet_fault {A} : quiet (@fault A).
Proof. intros w b w' H. discriminate. Qed.

Lemma quiet_stuck {A} : quiet (@stuck A).
Proof. intros w b w' H. discriminate. Qed.

Lemma quiet_sys c : quiet (sys c).
Proof.
  intros w b w' H. run. unfold view, core. proj.
  rewrite messages_app, erased_app. simpl. rewrite !app_nil_r. reflexivity.
Qed.

Lemma quiet_sys_ c : quiet (sys_ c).
Proof.
  intros w b w' H. run. unfold view, core. proj.
  rewrite messages_app, erased_app. simpl. rewrite !app_nil_r. reflexivity.
Qed.

Lemma quiet_deref_cc cc : quiet (deref_cc cc).
Proof. intros w b w' H. run. reflexivity. Qed.

Lemma skel_update cc f l :
  (forall k, skel (f k) = skel k) ->
  map skel (update_connection cc f l) = map skel l.
Proof.
  intros Hf. unfold update_connection. rewrite map_map. apply map_ext.
  intros k. destruct (fd k =? cc); [apply Hf | reflexivity].
Qed.

Lemma quiet_update_cc cc f :
  (forall k, skel (f k) = skel k) -> quiet (update_cc cc f).
Proof.
  intros Hf w b w' H. run. unfold view, core. proj.
  rewrite skel_update by exact Hf. reflexivity.
Qed.

Lemma quiet_push_message cc mb : quiet (push_message cc mb).
Proof. apply quiet_update_cc. reflexivity. Qed.

Lemma quiet_send_loop fuel cc mb : quiet (send_loop fuel cc mb).
Proof.
  revert mb. induction fuel as [| fuel IH]; intros mb; simpl.
  - apply quiet_stuck.
  - apply quiet_bind; [apply quiet_deref_cc | intros k].
    apply quiet_bind; [apply quiet_sys | intros r].
    destruct (sr_ret r =? -1).
    + destruct ((sr_errno r =? EAGAIN) || (sr_errno r =? EWOULDBLOCK));
        [apply quiet_push_message |].
      destruct (sr_errno r =? ECONNRESET); [apply quiet_ret | apply quiet_exit].
    + destruct ((1 <=? sr_ret r) && (sr_ret r <=? zlen (mb_data mb) - mb_pos mb));
        [| apply quiet_stuck].
      destruct (sr_ret r =? zlen (mb_data mb) - mb_pos mb);
        [apply quiet_ret | apply IH].
Qed.

(** What [create_and_send_msg] does, when it returns: one more message was
    handed over, and nothing else of the view changed. *)
Lemma create_and_send_msg_ret cc ty sid data len w a w' :
  create_and_send_msg cc ty sid data len w = Ret a w' ->
  exists body,
    resize_and_copy data len w = Ret body w /\
    core w' = core w /\
    map skel (connections w') = map skel (connections w) /\
    messages (trace w') = messages (trace w) ++ [(cc, u8 ty, u32 sid, body)] /\
    erased (trace w') = erased (trace w).
Proof.
  intros H. unfold create_and_send_msg in H.
  destruct (len <? 0); [discriminate |].
  apply bind_inv in H. destruct H as (body & w1 & H1 & H).
  pose proof (resize_and_copy_inv _ _ _ _ _ H1) as ->.
  exists body. split; [exact H1 |].
  apply bind_inv in H. destruct H as (u & w2 & H2 & H).
  apply log_inv in H2. subst w2.
  assert (Hq : view w' =
               view (set_trace (trace w ++ [ev_msg cc (u8 ty) (u32 sid) body]) w)).
  { revert H. generalize (set_trace (trace w ++ [ev_msg cc (u8 ty) (u32 sid) body]) w).
    intros w0 H. apply bind_inv in H. destruct H as (k & w3 & H3 & H).
    apply deref_cc_inv in H3. destruct H3 as [-> Hk].
    destruct (message_queue k).
    - unfold fueled in H. eapply quiet_send_loop; eauto.
    - eapply quiet_push_message; eauto. }
  unfold view, core in *. proj. injection Hq as Q1 Q2 Q3 Q4 Q5 Q6.
  rewrite messages_app in Q5. rewrite erased_app in Q6. simpl in Q5, Q6.
  rewrite app_nil_r in Q6. rewrite Q1, Q2, Q3. auto.
Qed.

Lemma find_connection_skel cc l l' k :
  map skel l' = map skel l -> find_connection cc l = Some k ->
  exists k', find_connection cc l' = Some k' /\ skel k' = skel k.
Proof.
  unfold find_connection. revert l'.
  induction l as [| x l IH]; intros l' Hm Hf; [discriminate |].
  destruct l' as [| x' l']; [discriminate |].
  change (skel x' :: map skel l' = skel x :: map skel l) in Hm.
  assert (Hx : skel x' = skel x) by congruence.
  assert (Hl : map skel l' = map skel l) by congruence.
  assert (Hfd : fd x' = fd x) by (unfold skel in Hx; congruence).
  simpl in *. rewrite Hfd. destruct (fd x =? cc).
  - injection Hf as <-. exists x'. split; [reflexivity | exact Hx].
  - apply IH; assumption.
Qed.

(** [create_and_send_msg] to a client that is there, with a payload that can
    be read, has no undefined behaviour. *)
Lemma send_loop_no_fault fuel :
  forall cc mb w k,
  find_connection cc (connections w) = Some k ->
  send_loop fuel cc mb w <> Fault.
Proof.
  induction fuel as [| fuel IH]; intros cc mb w k Hk; simpl; [discriminate |].
  erewrite bind_ret_eq by (apply deref_cc_eq; exact Hk).
  unfold bind at 1. unfold sys.
  destruct (script w) as [| r rest]; [discriminate |].
  destruct (sr_ret r =? -1).
  - destruct ((sr_errno r =? EAGAIN) || (sr_errno r =? EWOULDBLOCK)); [discriminate |].
    destruct (sr_errno r =? ECONNRESET); discriminate.
  - destruct ((1 <=? sr_ret r) && (sr_ret r <=? zlen (mb_data mb) - mb_pos mb));
      [| discriminate].
    destruct (sr_ret r =? zlen (mb_data mb) - mb_pos mb); [discriminate |].
    eapply IH. proj. exact Hk.
Qed.

Lemma create_and_send_msg_no_fault cc ty sid data len w k body :
  find_connection cc (connections w) = Some k ->
  0 <= len ->
  (forall w0, resize_and_copy data len w0 = Ret body w0) ->
  create_and_send_msg cc ty sid data len w <> Fault.
Proof.
  intros Hk Hlen Hbody. unfold create_and_send_msg.
  apply Z.ltb_ge in Hlen. rewrite Hlen.
  erewrite bind_ret_eq by apply Hbody.
  erewrite bind_ret_eq by reflexivity.
  erewrite bind_ret_eq by (apply deref_cc_eq; proj; exact Hk).
  destruct (message_queue k); [| discriminate].
  unfold fueled. eapply send_loop_no_fault. proj. exact Hk.
Qed.

(** * End of stream from the Amiga (C5) *)

Lemma remove_association_eq ch w c cc k ass :
  find_channel ch (channels w) = Some c -> association c = Some cc ->
  find_connection cc (connections w) = Some k ->
  erase_first ch (associations k) = Some ass ->
  remove_association ch w =
  Ret tt
    (set_channels
       (update_channel ch (fun c => set_stream_id 0 (set_association None c))
          (channels w))
       (set_connections
          (update_connection cc (set_associations ass) (connections w)) w)).
Proof.
  intros Hc Ha Hk He. unfold remove_association.
  erewrite bind_ret_eq by (apply deref_ch_eq; exact Hc). rewrite Ha.
  erewrite bind_ret_eq by (apply deref_cc_eq; exact Hk). rewrite He.
  erewrite bind_ret_eq by reflexivity. reflexivity.
Qed.

(** The latch: no data goes to the client of a channel that had its EOS, of a
    channel without a client, or of a channel that is not there. *)
Lemma handle_pkt_data_latched w cid ch data plen :
  find_channel cid (channels w) = Some ch -> got_eos_from_ami ch = true ->
  handle_pkt_data cid data plen w = Ret tt w.
Proof.
  intros Hc Hf. unfold handle_pkt_data, bind, gets. rewrite Hc, Hf.
  destruct (association ch); reflexivity.
Qed.


(** Channel 7 is the stream 1 of the client on descriptor 5; the client sent
    its EOS already; the next write to the client will take all 9 bytes. *)
Definition client_half_closed : ClientConnection :=
  mkClientConnection 5 3 0 (mkMessageHeader 0 1 MSG_EOS) [] [] [7].
Definition channel_half_closed : LogicalChannel :=
  mkLogicalChannel 7 (Some 5) 1 false true [].
Definition world_half_closed : World :=
  set_connections [client_half_closed]
    (set_channels [channel_half_closed] (initial_world [] [ok 9])).


(** The claim as it is written fails: channel 9 exists but has no client; a
    PKT_EOS for it sets no flag and hands over no message. *)
Lemma eos_on_unassociated_channel_ignored :
  exists ch,
    find_channel 9 (channels world_unknown_service) = Some ch /\
    association ch = None /\ got_eos_from_ami ch = false /\
    handle_pkt_eos 9 world_unknown_service = Ret tt world_unknown_service.
Proof. eexists. vm_compute. repeat split; reflexivity. Qed.

(** * Write failures on client sockets (C6) *)

(** ** Closing a connection *)

Lemma clear_packet_queue_returns ch w c :
  find_channel ch (channels w) = Some c ->
  (packet_queue c <> [] -> In ch (send_queue w)) ->
  exists w1, clear_packet_queue ch w = Ret tt w1 /\
    connections w1 = connections w /\ services w1 = services w /\
    trace w1 = trace w /\ script w1 = script w /\
    find_channel ch (channels w1) = Some (set_packet_queue [] c) /\
    (forall x, x <> ch -> find_channel x (channels w1) = find_channel x (channels w)) /\
    (forall x, x <> ch -> In x (send_queue w) -> In x (send_queue w1)).
Proof.
  intros Hc Hin. unfold clear_packet_queue.
  erewrite bind_ret_eq by (apply deref_ch_eq; exact Hc).
  destruct (packet_queue c) as [| p q] eqn:Epq.
  - exists w. repeat split; auto. rewrite Hc. f_equal.
    destruct c; simpl in *; subst; reflexivity.
  - destruct (erase_first_in ch (send_queue w)) as [sq' Hsq];
      [apply Hin; discriminate |].
    erewrite bind_ret_eq by reflexivity.
    erewrite bind_ret_eq by reflexivity.
    change (send_queue (set_channels ?l w)) with (send_queue w). rewrite Hsq.
    eexists. split; [reflexivity |]. proj. repeat split; auto.
    + rewrite find_channel_update by reflexivity.
      rewrite Z.eqb_refl, Hc. reflexivity.
    + intros x Hx. rewrite find_channel_update by reflexivity.
      apply Z.eqb_neq in Hx. rewrite Hx. reflexivity.
    + intros x Hx Hi. apply (erase_first_spec _ _ _ Hsq); assumption.
Qed.

(** A channel after the reset of its connection: dissociated, with a single
    PKT_RESET to send. *)
Definition channel_reset (c : LogicalChannel) : LogicalChannel :=
  mkLogicalChannel (channel_id c) None 0 (got_eos_from_ami c)
    (got_eos_from_client c) [mkPacketBuffer PKT_RESET []].

(** One turn of the loop of [close_and_remove_connection], up to the erasure
    of the association. *)
Lemma reset_step ch w c :
  find_channel ch (channels w) = Some c ->
  (packet_queue c <> [] -> In ch (send_queue w)) ->
  exists w1,
    (clear_packet_queue ch;;
     create_and_enqueue_packet ch PKT_RESET nullptr 0;;
     update_ch ch (fun c => set_stream_id 0 (set_association None c))) w
    = Ret tt w1 /\
    connections w1 = connections w /\ services w1 = services w /\
    trace w1 = trace w /\ script w1 = script w /\
    find_channel ch (channels w1) = Some (channel_reset c) /\
    In ch (send_queue w1) /\
    (forall x, x <> ch -> find_channel x (channels w1) = find_channel x (channels w)) /\
    (forall x, x <> ch -> In x (send_queue w) -> In x (send_queue w1)).
Proof.
  intros Hc Hin.
  destruct (clear_packet_queue_returns ch w c Hc Hin)
    as (w0 & E0 & C0 & S0 & T0 & R0 & F0 & O0 & Q0).
  erewrite bind_ret_eq by exact E0.
  erewrite bind_ret_eq
    by (apply (create_and_enqueue_packet_eq ch PKT_RESET nullptr 0 w0
            (set_packet_queue [] c) []); [exact F0 | reflexivity]).
  unfold update_ch, modify. eexists. split; [reflexivity |].
  unfold enqueued. cbn [packet_queue set_packet_queue]. proj.
  repeat split; auto.
  - rewrite !find_channel_update by reflexivity.
    rewrite Z.eqb_refl, F0. reflexivity.
  - apply in_or_app. right. left. reflexivity.
  - intros x Hx. rewrite !find_channel_update by reflexivity.
    pose proof Hx as Hx'. apply Z.eqb_neq in Hx'. rewrite Hx'. apply O0. exact Hx.
  - intros x Hx Hi. apply in_or_app. left. apply Q0; assumption.
Qed.

Lemma map_fd_update cc f l :
  (forall k, fd (f k) = fd k) ->
  map fd (update_connection cc f l) = map fd l.
Proof.
  intros Hf. unfold update_connection. rewrite map_map. apply map_ext.
  intros k. destruct (fd k =? cc); [apply Hf | reflexivity].
Qed.

Lemma find_connection_update_other cc f l x :
  (forall k, fd (f k) = fd k) -> x <> cc ->
  find_connection x (update_connection cc f l) = find_connection x l.
Proof.
  intros Hf Hx. unfold find_connection, update_connection.
  induction l as [| k l IH]; simpl; [reflexivity |].
  destruct (fd k =? cc) eqn:Ek.
  - rewrite Hf. apply Z.eqb_eq in Ek.
    destruct (fd k =? x) eqn:Ex; [apply Z.eqb_eq in Ex; congruence | exact IH].
  - destruct (fd k =? x); [reflexivity | exact IH].
Qed.

Lemma find_connection_fd x l k : find_connection x l = Some k -> fd k = x.
Proof.
  unfold find_connection. intros H. apply find_some in H.
  destruct H as [_ H]. apply Z.eqb_eq in H. exact H.
Qed.

Lemma find_connection_absent x l :
  ~ In x (map fd l) -> find_connection x l = None.
Proof.
  intros H. unfold find_connection.
  destruct (find (fun k => fd k =? x) l) as [k |] eqn:E; [| reflexivity].
  apply find_some in E. destruct E as [Hin E]. apply Z.eqb_eq in E.
  exfalso. apply H. rewrite <- E. apply in_map. exact Hin.
Qed.

Lemma find_connection_erase cc l :
  NoDup (map fd l) -> find_connection cc (erase_connection cc l) = None.
Proof.
  induction l as [| k l IH]; simpl; intros Hnd; [reflexivity |].
  inversion Hnd as [| ? ? Hnot Hnd']; subst.
  destruct (fd k =? cc) eqn:Ek.
  - apply Z.eqb_eq in Ek. apply find_connection_absent. rewrite <- Ek. exact Hnot.
  - unfold find_connection. simpl. rewrite Ek. apply IH. exact Hnd'.
Qed.

Lemma find_connection_erase_other cc l x :
  x <> cc -> find_connection x (erase_connection cc l) = find_connection x l.
Proof.
  intros Hx. unfold find_connection.
  induction l as [| k l IH]; simpl; [reflexivity |].
  destruct (fd k =? cc) eqn:Ek; simpl.
  - apply Z.eqb_eq in Ek.
    destruct (fd k =? x) eqn:Ex; [apply Z.eqb_eq in Ex; congruence | reflexivity].
  - destruct (fd k =? x); [reflexivity | exact IH].
Qed.

(** The channels the loop expects: every associated channel is a live record,
    and it is in the send queue if it has packets to send. *)
Definition resettable (ass : list Z) (w : World) : Prop :=
  forall ch, In ch ass ->
  exists c, find_channel ch (channels w) = Some c /\
            (packet_queue c <> [] -> In ch (send_queue w)).

Lemma reset_associations_spec cc : forall ass w,
  resettable ass w ->
  exists w',
    reset_associations cc ass w = Ret tt w' /\
    map fd (connections w') = map fd (connections w) /\
    (forall x, x <> cc ->
       find_connection x (connections w') = find_connection x (connections w)) /\
    services w' = services w /\ trace w' = trace w /\ script w' = script w /\
    (forall ch c, In ch ass -> find_channel ch (channels w) = Some c ->
       find_channel ch (channels w') = Some (channel_reset c) /\
       In ch (send_queue w')) /\
    (forall x, ~ In x ass ->
       find_channel x (channels w') = find_channel x (channels w)) /\
    (forall x, ~ In x ass -> In x (send_queue w) -> In x (send_queue w')).
Proof.
  induction ass as [| ch rest IH]; intros w Hres.
  - exists w. simpl. repeat split; auto; contradiction.
  - destruct (Hres ch (or_introl eq_refl)) as (c & Hc & Hq).
    destruct (reset_step ch w c Hc Hq)
      as (w1 & E1 & C1 & S1 & T1 & R1 & F1 & I1 & O1 & Q1).
    set (w2 := set_connections
                 (update_connection cc (set_associations rest) (connections w1)) w1).
    assert (Hres2 : resettable rest w2).
    { intros x Hx. unfold w2. proj.
      destruct (Z.eq_dec x ch) as [-> | Hne].
      - exists (channel_reset c). split; [exact F1 | intros _; exact I1].
      - destruct (Hres x (or_intror Hx)) as (cx & Hcx & Hqx).
        exists cx. split; [rewrite O1 by exact Hne; exact Hcx |].
        intros Hpq. apply Q1; [exact Hne | apply Hqx; exact Hpq]. }
    destruct (IH w2 Hres2) as (w' & E & M & C & S & T & R & P & O & Q).
    exists w'. split.
    { cbn [reset_associations].
      change (bind (clear_packet_queue ch)
                (fun _ => bind (create_and_enqueue_packet ch PKT_RESET nullptr 0)
                  (fun _ => bind (update_ch ch (fun c => set_stream_id 0 (set_association None c)))
                    (fun _ => bind (update_cc cc (set_associations rest))
                      (fun _ => reset_associations cc rest)))) w = Ret tt w').
      unfold bind in E1 |- *.
      destruct (clear_packet_queue ch w) as [[] wa | | |]; try discriminate E1.
      destruct (create_and_enqueue_packet ch PKT_RESET nullptr 0 wa) as [[] wb | | |];
        try discriminate E1.
      rewrite E1. exact E. }
    unfold w2 in *. proj.
    split; [rewrite M, map_fd_update by reflexivity; congruence |].
    split.
    { intros x Hx. rewrite C by exact Hx.
      rewrite find_connection_update_other by (reflexivity || exact Hx).
      rewrite C1. reflexivity. }
    split; [congruence |]. split; [congruence |]. split; [congruence |].
    split.
    { intros x cx Hx Hcx.
      destruct (in_dec Z.eq_dec x rest) as [Hin | Hnin].
      - destruct (Z.eq_dec x ch) as [-> | Hne].
        + assert (cx = c) by congruence. subst cx.
          apply (P ch (channel_reset c) Hin F1).
        + apply (P x cx Hin). rewrite O1 by exact Hne. exact Hcx.
      - destruct Hx as [<- | Hx]; [| contradiction].
        assert (cx = c) by congruence. subst cx.
        rewrite (O ch Hnin). split; [exact F1 |].
        apply Q; assumption. }
    split.
    { intros x Hx. assert (x <> ch /\ ~ In x rest) as [Hne Hnr]
        by (split; intro; apply Hx; simpl; auto).
      rewrite (O x Hnr). apply O1. exact Hne. }
    intros x Hx Hi. assert (x <> ch /\ ~ In x rest) as [Hne Hnr]
      by (split; intro; apply Hx; simpl; auto).
    apply Q; [exact Hnr |]. apply Q1; assumption.
Qed.

Lemma close_and_remove_connection_spec cc w k :
  find_connection cc (connections w) = Some k ->
  NoDup (map fd (connections w)) ->
  resettable (associations k) w ->
  exists w',
    close_and_remove_connection cc w = Ret tt w' /\
    find_connection cc (connections w') = None /\
    (forall x, x <> cc ->
       find_connection x (connections w') = find_connection x (connections w)) /\
    services w' = filter (fun s => negb (srv_cc s =? cc)) (services w) /\
    syscalls (trace w') =
      syscalls (trace w) ++ [c_shutdown cc SHUT_WR; c_close cc] /\
    script w' = script w /\
    (forall ch c, In ch (associations k) ->
       find_channel ch (channels w) = Some c ->
       find_channel ch (channels w') = Some (channel_reset c) /\
       In ch (send_queue w')) /\
    (forall x, ~ In x (associations k) ->
       find_channel x (channels w') = find_channel x (channels w)).
Proof.
  intros Hk Hnd Hres. unfold close_and_remove_connection.
  erewrite bind_ret_eq by (apply deref_cc_eq; exact Hk).
  rewrite (find_connection_fd _ _ _ Hk).
  erewrite bind_ret_eq by reflexivity.
  erewrite bind_ret_eq by reflexivity.
  erewrite bind_ret_eq by reflexivity.
  match goal with
  | |- exists w', bind _ _ ?w0 = _ /\ _ => set (w3 := w0)
  end.
  assert (Hres3 : resettable (associations k) w3) by exact Hres.
  destruct (reset_associations_spec cc (associations k) w3 Hres3)
    as (w4 & E & M & C & S & T & R & P & O & _).
  erewrite bind_ret_eq by exact E.
  unfold modify. eexists. split; [reflexivity |].
  unfold w3 in *. proj.
  split; [apply find_connection_erase; rewrite M; exact Hnd |].
  split; [intros x Hx; rewrite find_connection_erase_other by exact Hx;
          apply C; exact Hx |].
  split; [exact S |].
  split; [rewrite T, !syscalls_app, <- app_assoc; reflexivity |].
  split; [exact R |].
  split; [exact P | exact O].
Qed.

(** ** The two write loops *)

(** The world after a [write] whose result was read from the script. *)
Definition written (c : Call) (rest : list SysRes) (w : World) : World :=
  set_trace (trace w ++ [ev_sys c]) (set_script rest w).

Lemma drain_loop_failed_write fuel cc w k mb rest r scr :
  find_connection cc (connections w) = Some k ->
  message_queue k = mb :: rest ->
  script w = r :: scr -> sr_ret r = -1 ->
  drain_loop (S fuel) cc w =
  (if (sr_errno r =? EAGAIN) || (sr_errno r =? EWOULDBLOCK) then ret tt
   else if sr_errno r =? ECONNRESET then close_and_remove_connection cc
   else exit (-1))
    (written (c_write cc (zdrop (mb_pos mb) (mb_data mb))) scr w).
Proof.
  intros Hk Hq Hs Hr. cbn [drain_loop].
  erewrite bind_ret_eq by (apply deref_cc_eq; exact Hk).
  rewrite Hq. rewrite (find_connection_fd _ _ _ Hk).
  erewrite bind_ret_eq by (apply sys_eq; exact Hs).
  rewrite Hr. reflexivity.
Qed.

Lemma send_loop_failed_write fuel cc mb w k r scr :
  find_connection cc (connections w) = Some k ->
  script w = r :: scr -> sr_ret r = -1 ->
  send_loop (S fuel) cc mb w =
  (if (sr_errno r =? EAGAIN) || (sr_errno r =? EWOULDBLOCK) then push_message cc mb
   else if sr_errno r =? ECONNRESET then ret tt
   else exit (-1))
    (written (c_write cc (zdrop (mb_pos mb) (mb_data mb))) scr w).
Proof.
  intros Hk Hs Hr. cbn [send_loop]. cbv zeta.
  erewrite bind_ret_eq by (apply deref_cc_eq; exact Hk).
  rewrite (find_connection_fd _ _ _ Hk).
  erewrite bind_ret_eq by (apply sys_eq; exact Hs).
  rewrite Hr. reflexivity.
Qed.

Lemma errno_other e :
  e <> EAGAIN -> e <> EWOULDBLOCK -> e <> ECONNRESET ->
  (e =? EAGAIN) || (e =? EWOULDBLOCK) = false /\ (e =? ECONNRESET) = false.
Proof.
  intros H1 H2 H3. apply Z.eqb_neq in H1, H2, H3. rewrite H1, H2, H3.
  split; reflexivity.
Qed.

(** C6, as the code has it.  There are two loops that write to a client
    socket, and every write they make is the first write of a call of
    [drain_loop] or [send_loop].
    - In the loop that drains the message queue of a client (EPOLLOUT), a
      write that fails with ECONNRESET closes and removes the connection: the
      socket is shut down and closed, the services of the client leave the
      registry, and every channel associated with the client is dissociated
      and left with a single PKT_RESET to send.
    - In the loop of [create_and_send_msg], a write that fails with
      ECONNRESET drops the message and returns: nothing is closed and the
      connection stays where it is.
    - In both loops a write that fails with another errno than EAGAIN,
      EWOULDBLOCK and ECONNRESET ends the process with exit(-1). *)
Theorem write_failure_handling :
  (forall fuel cc w k mb rest r scr,
     find_connection cc (connections w) = Some k ->
     message_queue k = mb :: rest ->
     script w = r :: scr -> sr_ret r = -1 -> sr_errno r = ECONNRESET ->
     NoDup (map fd (connections w)) ->
     resettable (associations k) w ->
     exists w',
       drain_loop (S fuel) cc w = Ret tt w' /\
       find_connection cc (connections w') = None /\
       (forall x, x <> cc ->
          find_connection x (connections w') = find_connection x (connections w)) /\
       services w' = filter (fun s => negb (srv_cc s =? cc)) (services w) /\
       syscalls (trace w') =
         syscalls (trace w) ++
         [c_write cc (zdrop (mb_pos mb) (mb_data mb));
          c_shutdown cc SHUT_WR; c_close cc] /\
       (forall ch c, In ch (associations k) ->
          find_channel ch (channels w) = Some c ->
          find_channel ch (channels w') = Some (channel_reset c) /\
          In ch (send_queue w'))) /\
  (forall fuel cc w k mb rest r scr,
     find_connection cc (connections w) = Some k ->
     message_queue k = mb :: rest ->
     script w = r :: scr -> sr_ret r = -1 ->
     sr_errno r <> EAGAIN -> sr_errno r <> EWOULDBLOCK -> sr_errno r <> ECONNRESET ->
     drain_loop (S fuel) cc w =
     Exit (-1) (written (c_write cc (zdrop (mb_pos mb) (mb_data mb))) scr w)) /\
  (forall fuel cc mb w k r scr,
     find_connection cc (connections w) = Some k ->
     script w = r :: scr -> sr_ret r = -1 -> sr_errno r = ECONNRESET ->
     send_loop (S fuel) cc mb w =
     Ret tt (written (c_write cc (zdrop (mb_pos mb) (mb_data mb))) scr w)) /\
  (forall fuel cc mb w k r scr,
     find_connection cc (connections w) = Some k ->
     script w = r :: scr -> sr_ret r = -1 ->
     sr_errno r <> EAGAIN -> sr_errno r <> EWOULDBLOCK -> sr_errno r <> ECONNRESET ->
     send_loop (S fuel) cc mb w =
     Exit (-1) (written (c_write cc (zdrop (mb_pos mb) (mb_data mb))) scr w)) /\
  (forall cc events w,
     Z.land events EPOLLERR = 0 -> Z.land events EPOLLIN = 0 ->
     Z.land events EPOLLOUT <> 0 ->
     handle_client_connection_event cc events w =
     drain_loop (S (length (script w))) cc w) /\
  (forall cc ty sid data len w k body,
     find_connection cc (connections w) = Some k -> message_queue k = [] ->
     0 <= len -> resize_and_copy data len w = Ret body w ->
     create_and_send_msg cc ty sid data len w =
     send_loop (S (length (script w))) cc
       (mkMessageBuffer 0 (encode_header len sid ty ++ body))
       (set_trace (trace w ++ [ev_msg cc (u8 ty) (u32 sid) body]) w)).
Proof.
  repeat match goal with |- _ /\ _ => split end.
  - intros fuel cc w k mb rest r scr Hk Hq Hs Hr He Hnd Hres.
    rewrite (drain_loop_failed_write fuel cc w k mb rest r scr Hk Hq Hs Hr).
    rewrite He. cbn [Z.eqb ECONNRESET EAGAIN EWOULDBLOCK Pos.eqb orb].
    set (w1 := written _ scr w).
    destruct (close_and_remove_connection_spec cc w1 k Hk Hnd Hres)
      as (w' & E & N & C & S & T & _ & P & _).
    exists w'. split; [exact E |]. split; [exact N |]. split; [exact C |].
    split; [exact S |]. split; [| exact P].
    rewrite T. unfold w1, written. proj. rewrite syscalls_app, <- app_assoc.
    reflexivity.
  - intros fuel cc w k mb rest r scr Hk Hq Hs Hr H1 H2 H3.
    rewrite (drain_loop_failed_write fuel cc w k mb rest r scr Hk Hq Hs Hr).
    destruct (errno_other _ H1 H2 H3) as [-> ->]. reflexivity.
  - intros fuel cc mb w k r scr Hk Hs Hr He.
    rewrite (send_loop_failed_write fuel cc mb w k r scr Hk Hs Hr).
    rewrite He. reflexivity.
  - intros fuel cc mb w k r scr Hk Hs Hr H1 H2 H3.
    rewrite (send_loop_failed_write fuel cc mb w k r scr Hk Hs Hr).
    destruct (errno_other _ H1 H2 H3) as [-> ->]. reflexivity.
  - intros cc events w H1 H2 H3. unfold handle_client_connection_event.
    rewrite H1, H2. apply Z.eqb_neq in H3. rewrite H3. reflexivity.
  - intros cc ty sid data len w k body Hk Hq Hlen Hb.
    unfold create_and_send_msg.
    assert (Hl : (len <? 0) = false) by (apply Z.ltb_ge; exact Hlen).
    rewrite Hl.
    erewrite bind_ret_eq by exact Hb.
    erewrite bind_ret_eq by reflexivity.
    erewrite bind_ret_eq by (apply deref_cc_eq; exact Hk).
    rewrite Hq. reflexivity.
Qed.

(** The client on descriptor 5 owns the service "x" and the stream 1 on
    channel 7; a MSG_EOS waits in its message queue, and the peer has reset
    the connection: the next write fails with ECONNRESET. *)
Definition message_waiting : MessageBuffer :=
  mkMessageBuffer 0 [0; 0; 0; 0; 1; 0; 0; 0; MSG_EOS].
Definition client_message_waiting : ClientConnection :=
  mkClientConnection 5 3 0 (mkMessageHeader 0 0 0) [] [message_waiting] [7].
Definition channel_of_client : LogicalChannel :=
  mkLogicalChannel 7 (Some 5) 1 false false [].
Definition world_reset_on_drain : World :=
  set_services [mkRegisteredService [120] 5]
    (set_connections [client_message_waiting]
       (set_channels [channel_of_client]
          (initial_world [] [err ECONNRESET]))).

Lemma write_failure_handling_witness :
  exists w',
    handle_client_connection_event 5 EPOLLOUT world_reset_on_drain = Ret tt w' /\
    find_connection 5 (connections w') = None /\
    services w' = [] /\
    syscalls (trace w') =
      [c_write 5 [0; 0; 0; 0; 1; 0; 0; 0; MSG_EOS]; c_shutdown 5 SHUT_WR; c_close 5] /\
    find_channel 7 (channels w') =
      Some (mkLogicalChannel 7 None 0 false false [mkPacketBuffer PKT_RESET []]) /\
    In 7 (send_queue w').
Proof.
  assert (Hnd : NoDup (map fd (connections world_reset_on_drain))).
  { repeat constructor. intros []. }
  assert (Hres : resettable (associations client_message_waiting) world_reset_on_drain).
  { intros ch [<- | []]. exists channel_of_client.
    split; [reflexivity |]. intros H. exfalso. apply H. reflexivity. }
  destruct (proj1 write_failure_handling 1%nat 5 world_reset_on_drain
              client_message_waiting message_waiting [] (err ECONNRESET) []
              eq_refl eq_refl eq_refl eq_refl eq_refl Hnd Hres)
    as (w' & E & N & _ & S & T & P).
  exists w'. split; [exact E |]. split; [exact N |]. split; [exact S |].
  split; [exact T |].
  exact (P 7 channel_of_client (or_introl eq_refl) eq_refl).
Defined.

(** The claim as it is written fails.  The same client with nothing in its
    message queue: the Amiga sends a byte on channel 7, the write of the
    MSG_DATA fails with ECONNRESET, and the daemon goes on with the
    connection, its stream and its channel as they were. *)
Definition world_reset_on_send : World :=
  set_connections [mkClientConnection 5 3 0 (mkMessageHeader 0 0 0) [] [] [7]]
    (set_channels [channel_of_client] (initial_world [] [err ECONNRESET])).

Lemma reset_on_send_keeps_connection :
  exists w',
    handle_pkt_data 7 (ptr [1]) 1 world_reset_on_send = Ret tt w' /\
    syscalls (trace w') = [c_write 5 [1; 0; 0; 0; 1; 0; 0; 0; MSG_DATA; 1]] /\
    connections w' = connections world_reset_on_send /\
    channels w' = channels world_reset_on_send /\
    send_queue w' = [].
Proof. eexists. vm_compute. repeat split; reflexivity. Qed.

(** * The registry of services (C8) *)

Definition services_are (S : list RegisteredService) (w : World) : Prop :=
  services w = S.

Lemma respects_services_are S : respects (services_are S).
Proof.
  intros w w' Hc H. unfold core in Hc. injection Hc as Hs _ _.
  unfold services_are in *. congruence.
Qed.

Lemma services_associate ch cc S : preserves (services_are S) (associate ch cc).
Proof.
  intros w a w' H HP. unfold associate in H. revert HP. unfold services_are.
  run; proj; auto.
Qed.

(** The parent's branch registers the service, once, for the socket it got
    from [socketpair]; the child, when [execvp] has failed, goes on. *)
Lemma services_start_on_demand od cid name data plen S next :
  hoare (services_are S) next
    (fun _ w' => services w' = S \/
                 exists fd, services w' = S ++ [mkRegisteredService name fd]) ->
  hoare (services_are S) (start_on_demand od cid name data plen next)
    (fun _ w' => services w' = S \/
                 exists fd, services w' = S ++ [mkRegisteredService name fd]).
Proof.
  intros Hnext.
  pose proof (respects_services_are S) as HR.
  unfold start_on_demand. to_registration HR.
  - exact Hnext.
  - intros w u w' H HP.
    apply bind_inv in H. destruct H as (u1 & w1 & H1 & H).
    apply modify_inv in H1.
    apply bind_inv in H. destruct H as (sid & w2 & H2 & H).
    right. eexists.
    apply keeps_create_and_send_msg in H. unfold core in H. injection H as -> _ _.
    apply (services_associate _ _ _ _ _ _ H2).
    unfold services_are in *. subst w1. proj. rewrite HP. reflexivity.
Qed.

Lemma services_on_demand_loop ods cid name data plen S :
  hoare (services_are S) (on_demand_loop ods cid name data plen)
    (fun _ w' =>
       services w' = S \/
       (exists od, find (fun o => bytes_eqb (service_name o) name) ods = Some od) /\
       exists fd, services w' = S ++ [mkRegisteredService name fd]).
Proof.
  induction ods as [| od rest IH]; cbn [on_demand_loop find].
  - intros w a w' H HP. left. unfold services_are in HP. rewrite <- HP.
    unfold create_and_enqueue_packet in H. run; reflexivity.
  - destruct (bytes_eqb (service_name od) name).
    + intros w a w' H HP.
      assert (Hnext : hoare (services_are S) (on_demand_loop rest cid name data plen)
                        (fun _ w' => services w' = S \/
                           exists fd, services w' = S ++ [mkRegisteredService name fd])).
      { intros w0 a0 w0' H0 HP0.
        destruct (IH _ _ _ H0 HP0) as [E | [_ E]]; [left | right]; exact E. }
      destruct (services_start_on_demand od cid name data plen S _ Hnext _ _ _ H HP)
        as [E | E]; [left; exact E | right].
      split; [exists od; reflexivity | exact E].
    + exact IH.
Qed.

Lemma handle_pkt_connect_services cid data plen w a w' :
  handle_pkt_connect cid data plen w = Ret a w' ->
  services w' = services w \/
  exists name fd,
    read_bytes data plen w = Ret name w /\
    unregistered name w /\
    (exists od, find (fun o => bytes_eqb (service_name o) name)
                  (on_demand_services w) = Some od) /\
    services w' = services w ++ [mkRegisteredService name fd].
Proof.
  intros H. unfold handle_pkt_connect in H.
  apply bind_inv in H. destruct H as (chs & w0 & H0 & H).
  apply gets_inv in H0. destruct H0 as [-> ->].
  destruct (existsb _ (channels w)); [discriminate H |].
  apply bind_inv in H. destruct H as (u & w1 & H1 & H).
  apply modify_inv in H1.
  apply bind_inv in H. destruct H as (name & w2 & H2 & H).
  pose proof (read_bytes_inv _ _ _ _ _ H2) as ->.
  apply bind_inv in H. destruct H as (srvs & w3 & H3 & H).
  apply gets_inv in H3. destruct H3 as [-> ->].
  assert (Hs1 : services w1 = services w) by (subst w1; reflexivity).
  assert (Ho1 : on_demand_services w1 = on_demand_services w)
    by (subst w1; reflexivity).
  assert (Hr : read_bytes data plen w = Ret name w).
  { revert H2. unfold read_bytes.
    destruct (plen <=? 0); [intros E; inversion E; reflexivity |].
    destruct data as [| b]; [discriminate |].
    destruct (plen <=? zlen b); [intros E; inversion E; reflexivity | discriminate]. }
  clear H1 H2.
  destruct (find _ (services w1)) as [srv |] eqn:Ef.
  - left. apply bind_inv in H. destruct H as (sid & w4 & H4 & H).
    apply keeps_create_and_send_msg in H. unfold core in H. injection H as -> _ _.
    rewrite <- Hs1. apply (services_associate _ _ _ _ _ _ H4). reflexivity.
  - apply bind_inv in H. destruct H as (ods & w4 & H4 & H).
    apply gets_inv in H4. destruct H4 as [-> ->].
    destruct (services_on_demand_loop _ cid name data plen (services w1)
                _ _ _ H eq_refl) as [E | [[od Eo] [fd Hfd]]].
    + left. rewrite E, Hs1. reflexivity.
    + right. exists name, fd. split; [exact Hr |]. split.
      { unfold unregistered. rewrite <- Hs1. exact Ef. }
      split; [exists od; rewrite <- Ho1; exact Eo |].
      rewrite Hfd, Hs1. reflexivity.
Qed.

(** The answer to a MSG_REGISTER_REQ for the name in [payload]. *)
Definition register_post (cc : Z) (k : ClientConnection) (w w' : World) : Prop :=
  match find (fun s => bytes_eqb (srv_name s) (payload k)) (services w) with
  | Some _ =>
    services w' = services w /\
    messages (trace w') =
      messages (trace w) ++ [(cc, MSG_REGISTER_RES, 0, [MSG_FAIL])]
  | None =>
    services w' = services w ++ [mkRegisteredService (payload k) cc] /\
    messages (trace w') =
      messages (trace w) ++ [(cc, MSG_REGISTER_RES, 0, [MSG_SUCCESS])]
  end.

Lemma handle_msg_register_req_spec cc w k :
  find_connection cc (connections w) = Some k ->
  match handle_msg_register_req cc w with
  | Ret _ w' => register_post cc k w w'
  | Exit _ _ => True
  | Fault => False
  | Stuck => True
  end.
Proof.
  intros Hk. unfold handle_msg_register_req, register_post.
  erewrite bind_ret_eq by (apply deref_cc_eq; exact Hk).
  erewrite bind_ret_eq by reflexivity.
  destruct (find _ (services w)) as [srv |] eqn:Ef.
  - destruct (create_and_send_msg cc MSG_REGISTER_RES 0 (ptr [MSG_FAIL]) 1 w)
      as [u w' | | |] eqn:E; try exact I.
    + destruct (create_and_send_msg_ret _ _ _ _ _ _ _ _ E)
        as (body & B1 & B2 & _ & B4 & _).
      injection B1 as <-. unfold core in B2. injection B2 as -> _ _.
      split; [reflexivity | exact B4].
    + apply (create_and_send_msg_no_fault cc MSG_REGISTER_RES 0 (ptr [MSG_FAIL]) 1
               w k [MSG_FAIL]) in E; [exact E | exact Hk | lia | reflexivity].
  - erewrite bind_ret_eq by reflexivity.
    set (w1 := set_services (services w ++ [mkRegisteredService (payload k) cc]) w).
    destruct (create_and_send_msg cc MSG_REGISTER_RES 0 (ptr [MSG_SUCCESS]) 1 w1)
      as [u w' | | |] eqn:E; try exact I.
    + destruct (create_and_send_msg_ret _ _ _ _ _ _ _ _ E)
        as (body & B1 & B2 & _ & B4 & _).
      injection B1 as <-. unfold core in B2. injection B2 as -> _ _.
      split; [reflexivity | exact B4].
    + apply (create_and_send_msg_no_fault cc MSG_REGISTER_RES 0 (ptr [MSG_SUCCESS]) 1
               w1 k [MSG_SUCCESS]) in E; [exact E | exact Hk | lia | reflexivity].
Qed.

(** C8.  In every reachable world no two entries of the registry have the
    same name.  [handle_msg_register_req] appends the service and answers
    MSG_SUCCESS when no entry has the name, and changes nothing and answers
    MSG_FAIL when one has.  [handle_pkt_connect] changes the registry only on
    its on-demand path, where it appends one entry for a name whose lookup in
    the registry has failed. *)
Theorem registry_names_unique :
  (forall w, reachable w -> NoDup (map srv_name (services w))) /\
  (forall cc w k,
     find_connection cc (connections w) = Some k ->
     match handle_msg_register_req cc w with
     | Ret _ w' => register_post cc k w w'
     | Exit _ _ => True
     | Fault => False
     | Stuck => True
     end) /\
  (forall cid data plen w a w',
     handle_pkt_connect cid data plen w = Ret a w' ->
     services w' = services w \/
     exists name fd,
       read_bytes data plen w = Ret name w /\
       unregistered name w /\
       (exists od, find (fun o => bytes_eqb (service_name o) name)
                     (on_demand_services w) = Some od) /\
       services w' = services w ++ [mkRegisteredService name fd]).
Proof.
  split; [| split].
  - intros w Hr. exact (proj2 (reachable_tables_ok w Hr)).
  - exact handle_msg_register_req_spec.
  - exact handle_pkt_connect_services.
Qed.

(** The daemon listens on descriptor 3; a client connects on descriptor 5
    and registers the service "x". *)
Definition registration_script : list SysRes :=
  [ok 5; ok 0; ok 0; ok 0;
   mkSysRes 9 0 [1; 0; 0; 0; 0; 0; 0; 0; MSG_REGISTER_REQ];
   mkSysRes 1 0 [120];
   ok 10;
   err EAGAIN].
Definition world_listening : World := world_started [] registration_script.
Definition world_client_accepted : World :=
  after handle_server_socket_ready world_listening.
Definition world_registered : World :=
  after (handle_client_connection_event 5 EPOLLIN) world_client_accepted.

Lemma world_registered_reachable : reachable world_registered.
Proof.
  apply (reach_step world_client_accepted).
  - apply (reach_step world_listening); [apply world_started_reachable |].
    apply step_handle_server_socket_ready. vm_compute. reflexivity.
  - apply (step_handle_client_connection_event _ _ 5 EPOLLIN).
    vm_compute. reflexivity.
Defined.

(** A client that asks for the name "x", which it has registered before. *)
Definition client_registers_again : ClientConnection :=
  mkClientConnection 5 1 1 (mkMessageHeader 1 0 MSG_REGISTER_REQ) [120] [] [].
Definition world_registers_again : World :=
  set_services [mkRegisteredService [120] 5]
    (set_connections [client_registers_again] (initial_world [] [ok 10])).
Definition world_registration_refused : World :=
  after (handle_msg_register_req 5) world_registers_again.

(** The Amiga connects to the on-demand service "x" on channel 9; the
    socket pair is (6, 7) and the child has the process id 1234. *)
Definition world_on_demand : World :=
  initial_world [mkOnDemandStart [120] [47; 120] []]
    [mkSysRes 0 0 [6; 7]; ok 1234; ok 0; ok 0; ok 0; ok 10].
Definition world_on_demand_started : World :=
  after (handle_pkt_connect 9 (ptr [120]) 1) world_on_demand.

Lemma registry_names_unique_witness :
  (services world_registered = [mkRegisteredService [120] 5] /\
   NoDup (map srv_name (services world_registered))) /\
  (handle_msg_register_req 5 world_registers_again =
     Ret tt world_registration_refused /\
   services world_registration_refused = [mkRegisteredService [120] 5] /\
   messages (trace world_registration_refused) =
     [(5, MSG_REGISTER_RES, 0, [MSG_FAIL])]) /\
  (handle_pkt_connect 9 (ptr [120]) 1 world_on_demand =
     Ret tt world_on_demand_started /\
   unregistered [120] world_on_demand /\
   services world_on_demand_started = [mkRegisteredService [120] 6]).
Proof.
  split; [| split].
  - split; [vm_compute; reflexivity |].
    exact (proj1 registry_names_unique world_registered world_registered_reachable).
  - assert (E : handle_msg_register_req 5 world_registers_again =
                Ret tt world_registration_refused) by (vm_compute; reflexivity).
    split; [exact E |].
    pose proof (proj1 (proj2 registry_names_unique) 5 world_registers_again
                  client_registers_again eq_refl) as H.
    rewrite E in H. vm_compute in H. vm_compute. exact H.
  - assert (E : handle_pkt_connect 9 (ptr [120]) 1 world_on_demand =
                Ret tt world_on_demand_started) by (vm_compute; reflexivity).
    split; [exact E |].
    destruct (proj2 (proj2 registry_names_unique) 9 (ptr [120]) 1 world_on_demand
                tt world_on_demand_started E) as [Hs | (name & fd & Hr & Hu & _ & Hs)].
    + vm_compute in Hs. discriminate Hs.
    + vm_compute in Hr. injection Hr as <-. split; [exact Hu |].
      vm_compute. reflexivity.
Defined.

(** * Further properties of the daemon code *)

(** * The wire format of message headers *)

Lemma testbit_255 n : 0 <= n -> Z.testbit 255 n = (n <? 8).
Proof.
  intros Hn. change 255 with (Z.ones 8).
  rewrite Z.testbit_ones_nonneg by lia. reflexivity.
Qed.

Lemma testbit_u32_mask n : 0 <= n -> Z.testbit 4294967295 n = (n <? 32).
Proof.
  intros Hn. change 4294967295 with (Z.ones 32).
  rewrite Z.testbit_ones_nonneg by lia. reflexivity.
Qed.

(** Bit [n] of a word built from masks and shifts by constants, for [n] in a
    known range. *)
Ltac bit_specs :=
  repeat first
    [ rewrite Z.lor_spec
    | rewrite Z.land_spec
    | match goal with
      | |- context [Z.testbit (Z.shiftr ?a ?k) ?m] =>
        rewrite (Z.shiftr_spec a k m) by lia
      | |- context [Z.testbit (Z.shiftl ?a ?k) ?m] =>
        rewrite (Z.shiftl_spec a k m) by lia
      | |- context [Z.testbit 255 ?m] => rewrite (testbit_255 m) by lia
      | |- context [Z.testbit 4294967295 ?m] =>
        rewrite (testbit_u32_mask m) by lia
      | |- context [Z.testbit ?a ?m] => rewrite (Z.testbit_neg_r a m) by lia
      end ].

Ltac bit_bools :=
  repeat match goal with
         | |- context [?a <? ?b] =>
           let H := fresh in
           destruct (Z.ltb_spec a b) as [H | H]; try (exfalso; lia)
         end;
  repeat rewrite ?andb_true_r, ?andb_false_r, ?orb_false_r, ?orb_false_l,
    ?andb_true_l, ?andb_false_l, ?orb_true_r, ?orb_true_l;
  try reflexivity; try (f_equal; lia).

Ltac bits_by_byte n :=
  destruct (Z_lt_le_dec n 8);
  [| destruct (Z_lt_le_dec n 16);
     [| destruct (Z_lt_le_dec n 24);
        [| destruct (Z_lt_le_dec n 32)]]];
  bit_specs; bit_bools.

Lemma of_le32_le32 x : of_le32 (le32 x) = u32 x.
Proof.
  unfold of_le32, le32, u8, u32. cbn [nth].
  apply Z.bits_inj'; intros n Hn. bits_by_byte n.
Qed.

Lemma u8_u8 x : u8 (u8 x) = u8 x.
Proof. unfold u8. rewrite <- Z.land_assoc. reflexivity. Qed.

Lemma u32_u32 x : u32 (u32 x) = u32 x.
Proof. unfold u32. rewrite <- Z.land_assoc. reflexivity. Qed.

Lemma le32_of_le32 a b c d :
  le32 (of_le32 [u8 a; u8 b; u8 c; u8 d]) = [u8 a; u8 b; u8 c; u8 d].
Proof.
  unfold of_le32, le32, u8. cbn [nth].
  apply (f_equal2 cons); [| apply (f_equal2 cons); [| apply (f_equal2 cons);
    [| apply (f_equal2 cons); [| reflexivity]]]];
    apply Z.bits_inj'; intros n Hn; bits_by_byte n.
Qed.

(** The nine bytes of a packed [MessageHeader], and the header read back
    from nine bytes. *)
Definition header_bytes (h : MessageHeader) : list Z :=
  le32 (mh_length h) ++ le32 (mh_stream_id h) ++ [mh_type h].
Definition header_of_bytes (raw : list Z) : MessageHeader :=
  mkMessageHeader (of_le32 (ztake 4 raw)) (of_le32 (ztake 4 (zdrop 4 raw)))
    (u8 (nth 8 raw 0)).

Lemma write_header_bytes_eq off bytes h :
  write_header_bytes off bytes h =
  header_of_bytes (splice off bytes (header_bytes h)).
Proof. reflexivity. Qed.

Lemma zlen_map {A B} (f : A -> B) l : zlen (map f l) = zlen l.
Proof. unfold zlen. rewrite length_map. reflexivity. Qed.

Lemma splice_whole b raw : zlen b = zlen raw -> splice 0 b raw = b.
Proof.
  intros H. unfold splice, ztake, zdrop. rewrite Z.add_0_l, H.
  unfold zlen. rewrite Nat2Z.id, skipn_all. cbn [Z.to_nat firstn app].
  apply app_nil_r.
Qed.

Lemma splice_length off b raw :
  0 <= off -> off + zlen b <= zlen raw -> zlen (splice off b raw) = zlen raw.
Proof.
  intros H0 H. unfold splice, ztake, zdrop, zlen in *.
  rewrite !length_app, length_firstn, length_skipn. lia.
Qed.

Lemma splice_splice b1 b2 raw :
  zlen b1 + zlen b2 <= zlen raw ->
  splice (zlen b1) b2 (splice 0 b1 raw) = splice 0 (b1 ++ b2) raw.
Proof.
  intros H. unfold splice, ztake, zdrop. rewrite !Z.add_0_l.
  cbn [Z.to_nat firstn app]. rewrite zlen_app.
  unfold zlen in *. rewrite !Z2Nat.inj_add, !Nat2Z.id by lia.
  rewrite firstn_app, firstn_all, Nat.sub_diag. cbn [firstn].
  rewrite app_nil_r, <- app_assoc. f_equal. f_equal.
  rewrite skipn_app, (skipn_all2 b1) by lia. cbn [app].
  rewrite skipn_skipn. f_equal. lia.
Qed.

Lemma splice_map off b raw :
  splice off (map u8 b) (map u8 raw) = map u8 (splice off b raw).
Proof.
  unfold splice, ztake, zdrop.
  rewrite zlen_map, !map_app, firstn_map, skipn_map. reflexivity.
Qed.

Lemma header_bytes_are_bytes h :
  u8 (mh_type h) = mh_type h ->
  exists raw, header_bytes h = map u8 raw /\ zlen raw = 9.
Proof.
  intros Ht.
  exists [mh_length h; Z.shiftr (mh_length h) 8; Z.shiftr (mh_length h) 16;
          Z.shiftr (mh_length h) 24;
          mh_stream_id h; Z.shiftr (mh_stream_id h) 8;
          Z.shiftr (mh_stream_id h) 16; Z.shiftr (mh_stream_id h) 24;
          mh_type h].
  split; [| reflexivity].
  unfold header_bytes, le32. cbn [map app]. rewrite Ht. reflexivity.
Qed.

Lemma header_bytes_of_bytes raw :
  zlen raw = 9 -> header_bytes (header_of_bytes (map u8 raw)) = map u8 raw.
Proof.
  intros H.
  destruct raw as [| a [| b [| c [| d [| e [| f [| g [| i [| j [| x raw]]]]]]]]]];
    try discriminate H.
  - unfold header_bytes, header_of_bytes.
    cbn [map mh_length mh_stream_id mh_type].
    change (ztake 4 [u8 a; u8 b; u8 c; u8 d; u8 e; u8 f; u8 g; u8 i; u8 j])
      with [u8 a; u8 b; u8 c; u8 d].
    change (ztake 4 (zdrop 4 [u8 a; u8 b; u8 c; u8 d; u8 e; u8 f; u8 g; u8 i; u8 j]))
      with [u8 e; u8 f; u8 g; u8 i].
    rewrite !le32_of_le32. cbn [nth app]. rewrite u8_u8. reflexivity.
  - exfalso. unfold zlen in H. cbn [length] in H. lia.
Qed.

(** X1.  What [create_and_send_msg] writes as a header, the read loop of
    [handle_client_connection_event] reads back as the same header: the length
    and the stream id as 32-bit values and the type as a byte, whatever the
    header record held before. *)
Theorem header_round_trip len sid ty h :
  write_header_bytes 0 (encode_header len sid ty) h =
  mkMessageHeader (u32 len) (u32 sid) (u8 ty).
Proof.
  rewrite write_header_bytes_eq, splice_whole by reflexivity.
  unfold header_of_bytes, encode_header.
  change (ztake 4 (le32 (u32 len) ++ le32 (u32 sid) ++ [u8 ty]))
    with (le32 (u32 len)).
  change (ztake 4 (zdrop 4 (le32 (u32 len) ++ le32 (u32 sid) ++ [u8 ty])))
    with (le32 (u32 sid)).
  change (nth 8 (le32 (u32 len) ++ le32 (u32 sid) ++ [u8 ty]) 0) with (u8 ty).
  rewrite !of_le32_le32, !u32_u32, u8_u8. reflexivity.
Qed.

(** X2.  A header that arrives in two reads is the header that arrives in
    one: the second read stores its bytes behind those of the first. *)
Theorem header_in_two_reads h b1 b2 :
  u8 (mh_type h) = mh_type h ->
  zlen b1 + zlen b2 <= sizeof_MessageHeader ->
  write_header_bytes (zlen b1) (map u8 b2) (write_header_bytes 0 (map u8 b1) h) =
  write_header_bytes 0 (map u8 (b1 ++ b2)) h.
Proof.
  intros Ht Hlen. unfold sizeof_MessageHeader in Hlen.
  destruct (header_bytes_are_bytes h Ht) as (raw & Hraw & Hn).
  pose proof (zlen_nonneg b1). pose proof (zlen_nonneg b2).
  rewrite !write_header_bytes_eq, Hraw, splice_map, header_bytes_of_bytes
    by (rewrite splice_length; lia).
  rewrite <- (zlen_map u8 b1), <- !splice_map, splice_splice
    by (rewrite !zlen_map; lia).
  rewrite map_app. reflexivity.
Qed.

Lemma header_in_two_reads_witness :
  write_header_bytes 3 [0; 1; 0; 0; 0; MSG_DATA]
    (write_header_bytes 0 [44; 1; 0] (mkMessageHeader 0 0 0)) =
  mkMessageHeader 300 1 MSG_DATA.
Proof.
  exact (eq_trans
           (header_in_two_reads (mkMessageHeader 0 0 0) [44; 1; 0]
              [0; 1; 0; 0; 0; MSG_DATA] eq_refl ltac:(vm_compute; discriminate))
           eq_refl).
Defined.

(** * The configuration file *)

(** [load_config_file] reads the table of on-demand services.  The file is
    a list of bytes, [None] when [fopen] fails; a [char] is a [Z] in
    [0, 256). *)

(** [isspace] in the C locale; the daemon never calls [setlocale]. *)
Definition isspace (c : Z) : bool := (c =? 32) || ((9 <=? c) && (c <=? 13)).

(** The characters [fgets(line, 256, f)] takes from the stream: at most
    [n], up to and with the first newline; and the rest of the stream. *)
Fixpoint fgets_chars (n : nat) (s : list Z) : list Z * list Z :=
  match n, s with
  | O, _ => ([], s)
  | _, [] => ([], [])
  | S n', c :: t =>
    if c =? 10 then ([c], t)
    else let r := fgets_chars n' t in (c :: fst r, snd r)
  end.

(** [fgets(line, 256, f)]: [None] at the end of the file, else the array
    with its terminating NUL and the rest of the stream. *)
Definition fgets (s : list Z) : option (list Z * list Z) :=
  match s with
  | [] => None
  | _ :: _ => let r := fgets_chars 255 s in Some (fst r ++ [0], snd r)
  end.

(** [line[i] = v]. *)
Definition poke (i v : Z) (line : list Z) : list Z := splice i [v] line.

(** The C string at a [char*]: the bytes before the first NUL. *)
Fixpoint c_string (l : list Z) : list Z :=
  match l with
  | [] => []
  | c :: t => if c =? 0 then [] else c :: c_string t
  end.

(** The string at [&line[start]]. *)
Definition string_at (line : list Z) (start : Z) : list Z :=
  c_string (zdrop start line).

(** The loop [for (int i = 0; i < 256; i++)] over a line; [parts] holds the
    offsets of the pointers [&line[start]] pushed so far.  The result is the
    array as the loop leaves it, and the parts. *)
Fixpoint split_loop (fuel : nat) (i : Z) (line : list Z) (in_quotes : bool)
  (start : Z) (parts : list Z) : list Z * list Z :=
  match fuel with
  | O => (line, parts)
  | S fuel' =>
    let c := nth (Z.to_nat i) line 0 in
    if c =? 0 then
      (line, if start <? i then parts ++ [start] else parts)
    else if c =? 34 then
      split_loop fuel' (i + 1) (poke i 0 line) (negb in_quotes) (i + 1)
        (if in_quotes then parts ++ [start] else parts)
    else if isspace c && negb in_quotes then
      split_loop fuel' (i + 1) (poke i 0 line) in_quotes (i + 1)
        (if start <? i then parts ++ [start] else parts)
    else split_loop fuel' (i + 1) line in_quotes start parts
  end.

(** The parts of a line, as the strings the pointers point to after the
    loop. *)
Definition split_line (line : list Z) : list (list Z) :=
  let r := split_loop 256 0 line false 0 [] in
  map (string_at (fst r)) (snd r).

(** [if (parts.size() >= 2) { ... }]: the arguments start with the program. *)
Definition add_entry (parts : list (list Z)) (ods : list OnDemandStart)
  : list OnDemandStart :=
  match parts with
  | name :: prog :: rest => ods ++ [mkOnDemandStart name prog (prog :: rest)]
  | _ => ods
  end.

(** The loop [while (fgets(line, 256, f) != nullptr)]; every turn takes at
    least one character from the stream. *)
Fixpoint read_lines (fuel : nat) (s : list Z) (ods : list OnDemandStart)
  : list OnDemandStart :=
  match fuel with
  | O => ods
  | S fuel' =>
    match fgets s with
    | None => ods
    | Some (line, rest) => read_lines fuel' rest (add_entry (split_line line) ods)
    end
  end.

Definition load_config_file (file : option (list Z)) (ods : list OnDemandStart)
  : list OnDemandStart :=
  match file with
  | None => ods
  | Some s => read_lines (length s) s ods
  end.

(** ** The parts of a line, part by part *)

(** The loop of [split_loop] with the current part in the place of the
    offsets: [cur] holds the characters from [start] to [i]. *)
Fixpoint parts_from (in_quotes : bool) (cur : list Z) (l : list Z)
  : list (list Z) :=
  match l with
  | [] => match cur with [] => [] | _ :: _ => [cur] end
  | c :: t =>
    if c =? 34 then
      (if in_quotes then [cur] else []) ++ parts_from (negb in_quotes) [] t
    else if isspace c && negb in_quotes then
      match cur with [] => [] | _ :: _ => [cur] end ++ parts_from in_quotes [] t
    else parts_from in_quotes (cur ++ [c]) t
  end.

Definition no_nul (l : list Z) : Prop := forall c, In c l -> c <> 0.

Lemma c_string_app a rest : no_nul a -> c_string (a ++ 0 :: rest) = a.
Proof.
  intros H. induction a as [| c a IH]; [reflexivity |].
  cbn [app c_string].
  assert (c <> 0) by (apply H; left; reflexivity).
  apply Z.eqb_neq in H0. rewrite H0. f_equal. apply IH.
  intros x Hx. apply H. right. exact Hx.
Qed.

Lemma zdrop_app {A} (a b : list A) : zdrop (zlen a) (a ++ b) = b.
Proof.
  unfold zdrop, zlen. rewrite Nat2Z.id, skipn_app, skipn_all, Nat.sub_diag.
  reflexivity.
Qed.

Lemma ztake_app {A} (a b : list A) : ztake (zlen a) (a ++ b) = a.
Proof.
  unfold ztake, zlen. rewrite Nat2Z.id, firstn_app, firstn_all, Nat.sub_diag.
  cbn [firstn]. apply app_nil_r.
Qed.

Lemma nth_zlen_app (a : list Z) c b : nth (Z.to_nat (zlen a)) (a ++ c :: b) 0 = c.
Proof.
  unfold zlen. rewrite Nat2Z.id, app_nth2, Nat.sub_diag by lia. reflexivity.
Qed.

Lemma poke_app a c b v : poke (zlen a) v (a ++ c :: b) = a ++ v :: b.
Proof.
  unfold poke, splice. rewrite ztake_app.
  change (zlen [v]) with 1.
  replace (zlen a + 1) with (zlen (a ++ [c])) by (rewrite zlen_app; reflexivity).
  replace (a ++ c :: b) with ((a ++ [c]) ++ b) by (rewrite <- app_assoc; reflexivity).
  rewrite zdrop_app. reflexivity.
Qed.

Lemma string_at_app done cur rest :
  no_nul cur -> string_at (done ++ cur ++ 0 :: rest) (zlen done) = cur.
Proof.
  intros H. unfold string_at. rewrite zdrop_app. apply c_string_app. exact H.
Qed.

Lemma no_nul_app a b : no_nul a -> no_nul b -> no_nul (a ++ b).
Proof.
  intros Ha Hb c Hc. apply in_app_or in Hc. destruct Hc; [apply Ha | apply Hb]; assumption.
Qed.

Lemma zlen_snoc {A} (a : list A) c : zlen (a ++ [c]) = zlen a + 1.
Proof. rewrite zlen_app. reflexivity. Qed.

Lemma cur_nonempty (done cur : list Z) :
  (zlen done <? zlen (done ++ cur)) = match cur with [] => false | _ :: _ => true end.
Proof.
  rewrite zlen_app. destruct cur as [| c cur].
  - change (zlen (@nil Z)) with 0. apply Z.ltb_ge. lia.
  - apply Z.ltb_lt. unfold zlen. cbn [length]. lia.
Qed.

(** The loop with offsets computes the parts [parts_from] lists; the part of
    the array before [i] stays as it is. *)
Lemma split_loop_spec l :
  forall fuel done cur junk q parts,
    (length l < fuel)%nat -> no_nul cur -> no_nul l ->
    let r := split_loop fuel (zlen (done ++ cur))
               (done ++ cur ++ l ++ 0 :: junk) q (zlen done) parts in
    exists tail extra,
      fst r = done ++ cur ++ tail /\
      snd r = parts ++ extra /\
      map (string_at (fst r)) extra = parts_from q cur l.
Proof.
  induction l as [| c l IH]; intros fuel done cur junk q parts Hf Hcur Hl r;
    subst r; (destruct fuel as [| fuel]; [inversion Hf |]); cbn [split_loop].
  - cbn [app]. rewrite app_assoc, nth_zlen_app, Z.eqb_refl, <- app_assoc.
    rewrite cur_nonempty. cbn [fst snd parts_from].
    destruct cur as [| x cur].
    + exists (0 :: junk), []. rewrite app_nil_r. auto.
    + exists (0 :: junk), [zlen done]. repeat split.
      cbn [map]. rewrite string_at_app by exact Hcur. reflexivity.
  - assert (Hc : c <> 0) by (apply Hl; left; reflexivity).
    assert (Hl' : no_nul l) by (intros x Hx; apply Hl; right; exact Hx).
    assert (Hf' : (length l < fuel)%nat) by (cbn [length] in Hf; lia).
    apply Z.eqb_neq in Hc.
    replace (done ++ cur ++ (c :: l) ++ 0 :: junk)
      with ((done ++ cur) ++ c :: l ++ 0 :: junk)
      by (rewrite <- app_assoc; reflexivity).
    rewrite nth_zlen_app, Hc, poke_app. cbn [parts_from].
    assert (Hnext : zlen (done ++ cur) + 1 = zlen ((done ++ cur ++ [0]) ++ [])).
    { rewrite app_nil_r, app_assoc, zlen_snoc. reflexivity. }
    assert (Hline : (done ++ cur) ++ 0 :: l ++ 0 :: junk =
                    (done ++ cur ++ [0]) ++ [] ++ l ++ 0 :: junk).
    { rewrite <- !app_assoc. reflexivity. }
    assert (Hstart : zlen (done ++ cur) + 1 = zlen (done ++ cur ++ [0])).
    { rewrite app_assoc, zlen_snoc. reflexivity. }
    assert (Hnil : no_nul []) by (intros x []).
    destruct (c =? 34) eqn:Eq.
    + destruct (IH fuel (done ++ cur ++ [0]) [] junk (negb q)
                  (if q then parts ++ [zlen done] else parts) Hf' Hnil Hl')
        as (tail & extra & E1 & E2 & E3).
      cbv zeta in E1, E2, E3.
      rewrite <- Hnext, <- Hstart, <- Hline in E1, E2, E3.
      exists (0 :: tail).
      destruct q.
      * exists (zlen done :: extra). split; [| split].
        -- rewrite E1, <- !app_assoc. reflexivity.
        -- rewrite E2, <- app_assoc. reflexivity.
        -- cbn [map app]. rewrite E3. f_equal.
           rewrite E1, <- !app_assoc. cbn [app].
           apply string_at_app. exact Hcur.
      * exists extra. split; [| split].
        -- rewrite E1, <- !app_assoc. reflexivity.
        -- exact E2.
        -- exact E3.
    + destruct (isspace c && negb q) eqn:Es.
      * rewrite cur_nonempty.
        destruct (IH fuel (done ++ cur ++ [0]) [] junk q
                    (match cur with [] => parts | _ :: _ => parts ++ [zlen done] end)
                    Hf' Hnil Hl')
          as (tail & extra & E1 & E2 & E3).
        cbv zeta in E1, E2, E3.
        rewrite <- Hnext, <- Hstart, <- Hline in E1, E2, E3.
        exists (0 :: tail).
        destruct cur as [| x cur].
        -- exists extra. split; [| split].
           ++ rewrite E1, <- !app_assoc. reflexivity.
           ++ exact E2.
           ++ exact E3.
        -- exists (zlen done :: extra). split; [| split].
           ++ rewrite E1, <- !app_assoc. reflexivity.
           ++ rewrite E2, <- app_assoc. reflexivity.
           ++ cbn [map app]. rewrite E3. f_equal.
              rewrite E1, <- !app_assoc.
              apply (string_at_app done (x :: cur)). exact Hcur.
      * replace ((done ++ cur) ++ c :: l ++ 0 :: junk)
          with (done ++ (cur ++ [c]) ++ l ++ 0 :: junk)
          by (rewrite <- !app_assoc; reflexivity).
        replace (zlen (done ++ cur) + 1) with (zlen (done ++ cur ++ [c]))
          by (rewrite (app_assoc done), zlen_snoc; reflexivity).
        assert (Hcur' : no_nul (cur ++ [c])).
        { apply no_nul_app; [exact Hcur |]. intros x [<- | []].
          apply Z.eqb_neq. exact Hc. }
        destruct (IH fuel done (cur ++ [c]) junk q parts Hf' Hcur' Hl')
          as (tail & extra & E1 & E2 & E3).
        cbv zeta in E1, E2, E3.
        exists (c :: tail), extra. split; [| split].
        -- rewrite E1, <- !app_assoc. reflexivity.
        -- exact E2.
        -- exact E3.
Qed.

Lemma split_line_parts l junk :
  zlen l <= 255 -> no_nul l ->
  split_line (l ++ 0 :: junk) = parts_from false [] l.
Proof.
  intros Hlen Hl. unfold split_line.
  assert (Hf : (length l < 256)%nat) by (unfold zlen in Hlen; lia).
  destruct (split_loop_spec l 256 [] [] junk false [] Hf ltac:(intros x []) Hl)
    as (tail & extra & E1 & E2 & E3).
  cbv zeta in E1, E2, E3. cbn [app] in E1, E2, E3.
  change (zlen (@nil Z)) with 0 in E1, E2, E3.
  rewrite E2. exact E3.
Qed.

(** ** Lines of columns *)

(** A column of a line as it is written in the file: a bare word, or a
    text between double quotes. *)
Inductive Column :=
| plain (w : list Z)
| quoted (q : list Z).

Definition column_text (c : Column) : list Z :=
  match c with plain w => w | quoted q => q end.

Definition render_column (c : Column) : list Z :=
  match c with plain w => w | quoted q => [34] ++ q ++ [34] end.

Definition word_char (c : Z) : bool :=
  negb (c =? 0) && negb (c =? 34) && negb (isspace c).
Definition quoted_char (c : Z) : bool :=
  negb (c =? 0) && negb (c =? 34).

(** A bare word is not empty and has no NUL, quote or white space in it;
    a quoted text has no NUL and no quote in it. *)
Definition column_ok (c : Column) : bool :=
  match c with
  | plain w => match w with [] => false | _ :: _ => forallb word_char w end
  | quoted q => forallb quoted_char q
  end.

Definition spaces_ok (s : list Z) : bool :=
  match s with [] => false | _ :: _ => forallb isspace s end.

(** Columns, each with the white space that follows it. *)
Fixpoint render (cols : list (Column * list Z)) : list Z :=
  match cols with
  | [] => []
  | (c, sep) :: t => render_column c ++ sep ++ render t
  end.

Lemma isspace_not_quote c : isspace c = true -> (c =? 34) = false.
Proof.
  unfold isspace. intros H. apply Z.eqb_neq. intros ->. discriminate H.
Qed.

Lemma isspace_not_nul c : isspace c = true -> c <> 0.
Proof. unfold isspace. intros H ->. discriminate H. Qed.

Lemma parts_from_word w : forall cur l,
  forallb word_char w = true ->
  parts_from false cur (w ++ l) = parts_from false (cur ++ w) l.
Proof.
  induction w as [| c w IH]; intros cur l H.
  - rewrite app_nil_r. reflexivity.
  - cbn [forallb] in H. apply andb_true_iff in H. destruct H as [Hc Hw].
    unfold word_char in Hc. apply andb_true_iff in Hc. destruct Hc as [Hc Hs].
    apply andb_true_iff in Hc. destruct Hc as [_ Hq].
    apply negb_true_iff in Hq, Hs.
    cbn [app parts_from]. rewrite Hq, Hs. cbn [andb].
    rewrite IH by exact Hw. rewrite <- app_assoc. reflexivity.
Qed.

Lemma parts_from_quoted q : forall cur l,
  forallb quoted_char q = true ->
  parts_from true cur (q ++ l) = parts_from true (cur ++ q) l.
Proof.
  induction q as [| c q IH]; intros cur l H.
  - rewrite app_nil_r. reflexivity.
  - cbn [forallb] in H. apply andb_true_iff in H. destruct H as [Hc Hw].
    unfold quoted_char in Hc. apply andb_true_iff in Hc. destruct Hc as [_ Hq].
    apply negb_true_iff in Hq.
    cbn [app parts_from]. rewrite Hq. cbn [negb]. rewrite andb_false_r.
    rewrite IH by exact Hw. rewrite <- app_assoc. reflexivity.
Qed.

Lemma parts_from_spaces s : forall l,
  forallb isspace s = true ->
  parts_from false [] (s ++ l) = parts_from false [] l.
Proof.
  induction s as [| c s IH]; intros l H; [reflexivity |].
  cbn [forallb] in H. apply andb_true_iff in H. destruct H as [Hc Hs].
  cbn [app parts_from]. rewrite (isspace_not_quote c Hc), Hc. cbn [negb andb app].
  apply IH. exact Hs.
Qed.

Lemma parts_from_separator s cur l :
  spaces_ok s = true ->
  parts_from false cur (s ++ l) =
  match cur with [] => [] | _ :: _ => [cur] end ++ parts_from false [] l.
Proof.
  destruct s as [| c s]; [discriminate |]. cbn [spaces_ok forallb].
  intros H. apply andb_true_iff in H. destruct H as [Hc Hs].
  cbn [app parts_from]. rewrite (isspace_not_quote c Hc), Hc. cbn [negb andb].
  rewrite parts_from_spaces by exact Hs. reflexivity.
Qed.

Definition columns_ok (cols : list (Column * list Z)) : Prop :=
  Forall (fun cs => column_ok (fst cs) = true /\ spaces_ok (snd cs) = true) cols.

Lemma parts_from_render cols :
  columns_ok cols ->
  parts_from false [] (render cols) = map (fun cs => column_text (fst cs)) cols.
Proof.
  induction 1 as [| [c sep] cols [Hc Hs] _ IH]; [reflexivity |].
  cbn [fst snd] in Hc, Hs. cbn [render map fst column_text].
  destruct c as [w | q]; cbn [render_column column_text].
  - destruct w as [| x w]; [discriminate |]. cbn [column_ok] in Hc.
    rewrite parts_from_word by exact Hc. cbn [app].
    rewrite parts_from_separator by exact Hs. rewrite IH. reflexivity.
  - cbn [column_ok] in Hc. rewrite <- !app_assoc.
    cbn [app parts_from Z.eqb Pos.eqb]. cbn [negb app].
    rewrite parts_from_quoted by exact Hc.
    cbn [app parts_from Z.eqb Pos.eqb negb].
    rewrite parts_from_separator by exact Hs. rewrite IH. reflexivity.
Qed.

Lemma no_nul_forallb (p : Z -> bool) l :
  (forall c, p c = true -> c <> 0) -> forallb p l = true -> no_nul l.
Proof.
  intros Hp H c Hc. apply Hp. rewrite forallb_forall in H. apply H. exact Hc.
Qed.

Lemma word_char_not_nul c : word_char c = true -> c <> 0.
Proof.
  unfold word_char. intros H ->. discriminate H.
Qed.

Lemma quoted_char_not_nul c : quoted_char c = true -> c <> 0.
Proof.
  unfold quoted_char. intros H ->. discriminate H.
Qed.

Lemma no_nul_cons c l : c <> 0 -> no_nul l -> no_nul (c :: l).
Proof. intros Hc Hl x [<- | Hx]; [exact Hc | apply Hl; exact Hx]. Qed.

Lemma no_nul_render cols : columns_ok cols -> no_nul (render cols).
Proof.
  induction 1 as [| [c sep] cols [Hc Hs] _ IH]; [intros x [] |].
  cbn [fst snd] in Hc, Hs. cbn [render].
  apply no_nul_app; [| apply no_nul_app; [| exact IH]].
  - destruct c as [w | q]; cbn [render_column].
    + destruct w as [| x w]; [discriminate |].
      apply (no_nul_forallb word_char); [exact word_char_not_nul | exact Hc].
    + apply no_nul_cons; [discriminate |].
      apply no_nul_app.
      * apply (no_nul_forallb quoted_char); [exact quoted_char_not_nul | exact Hc].
      * apply no_nul_cons; [discriminate | intros x []].
  - destruct sep as [| x sep]; [discriminate |].
    apply (no_nul_forallb isspace); [exact isspace_not_nul | exact Hs].
Qed.

(** X3.  A line of columns, bare words or quoted texts, each followed by
    white space, is split into the texts of its columns: the quotes are
    taken off, white space between quotes stays, and white space at the
    start of the line is skipped. *)
Theorem split_line_columns lead cols junk :
  forallb isspace lead = true ->
  columns_ok cols ->
  zlen (lead ++ render cols) <= 255 ->
  split_line ((lead ++ render cols) ++ 0 :: junk) =
  map (fun cs => column_text (fst cs)) cols.
Proof.
  intros Hlead Hcols Hlen.
  rewrite split_line_parts.
  - rewrite parts_from_spaces by exact Hlead. apply parts_from_render. exact Hcols.
  - exact Hlen.
  - apply no_nul_app; [| apply no_nul_render; exact Hcols].
    apply (no_nul_forallb isspace); [exact isspace_not_nul | exact Hlead].
Qed.

(** The line [  netsrv "/opt/net srv" -v] and a newline. *)
Definition example_columns : list (Column * list Z) :=
  [(plain [110; 101; 116], [32; 9]);
   (quoted [47; 111; 112; 116; 47; 110; 32; 115], [32]);
   (plain [45; 118], [10])].

Lemma split_line_columns_witness :
  split_line ([32; 32] ++ render example_columns ++ [0]) =
  [[110; 101; 116]; [47; 111; 112; 116; 47; 110; 32; 115]; [45; 118]].
Proof.
  rewrite app_assoc.
  rewrite (split_line_columns [32; 32] example_columns []).
  - reflexivity.
  - reflexivity.
  - repeat constructor.
  - vm_compute. discriminate.
Defined.

(** X4.  Three edges of the quoting.  A word written right before an
    opening quote is lost; a quote that is not closed takes the rest of the
    line, white space and all; and two quotes with nothing between them are
    an empty part. *)
Theorem split_line_quote_edges w q junk :
  column_ok (plain w) = true -> column_ok (quoted q) = true ->
  zlen w + zlen q <= 250 ->
  split_line (w ++ [34] ++ q ++ [34] ++ 0 :: junk) = [q] /\
  split_line ([34] ++ q ++ 0 :: junk) =
    match q with [] => [] | _ :: _ => [q] end /\
  split_line ([34; 34] ++ 0 :: junk) = [[]].
Proof.
  intros Hw Hq Hlen.
  pose proof (zlen_nonneg w). pose proof (zlen_nonneg q).
  assert (Hw' : forallb word_char w = true)
    by (destruct w; [discriminate | exact Hw]).
  cbn [column_ok] in Hq.
  assert (Nw : no_nul w)
    by (apply (no_nul_forallb word_char); [exact word_char_not_nul | exact Hw']).
  assert (Nq : no_nul q)
    by (apply (no_nul_forallb quoted_char); [exact quoted_char_not_nul | exact Hq]).
  split; [| split].
  - replace (w ++ [34] ++ q ++ [34] ++ 0 :: junk)
      with ((w ++ [34] ++ q ++ [34]) ++ 0 :: junk)
      by (rewrite <- !app_assoc; reflexivity).
    rewrite split_line_parts.
    + rewrite parts_from_word by exact Hw'.
      cbn [app parts_from Z.eqb Pos.eqb negb].
      rewrite parts_from_quoted by exact Hq.
      cbn [app parts_from Z.eqb Pos.eqb negb]. reflexivity.
    + rewrite !zlen_app. change (zlen [34]) with 1. lia.
    + apply no_nul_app; [exact Nw |]. apply no_nul_cons; [discriminate |].
      apply no_nul_app; [exact Nq |]. apply no_nul_cons; [discriminate | intros x []].
  - replace ([34] ++ q ++ 0 :: junk) with (([34] ++ q) ++ 0 :: junk)
      by (rewrite <- !app_assoc; reflexivity).
    rewrite split_line_parts.
    + cbn [app parts_from Z.eqb Pos.eqb negb].
      rewrite <- (app_nil_r q) at 1.
      rewrite parts_from_quoted by exact Hq. reflexivity.
    + rewrite !zlen_app. change (zlen [34]) with 1. lia.
    + apply no_nul_cons; [discriminate | exact Nq].
  - reflexivity.
Qed.

Lemma split_line_quote_edges_witness :
  split_line ([97; 98] ++ [34] ++ [99; 32; 100] ++ [34] ++ [0]) = [[99; 32; 100]] /\
  split_line ([34] ++ [99; 32; 100] ++ [0]) = [[99; 32; 100]] /\
  split_line ([34; 34] ++ [0]) = [[]].
Proof.
  exact (split_line_quote_edges [97; 98] [99; 32; 100] [] eq_refl eq_refl
           ltac:(vm_compute; discriminate)).
Defined.

(** ** Files of lines *)

(** The columns of a line with a blank between them and a newline at the
    end. *)
Fixpoint with_seps (cols : list Column) : list (Column * list Z) :=
  match cols with
  | [] => []
  | c :: t => (c, match t with [] => [10] | _ :: _ => [32] end) :: with_seps t
  end.

Definition config_line (cols : list Column) : list Z :=
  match cols with
  | [] => [10]
  | _ :: _ => render (with_seps cols)
  end.

(** A line [fgets] reads in one piece: at most 255 characters with the
    newline, and no newline between quotes. *)
Definition config_line_ok (cols : list Column) : Prop :=
  Forall (fun c => column_ok c = true /\ ~ In 10 (column_text c)) cols /\
  zlen (config_line cols) <= 255.

Lemma fgets_chars_line l : forall n rest,
  ~ In 10 l -> (length l < n)%nat ->
  fgets_chars n (l ++ 10 :: rest) = (l ++ [10], rest).
Proof.
  induction l as [| c l IH]; intros n rest Hnl Hn.
  - destruct n; [inversion Hn |]. reflexivity.
  - destruct n; [inversion Hn |]. cbn [app fgets_chars].
    assert (Hc : c <> 10) by (intros ->; apply Hnl; left; reflexivity).
    apply Z.eqb_neq in Hc. rewrite Hc.
    rewrite IH; [reflexivity | | cbn [length] in Hn; lia].
    intros Hin. apply Hnl. right. exact Hin.
Qed.

Lemma word_char_not_newline w :
  forallb word_char w = true -> ~ In 10 w.
Proof.
  intros H Hin. rewrite forallb_forall in H. apply H in Hin. discriminate Hin.
Qed.

Lemma with_seps_ok cols :
  Forall (fun c => column_ok c = true /\ ~ In 10 (column_text c)) cols ->
  columns_ok (with_seps cols).
Proof.
  induction 1 as [| c cols [Hc _] _ IH]; [constructor |].
  cbn [with_seps]. constructor; [| exact IH].
  cbn [fst snd]. split; [exact Hc |]. destruct cols; reflexivity.
Qed.

Lemma render_column_no_newline c :
  column_ok c = true -> ~ In 10 (column_text c) -> ~ In 10 (render_column c).
Proof.
  intros Hc Hn. destruct c as [w | q]; cbn [render_column column_text] in *.
  - exact Hn.
  - cbn [app]. intros H. destruct H as [H | H]; [discriminate H |].
    apply in_app_or in H. destruct H as [H | H]; [exact (Hn H) |].
    destruct H as [H | []]. discriminate H.
Qed.

Lemma with_seps_body c cols :
  Forall (fun c => column_ok c = true /\ ~ In 10 (column_text c)) (c :: cols) ->
  exists body, render (with_seps (c :: cols)) = body ++ [10] /\ ~ In 10 body.
Proof.
  revert c. induction cols as [| d cols IH]; intros c H.
  - inversion H as [| ? ? [Hc Hn] _]; subst.
    exists (render_column c). split.
    + cbn [with_seps render]. rewrite app_nil_r. reflexivity.
    + apply render_column_no_newline; assumption.
  - inversion H as [| ? ? [Hc Hn] Ht]; subst.
    destruct (IH d Ht) as (body & Hb & Hnb).
    exists (render_column c ++ [32] ++ body). split.
    + change (render (with_seps (c :: d :: cols)))
        with (render_column c ++ [32] ++ render (with_seps (d :: cols))).
      rewrite Hb, <- !app_assoc. reflexivity.
    + intros Hin. apply in_app_or in Hin. destruct Hin as [Hin | Hin].
      * exact (render_column_no_newline c Hc Hn Hin).
      * destruct Hin as [Hin | Hin]; [discriminate Hin | exact (Hnb Hin)].
Qed.

Lemma fgets_config_line cols rest :
  config_line_ok cols ->
  fgets (config_line cols ++ rest) = Some (config_line cols ++ [0], rest).
Proof.
  intros [Hcols Hlen]. destruct cols as [| c cols].
  - reflexivity.
  - unfold config_line in *.
    destruct (with_seps_body c cols Hcols) as (body & Hb & Hnb).
    rewrite Hb in *. rewrite <- app_assoc. cbn [app].
    assert (Hn : (length body < 255)%nat).
    { rewrite zlen_snoc in Hlen. unfold zlen in Hlen. lia. }
    unfold fgets.
    destruct (body ++ 10 :: rest) as [| x s] eqn:E.
    { destruct body; discriminate E. }
    rewrite <- E, fgets_chars_line by assumption. reflexivity.
Qed.

Lemma split_config_line cols :
  config_line_ok cols ->
  split_line (config_line cols ++ [0]) = map column_text cols.
Proof.
  intros [Hcols Hlen]. destruct cols as [| c cols].
  - reflexivity.
  - unfold config_line in *.
    pose proof (split_line_columns [] (with_seps (c :: cols)) []
                  eq_refl (with_seps_ok _ Hcols) Hlen) as H.
    cbn [app] in H. rewrite H.
    clear. generalize (c :: cols). intros l.
    induction l as [| d l IH]; [reflexivity |].
    cbn [with_seps map fst]. rewrite IH. reflexivity.
Qed.

Lemma add_entry_app parts ods : add_entry parts ods = ods ++ add_entry parts [].
Proof.
  destruct parts as [| a [| b rest]]; cbn [add_entry];
    rewrite ?app_nil_r; reflexivity.
Qed.

Lemma read_lines_config lines :
  forall fuel ods,
    Forall config_line_ok lines ->
    (length (concat (map config_line lines)) <= fuel)%nat ->
    read_lines fuel (concat (map config_line lines)) ods =
    ods ++ flat_map (fun cols => add_entry (map column_text cols) []) lines.
Proof.
  induction lines as [| cols lines IH]; intros fuel ods Hok Hfuel.
  - cbn [map concat flat_map]. rewrite app_nil_r. destruct fuel; reflexivity.
  - inversion Hok as [| ? ? Hc Ht]; subst.
    cbn [map concat flat_map] in *.
    assert (Hpos : (0 < length (config_line cols))%nat).
    { destruct cols as [| c cols]; [cbn; lia |].
      unfold config_line. destruct (with_seps_body c cols (proj1 Hc)) as (b & -> & _).
      rewrite length_app. cbn [length]. lia. }
    rewrite length_app in Hfuel.
    destruct fuel as [| fuel]; [lia |].
    cbn [read_lines]. rewrite fgets_config_line by exact Hc.
    rewrite split_config_line by exact Hc.
    rewrite IH by (try exact Ht; lia).
    rewrite (add_entry_app _ ods), <- app_assoc. reflexivity.
Qed.

(** X5.  A configuration file of lines of columns, one blank between two
    columns, gives one entry for every line with two columns or more, in the
    order of the lines: the first column is the name of the service, the
    second the program, and the arguments are the columns from the second
    on.  Lines with fewer columns add nothing, and neither does a file that
    cannot be opened. *)
Theorem load_config_file_lines lines ods :
  Forall config_line_ok lines ->
  load_config_file (Some (concat (map config_line lines))) ods =
    ods ++ flat_map (fun cols => add_entry (map column_text cols) []) lines /\
  load_config_file None ods = ods.
Proof.
  intros Hok. split; [| reflexivity].
  unfold load_config_file. apply read_lines_config; [exact Hok | lia].
Qed.

(** A file of three lines: [net "/opt/n s" -v], an empty line and [lonely]. *)
Definition example_file : list (list Column) :=
  [[plain [110; 101; 116]; quoted [47; 111; 112; 116; 47; 110; 32; 115];
    plain [45; 118]];
   [];
   [plain [108; 111; 110; 101; 108; 121]]].

Lemma load_config_file_lines_witness :
  load_config_file (Some (concat (map config_line example_file))) [] =
  [mkOnDemandStart [110; 101; 116] [47; 111; 112; 116; 47; 110; 32; 115]
     [[47; 111; 112; 116; 47; 110; 32; 115]; [45; 118]]].
Proof.
  assert (Hok : Forall config_line_ok example_file).
  { repeat constructor; try (vm_compute; discriminate);
      try (cbn; intuition discriminate). }
  exact (proj1 (load_config_file_lines example_file [] Hok)).
Defined.

(** * What a piece of code leaves alone *)

(** [stable f m]: when [m] returns, the part [f] of the world is as it
    was. *)
Definition stable {T A} (f : World -> T) (m : M A) : Prop :=
  forall w a w', m w = Ret a w' -> f w' = f w.

Lemma stable_bind {T A B} (f : World -> T) (m : M A) (k : A -> M B) :
  stable f m -> (forall a, stable f (k a)) -> stable f (bind m k).
Proof.
  intros Hm Hk w b w' H. apply bind_inv in H. destruct H as (a & w1 & H1 & H2).
  rewrite (Hk _ _ _ _ H2). eapply Hm; eauto.
Qed.

Lemma stable_ret {T A} (f : World -> T) (a : A) : stable f (ret a).
Proof. intros w b w' H. inversion H; subst; reflexivity. Qed.

Lemma stable_gets {T A} (f : World -> T) (g : World -> A) : stable f (gets g).
Proof. intros w b w' H. inversion H; subst; reflexivity. Qed.

Lemma stable_exit {T A} (f : World -> T) c : stable f (@exit A c).
Proof. intros w b w' H; discriminate. Qed.

Lemma stable_fault {T A} (f : World -> T) : stable f (@fault A).
Proof. intros w b w' H; discriminate. Qed.

Lemma stable_stuck {T A} (f : World -> T) : stable f (@stuck A).
Proof. intros w b w' H; discriminate. Qed.

Lemma stable_modify {T} (f : World -> T) (g : World -> World) :
  (forall w, f (g w) = f w) -> stable f (modify g).
Proof. intros Hg w b w' H. inversion H; subst. apply Hg. Qed.

Lemma stable_when {T} (f : World -> T) b m : stable f m -> stable f (when b m).
Proof. intros H. destruct b; [exact H | apply stable_ret]. Qed.

Lemma stable_fueled {T A} (f : World -> T) (h : nat -> M A) (g : World -> nat) :
  (forall n, stable f (h n)) -> stable f (fueled g h).
Proof. intros H w a w' E. eapply H; eauto. Qed.

Lemma stable_sys {T} (f : World -> T) c :
  (forall t s w, f (set_trace t (set_script s w)) = f w) -> stable f (sys c).
Proof.
  intros Hf w r w' H. unfold sys in H.
  destruct (script w); [discriminate |]. inversion H; subst. apply Hf.
Qed.

Lemma stable_deref_cc {T} (f : World -> T) cc : stable f (deref_cc cc).
Proof.
  intros w k w' H. unfold deref_cc in H.
  destruct (find_connection cc (connections w)); [| discriminate].
  inversion H; subst. reflexivity.
Qed.

Lemma stable_deref_ch {T} (f : World -> T) ch : stable f (deref_ch ch).
Proof.
  intros w k w' H. unfold deref_ch in H.
  destruct (find_channel ch (channels w)); [| discriminate].
  inversion H; subst. reflexivity.
Qed.

Lemma stable_pair {T U A} (f : World -> T) (g : World -> U) (m : M A) :
  stable f m -> stable g m -> stable (fun w => (f w, g w)) m.
Proof. intros Hf Hg w a w' H. rewrite (Hf _ _ _ H), (Hg _ _ _ H). reflexivity. Qed.

Create HintDb stable.
#[export] Hint Resolve stable_ret stable_gets stable_exit stable_fault
  stable_stuck stable_deref_cc stable_deref_ch : stable.

(** One step through code built from the monad's combinators, for a part
    [f] given by projections of the world. *)
Ltac stable_step :=
  match goal with
  | |- stable _ (bind _ _) => apply stable_bind; [| intro]
  | |- stable _ (when _ _) => apply stable_when
  | |- stable _ (fueled _ _) => apply stable_fueled; intro
  | |- stable _ (modify _) => apply stable_modify; intro; reflexivity
  | |- stable _ (log _) => apply stable_modify; intro; reflexivity
  | |- stable _ (sys_ _) => apply stable_modify; intro; reflexivity
  | |- stable _ (update_ch _ _) => apply stable_modify; intro; reflexivity
  | |- stable _ (update_cc _ _) => apply stable_modify; intro; reflexivity
  | |- stable _ (sys _) => apply stable_sys; intros; reflexivity
  | |- stable _ (match ?x with _ => _ end) => destruct x
  | |- stable _ _ => solve [eauto with stable]
  end.
Ltac stable_tac := repeat stable_step.

(** A client but for the bytes queued for it. *)
Definition face (k : ClientConnection) :=
  (fd k, next_stream_id k, bytes_read k, header k, payload k, associations k).

(** The state of the board and of the sockets the daemon listens on. *)
Definition env (w : World) :=
  (on_demand_services w, have_base_address w, base_address w,
   channel_status w, channel_status_updated w, recv_buf w, server_socket w,
   gpio_fd w).

(** The clients but for the bytes queued for them. *)
Definition faces (w : World) := map face (connections w).

Lemma faces_update cc f l :
  (forall k, face (f k) = face k) ->
  map face (update_connection cc f l) = map face l.
Proof.
  intros Hf. unfold update_connection. rewrite map_map. apply map_ext.
  intros k. destruct (fd k =? cc); [apply Hf | reflexivity].
Qed.

Lemma stable_faces_push_message cc mb : stable faces (push_message cc mb).
Proof.
  apply stable_modify. intros w. unfold faces. proj.
  apply faces_update. reflexivity.
Qed.
#[export] Hint Resolve stable_faces_push_message : stable.

Lemma stable_faces_send_loop fuel : forall cc mb, stable faces (send_loop fuel cc mb).
Proof.
  induction fuel as [| fuel IH]; intros cc mb; cbn [send_loop]; [apply stable_stuck |].
  cbv zeta. stable_tac.
Qed.

Lemma stable_env_send_loop fuel : forall cc mb, stable env (send_loop fuel cc mb).
Proof.
  induction fuel as [| fuel IH]; intros cc mb; cbn [send_loop]; [apply stable_stuck |].
  cbv zeta. unfold push_message. stable_tac.
Qed.
#[export] Hint Resolve stable_faces_send_loop stable_env_send_loop : stable.

Lemma stable_resize_and_copy {T} (f : World -> T) data n :
  stable f (resize_and_copy data n).
Proof. unfold resize_and_copy. stable_tac. Qed.

Lemma stable_read_bytes {T} (f : World -> T) data n : stable f (read_bytes data n).
Proof. unfold read_bytes. stable_tac. Qed.
#[export] Hint Resolve stable_resize_and_copy stable_read_bytes : stable.

Lemma stable_faces_create_and_send_msg cc ty sid data len :
  stable faces (create_and_send_msg cc ty sid data len).
Proof. unfold create_and_send_msg. stable_tac. Qed.

Lemma stable_env_create_and_send_msg cc ty sid data len :
  stable env (create_and_send_msg cc ty sid data len).
Proof. unfold create_and_send_msg, push_message. stable_tac. Qed.
#[export] Hint Resolve stable_faces_create_and_send_msg
  stable_env_create_and_send_msg : stable.

Lemma find_connection_face cc l l' k :
  map face l' = map face l -> find_connection cc l = Some k ->
  exists k', find_connection cc l' = Some k' /\ face k' = face k.
Proof.
  unfold find_connection. revert l'.
  induction l as [| x l IH]; intros l' Hm Hf; [discriminate |].
  destruct l' as [| x' l']; [discriminate |].
  change (face x' :: map face l' = face x :: map face l) in Hm.
  assert (Hx : face x' = face x) by congruence.
  assert (Hl : map face l' = map face l) by congruence.
  assert (Hfd : fd x' = fd x) by (unfold face in Hx; congruence).
  simpl in *. rewrite Hfd. destruct (fd x =? cc).
  - injection Hf as <-. exists x'. split; [reflexivity | exact Hx].
  - apply IH; assumption.
Qed.

(** What a call of [create_and_send_msg] leaves, in one record: the tables,
    the clients and the board are as they were, and one message more was
    handed over. *)
Definition handed_over (cc ty sid : Z) (body : list Z) (w w' : World) : Prop :=
  core w' = core w /\ faces w' = faces w /\ env w' = env w /\
  messages (trace w') = messages (trace w) ++ [(cc, ty, sid, body)] /\
  erased (trace w') = erased (trace w).

Lemma create_and_send_msg_outcome cc ty sid data len w k body :
  find_connection cc (connections w) = Some k ->
  0 <= len ->
  (forall w0, resize_and_copy data len w0 = Ret body w0) ->
  match create_and_send_msg cc ty sid data len w with
  | Ret _ w' => handed_over cc (u8 ty) (u32 sid) body w w'
  | Exit _ _ => True
  | Fault => False
  | Stuck => True
  end.
Proof.
  intros Hk Hlen Hbody.
  destruct (create_and_send_msg cc ty sid data len w) as [u w' | | |] eqn:E;
    try exact I.
  - destruct (create_and_send_msg_ret _ _ _ _ _ _ _ _ E)
      as (body' & B1 & B2 & _ & B4 & B5).
    rewrite Hbody in B1. injection B1 as <-.
    repeat split; auto.
    + exact (stable_faces_create_and_send_msg _ _ _ _ _ _ _ _ E).
    + exact (stable_env_create_and_send_msg _ _ _ _ _ _ _ _ E).
  - exact (create_and_send_msg_no_fault _ _ _ _ _ _ _ _ Hk Hlen Hbody E).
Qed.

(** ** What the start of the driver leaves alone *)

(** The tables and the state of the board. *)
Definition inside (w : World) :=
  (connections w, services w, channels w, send_queue w, on_demand_services w,
   (have_base_address w, base_address w, channel_status w,
    channel_status_updated w, recv_buf w)).

Lemma stable_inside_open_write_close filename txt :
  stable inside (open_write_close filename txt).
Proof. unfold open_write_close. stable_tac. Qed.

Lemma stable_inside_set_direction_loop retries :
  stable inside (set_direction_loop retries).
Proof.
  induction retries as [| retries IH]; simpl; unfold sleep_10ms; stable_tac.
Qed.

Lemma stable_inside_init_driver : stable inside init_driver.
Proof.
  pose proof stable_inside_open_write_close.
  pose proof stable_inside_set_direction_loop.
  unfold init_driver, init_sigterm, init_server_socket, init_spi, init_gpio,
    set_direction.
  stable_tac.
Qed.

(** [init_driver] leaves a serving world: it makes the sockets and touches
    neither the tables nor the state of the board.  When it returns 0 the
    daemon has its listening socket and the value file of the GPIO. *)
Lemma init_driver_serving on_demand scr r w' :
  init_driver (initial_world on_demand scr) = Ret r w' ->
  w' = serving_world on_demand (server_socket w') (gpio_fd w') (script w')
         (trace w') /\
  (r = 0 -> server_socket w' <> -1 /\ gpio_fd w' <> -1).
Proof.
  intros H. split.
  - pose proof (stable_inside_init_driver _ _ _ H) as E. unfold inside in E.
    destruct w'. simpl in E. injection E as -> -> -> -> -> -> -> -> -> ->.
    reflexivity.
  - intros ->. unfold init_driver in H.
    apply bind_inv in H. destruct H as (u & w1 & H1 & H).
    apply bind_inv in H. destruct H as (r1 & w2 & H2 & H).
    destruct (negb (r1 =? 0)) eqn:E1; [inversion H |].
    assert (S2 : server_socket w2 <> -1).
    { unfold init_server_socket in H2.
      apply bind_inv in H2. destruct H2 as (a & w3 & H3 & H2).
      apply bind_inv in H2. destruct H2 as (u' & w4 & H4 & H2).
      apply modify_inv in H4. subst w4.
      destruct (sr_ret a =? -1) eqn:Ea.
      - inversion H2; subst. discriminate E1.
      - apply Z.eqb_neq in Ea.
        assert (K : stable server_socket
                      (res <- sys (c_bind (sr_ret a)
                                     (mk_sockaddr_in AF_INET INADDR_ANY (htons 7110)));;
                       if sr_ret res <? 0 then ret (-1)
                       else sys_ (c_listen (sr_ret a) 16);; ret 0))
          by stable_tac.
        rewrite (K _ _ _ H2). exact Ea. }
    apply bind_inv in H. destruct H as (r2 & w3 & H3 & H).
    destruct (negb (r2 =? 0)); [inversion H |].
    assert (S3 : server_socket w3 = server_socket w2).
    { assert (K : stable server_socket init_spi)
        by (unfold init_spi; stable_tac).
      exact (K _ _ _ H3). }
    apply bind_inv in H. destruct H as (r3 & w4 & H4 & H).
    destruct (negb (r3 =? 0)) eqn:E3; [inversion H |].
    assert (S4 : server_socket w4 = server_socket w3 /\ gpio_fd w4 <> -1).
    { unfold init_gpio in H4.
      apply bind_inv in H4. destruct H4 as (x & w5 & H5 & H4).
      destruct (negb (x =? 0)); [inversion H4; subst; discriminate E3 |].
      apply bind_inv in H4. destruct H4 as (u' & w6 & H6 & H4).
      apply bind_inv in H4. destruct H4 as (x' & w7 & H7 & H4).
      destruct (x' =? -1); [inversion H4; subst; discriminate E3 |].
      apply bind_inv in H4. destruct H4 as (g & w8 & H8 & H4).
      apply bind_inv in H4. destruct H4 as (u'' & w9 & H9 & H4).
      apply modify_inv in H9. subst w9.
      destruct (sr_ret g =? -1) eqn:Eg; [inversion H4; subst; discriminate E3 |].
      apply Z.eqb_neq in Eg. inversion H4; subst. split; [| exact Eg].
      assert (K5 : stable server_socket
                     (open_write_close (text "/sys/class/gpio/export") IRQ_GPIO))
        by (unfold open_write_close; stable_tac).
      assert (K6 : stable server_socket set_direction).
      { unfold set_direction. generalize 100%nat. intros n.
        induction n as [| n IH]; simpl; unfold sleep_10ms; stable_tac. }
      assert (K7 : stable server_socket
                     (open_write_close (gpio_file (text "/edge")) (text "both")))
        by (unfold open_write_close; stable_tac).
      assert (K8 : stable server_socket
                     (sys (c_open (gpio_file (text "/value"))
                             (Z.lor O_RDONLY (Z.lor O_NONBLOCK O_CLOEXEC)))))
        by stable_tac.
      change (server_socket (set_gpio_fd (sr_ret g) w8)) with (server_socket w8).
      rewrite (K8 _ _ _ H8), (K7 _ _ _ H7), (K6 _ _ _ H6), (K5 _ _ _ H5).
      reflexivity. }
    destruct S4 as [S4 G4].
    assert (K : stable (fun w => (server_socket w, gpio_fd w))
                  (e <- sys (c_epoll_create1 EPOLL_CLOEXEC);;
                   if sr_ret e =? -1 then ret (-1)
                   else
                     gfd <- gets gpio_fd;;
                     a <- sys (c_epoll_add gfd (Z.lor EPOLLPRI EPOLLERR));;
                     if negb (sr_ret a =? 0) then ret (-1)
                     else
                       ss <- gets server_socket;;
                       b <- sys (c_epoll_add ss EPOLLIN);;
                       if negb (sr_ret b =? 0) then ret (-1) else ret 0))
      by stable_tac.
    pose proof (K _ _ _ H) as E. cbv beta in E. injection E as -> ->.
    split; [congruence | exact G4].
Qed.

(** ** Services that leave the registry *)

Definition names (name : list Z) (cc : Z) (s : RegisteredService) : Prop :=
  srv_name s = name /\ srv_cc s = cc.

Lemma erase_service_some name cc l l' :
  erase_service name cc l = Some l' ->
  exists a s b, l = a ++ s :: b /\ names name cc s /\
                (forall s', In s' a -> ~ names name cc s') /\ l' = a ++ b.
Proof.
  revert l'. induction l as [| s t IH]; cbn [erase_service]; intros l' H;
    [discriminate |].
  destruct (bytes_eqb (srv_name s) name && (srv_cc s =? cc)) eqn:E.
  - injection H as <-. apply andb_true_iff in E. destruct E as [E1 E2].
    apply bytes_eqb_eq in E1. apply Z.eqb_eq in E2.
    exists [], s, t.
    split; [reflexivity |]. split; [split; assumption |].
    split; [intros s' [] | reflexivity].
  - destruct (erase_service name cc t) as [t' |]; [| discriminate].
    injection H as <-.
    destruct (IH t' eq_refl) as (a & s0 & b & -> & Hs & Ha & ->).
    exists (s :: a), s0, b.
    split; [reflexivity |]. split; [exact Hs |]. split; [| reflexivity].
    intros s' [<- | Hin]; [| apply Ha; exact Hin].
    intros [N1 N2]. apply andb_false_iff in E.
    destruct E as [E | E].
    + rewrite N1, bytes_eqb_refl in E. discriminate.
    + apply Z.eqb_neq in E. contradiction.
Qed.

Lemma erase_service_none name cc l :
  erase_service name cc l = None -> forall s, In s l -> ~ names name cc s.
Proof.
  induction l as [| s t IH]; cbn [erase_service]; intros H x Hx; [destruct Hx |].
  destruct (bytes_eqb (srv_name s) name && (srv_cc s =? cc)) eqn:E; [discriminate |].
  destruct (erase_service name cc t) as [t' |] eqn:Et; [discriminate |].
  destruct Hx as [<- | Hx]; [| apply IH; auto].
  intros [N1 N2]. apply andb_false_iff in E. destruct E as [E | E].
  - rewrite N1, bytes_eqb_refl in E. discriminate.
  - apply Z.eqb_neq in E. contradiction.
Qed.

(** X6.  MSG_DEREGISTER_REQ takes the first service with the name in the
    payload that this client owns out of the registry and answers
    MSG_SUCCESS; when there is none, also when another client owns a service
    of that name, the registry stays as it is and the answer is MSG_FAIL. *)
Theorem handle_msg_deregister_req_spec cc w k :
  find_connection cc (connections w) = Some k ->
  match handle_msg_deregister_req cc w with
  | Ret _ w' =>
    (exists a s b,
        services w = a ++ s :: b /\ names (payload k) cc s /\
        (forall s', In s' a -> ~ names (payload k) cc s') /\
        services w' = a ++ b /\
        messages (trace w') =
          messages (trace w) ++ [(cc, MSG_DEREGISTER_RES, 0, [MSG_SUCCESS])]) \/
    ((forall s, In s (services w) -> ~ names (payload k) cc s) /\
     services w' = services w /\
     messages (trace w') =
       messages (trace w) ++ [(cc, MSG_DEREGISTER_RES, 0, [MSG_FAIL])])
  | Exit _ _ => True
  | Fault => False
  | Stuck => True
  end.
Proof.
  intros Hk. unfold handle_msg_deregister_req.
  erewrite bind_ret_eq by (apply deref_cc_eq; exact Hk).
  erewrite bind_ret_eq by reflexivity.
  destruct (erase_service (payload k) cc (services w)) as [srvs' |] eqn:E.
  - erewrite bind_ret_eq by reflexivity.
    pose proof (create_and_send_msg_outcome cc MSG_DEREGISTER_RES 0
                  (ptr [MSG_SUCCESS]) 1 (set_services srvs' w) k [MSG_SUCCESS]
                  Hk ltac:(lia) ltac:(reflexivity)) as H.
    destruct (create_and_send_msg cc MSG_DEREGISTER_RES 0 (ptr [MSG_SUCCESS]) 1
                (set_services srvs' w)) as [u w' | | |]; auto.
    destruct H as (H1 & _ & _ & H4 & _). unfold core in H1. injection H1 as H1 _ _.
    left. destruct (erase_service_some _ _ _ _ E) as (a & s & b & Hl & Hs & Ha & ->).
    exists a, s, b. repeat split; auto; apply Hs.
  - pose proof (create_and_send_msg_outcome cc MSG_DEREGISTER_RES 0
                  (ptr [MSG_FAIL]) 1 w k [MSG_FAIL]
                  Hk ltac:(lia) ltac:(reflexivity)) as H.
    destruct (create_and_send_msg cc MSG_DEREGISTER_RES 0 (ptr [MSG_FAIL]) 1 w)
      as [u w' | | |]; auto.
    destruct H as (H1 & _ & _ & H4 & _). unfold core in H1. injection H1 as H1 _ _.
    right. repeat split; auto. exact (erase_service_none _ _ _ E).
Qed.

(** Client 6 asks to deregister "x", which client 5 owns. *)
Definition world_foreign_service : World :=
  set_services [mkRegisteredService [120] 5]
    (set_connections
       [mkClientConnection 5 1 0 (mkMessageHeader 0 0 0) [] [] [];
        mkClientConnection 6 1 1 (mkMessageHeader 1 0 MSG_DEREGISTER_REQ) [120] [] []]
       (initial_world [] [ok 10])).
Definition world_foreign_service_kept : World :=
  after (handle_msg_deregister_req 6) world_foreign_service.

Lemma handle_msg_deregister_req_spec_witness :
  handle_msg_deregister_req 6 world_foreign_service =
    Ret tt world_foreign_service_kept /\
  services world_foreign_service_kept = [mkRegisteredService [120] 5] /\
  messages (trace world_foreign_service_kept) =
    [(6, MSG_DEREGISTER_RES, 0, [MSG_FAIL])].
Proof.
  assert (E : handle_msg_deregister_req 6 world_foreign_service =
              Ret tt world_foreign_service_kept) by (vm_compute; reflexivity).
  split; [exact E |].
  pose proof (handle_msg_deregister_req_spec 6 world_foreign_service
                (mkClientConnection 6 1 1 (mkMessageHeader 1 0 MSG_DEREGISTER_REQ)
                   [120] [] []) eq_refl) as H.
  rewrite E in H.
  destruct H as [(a & s & b & _ & _ & _ & _ & H) | (_ & H1 & H2)].
  - vm_compute in H. discriminate H.
  - split; [exact H1 | exact H2].
Defined.

Lemma stable_faces_handle_msg_register_req cc :
  stable faces (handle_msg_register_req cc).
Proof. unfold handle_msg_register_req. stable_tac. Qed.

Lemma erase_service_last name cc l :
  find (fun s => bytes_eqb (srv_name s) name) l = None ->
  erase_service name cc (l ++ [mkRegisteredService name cc]) = Some l.
Proof.
  induction l as [| s t IH]; cbn [app find erase_service]; intros H.
  - cbn [srv_name srv_cc]. rewrite bytes_eqb_refl, Z.eqb_refl. reflexivity.
  - destruct (bytes_eqb (srv_name s) name); [discriminate |].
    cbn [andb]. rewrite IH by exact H. reflexivity.
Qed.

(** X7.  A client that registers a name nobody holds and then deregisters
    it gets MSG_SUCCESS twice and leaves the registry as it found it. *)
Theorem register_then_deregister cc w k :
  find_connection cc (connections w) = Some k ->
  unregistered (payload k) w ->
  match (handle_msg_register_req cc;; handle_msg_deregister_req cc) w with
  | Ret _ w' =>
    services w' = services w /\
    messages (trace w') =
      messages (trace w) ++
      [(cc, MSG_REGISTER_RES, 0, [MSG_SUCCESS]);
       (cc, MSG_DEREGISTER_RES, 0, [MSG_SUCCESS])]
  | Exit _ _ => True
  | Fault => False
  | Stuck => True
  end.
Proof.
  intros Hk Hun. unfold bind at 1.
  pose proof (handle_msg_register_req_spec cc w k Hk) as H1.
  destruct (handle_msg_register_req cc w) as [u w1 | | |] eqn:E1; auto.
  unfold register_post in H1. unfold unregistered in Hun. rewrite Hun in H1.
  destruct H1 as [S1 M1].
  pose proof (stable_faces_handle_msg_register_req cc _ _ _ E1) as F1.
  destruct (find_connection_face cc _ _ k F1 Hk) as (k1 & Hk1 & Hf).
  assert (Hp : payload k1 = payload k) by (unfold face in Hf; congruence).
  unfold handle_msg_deregister_req.
  erewrite bind_ret_eq by (apply deref_cc_eq; exact Hk1).
  erewrite bind_ret_eq by reflexivity.
  rewrite S1, Hp, erase_service_last by exact Hun.
  erewrite bind_ret_eq by reflexivity.
  pose proof (create_and_send_msg_outcome cc MSG_DEREGISTER_RES 0
                (ptr [MSG_SUCCESS]) 1 (set_services (services w) w1) k1
                [MSG_SUCCESS] Hk1 ltac:(lia) ltac:(reflexivity)) as H2.
  destruct (create_and_send_msg cc MSG_DEREGISTER_RES 0 (ptr [MSG_SUCCESS]) 1
              (set_services (services w) w1)) as [u' w' | | |]; auto.
  destruct H2 as (C2 & _ & _ & M2 & _). unfold core in C2. injection C2 as C2 _ _.
  split; [exact C2 |].
  rewrite M2. proj. rewrite M1, <- app_assoc. reflexivity.
Qed.

(** Client 5 registers "x" and takes it back; "y" stays. *)
Definition world_registers_x : World :=
  set_services [mkRegisteredService [121] 5]
    (set_connections
       [mkClientConnection 5 1 1 (mkMessageHeader 1 0 MSG_REGISTER_REQ) [120] [] []]
       (initial_world [] [ok 10; ok 10])).
Definition world_took_x_back : World :=
  after (handle_msg_register_req 5;; handle_msg_deregister_req 5) world_registers_x.

Lemma register_then_deregister_witness :
  (handle_msg_register_req 5;; handle_msg_deregister_req 5) world_registers_x =
    Ret tt world_took_x_back /\
  services world_took_x_back = [mkRegisteredService [121] 5] /\
  messages (trace world_took_x_back) =
    [(5, MSG_REGISTER_RES, 0, [MSG_SUCCESS]);
     (5, MSG_DEREGISTER_RES, 0, [MSG_SUCCESS])].
Proof.
  assert (E : (handle_msg_register_req 5;; handle_msg_deregister_req 5)
                world_registers_x = Ret tt world_took_x_back)
    by (vm_compute; reflexivity).
  split; [exact E |].
  pose proof (register_then_deregister 5 world_registers_x
                (mkClientConnection 5 1 1 (mkMessageHeader 1 0 MSG_REGISTER_REQ)
                   [120] [] []) eq_refl eq_refl) as H.
  rewrite E in H. exact H.
Defined.

(** * Requests for the memory of the board *)

(** The fields of a MSG_READ_MEM_REQ and of a MSG_WRITE_MEM_REQ. *)
Definition mem_address (p : list Z) : Z := of_le32 (ztake 4 p).
Definition mem_length (p : list Z) : Z := of_le32 (ztake 4 (zdrop 4 p)).

(** The bytes of an SPI command on the SRAM. *)
Definition sram_command (cmd address : Z) : list Z :=
  [u8 (Z.land (Z.shiftr (sram_header cmd address) 16) 255);
   u8 (Z.land (Z.shiftr (sram_header cmd address) 8) 255);
   u8 (Z.land (sram_header cmd address) 255)].

Lemma u8_nonneg x : 0 <= u8 x.
Proof. unfold u8. apply Z.land_nonneg. right. lia. Qed.

Lemma of_le32_nonneg b : 0 <= of_le32 b.
Proof.
  unfold of_le32.
  repeat (apply Z.lor_nonneg; split);
    try apply Z.shiftl_nonneg; apply u8_nonneg.
Qed.

(** X8.  MSG_READ_MEM_REQ.  The daemon checks neither the size of the
    request nor the length it asks for: a payload of less than 8 bytes, or a
    length above 65532 (the room behind the 4 header bytes in the 64 KiB
    [rx_buf]), is undefined behaviour.  Otherwise it makes one SPI transfer
    of [length + 4] bytes and answers MSG_READ_MEM_RES with the [length]
    bytes that came after the header. *)
Theorem handle_msg_read_mem_req_spec cc w k :
  find_connection cc (connections w) = Some k ->
  (zlen (payload k) < 8 -> handle_msg_read_mem_req cc w = Fault) /\
  (8 <= zlen (payload k) -> 65532 < mem_length (payload k) ->
   handle_msg_read_mem_req cc w = Fault) /\
  (forall r scr,
     8 <= zlen (payload k) -> mem_length (payload k) <= 65532 ->
     script w = r :: scr -> zlen (sr_data r) = mem_length (payload k) + 4 ->
     let body := zdrop READ_SRAM_HDR_LEN (map u8 (sr_data r)) in
     let w1 := written
                 (c_spi (sram_command READ_SRAM_CMD (mem_address (payload k)) ++ [0])
                    (mem_length (payload k) + 4)) scr w in
     handle_msg_read_mem_req cc w =
       create_and_send_msg cc MSG_READ_MEM_RES 0 (ptr body)
         (mem_length (payload k)) w1 /\
     zlen body = mem_length (payload k) /\
     match handle_msg_read_mem_req cc w with
     | Ret _ w' => handed_over cc MSG_READ_MEM_RES 0 body w1 w'
     | Exit _ _ => True
     | Fault => False
     | Stuck => True
     end).
Proof.
  intros Hk. unfold handle_msg_read_mem_req.
  erewrite bind_ret_eq by (apply deref_cc_eq; exact Hk).
  split; [| split].
  - intros H. apply Z.ltb_lt in H. rewrite H. reflexivity.
  - intros H8 Hlen. apply Z.ltb_ge in H8. rewrite H8. cbv zeta.
    fold (mem_length (payload k)). unfold spi_read_mem, transfer. cbv zeta.
    assert (E : (65536 <? mem_length (payload k) + 4) = true)
      by (apply Z.ltb_lt; lia).
    rewrite E, orb_true_r. reflexivity.
  - intros r scr H8 Hlen Hs Hr. apply Z.ltb_ge in H8. rewrite H8. cbv zeta.
    fold (mem_length (payload k)). fold (mem_address (payload k)).
    assert (Hpos : 0 <= mem_length (payload k)) by apply of_le32_nonneg.
    assert (Hrx : spi_read_mem (mem_address (payload k)) (mem_length (payload k)) w =
                  Ret (map u8 (sr_data r))
                    (written
                       (c_spi (sram_command READ_SRAM_CMD (mem_address (payload k)) ++ [0])
                          (mem_length (payload k) + 4)) scr w)).
    { unfold spi_read_mem, transfer. cbv zeta.
      assert (E1 : (mem_length (payload k) + 4 <? 0) = false) by (apply Z.ltb_ge; lia).
      assert (E2 : (65536 <? mem_length (payload k) + 4) = false)
        by (apply Z.ltb_ge; lia).
      rewrite E1, E2. cbn [orb].
      erewrite bind_ret_eq by (apply sys_eq; exact Hs).
      rewrite Hr, Z.eqb_refl. reflexivity. }
    erewrite bind_ret_eq by exact Hrx.
    assert (Hbody : zlen (zdrop READ_SRAM_HDR_LEN (map u8 (sr_data r))) =
                    mem_length (payload k)).
    { rewrite zlen_zdrop; rewrite zlen_map; unfold READ_SRAM_HDR_LEN; lia. }
    split; [reflexivity |]. split; [exact Hbody |].
    apply (create_and_send_msg_outcome cc MSG_READ_MEM_RES 0 _ _ _ k).
    + exact Hk.
    + exact Hpos.
    + intros w0. unfold resize_and_copy. rewrite <- Hbody.
      generalize (zdrop READ_SRAM_HDR_LEN (map u8 (sr_data r))). intros b.
      destruct (zlen b =? 0) eqn:E0.
      * apply Z.eqb_eq in E0. destruct b; [reflexivity |].
        unfold zlen in E0. cbn [length] in E0. lia.
      * rewrite Z.leb_refl, ztake_all. reflexivity.
Qed.

(** Client 5 asks for 3 bytes at address 0x12345. *)
Definition world_read_mem : World :=
  set_connections
    [mkClientConnection 5 1 8 (mkMessageHeader 8 0 MSG_READ_MEM_REQ)
       [69; 35; 1; 0; 3; 0; 0; 0] [] []]
    (initial_world [] [ok_data [0; 0; 0; 0; 7; 8; 9]; ok 12]).
Definition world_read_mem_answered : World :=
  after (handle_msg_read_mem_req 5) world_read_mem.

Lemma handle_msg_read_mem_req_spec_witness :
  handle_msg_read_mem_req 5 world_read_mem = Ret tt world_read_mem_answered /\
  messages (trace world_read_mem_answered) = [(5, MSG_READ_MEM_RES, 0, [7; 8; 9])] /\
  syscalls (trace world_read_mem_answered) =
    [c_spi [1; 35; 69; 0] 7; c_write 5 [3; 0; 0; 0; 0; 0; 0; 0; MSG_READ_MEM_RES; 7; 8; 9]].
Proof.
  assert (E : handle_msg_read_mem_req 5 world_read_mem =
              Ret tt world_read_mem_answered) by (vm_compute; reflexivity).
  split; [exact E |].
  destruct (proj2 (proj2 (handle_msg_read_mem_req_spec 5 world_read_mem
              (mkClientConnection 5 1 8 (mkMessageHeader 8 0 MSG_READ_MEM_REQ)
                 [69; 35; 1; 0; 3; 0; 0; 0] [] []) eq_refl))
              (ok_data [0; 0; 0; 0; 7; 8; 9]) [ok 12]
              ltac:(vm_compute; discriminate) ltac:(vm_compute; discriminate)
              eq_refl eq_refl) as (_ & _ & H).
  rewrite E in H. destruct H as (_ & _ & _ & H & _).
  split; [exact H | vm_compute; reflexivity].
Defined.

(** X9.  MSG_WRITE_MEM_REQ.  A payload of less than 4 bytes, or of more
    than 4 + 65533 bytes (the room behind the 3 header bytes in the 64 KiB
    [tx_buf]), is undefined behaviour.  Otherwise the bytes behind the
    address go out in one SPI transfer and the answer is an empty
    MSG_WRITE_MEM_RES. *)
Theorem handle_msg_write_mem_req_spec cc w k :
  find_connection cc (connections w) = Some k ->
  (zlen (payload k) < 4 -> handle_msg_write_mem_req cc w = Fault) /\
  (65537 < zlen (payload k) -> handle_msg_write_mem_req cc w = Fault) /\
  (4 <= zlen (payload k) <= 65537 ->
   let w1 := set_trace
               (trace w ++
                [ev_sys (c_spi (sram_command WRITE_SRAM_CMD (mem_address (payload k))
                                  ++ zdrop 4 (payload k))
                           (zlen (payload k) - 4 + 3))]) w in
   handle_msg_write_mem_req cc w =
     create_and_send_msg cc MSG_WRITE_MEM_RES 0 nullptr 0 w1 /\
   match handle_msg_write_mem_req cc w with
   | Ret _ w' => handed_over cc MSG_WRITE_MEM_RES 0 [] w1 w'
   | Exit _ _ => True
   | Fault => False
   | Stuck => True
   end).
Proof.
  intros Hk. unfold handle_msg_write_mem_req.
  erewrite bind_ret_eq by (apply deref_cc_eq; exact Hk).
  split; [| split].
  - intros H. apply Z.ltb_lt in H. rewrite H. reflexivity.
  - intros H. assert (E : (zlen (payload k) <? 4) = false) by (apply Z.ltb_ge; lia).
    rewrite E. cbv zeta. unfold spi_write_mem, transfer_. cbv zeta.
    assert (E2 : (65536 <? zlen (payload k) - 4 + 3) = true) by (apply Z.ltb_lt; lia).
    rewrite E2, orb_true_r. reflexivity.
  - intros H. assert (E : (zlen (payload k) <? 4) = false) by (apply Z.ltb_ge; lia).
    rewrite E. cbv zeta. fold (mem_address (payload k)).
    assert (Hw : spi_write_mem (mem_address (payload k)) (zdrop 4 (payload k))
                   (zlen (payload k) - 4) w =
                 Ret tt
                   (set_trace
                      (trace w ++
                       [ev_sys (c_spi (sram_command WRITE_SRAM_CMD
                                         (mem_address (payload k))
                                       ++ zdrop 4 (payload k))
                                  (zlen (payload k) - 4 + 3))]) w)).
    { unfold spi_write_mem, transfer_. cbv zeta.
      assert (E1 : (zlen (payload k) - 4 + 3 <? 0) = false) by (apply Z.ltb_ge; lia).
      assert (E2 : (65536 <? zlen (payload k) - 4 + 3) = false)
        by (apply Z.ltb_ge; lia).
      rewrite E1, E2. cbn [orb].
      rewrite <- (zlen_zdrop 4 (payload k)) by lia. rewrite ztake_all.
      reflexivity. }
    erewrite bind_ret_eq by exact Hw.
    split; [reflexivity |].
    apply (create_and_send_msg_outcome cc MSG_WRITE_MEM_RES 0 nullptr 0 _ k);
      [exact Hk | lia | reflexivity].
Qed.

(** Client 5 writes the bytes 7, 8 to address 0x12345. *)
Definition world_write_mem : World :=
  set_connections
    [mkClientConnection 5 1 6 (mkMessageHeader 6 0 MSG_WRITE_MEM_REQ)
       [69; 35; 1; 0; 7; 8] [] []]
    (initial_world [] [ok 9]).
Definition world_write_mem_answered : World :=
  after (handle_msg_write_mem_req 5) world_write_mem.

Lemma handle_msg_write_mem_req_spec_witness :
  handle_msg_write_mem_req 5 world_write_mem = Ret tt world_write_mem_answered /\
  messages (trace world_write_mem_answered) = [(5, MSG_WRITE_MEM_RES, 0, [])] /\
  syscalls (trace world_write_mem_answered) =
    [c_spi [17; 35; 69; 7; 8] 5; c_write 5 [0; 0; 0; 0; 0; 0; 0; 0; MSG_WRITE_MEM_RES]].
Proof.
  assert (E : handle_msg_write_mem_req 5 world_write_mem =
              Ret tt world_write_mem_answered) by (vm_compute; reflexivity).
  split; [exact E |].
  destruct (proj2 (proj2 (handle_msg_write_mem_req_spec 5 world_write_mem
              (mkClientConnection 5 1 6 (mkMessageHeader 6 0 MSG_WRITE_MEM_REQ)
                 [69; 35; 1; 0; 7; 8] [] []) eq_refl))
              ltac:(vm_compute; split; discriminate)) as (_ & H).
  rewrite E in H. destruct H as (_ & _ & _ & H & _).
  split; [exact H | vm_compute; reflexivity].
Defined.

(** * Messages on a stream *)

Lemma first_with_stream_id_some sid ass : forall w ch w',
  first_with_stream_id sid ass w = Ret (Some ch) w' ->
  w' = w /\ In ch ass /\
  exists c, find_channel ch (channels w) = Some c /\ stream_id c = sid.
Proof.
  induction ass as [| x ass IH]; intros w ch w' H; cbn [first_with_stream_id] in H.
  - discriminate H.
  - apply bind_inv in H. destruct H as (c & w1 & H1 & H).
    apply deref_ch_inv in H1. destruct H1 as [-> Hc].
    destruct (stream_id c =? sid) eqn:E.
    + injection H as <- <-. apply Z.eqb_eq in E.
      split; [reflexivity |]. split; [left; reflexivity |].
      exists c. split; assumption.
    + destruct (IH _ _ _ H) as (Hw & Hin & Hex).
      split; [exact Hw |]. split; [right; exact Hin | exact Hex].
Qed.

Lemma get_associated_channel_some cc sid w ch w' k :
  find_connection cc (connections w) = Some k ->
  get_associated_channel_by_stream_id cc sid w = Ret (Some ch) w' ->
  w' = w /\ In ch (associations k) /\
  exists c, find_channel ch (channels w) = Some c /\ stream_id c = to_int sid.
Proof.
  intros Hk H. unfold get_associated_channel_by_stream_id in H.
  erewrite bind_ret_eq in H by (apply deref_cc_eq; exact Hk).
  exact (first_with_stream_id_some _ _ _ _ _ H).
Qed.

Lemma find_connection_update_same cc f l k :
  (forall x, fd (f x) = fd x) ->
  find_connection cc l = Some k ->
  find_connection cc (update_connection cc f l) = Some (f k).
Proof.
  intros Hf. unfold find_connection, update_connection.
  induction l as [| x l IH]; [discriminate |].
  cbn [map find]. destruct (fd x =? cc) eqn:E.
  - intros H. injection H as ->. rewrite Hf, E. reflexivity.
  - rewrite E. exact IH.
Qed.

(** Reduces the fields of a channel record built with the setters. *)
Ltac chan :=
  unfold set_stream_id, set_association, set_packet_queue,
    set_got_eos_from_client, set_got_eos_from_ami;
  cbn [channel_id association stream_id got_eos_from_ami got_eos_from_client
       packet_queue option_map].

(** The world after [create_and_enqueue_packet] with no payload. *)
Lemma enqueue_empty_eq ch ty w c :
  find_channel ch (channels w) = Some c ->
  create_and_enqueue_packet ch ty nullptr 0 w =
  Ret tt (enqueued ch c (mkPacketBuffer (u8 ty) []) w).
Proof.
  intros Hc. apply create_and_enqueue_packet_eq; [exact Hc | reflexivity].
Qed.

Lemma in_send_queue_enqueued ch c pkt w :
  (packet_queue c <> [] -> In ch (send_queue w)) ->
  In ch (send_queue (enqueued ch c pkt w)).
Proof.
  intros H. unfold enqueued. destruct (packet_queue c) eqn:E; proj.
  - apply in_or_app. right. left. reflexivity.
  - apply H. discriminate.
Qed.

(** X10.  MSG_EOS from a client on a stream that has a channel.  The first
    one sets [got_eos_from_client] and queues a PKT_EOS for the Amiga; the
    channel is dissociated exactly when the Amiga had sent its EOS before.
    A second one is ignored. *)
Theorem handle_msg_eos_spec cc w k ch c :
  find_connection cc (connections w) = Some k ->
  get_associated_channel_by_stream_id cc (mh_stream_id (header k)) w =
    Ret (Some ch) w ->
  find_channel ch (channels w) = Some c ->
  association c = Some cc ->
  (packet_queue c <> [] -> In ch (send_queue w)) ->
  (got_eos_from_client c = true -> handle_msg_eos cc w = Ret tt w) /\
  (got_eos_from_client c = false ->
   exists w',
     handle_msg_eos cc w = Ret tt w' /\
     In ch (send_queue w') /\
     find_channel ch (channels w') =
       Some (mkLogicalChannel (channel_id c)
               (if got_eos_from_ami c then None else Some cc)
               (if got_eos_from_ami c then 0 else stream_id c)
               (got_eos_from_ami c) true
               (packet_queue c ++ [mkPacketBuffer PKT_EOS []])) /\
     exists k',
       find_connection cc (connections w') = Some k' /\
       if got_eos_from_ami c
       then erase_first ch (associations k) = Some (associations k')
       else k' = k).
Proof.
  intros Hk Hget Hc Ha Hsq.
  destruct (get_associated_channel_some _ _ _ _ _ _ Hk Hget) as (_ & Hin & _).
  unfold handle_msg_eos.
  erewrite bind_ret_eq by (apply deref_cc_eq; exact Hk).
  erewrite bind_ret_eq by exact Hget. cbv beta iota.
  erewrite bind_ret_eq by (apply deref_ch_eq; exact Hc).
  split.
  - intros ->. reflexivity.
  - intros Hf. rewrite Hf.
    erewrite bind_ret_eq by reflexivity.
    set (w1 := set_channels
                 (update_channel ch (set_got_eos_from_client true) (channels w)) w).
    assert (Hc1 : find_channel ch (channels w1) =
                  Some (set_got_eos_from_client true c)).
    { unfold w1. proj. rewrite find_channel_update by reflexivity.
      rewrite Z.eqb_refl, Hc. reflexivity. }
    erewrite bind_ret_eq by (apply enqueue_empty_eq; exact Hc1).
    set (w2 := enqueued ch (set_got_eos_from_client true c)
                 (mkPacketBuffer (u8 PKT_EOS) []) w1).
    assert (Hc2 : find_channel ch (channels w2) =
                  Some (set_packet_queue
                          (packet_queue c ++ [mkPacketBuffer PKT_EOS []])
                          (set_got_eos_from_client true c)))
      by (apply (find_channel_enqueued ch _ _ w1 Hc1)).
    assert (Hin2 : In ch (send_queue w2))
      by (apply in_send_queue_enqueued; exact Hsq).
    assert (Hk2 : find_connection cc (connections w2) = Some k).
    { unfold w2, enqueued, w1.
      destruct (packet_queue (set_got_eos_from_client true c)); proj; exact Hk. }
    pose proof (find_channel_id _ _ _ Hc) as Hid.
    destruct (got_eos_from_ami c) eqn:Eami; cbn [when].
    + destruct (erase_first_in ch (associations k) Hin) as (ass & Hass).
      rewrite (remove_association_eq ch w2 _ cc k ass Hc2 Ha Hk2 Hass).
      eexists. split; [reflexivity |]. proj.
      split; [exact Hin2 |]. split.
      * rewrite find_channel_update by reflexivity.
        rewrite Z.eqb_refl, Hc2. chan. rewrite Eami. reflexivity.
      * exists (set_associations ass k). split; [| exact Hass].
        apply find_connection_update_same; [reflexivity | exact Hk2].
    + exists w2. split; [reflexivity |]. split; [exact Hin2 |]. split.
      * rewrite Hc2. chan. rewrite Eami, Ha. reflexivity.
      * exists k. split; [exact Hk2 | reflexivity].
Qed.

(** Stream 1 of client 5 is channel 7; the Amiga has sent its EOS, and now
    the client sends a MSG_EOS. *)
Definition client_sends_eos : ClientConnection :=
  mkClientConnection 5 3 0 (mkMessageHeader 0 1 MSG_EOS) [] [] [7].
Definition channel_eos_from_ami : LogicalChannel :=
  mkLogicalChannel 7 (Some 5) 1 true false [].
Definition world_client_eos : World :=
  set_connections [client_sends_eos]
    (set_channels [channel_eos_from_ami] (initial_world [] [])).

Lemma handle_msg_eos_spec_witness :
  exists w',
    handle_msg_eos 5 world_client_eos = Ret tt w' /\
    In 7 (send_queue w') /\
    find_channel 7 (channels w') =
      Some (mkLogicalChannel 7 None 0 true true [mkPacketBuffer PKT_EOS []]) /\
    exists k', find_connection 5 (connections w') = Some k' /\ associations k' = [].
Proof.
  destruct (proj2 (handle_msg_eos_spec 5 world_client_eos client_sends_eos 7
                     channel_eos_from_ami eq_refl eq_refl eq_refl eq_refl
                     (fun H => False_ind _ (H eq_refl))) eq_refl)
    as (w' & E & Hin & Hc & k' & Hk' & Hass).
  exists w'. split; [exact E |]. split; [exact Hin |]. split; [exact Hc |].
  exists k'. split; [exact Hk' |].
  cbn in Hass. injection Hass as <-. reflexivity.
Defined.

(** X11.  MSG_RESET from a client on a stream that has a channel: the
    stream is dissociated from the channel, what was queued for the Amiga on
    the channel is dropped, and a single PKT_RESET is queued in its place.
    Nothing is sent to the client. *)
Theorem handle_msg_reset_spec cc w k ch c :
  find_connection cc (connections w) = Some k ->
  get_associated_channel_by_stream_id cc (mh_stream_id (header k)) w =
    Ret (Some ch) w ->
  find_channel ch (channels w) = Some c ->
  association c = Some cc ->
  (packet_queue c <> [] -> In ch (send_queue w)) ->
  exists w',
    handle_msg_reset cc w = Ret tt w' /\
    find_channel ch (channels w') = Some (channel_reset c) /\
    In ch (send_queue w') /\
    trace w' = trace w /\
    exists k',
      find_connection cc (connections w') = Some k' /\
      erase_first ch (associations k) = Some (associations k').
Proof.
  intros Hk Hget Hc Ha Hsq.
  destruct (get_associated_channel_some _ _ _ _ _ _ Hk Hget) as (_ & Hin & _).
  destruct (erase_first_in ch (associations k) Hin) as (ass & Hass).
  unfold handle_msg_reset.
  erewrite bind_ret_eq by (apply deref_cc_eq; exact Hk).
  erewrite bind_ret_eq by exact Hget. cbv beta iota.
  erewrite bind_ret_eq by (apply (remove_association_eq ch w c cc k ass); assumption).
  set (w1 := set_channels _ _).
  set (c1 := set_stream_id 0 (set_association None c)).
  assert (Hc1 : find_channel ch (channels w1) = Some c1).
  { unfold w1. proj. rewrite find_channel_update by reflexivity.
    rewrite Z.eqb_refl, Hc. reflexivity. }
  assert (Hk1 : find_connection cc (connections w1) = Some (set_associations ass k)).
  { unfold w1. proj. apply find_connection_update_same; [reflexivity | exact Hk]. }
  destruct (clear_packet_queue_returns ch w1 c1 Hc1 Hsq)
    as (w2 & E2 & C2 & _ & T2 & _ & F2 & _ & _).
  erewrite bind_ret_eq by exact E2.
  rewrite (enqueue_empty_eq ch PKT_RESET w2 _ F2).
  eexists. split; [reflexivity |].
  split; [| split; [| split]].
  - rewrite (find_channel_enqueued ch _ _ w2 F2). reflexivity.
  - apply in_send_queue_enqueued. intros H. exfalso. apply H. reflexivity.
  - unfold enqueued. cbn [packet_queue set_packet_queue]. proj. rewrite T2.
    reflexivity.
  - exists (set_associations ass k). split; [| exact Hass].
    unfold enqueued. cbn [packet_queue set_packet_queue]. proj. rewrite C2.
    exact Hk1.
Qed.

(** Stream 1 of client 5 is channel 7, with two packets waiting for the
    Amiga; the client sends a MSG_RESET. *)
Definition client_sends_reset : ClientConnection :=
  mkClientConnection 5 3 0 (mkMessageHeader 0 1 MSG_RESET) [] [] [7].
Definition channel_with_packets : LogicalChannel :=
  mkLogicalChannel 7 (Some 5) 1 false false
    [mkPacketBuffer PKT_DATA [1; 2]; mkPacketBuffer PKT_DATA [3]].
Definition world_client_reset : World :=
  set_send_queue [7]
    (set_connections [client_sends_reset]
       (set_channels [channel_with_packets] (initial_world [] []))).

Lemma handle_msg_reset_spec_witness :
  exists w',
    handle_msg_reset 5 world_client_reset = Ret tt w' /\
    find_channel 7 (channels w') =
      Some (mkLogicalChannel 7 None 0 false false [mkPacketBuffer PKT_RESET []]) /\
    In 7 (send_queue w').
Proof.
  destruct (handle_msg_reset_spec 5 world_client_reset client_sends_reset 7
              channel_with_packets eq_refl eq_refl eq_refl eq_refl
              (fun _ => or_introl eq_refl))
    as (w' & E & Hc & Hin & _).
  exists w'. split; [exact E |]. split; [exact Hc | exact Hin].
Defined.

Lemma u8_le x : 0 <= x -> u8 x <= x.
Proof.
  intros H. rewrite u8_mod. apply Z.mod_le; lia.
Qed.

(** X12.  MSG_CONNECT_RESPONSE from a client on a stream that has a
    channel.  The payload goes to the Amiga as a PKT_CONNECT_RESPONSE, cut to
    its length modulo 256; the channel stays with the client when the first
    byte is CONNECT_OK and is dissociated otherwise.  An empty payload is
    undefined behaviour: the first byte is read all the same. *)
Theorem handle_msg_connect_response_spec cc w k ch c :
  find_connection cc (connections w) = Some k ->
  get_associated_channel_by_stream_id cc (mh_stream_id (header k)) w =
    Ret (Some ch) w ->
  find_channel ch (channels w) = Some c ->
  association c = Some cc ->
  (packet_queue c <> [] -> In ch (send_queue w)) ->
  let response :=
    mkPacketBuffer PKT_CONNECT_RESPONSE
      (ztake (u8 (zlen (payload k))) (payload k)) in
  (payload k = [] -> handle_msg_connect_response cc w = Fault) /\
  (forall b rest, payload k = b :: rest ->
   exists w',
     handle_msg_connect_response cc w = Ret tt w' /\
     In ch (send_queue w') /\
     find_channel ch (channels w') =
       Some (mkLogicalChannel (channel_id c)
               (if b =? CONNECT_OK then Some cc else None)
               (if b =? CONNECT_OK then stream_id c else 0)
               (got_eos_from_ami c) (got_eos_from_client c)
               (packet_queue c ++ [response]))).
Proof.
  intros Hk Hget Hc Ha Hsq response.
  destruct (get_associated_channel_some _ _ _ _ _ _ Hk Hget) as (_ & Hin & _).
  unfold handle_msg_connect_response.
  erewrite bind_ret_eq by (apply deref_cc_eq; exact Hk).
  erewrite bind_ret_eq by exact Hget. cbv beta iota.
  assert (Hcopy : forall w0,
            resize_and_copy (ptr (payload k)) (u8 (zlen (payload k))) w0 =
            Ret (ztake (u8 (zlen (payload k))) (payload k)) w0).
  { intros w0. unfold resize_and_copy.
    destruct (u8 (zlen (payload k)) =? 0) eqn:E0.
    - apply Z.eqb_eq in E0. rewrite E0. reflexivity.
    - pose proof (u8_le (zlen (payload k)) (zlen_nonneg _)) as Hle.
      apply Z.leb_le in Hle. rewrite Hle. reflexivity. }
  erewrite bind_ret_eq
    by (apply (create_and_enqueue_packet_eq ch PKT_CONNECT_RESPONSE _ _ w c);
        [exact Hc | exact Hcopy]).
  set (w1 := enqueued ch c _ w).
  assert (Hc1 : find_channel ch (channels w1) =
                Some (set_packet_queue (packet_queue c ++ [response]) c))
    by (apply (find_channel_enqueued ch c _ w Hc)).
  assert (Hin1 : In ch (send_queue w1))
    by (apply in_send_queue_enqueued; exact Hsq).
  assert (Hk1 : find_connection cc (connections w1) = Some k).
  { unfold w1, enqueued. destruct (packet_queue c); proj; exact Hk. }
  split.
  - intros ->. reflexivity.
  - intros b rest Hp. rewrite Hp in *.
    destruct (b =? CONNECT_OK) eqn:Eb; cbn [negb when].
    + exists w1. split; [reflexivity |]. split; [exact Hin1 |].
      rewrite Hc1. chan. rewrite Ha. reflexivity.
    + destruct (erase_first_in ch (associations k) Hin) as (ass & Hass).
      rewrite (remove_association_eq ch w1 _ cc k ass Hc1 Ha Hk1 Hass).
      eexists. split; [reflexivity |]. proj. split; [exact Hin1 |].
      rewrite find_channel_update by reflexivity.
      rewrite Z.eqb_refl, Hc1. reflexivity.
Qed.

(** Client 5 refuses the connection on its stream 1 (answer 3). *)
Definition client_refuses : ClientConnection :=
  mkClientConnection 5 3 1 (mkMessageHeader 1 1 MSG_CONNECT_RESPONSE) [3] [] [7].
Definition world_client_refuses : World :=
  set_connections [client_refuses]
    (set_channels [mkLogicalChannel 7 (Some 5) 1 false false []]
       (initial_world [] [])).

Lemma handle_msg_connect_response_spec_witness :
  exists w',
    handle_msg_connect_response 5 world_client_refuses = Ret tt w' /\
    In 7 (send_queue w') /\
    find_channel 7 (channels w') =
      Some (mkLogicalChannel 7 None 0 false false
              [mkPacketBuffer PKT_CONNECT_RESPONSE [3]]).
Proof.
  exact (proj2 (handle_msg_connect_response_spec 5 world_client_refuses
                  client_refuses 7 (mkLogicalChannel 7 (Some 5) 1 false false [])
                  eq_refl eq_refl eq_refl eq_refl
                  (fun H => False_ind _ (H eq_refl)))
           3 [] eq_refl).
Defined.

(** * Packets from the Amiga *)

(** [ensures m w Q]: run in [w], [m] has no undefined behaviour, and when
    it returns, [Q] holds of its result and of the world it leaves.  The
    process may exit, and the script may run out. *)
Definition ensures {A} (m : M A) (w : World) (Q : A -> World -> Prop) : Prop :=
  match m w with
  | Ret a w' => Q a w'
  | Exit _ _ => True
  | Fault => False
  | Stuck => True
  end.

Lemma ensures_bind {A B} (m : M A) (k : A -> M B) w Q :
  ensures m w (fun a w1 => ensures (k a) w1 Q) -> ensures (bind m k) w Q.
Proof. unfold ensures, bind. destruct (m w); auto. Qed.

Lemma ensures_ret_eq {A} (m : M A) w a w1 (Q : A -> World -> Prop) :
  m w = Ret a w1 -> Q a w1 -> ensures m w Q.
Proof. unfold ensures. intros ->. auto. Qed.

Lemma ensures_exit_eq {A} (m : M A) w c w1 (Q : A -> World -> Prop) :
  m w = Exit c w1 -> ensures m w Q.
Proof. unfold ensures. intros ->. exact I. Qed.

Lemma ensures_weaken {A} (m : M A) w (Q Q' : A -> World -> Prop) :
  ensures m w Q -> (forall a w', Q a w' -> Q' a w') -> ensures m w Q'.
Proof. unfold ensures. destruct (m w); auto. Qed.

Lemma ensures_send cc ty sid data len w k body :
  find_connection cc (connections w) = Some k ->
  0 <= len ->
  (forall w0, resize_and_copy data len w0 = Ret body w0) ->
  ensures (create_and_send_msg cc ty sid data len) w
    (fun _ w' => handed_over cc (u8 ty) (u32 sid) body w w').
Proof. apply create_and_send_msg_outcome. Qed.

Lemma handed_over_channels cc ty sid body w w' :
  handed_over cc ty sid body w w' -> channels w' = channels w.
Proof. intros (H & _). unfold core in H. congruence. Qed.

Lemma handed_over_send_queue cc ty sid body w w' :
  handed_over cc ty sid body w w' -> send_queue w' = send_queue w.
Proof. intros (H & _). unfold core in H. congruence. Qed.

Lemma handed_over_services cc ty sid body w w' :
  handed_over cc ty sid body w w' -> services w' = services w.
Proof. intros (H & _). unfold core in H. congruence. Qed.

Lemma handed_over_connection cc ty sid body w w' x k :
  handed_over cc ty sid body w w' ->
  find_connection x (connections w) = Some k ->
  exists k', find_connection x (connections w') = Some k' /\ face k' = face k.
Proof.
  intros (_ & H & _) Hk. unfold faces in H.
  exact (find_connection_face x _ _ k H Hk).
Qed.

(** What [clear_packet_queue] leaves, as a world. *)
Definition cleared (ch : Z) (c : LogicalChannel) (sq' : list Z) (w : World) : World :=
  match packet_queue c with
  | [] => w
  | _ :: _ =>
    set_send_queue sq'
      (set_channels (update_channel ch (set_packet_queue []) (channels w)) w)
  end.

Lemma clear_packet_queue_eq ch w c :
  find_channel ch (channels w) = Some c ->
  (packet_queue c <> [] -> In ch (send_queue w)) ->
  exists sq',
    clear_packet_queue ch w = Ret tt (cleared ch c sq' w) /\
    match packet_queue c with
    | [] => sq' = send_queue w
    | _ :: _ => erase_first ch (send_queue w) = Some sq'
    end.
Proof.
  intros Hc Hin. unfold clear_packet_queue, cleared.
  erewrite bind_ret_eq by (apply deref_ch_eq; exact Hc).
  destruct (packet_queue c) as [| p q] eqn:Epq.
  - exists (send_queue w). split; reflexivity.
  - destruct (erase_first_in ch (send_queue w)) as [sq' Hsq];
      [apply Hin; discriminate |].
    exists sq'. split; [| exact Hsq].
    erewrite bind_ret_eq by reflexivity.
    erewrite bind_ret_eq by reflexivity.
    change (send_queue (set_channels ?l w)) with (send_queue w). rewrite Hsq.
    reflexivity.
Qed.

Lemma find_channel_cleared ch c sq' w :
  find_channel ch (channels w) = Some c ->
  find_channel ch (channels (cleared ch c sq' w)) = Some (set_packet_queue [] c).
Proof.
  intros Hc. unfold cleared. destruct (packet_queue c) eqn:E.
  - rewrite Hc. f_equal. destruct c; cbn in *; subst; reflexivity.
  - proj. rewrite find_channel_update by reflexivity.
    rewrite Z.eqb_refl, Hc. reflexivity.
Qed.

Lemma channel_ids_cleared ch c sq' w :
  map channel_id (channels (cleared ch c sq' w)) = map channel_id (channels w).
Proof.
  unfold cleared. destruct (packet_queue c); [reflexivity |]. proj.
  apply channel_ids_update. reflexivity.
Qed.

Lemma not_in_cleared ch c sq' w :
  send_queue_ok w ->
  find_channel ch (channels w) = Some c ->
  match packet_queue c with
  | [] => sq' = send_queue w
  | _ :: _ => erase_first ch (send_queue w) = Some sq'
  end ->
  send_queue (cleared ch c sq' w) = sq' /\ ~ In ch sq'.
Proof.
  intros [Hnd Hq] Hc Hsq. unfold cleared.
  destruct (packet_queue c) as [| p q] eqn:E.
  - subst sq'. split; [reflexivity |]. intros Hin.
    destruct (Hq ch Hin) as (c' & Hc' & Hne). congruence.
  - proj. split; [reflexivity |].
    apply (proj2 (proj2 (proj2 (proj2 (erase_first_spec _ _ _ Hsq))) Hnd)).
Qed.

(** X13.  PKT_RESET.  On a channel with a client, the packets queued for
    the Amiga are dropped, the client gets a MSG_RESET for its stream, the
    channel leaves the client's associations, and the channel record is
    erased.  A channel without a client is erased at once, and a PKT_RESET
    for a channel that is not there changes nothing. *)
Theorem pkt_reset_erases_channel cid data plen w c :
  channel_ids_ok w -> send_queue_ok w ->
  find_channel cid (channels w) = Some c ->
  (packet_queue c <> [] -> In cid (send_queue w)) ->
  (forall cc k,
     association c = Some cc ->
     find_connection cc (connections w) = Some k -> In cid (associations k) ->
     match handle_received_pkt PKT_RESET cid data plen w with
     | Ret _ w' =>
       find_channel cid (channels w') = None /\
       ~ In cid (send_queue w') /\
       messages (trace w') =
         messages (trace w) ++ [(cc, MSG_RESET, u32 (stream_id c), [])] /\
       erased (trace w') =
         erased (trace w) ++
         [mkLogicalChannel (channel_id c) None 0 (got_eos_from_ami c)
            (got_eos_from_client c) []] /\
       exists k',
         find_connection cc (connections w') = Some k' /\
         erase_first cid (associations k) = Some (associations k')
     | Exit _ _ => True
     | Fault => False
     | Stuck => True
     end) /\
  (association c = None ->
   exists w',
     handle_received_pkt PKT_RESET cid data plen w = Ret tt w' /\
     find_channel cid (channels w') = None /\
     ~ In cid (send_queue w') /\
     messages (trace w') = messages (trace w) /\
     connections w' = connections w).
Proof.
  intros Hids Hsqok Hc Hsq.
  change (handle_received_pkt PKT_RESET cid data plen)
    with (handle_pkt_reset cid;; remove_channel_if_not_associated_and_empty_pq cid).
  destruct (clear_packet_queue_eq cid w c Hc Hsq) as (sq' & Ecl & Hsq').
  pose proof (find_channel_cleared cid c sq' w Hc) as Hc1.
  destruct (not_in_cleared cid c sq' w Hsqok Hc Hsq') as [Hsq1 Hnin].
  pose proof (channel_ids_cleared cid c sq' w) as Hids1.
  set (w1 := cleared cid c sq' w) in *.
  assert (Hconn1 : connections w1 = connections w)
    by (unfold w1, cleared; destruct (packet_queue c); reflexivity).
  assert (Htr1 : trace w1 = trace w)
    by (unfold w1, cleared; destruct (packet_queue c); reflexivity).
  split.
  - intros cc k Ha Hk Hin.
    apply ensures_bind. unfold handle_pkt_reset.
    apply ensures_bind. eapply ensures_ret_eq; [reflexivity |]. cbv beta.
    rewrite Hc. apply ensures_bind.
    eapply ensures_ret_eq; [exact Ecl |]. rewrite Ha.
    apply ensures_bind.
    assert (Hk1 : find_connection cc (connections w1) = Some k)
      by (rewrite Hconn1; exact Hk).
    eapply ensures_weaken;
      [apply (ensures_send cc MSG_RESET (stream_id c) nullptr 0 w1 k []);
       [exact Hk1 | lia | reflexivity] |].
    intros u w2 H2. cbv beta.
    pose proof (handed_over_channels _ _ _ _ _ _ H2) as Hch2.
    pose proof (handed_over_send_queue _ _ _ _ _ _ H2) as Hsq2.
    destruct (handed_over_connection _ _ _ _ _ _ cc k H2 Hk1) as (k2 & Hk2 & Hf2).
    destruct H2 as (_ & _ & _ & M2 & R2).
    assert (Hass2 : associations k2 = associations k)
      by (unfold face in Hf2; congruence).
    destruct (erase_first_in cid (associations k2) ltac:(rewrite Hass2; exact Hin))
      as (ass & Hass).
    assert (Hc2 : find_channel cid (channels w2) = Some (set_packet_queue [] c))
      by (rewrite Hch2; exact Hc1).
    eapply ensures_ret_eq;
      [apply (remove_association_eq cid w2 _ cc k2 ass Hc2 Ha Hk2 Hass) |].
    set (w3 := set_channels _ _).
    assert (Hc3 : find_channel cid (channels w3) =
                  Some (set_stream_id 0 (set_association None (set_packet_queue [] c)))).
    { unfold w3. proj. rewrite find_channel_update by reflexivity.
      rewrite Z.eqb_refl, Hc2. reflexivity. }
    unfold remove_channel_if_not_associated_and_empty_pq.
    apply ensures_bind. eapply ensures_ret_eq; [reflexivity |]. cbv beta.
    rewrite Hc3. chan.
    apply ensures_bind. eapply ensures_ret_eq; [reflexivity |].
    eapply ensures_ret_eq; [reflexivity |].
    unfold w3. proj.
    split; [| split; [| split; [| split]]].
    + apply find_channel_erase_same.
      rewrite channel_ids_update by reflexivity. rewrite Hch2, Hids1. exact Hids.
    + rewrite Hsq2, Hsq1. exact Hnin.
    + rewrite messages_app, M2, Htr1. cbn [messages flat_map app].
      rewrite app_nil_r. reflexivity.
    + rewrite erased_app, R2, Htr1. reflexivity.
    + exists (set_associations ass k2). split.
      * apply find_connection_update_same; [reflexivity | exact Hk2].
      * rewrite <- Hass2. exact Hass.
  - intros Ha.
    unfold bind at 1. unfold handle_pkt_reset.
    erewrite bind_ret_eq by reflexivity. rewrite Hc.
    erewrite bind_ret_eq by exact Ecl. rewrite Ha. unfold ret at 1.
    unfold remove_channel_if_not_associated_and_empty_pq.
    erewrite bind_ret_eq by reflexivity. rewrite Hc1. chan. rewrite Ha.
    erewrite bind_ret_eq by reflexivity.
    eexists. split; [reflexivity |]. proj.
    split; [| split; [| split]].
    + apply find_channel_erase_same. rewrite Hids1. exact Hids.
    + rewrite Hsq1. exact Hnin.
    + rewrite messages_app, Htr1. cbn [messages flat_map app].
      rewrite app_nil_r. reflexivity.
    + exact Hconn1.
Qed.

(** Channel 7 of client 5 has a packet waiting when the Amiga resets it. *)
Definition world_pkt_reset : World :=
  set_send_queue [7]
    (set_connections [mkClientConnection 5 3 0 (mkMessageHeader 0 0 0) [] [] [7]]
       (set_channels
          [mkLogicalChannel 7 (Some 5) 1 false false [mkPacketBuffer PKT_DATA [1]]]
          (initial_world [] [ok 9]))).
Definition world_pkt_reset_done : World :=
  after (handle_received_pkt PKT_RESET 7 nullptr 0) world_pkt_reset.

Lemma pkt_reset_erases_channel_witness :
  handle_received_pkt PKT_RESET 7 nullptr 0 world_pkt_reset =
    Ret tt world_pkt_reset_done /\
  channels world_pkt_reset_done = [] /\
  ~ In 7 (send_queue world_pkt_reset_done) /\
  messages (trace world_pkt_reset_done) = [(5, MSG_RESET, 1, [])].
Proof.
  assert (E : handle_received_pkt PKT_RESET 7 nullptr 0 world_pkt_reset =
              Ret tt world_pkt_reset_done) by (vm_compute; reflexivity).
  split; [exact E |].
  assert (Hids : channel_ids_ok world_pkt_reset).
  { unfold channel_ids_ok. cbn. repeat constructor. intros []. }
  assert (Hsq : send_queue_ok world_pkt_reset).
  { split; [repeat constructor; intros [] |].
    intros ch [<- | []]. eexists. split; [reflexivity | discriminate]. }
  pose proof (proj1 (pkt_reset_erases_channel 7 nullptr 0 world_pkt_reset
                       (mkLogicalChannel 7 (Some 5) 1 false false
                          [mkPacketBuffer PKT_DATA [1]])
                       Hids Hsq eq_refl (fun _ => or_introl eq_refl))
                5 (mkClientConnection 5 3 0 (mkMessageHeader 0 0 0) [] [] [7])
                eq_refl eq_refl (or_introl eq_refl)) as H.
  rewrite E in H. destruct H as (_ & Hnin & Hm & _).
  split; [vm_compute; reflexivity |]. split; [exact Hnin | exact Hm].
Defined.

Lemma existsb_find_channel cid l :
  existsb (fun c => channel_id c =? cid) l =
  match find_channel cid l with Some _ => true | None => false end.
Proof.
  unfold find_channel. induction l as [| c l IH]; [reflexivity |].
  cbn [existsb find]. destruct (channel_id c =? cid); [reflexivity | exact IH].
Qed.

Lemma update_channel_absent cid f l :
  find_channel cid l = None -> update_channel cid f l = l.
Proof.
  unfold find_channel, update_channel.
  induction l as [| c l IH]; [reflexivity |].
  cbn [find map]. destruct (channel_id c =? cid); [discriminate |].
  intros H. rewrite IH by exact H. reflexivity.
Qed.

Lemma read_bytes_ptr b n w :
  0 <= n <= zlen b -> read_bytes (ptr b) n w = Ret (ztake n b) w.
Proof.
  intros H. unfold read_bytes. destruct (n <=? 0) eqn:E.
  - apply Z.leb_le in E. replace n with 0 by lia. reflexivity.
  - assert (E2 : (n <=? zlen b) = true) by (apply Z.leb_le; lia).
    rewrite E2. reflexivity.
Qed.

Lemma bind_fault_eq {A B} (m : M A) (k : A -> M B) w :
  m w = Fault -> bind m k w = Fault.
Proof. unfold bind. intros ->. reflexivity. Qed.

(** The channel a PKT_CONNECT creates. *)
Definition fresh_channel (cid : Z) : LogicalChannel :=
  mkLogicalChannel cid None 0 false false [].

(** The entries of the table behind the first one with the name. *)
Fixpoint behind (name : list Z) (ods : list OnDemandStart) : list OnDemandStart :=
  match ods with
  | [] => []
  | o :: rest => if bytes_eqb (service_name o) name then rest else behind name rest
  end.

Lemma on_demand_loop_find ods cid name data plen :
  on_demand_loop ods cid name data plen =
  match find (fun o => bytes_eqb (service_name o) name) ods with
  | Some o =>
    start_on_demand o cid name data plen
      (on_demand_loop (behind name ods) cid name data plen)
  | None =>
    create_and_enqueue_packet cid PKT_CONNECT_RESPONSE
      (ptr [CONNECT_UNKNOWN_SERVICE]) 1
  end.
Proof.
  induction ods as [| o rest IH]; cbn [on_demand_loop find behind]; [reflexivity |].
  destruct (bytes_eqb (service_name o) name); [reflexivity | exact IH].
Qed.

Lemma handle_pkt_connect_start cid b plen w :
  0 <= plen <= zlen b ->
  find_channel cid (channels w) = None ->
  handle_pkt_connect cid (ptr b) plen w =
  match find (fun s => bytes_eqb (srv_name s) (ztake plen b)) (services w) with
  | Some srv =>
    (sid <- associate cid (srv_cc srv);;
     create_and_send_msg (srv_cc srv) MSG_CONNECT sid (ptr b) plen)
      (set_channels (channels w ++ [fresh_channel cid]) w)
  | None =>
    match find (fun o => bytes_eqb (service_name o) (ztake plen b))
            (on_demand_services w) with
    | Some o =>
      start_on_demand o cid (ztake plen b) (ptr b) plen
        (on_demand_loop (behind (ztake plen b) (on_demand_services w)) cid
           (ztake plen b) (ptr b) plen)
        (set_channels (channels w ++ [fresh_channel cid]) w)
    | None =>
      create_and_enqueue_packet cid PKT_CONNECT_RESPONSE
        (ptr [CONNECT_UNKNOWN_SERVICE]) 1
        (set_channels (channels w ++ [fresh_channel cid]) w)
    end
  end.
Proof.
  intros Hlen Hc. unfold handle_pkt_connect.
  erewrite bind_ret_eq by reflexivity.
  rewrite existsb_find_channel, Hc.
  erewrite bind_ret_eq by reflexivity.
  erewrite bind_ret_eq by (apply read_bytes_ptr; exact Hlen).
  erewrite bind_ret_eq by reflexivity.
  change (services (set_channels ?l w)) with (services w).
  fold (fresh_channel cid).
  destruct (find _ (services w)); [reflexivity |].
  erewrite bind_ret_eq by reflexivity.
  change (on_demand_services (set_channels ?l w)) with (on_demand_services w).
  rewrite on_demand_loop_find.
  destruct (find _ (on_demand_services w)); reflexivity.
Qed.

(** X14.  PKT_CONNECT through [handle_received_pkt].  For a channel id
    that is in use the daemon exits.  For a service nobody offers the new
    channel gets a PKT_CONNECT_RESPONSE with CONNECT_UNKNOWN_SERVICE to send
    and stays until that is flushed.  For a registered service the channel is
    associated with the client of the service under the client's next stream
    id, which goes up by two, and the client gets a MSG_CONNECT with the
    name; past INT_MAX the stream id overflows, which is undefined
    behaviour. *)
Theorem pkt_connect_spec cid b plen w :
  0 <= plen <= zlen b ->
  let name := ztake plen b in
  let call := handle_received_pkt PKT_CONNECT cid (ptr b) plen in
  (forall c, find_channel cid (channels w) = Some c -> call w = Exit (-1) w) /\
  (find_channel cid (channels w) = None ->
   unregistered name w ->
   find (fun o => bytes_eqb (service_name o) name) (on_demand_services w) = None ->
   call w =
   Ret tt
     (set_channels
        (channels w ++
         [mkLogicalChannel cid None 0 false false
            [mkPacketBuffer PKT_CONNECT_RESPONSE [CONNECT_UNKNOWN_SERVICE]]])
        (set_send_queue (send_queue w ++ [cid]) w))) /\
  (forall srv k,
     find_channel cid (channels w) = None ->
     find (fun s => bytes_eqb (srv_name s) name) (services w) = Some srv ->
     find_connection (srv_cc srv) (connections w) = Some k ->
     (INT_MAX < next_stream_id k + 2 -> call w = Fault) /\
     (next_stream_id k + 2 <= INT_MAX ->
      match call w with
      | Ret _ w' =>
        find_channel cid (channels w') =
          Some (mkLogicalChannel cid (Some (srv_cc srv)) (next_stream_id k)
                  false false []) /\
        send_queue w' = send_queue w /\
        messages (trace w') =
          messages (trace w) ++
          [(srv_cc srv, MSG_CONNECT, u32 (next_stream_id k), name)] /\
        exists k',
          find_connection (srv_cc srv) (connections w') = Some k' /\
          next_stream_id k' = next_stream_id k + 2 /\
          associations k' = associations k ++ [cid]
      | Exit _ _ => True
      | Fault => False
      | Stuck => True
      end)).
Proof.
  intros Hlen name call. subst call.
  change (handle_received_pkt PKT_CONNECT cid (ptr b) plen)
    with (handle_pkt_connect cid (ptr b) plen;;
          remove_channel_if_not_associated_and_empty_pq cid).
  split; [| split].
  - intros c Hc. unfold bind at 1. unfold handle_pkt_connect.
    erewrite bind_ret_eq by reflexivity.
    rewrite existsb_find_channel, Hc. reflexivity.
  - intros Hc Hun Hod. unfold bind at 1.
    rewrite handle_pkt_connect_start by assumption.
    unfold unregistered in Hun. fold name. rewrite Hun, Hod.
    set (w1 := set_channels (channels w ++ [fresh_channel cid]) w).
    assert (Hc1 : find_channel cid (channels w1) = Some (fresh_channel cid)).
    { unfold w1. proj. rewrite find_channel_app, Hc. cbn [fresh_channel channel_id].
      rewrite Z.eqb_refl. reflexivity. }
    rewrite (create_and_enqueue_packet_eq cid PKT_CONNECT_RESPONSE
               (ptr [CONNECT_UNKNOWN_SERVICE]) 1 w1 (fresh_channel cid)
               [CONNECT_UNKNOWN_SERVICE] Hc1 ltac:(reflexivity)).
    unfold remove_channel_if_not_associated_and_empty_pq.
    erewrite bind_ret_eq by reflexivity.
    rewrite (find_channel_enqueued cid _ _ w1 Hc1). chan.
    cbn [fresh_channel packet_queue app association].
    unfold ret. f_equal.
    unfold enqueued, w1. cbn [fresh_channel packet_queue]. proj.
    unfold update_channel. rewrite map_app.
    fold (update_channel cid
            (fun c => set_packet_queue
                        (packet_queue c ++
                         [mkPacketBuffer (u8 PKT_CONNECT_RESPONSE)
                            [CONNECT_UNKNOWN_SERVICE]]) c) (channels w)).
    rewrite update_channel_absent by exact Hc.
    cbn [map channel_id]. rewrite Z.eqb_refl. reflexivity.
  - intros srv k Hc Hsrv Hk.
    assert (Hc1 : find_channel cid (channels w ++ [fresh_channel cid]) =
                  Some (fresh_channel cid)).
    { rewrite find_channel_app, Hc. cbn [fresh_channel channel_id].
      rewrite Z.eqb_refl. reflexivity. }
    split.
    + intros Hov. apply bind_fault_eq.
      rewrite handle_pkt_connect_start by assumption. fold name. rewrite Hsrv.
      apply bind_fault_eq. unfold associate.
      erewrite bind_ret_eq by (apply deref_cc_eq; proj; exact Hk).
      erewrite bind_ret_eq by reflexivity.
      apply Z.ltb_lt in Hov. rewrite Hov. reflexivity.
    + intros Hov.
      change (ensures (handle_pkt_connect cid (ptr b) plen;;
                       remove_channel_if_not_associated_and_empty_pq cid) w
                (fun _ w' =>
                   find_channel cid (channels w') =
                     Some (mkLogicalChannel cid (Some (srv_cc srv))
                             (next_stream_id k) false false []) /\
                   send_queue w' = send_queue w /\
                   messages (trace w') =
                     messages (trace w) ++
                     [(srv_cc srv, MSG_CONNECT, u32 (next_stream_id k), name)] /\
                   exists k',
                     find_connection (srv_cc srv) (connections w') = Some k' /\
                     next_stream_id k' = next_stream_id k + 2 /\
                     associations k' = associations k ++ [cid])).
      apply ensures_bind. unfold ensures at 1.
      rewrite handle_pkt_connect_start by assumption. fold name. rewrite Hsrv.
      set (w1 := set_channels (channels w ++ [fresh_channel cid]) w).
      set (w2 := set_connections
                   (update_connection (srv_cc srv)
                      (fun k => set_associations (associations k ++ [cid])
                                  (set_next_stream_id (next_stream_id k + 2) k))
                      (connections w1))
                   (set_channels
                      (update_channel cid
                         (fun c => set_stream_id (next_stream_id k)
                                     (set_association (Some (srv_cc srv)) c))
                         (channels w1)) w1)).
      assert (Eas : associate cid (srv_cc srv) w1 = Ret (next_stream_id k) w2).
      { unfold associate.
        erewrite bind_ret_eq by (apply deref_cc_eq; unfold w1; proj; exact Hk).
        erewrite bind_ret_eq by reflexivity.
        assert (E : (INT_MAX <? next_stream_id k + 2) = false)
          by (apply Z.ltb_ge; exact Hov).
        rewrite E. erewrite bind_ret_eq by reflexivity. reflexivity. }
      erewrite bind_ret_eq by exact Eas.
      assert (Hk2 : find_connection (srv_cc srv) (connections w2) =
                    Some (set_associations (associations k ++ [cid])
                            (set_next_stream_id (next_stream_id k + 2) k))).
      { unfold w2, w1. proj.
        apply (find_connection_update_same (srv_cc srv)
                 (fun k => set_associations (associations k ++ [cid])
                             (set_next_stream_id (next_stream_id k + 2) k)));
          [reflexivity | exact Hk]. }
      assert (Hc2 : find_channel cid (channels w2) =
                    Some (mkLogicalChannel cid (Some (srv_cc srv))
                            (next_stream_id k) false false [])).
      { unfold w2, w1. proj. rewrite find_channel_update by reflexivity.
        rewrite Z.eqb_refl, Hc1. reflexivity. }
      pose proof (ensures_send (srv_cc srv) MSG_CONNECT (next_stream_id k) (ptr b)
                    plen w2 _ (ztake plen b) Hk2 (proj1 Hlen)
                    (fun w0 => resize_and_copy_ptr b plen w0 Hlen)) as Hs.
      unfold ensures in Hs.
      destruct (create_and_send_msg (srv_cc srv) MSG_CONNECT (next_stream_id k)
                  (ptr b) plen w2) as [u w3 | | |]; auto.
      pose proof (handed_over_channels _ _ _ _ _ _ Hs) as Hch3.
      pose proof (handed_over_send_queue _ _ _ _ _ _ Hs) as Hsq3.
      destruct (handed_over_connection _ _ _ _ _ _ _ _ Hs Hk2) as (k3 & Hk3 & Hf3).
      destruct Hs as (_ & _ & _ & M3 & _).
      unfold remove_channel_if_not_associated_and_empty_pq.
      apply ensures_bind. eapply ensures_ret_eq; [reflexivity |]. cbv beta.
      rewrite Hch3, Hc2. cbn [association].
      eapply ensures_ret_eq; [reflexivity |].
      rewrite Hch3, Hsq3. split; [exact Hc2 |]. split; [reflexivity |].
      split; [exact M3 |].
      exists k3. split; [exact Hk3 |].
      unfold face in Hf3. cbn in Hf3. split; congruence.
Qed.

(** Client 5 offers the service "x"; the Amiga connects to it on channel 9. *)
Definition world_service_offered : World :=
  set_services [mkRegisteredService [120] 5]
    (set_connections [mkClientConnection 5 1 0 (mkMessageHeader 0 0 0) [] [] []]
       (initial_world [] [ok 10])).
Definition world_service_connected : World :=
  after (handle_received_pkt PKT_CONNECT 9 (ptr [120]) 1) world_service_offered.

Lemma pkt_connect_spec_witness :
  handle_received_pkt PKT_CONNECT 9 (ptr [120]) 1 world_service_offered =
    Ret tt world_service_connected /\
  find_channel 9 (channels world_service_connected) =
    Some (mkLogicalChannel 9 (Some 5) 1 false false []) /\
  messages (trace world_service_connected) = [(5, MSG_CONNECT, 1, [120])] /\
  connections world_service_connected =
    [mkClientConnection 5 3 0 (mkMessageHeader 0 0 0) [] [] [9]].
Proof.
  assert (E : handle_received_pkt PKT_CONNECT 9 (ptr [120]) 1 world_service_offered =
              Ret tt world_service_connected) by (vm_compute; reflexivity).
  split; [exact E |].
  pose proof (proj2 (proj2 (proj2 (pkt_connect_spec 9 [120] 1 world_service_offered
                       ltac:(vm_compute; split; discriminate)))
                (mkRegisteredService [120] 5)
                (mkClientConnection 5 1 0 (mkMessageHeader 0 0 0) [] [] [])
                eq_refl eq_refl eq_refl)
                ltac:(vm_compute; discriminate)) as H.
  cbv zeta in H. rewrite E in H. destruct H as (Hc & _ & Hm & _).
  split; [exact Hc |]. split; [exact Hm | vm_compute; reflexivity].
Defined.

(** X15.  PKT_DATA through [handle_received_pkt].  On a channel with a
    client that has not had the EOS of the Amiga, the payload goes to the
    client as a MSG_DATA on the stream of the channel, and nothing else
    changes.  Data for a channel that is not there, or that has no client
    any more, is dropped. *)
Theorem pkt_data_forwarded cid b plen w :
  0 <= plen <= zlen b ->
  let call := handle_received_pkt PKT_DATA cid (ptr b) plen in
  (forall c cc k,
     find_channel cid (channels w) = Some c ->
     association c = Some cc -> got_eos_from_ami c = false ->
     find_connection cc (connections w) = Some k ->
     match call w with
     | Ret _ w' =>
       handed_over cc MSG_DATA (u32 (stream_id c)) (ztake plen b) w w'
     | Exit _ _ => True
     | Fault => False
     | Stuck => True
     end) /\
  (find_channel cid (channels w) = None -> call w = Ret tt w) /\
  (forall c,
     find_channel cid (channels w) = Some c ->
     association c = None -> packet_queue c <> [] -> call w = Ret tt w).
Proof.
  intros Hlen call. subst call.
  change (handle_received_pkt PKT_DATA cid (ptr b) plen)
    with (handle_pkt_data cid (ptr b) plen;;
          remove_channel_if_not_associated_and_empty_pq cid).
  split; [| split].
  - intros c cc k Hc Ha Hf Hk.
    change (ensures (handle_pkt_data cid (ptr b) plen;;
                     remove_channel_if_not_associated_and_empty_pq cid) w
              (fun _ w' =>
                 handed_over cc MSG_DATA (u32 (stream_id c)) (ztake plen b) w w')).
    apply ensures_bind. unfold handle_pkt_data.
    apply ensures_bind. eapply ensures_ret_eq; [reflexivity |]. cbv beta.
    rewrite Hc, Ha, Hf. cbn [negb].
    eapply ensures_weaken;
      [apply (ensures_send cc MSG_DATA (stream_id c) (ptr b) plen w k (ztake plen b));
       [exact Hk | exact (proj1 Hlen) |
        intros w0; apply resize_and_copy_ptr; exact Hlen] |].
    intros u w1 H1. cbv beta.
    pose proof (handed_over_channels _ _ _ _ _ _ H1) as Hch.
    unfold remove_channel_if_not_associated_and_empty_pq.
    apply ensures_bind. eapply ensures_ret_eq; [reflexivity |]. cbv beta.
    rewrite Hch, Hc, Ha.
    eapply ensures_ret_eq; [reflexivity | exact H1].
  - intros Hc. unfold bind at 1. unfold handle_pkt_data.
    erewrite bind_ret_eq by reflexivity. rewrite Hc. unfold ret at 1.
    unfold remove_channel_if_not_associated_and_empty_pq.
    erewrite bind_ret_eq by reflexivity. rewrite Hc. reflexivity.
  - intros c Hc Ha Hpq. unfold bind at 1. unfold handle_pkt_data.
    erewrite bind_ret_eq by reflexivity. rewrite Hc, Ha. unfold ret at 1.
    unfold remove_channel_if_not_associated_and_empty_pq.
    erewrite bind_ret_eq by reflexivity. rewrite Hc, Ha.
    destruct (packet_queue c); [contradiction | reflexivity].
Qed.

(** The Amiga sends two bytes on the channel of the service. *)
Definition world_data_arrives : World :=
  set_script [ok 11] world_service_connected.
Definition world_data_forwarded : World :=
  after (handle_received_pkt PKT_DATA 9 (ptr [1; 2; 3]) 2) world_data_arrives.

Lemma pkt_data_forwarded_witness :
  handle_received_pkt PKT_DATA 9 (ptr [1; 2; 3]) 2 world_data_arrives =
    Ret tt world_data_forwarded /\
  messages (trace world_data_forwarded) =
    [(5, MSG_CONNECT, 1, [120]); (5, MSG_DATA, 1, [1; 2])].
Proof.
  assert (E : handle_received_pkt PKT_DATA 9 (ptr [1; 2; 3]) 2 world_data_arrives =
              Ret tt world_data_forwarded) by (vm_compute; reflexivity).
  split; [exact E |].
  assert (Hc : find_channel 9 (channels world_data_arrives) =
               Some (mkLogicalChannel 9 (Some 5) 1 false false []))
    by (vm_compute; reflexivity).
  assert (Hk : find_connection 5 (connections world_data_arrives) =
               Some (mkClientConnection 5 3 0 (mkMessageHeader 0 0 0) [] [] [9]))
    by (vm_compute; reflexivity).
  pose proof (proj1 (pkt_data_forwarded 9 [1; 2; 3] 2 world_data_arrives
                       ltac:(vm_compute; split; discriminate))
                _ 5 _ Hc eq_refl eq_refl Hk) as H.
  cbv zeta in H. rewrite E in H. destruct H as (_ & _ & _ & Hm & _).
  rewrite Hm. vm_compute. reflexivity.
Defined.

(** * Bytes that wait for a client *)

Lemma send_loop_short_write fuel cc mb w k r scr :
  find_connection cc (connections w) = Some k ->
  script w = r :: scr ->
  1 <= sr_ret r < zlen (mb_data mb) - mb_pos mb ->
  send_loop (S fuel) cc mb w =
  send_loop fuel cc (mkMessageBuffer (mb_pos mb + sr_ret r) (mb_data mb))
    (written (c_write cc (zdrop (mb_pos mb) (mb_data mb))) scr w).
Proof.
  intros Hk Hs Hr. cbn [send_loop]. cbv zeta.
  erewrite bind_ret_eq by (apply deref_cc_eq; exact Hk).
  rewrite (find_connection_fd _ _ _ Hk).
  erewrite bind_ret_eq by (apply sys_eq; exact Hs).
  assert (E1 : (sr_ret r =? -1) = false) by (apply Z.eqb_neq; lia).
  assert (E2 : (1 <=? sr_ret r) = true) by (apply Z.leb_le; lia).
  assert (E3 : (sr_ret r <=? zlen (mb_data mb) - mb_pos mb) = true)
    by (apply Z.leb_le; lia).
  assert (E4 : (sr_ret r =? zlen (mb_data mb) - mb_pos mb) = false)
    by (apply Z.eqb_neq; lia).
  rewrite E1, E2, E3, E4. reflexivity.
Qed.

Lemma drain_loop_full_write fuel cc w k mb rest r scr :
  find_connection cc (connections w) = Some k ->
  message_queue k = mb :: rest ->
  script w = r :: scr ->
  sr_ret r = zlen (mb_data mb) - mb_pos mb -> 1 <= sr_ret r ->
  drain_loop (S fuel) cc w =
  drain_loop fuel cc
    (set_connections
       (update_connection cc (set_message_queue rest) (connections w))
       (written (c_write cc (zdrop (mb_pos mb) (mb_data mb))) scr w)).
Proof.
  intros Hk Hq Hs Hr H1. cbn [drain_loop].
  erewrite bind_ret_eq by (apply deref_cc_eq; exact Hk).
  rewrite Hq. rewrite (find_connection_fd _ _ _ Hk).
  erewrite bind_ret_eq by (apply sys_eq; exact Hs).
  assert (E1 : (sr_ret r =? -1) = false) by (apply Z.eqb_neq; lia).
  assert (E2 : (1 <=? sr_ret r) = true) by (apply Z.leb_le; lia).
  assert (E3 : (sr_ret r <=? zlen (mb_data mb) - mb_pos mb) = true)
    by (apply Z.leb_le; lia).
  assert (E4 : (sr_ret r =? zlen (mb_data mb) - mb_pos mb) = true)
    by (apply Z.eqb_eq; exact Hr).
  rewrite E1, E2, E3, E4. cbn [andb].
  erewrite bind_ret_eq by reflexivity. reflexivity.
Qed.

Lemma drain_loop_empty fuel cc w k :
  find_connection cc (connections w) = Some k -> message_queue k = [] ->
  drain_loop fuel cc w = Ret tt w.
Proof.
  intros Hk Hq. destruct fuel; cbn [drain_loop];
    erewrite bind_ret_eq by (apply deref_cc_eq; exact Hk);
    rewrite Hq; reflexivity.
Qed.

(** The message [create_and_send_msg] builds, and the world after it was
    handed over. *)
Definition message_of (ty sid len : Z) (body : list Z) : list Z :=
  encode_header len sid ty ++ body.
Definition noted (cc ty sid : Z) (body : list Z) (w : World) : World :=
  set_trace (trace w ++ [ev_msg cc (u8 ty) (u32 sid) body]) w.
Definition queue_of (cc : Z) (w : World) : option (list MessageBuffer) :=
  option_map message_queue (find_connection cc (connections w)).

Lemma create_and_send_msg_start cc ty sid data len w k body :
  find_connection cc (connections w) = Some k ->
  0 <= len -> resize_and_copy data len w = Ret body w ->
  create_and_send_msg cc ty sid data len w =
  match message_queue k with
  | _ :: _ =>
    push_message cc (mkMessageBuffer 0 (message_of ty sid len body))
      (noted cc ty sid body w)
  | [] =>
    send_loop (S (length (script w))) cc
      (mkMessageBuffer 0 (message_of ty sid len body)) (noted cc ty sid body w)
  end.
Proof.
  intros Hk Hlen Hb. unfold create_and_send_msg.
  apply Z.ltb_ge in Hlen. rewrite Hlen.
  erewrite bind_ret_eq by exact Hb.
  erewrite bind_ret_eq by reflexivity.
  erewrite bind_ret_eq by (apply deref_cc_eq; exact Hk).
  destruct (message_queue k); reflexivity.
Qed.

Lemma queue_of_push cc mb w k :
  find_connection cc (connections w) = Some k ->
  exists w', push_message cc mb w = Ret tt w' /\
             queue_of cc w' = Some (message_queue k ++ [mb]) /\
             trace w' = trace w /\ script w' = script w /\ core w' = core w.
Proof.
  intros Hk. eexists. split; [reflexivity |]. unfold queue_of. proj.
  rewrite (find_connection_update_same cc
             (fun k => set_message_queue (message_queue k ++ [mb]) k) _ k)
    by (reflexivity || exact Hk).
  repeat split.
Qed.

Lemma message_bytes_length ty sid len body : 9 <= zlen (message_of ty sid len body).
Proof.
  unfold message_of, encode_header. rewrite !zlen_app.
  pose proof (zlen_nonneg body). unfold le32, zlen at 1 2 3. cbn [length]. lia.
Qed.

(** The socket takes the first bytes of a message and then would block. *)
Lemma create_and_send_msg_short_write cc ty sid data len w k body r1 r2 scr :
  find_connection cc (connections w) = Some k ->
  0 <= len -> resize_and_copy data len w = Ret body w ->
  message_queue k = [] -> script w = r1 :: r2 :: scr ->
  1 <= sr_ret r1 < zlen (message_of ty sid len body) ->
  sr_ret r2 = -1 -> sr_errno r2 = EAGAIN ->
  exists w',
    create_and_send_msg cc ty sid data len w = Ret tt w' /\
    queue_of cc w' =
      Some [mkMessageBuffer (sr_ret r1) (message_of ty sid len body)] /\
    syscalls (trace w') =
      syscalls (trace w) ++
      [c_write cc (message_of ty sid len body);
       c_write cc (zdrop (sr_ret r1) (message_of ty sid len body))] /\
    script w' = scr.
Proof.
  intros Hk Hlen Hb Hq Hs Hn Hr2 He2.
  rewrite (create_and_send_msg_start cc ty sid data len w k body Hk Hlen Hb).
  set (msg := message_of ty sid len body) in *.
  assert (Hk0 : find_connection cc (connections (noted cc ty sid body w)) = Some k)
    by exact Hk.
  rewrite Hq.
  assert (Hs0 : script (noted cc ty sid body w) = r1 :: r2 :: scr) by exact Hs.
  rewrite Hs. cbn [length].
  rewrite (send_loop_short_write _ cc _ _ k r1 (r2 :: scr) Hk0 Hs0)
    by (cbn [mb_pos mb_data]; lia).
  cbn [mb_pos mb_data]. rewrite Z.add_0_l.
  change (zdrop 0 msg) with msg.
  set (w1 := written (c_write cc msg) (r2 :: scr) (noted cc ty sid body w)).
  assert (Hk1 : find_connection cc (connections w1) = Some k) by exact Hk.
  rewrite (send_loop_failed_write _ cc _ w1 k r2 scr Hk1 eq_refl Hr2).
  rewrite He2. cbn [Z.eqb Pos.eqb EAGAIN orb]. cbn [mb_pos mb_data].
  set (w2 := written _ scr w1).
  assert (Hk2 : find_connection cc (connections w2) = Some k) by exact Hk.
  destruct (queue_of_push cc (mkMessageBuffer (sr_ret r1) msg) w2 k Hk2)
    as (w' & Ep & Q & T & S & _).
  exists w'. split; [exact Ep |]. rewrite Hq in Q. split; [exact Q |].
  rewrite T, S. unfold w2, w1, written, noted. proj.
  rewrite !syscalls_app. cbn [syscalls flat_map app].
  rewrite app_nil_r, <- app_assoc. auto.
Qed.

(** X16.  Messages for a client go out in the order they were made.
    While bytes wait in the queue of the client, a new message is put
    behind them and nothing is written.  With the queue empty the message is
    written; when the socket takes only the first [n] bytes and then would
    block, the message waits in the queue with [n] as its position. *)
Theorem create_and_send_msg_queues cc ty sid data len w k body :
  find_connection cc (connections w) = Some k ->
  0 <= len -> resize_and_copy data len w = Ret body w ->
  let msg := message_of ty sid len body in
  (message_queue k <> [] ->
   exists w',
     create_and_send_msg cc ty sid data len w = Ret tt w' /\
     queue_of cc w' = Some (message_queue k ++ [mkMessageBuffer 0 msg]) /\
     syscalls (trace w') = syscalls (trace w) /\ script w' = script w) /\
  (forall r1 r2 scr,
     message_queue k = [] -> script w = r1 :: r2 :: scr ->
     1 <= sr_ret r1 < zlen msg ->
     sr_ret r2 = -1 -> sr_errno r2 = EAGAIN ->
     exists w',
       create_and_send_msg cc ty sid data len w = Ret tt w' /\
       queue_of cc w' = Some [mkMessageBuffer (sr_ret r1) msg] /\
       syscalls (trace w') =
         syscalls (trace w) ++
         [c_write cc msg; c_write cc (zdrop (sr_ret r1) msg)] /\
       script w' = scr) /\
  (forall r scr,
     message_queue k = [] -> script w = r :: scr -> sr_ret r = zlen msg ->
     exists w',
       create_and_send_msg cc ty sid data len w = Ret tt w' /\
       queue_of cc w' = Some [] /\
       syscalls (trace w') = syscalls (trace w) ++ [c_write cc msg] /\
       script w' = scr).
Proof.
  intros Hk Hlen Hb msg.
  pose proof (create_and_send_msg_start cc ty sid data len w k body Hk Hlen Hb)
    as Hstart.
  fold msg in Hstart.
  assert (Hk0 : find_connection cc (connections (noted cc ty sid body w)) = Some k)
    by exact Hk.
  assert (Hmsg : 9 <= zlen msg) by apply message_bytes_length.
  split; [| split].
  - intros Hq. rewrite Hstart.
    destruct (message_queue k) as [| m q] eqn:E; [contradiction |].
    destruct (queue_of_push cc (mkMessageBuffer 0 msg) _ k Hk0)
      as (w' & Ep & Q & T & S & _).
    exists w'. split; [exact Ep |]. rewrite E in Q. split; [exact Q |].
    rewrite T, S. unfold noted. proj. rewrite syscalls_app.
    cbn [syscalls flat_map app]. rewrite app_nil_r. auto.
  - intros r1 r2 scr Hq Hs Hn Hr2 He2.
    apply (create_and_send_msg_short_write cc ty sid data len w k body r1 r2 scr);
      assumption.
  - intros r scr Hq Hs Hr. rewrite Hstart, Hq, Hs. cbn [length send_loop]. cbv zeta.
    erewrite bind_ret_eq by (apply deref_cc_eq; exact Hk0).
    rewrite (find_connection_fd _ _ _ Hk).
    erewrite bind_ret_eq by (apply sys_eq; exact Hs).
    cbn [mb_pos mb_data]. rewrite Z.sub_0_r, Hr.
    assert (E1 : (zlen msg =? -1) = false) by (apply Z.eqb_neq; lia).
    assert (E2 : (1 <=? zlen msg) = true) by (apply Z.leb_le; lia).
    rewrite E1, E2, Z.leb_refl, Z.eqb_refl. cbn [andb].
    eexists. split; [reflexivity |]. unfold queue_of, noted. proj.
    rewrite Hk. cbn [option_map]. rewrite Hq. split; [reflexivity |].
    rewrite !syscalls_app. cbn [syscalls flat_map app].
    rewrite app_nil_r. auto.
Qed.

(** The socket of client 5 takes 4 of the 11 bytes of a message and then
    would block. *)
Definition world_slow_client : World :=
  set_connections [mkClientConnection 5 1 0 (mkMessageHeader 0 0 0) [] [] []]
    (initial_world [] [ok 4; err EAGAIN]).

Lemma create_and_send_msg_queues_witness :
  exists w',
    create_and_send_msg 5 MSG_DATA 1 (ptr [7; 8]) 2 world_slow_client = Ret tt w' /\
    queue_of 5 w' =
      Some [mkMessageBuffer 4 [2; 0; 0; 0; 1; 0; 0; 0; MSG_DATA; 7; 8]] /\
    syscalls (trace w') =
      [c_write 5 [2; 0; 0; 0; 1; 0; 0; 0; MSG_DATA; 7; 8];
       c_write 5 [1; 0; 0; 0; MSG_DATA; 7; 8]] /\
    script w' = [].
Proof.
  assert (H0 : 0 <= 2) by lia.
  destruct (create_and_send_msg_queues 5 MSG_DATA 1 (ptr [7; 8]) 2
              world_slow_client
              (mkClientConnection 5 1 0 (mkMessageHeader 0 0 0) [] [] [])
              [7; 8] eq_refl H0 eq_refl) as (_ & H & _).
  apply (H (ok 4) (err EAGAIN) []); try reflexivity.
  vm_compute. split; [discriminate | reflexivity].
Defined.

(** X17.  A message that was cut short is taken up where the socket
    stopped.  When the socket took [n] bytes and then would block, the
    EPOLLOUT loop offers the bytes from [n] on, and when all of them are
    taken the queue of the client is empty: no byte is written twice and
    none is lost. *)
Theorem short_write_resumes cc ty sid data len w k body r1 r2 r3 scr fuel :
  find_connection cc (connections w) = Some k ->
  0 <= len -> resize_and_copy data len w = Ret body w ->
  message_queue k = [] -> script w = r1 :: r2 :: r3 :: scr ->
  let msg := message_of ty sid len body in
  1 <= sr_ret r1 < zlen msg ->
  sr_ret r2 = -1 -> sr_errno r2 = EAGAIN ->
  sr_ret r3 = zlen msg - sr_ret r1 ->
  exists w',
    (create_and_send_msg cc ty sid data len;; drain_loop (S fuel) cc) w =
      Ret tt w' /\
    queue_of cc w' = Some [] /\
    script w' = scr /\
    syscalls (trace w') =
      syscalls (trace w) ++
      [c_write cc msg;
       c_write cc (zdrop (sr_ret r1) msg);
       c_write cc (zdrop (sr_ret r1) msg)].
Proof.
  intros Hk Hlen Hb Hq Hs msg Hn Hr2 He2 Hr3.
  destruct (create_and_send_msg_short_write cc ty sid data len w k body r1 r2
              (r3 :: scr) Hk Hlen Hb Hq Hs Hn Hr2 He2)
    as (w1 & E1 & Q1 & T1 & S1).
  fold msg in Q1, T1.
  erewrite bind_ret_eq by exact E1.
  unfold queue_of in Q1.
  destruct (find_connection cc (connections w1)) as [k1 |] eqn:Hk1;
    [| discriminate Q1].
  cbn [option_map] in Q1. injection Q1 as Q1.
  rewrite (drain_loop_full_write fuel cc w1 k1 _ [] r3 scr Hk1 Q1 S1)
    by (cbn [mb_pos mb_data]; lia).
  cbn [mb_pos mb_data].
  set (w2 := set_connections _ _).
  assert (Hk2 : find_connection cc (connections w2) =
                Some (set_message_queue [] k1)).
  { unfold w2. proj.
    apply (find_connection_update_same cc (set_message_queue [])); [reflexivity | exact Hk1]. }
  rewrite (drain_loop_empty fuel cc w2 _ Hk2 eq_refl).
  exists w2. split; [reflexivity |]. unfold queue_of. rewrite Hk2.
  split; [reflexivity |]. unfold w2, written. proj. split; [reflexivity |].
  rewrite syscalls_app, T1, <- app_assoc. reflexivity.
Qed.

(** The socket of client 5 takes 4 bytes, would block, and later takes the
    other 7. *)
Definition world_slow_client_recovers : World :=
  set_connections [mkClientConnection 5 1 0 (mkMessageHeader 0 0 0) [] [] []]
    (initial_world [] [ok 4; err EAGAIN; ok 7]).

Lemma short_write_resumes_witness :
  exists w',
    (create_and_send_msg 5 MSG_DATA 1 (ptr [7; 8]) 2;; drain_loop 1 5)
      world_slow_client_recovers = Ret tt w' /\
    queue_of 5 w' = Some [] /\
    script w' = [] /\
    syscalls (trace w') =
      [c_write 5 [2; 0; 0; 0; 1; 0; 0; 0; MSG_DATA; 7; 8];
       c_write 5 [1; 0; 0; 0; MSG_DATA; 7; 8];
       c_write 5 [1; 0; 0; 0; MSG_DATA; 7; 8]].
Proof.
  assert (H0 : 0 <= 2) by lia.
  apply (short_write_resumes 5 MSG_DATA 1 (ptr [7; 8]) 2 world_slow_client_recovers
           (mkClientConnection 5 1 0 (mkMessageHeader 0 0 0) [] [] [])
           [7; 8] (ok 4) (err EAGAIN) (ok 7) [] 0%nat eq_refl H0 eq_refl eq_refl
           eq_refl);
    try reflexivity.
  vm_compute. split; [discriminate | reflexivity].
Defined.


(** * The board and the sockets under the handlers *)

(** No handler of a packet or of a message touches the state of the board,
    the configuration or the sockets the daemon listens on. *)
Lemma stable_env_create_and_enqueue_packet ch ty data len :
  stable env (create_and_enqueue_packet ch ty data len).
Proof. unfold create_and_enqueue_packet. cbv zeta. stable_tac. Qed.

Lemma stable_env_clear_packet_queue ch : stable env (clear_packet_queue ch).
Proof. unfold clear_packet_queue. stable_tac. Qed.

Lemma stable_env_remove_association ch : stable env (remove_association ch).
Proof. unfold remove_association. stable_tac. Qed.

Lemma stable_env_remove_channel cid :
  stable env (remove_channel_if_not_associated_and_empty_pq cid).
Proof. unfold remove_channel_if_not_associated_and_empty_pq. stable_tac. Qed.

Lemma stable_env_associate ch cc : stable env (associate ch cc).
Proof. unfold associate. stable_tac. Qed.

Lemma stable_env_add_connection f : stable env (add_connection f).
Proof. unfold add_connection. stable_tac. Qed.
#[export] Hint Resolve stable_env_create_and_enqueue_packet
  stable_env_clear_packet_queue stable_env_remove_association
  stable_env_remove_channel stable_env_associate stable_env_add_connection
  : stable.

Lemma stable_env_start_on_demand od cid name data plen next :
  stable env next -> stable env (start_on_demand od cid name data plen next).
Proof. intros Hnext. unfold start_on_demand. cbv zeta. stable_tac. Qed.

Lemma stable_env_on_demand_loop ods cid name data plen :
  stable env (on_demand_loop ods cid name data plen).
Proof.
  induction ods as [| od rest IH]; cbn [on_demand_loop].
  - apply stable_env_create_and_enqueue_packet.
  - destruct (bytes_eqb (service_name od) name);
      [apply stable_env_start_on_demand |]; exact IH.
Qed.
#[export] Hint Resolve stable_env_on_demand_loop : stable.

Lemma stable_env_handle_pkt_connect cid data plen :
  stable env (handle_pkt_connect cid data plen).
Proof. unfold handle_pkt_connect. stable_tac. Qed.

Lemma stable_env_handle_pkt_data cid data plen :
  stable env (handle_pkt_data cid data plen).
Proof. unfold handle_pkt_data. stable_tac. Qed.

Lemma stable_env_handle_pkt_eos cid : stable env (handle_pkt_eos cid).
Proof. unfold handle_pkt_eos. stable_tac. Qed.

Lemma stable_env_handle_pkt_reset cid : stable env (handle_pkt_reset cid).
Proof. unfold handle_pkt_reset. stable_tac. Qed.
#[export] Hint Resolve stable_env_handle_pkt_connect stable_env_handle_pkt_data
  stable_env_handle_pkt_eos stable_env_handle_pkt_reset : stable.

Lemma stable_env_handle_received_pkt ptype cid data plen :
  stable env (handle_received_pkt ptype cid data plen).
Proof. unfold handle_received_pkt. stable_tac. Qed.
#[export] Hint Resolve stable_env_handle_received_pkt : stable.

Lemma stable_env_parse_loop fuel : forall p len, stable env (parse_loop fuel p len).
Proof.
  induction fuel as [| fuel IH]; intros p len; cbn [parse_loop]; cbv zeta;
    stable_tac.
Qed.
#[export] Hint Resolve stable_env_parse_loop : stable.


(** * The packets in the A2R ring *)

(** The packets of a sequence handed to [handle_received_pkt] one after the
    other, as they lie in a buffer: the pointer to the payload of a packet
    points at the payload, the packets behind it and the rest of the
    buffer. *)
Fixpoint deliver (pkts : list (Z * PacketBuffer)) (rest : list Z) : M unit :=
  match pkts with
  | [] => ret tt
  | x :: t =>
    handle_received_pkt (pb_type (snd x)) (fst x)
      (ptr (pb_data (snd x) ++ frames t ++ rest)) (zlen (pb_data (snd x)));;
    deliver t rest
  end.

(** A packet whose length, type and channel id fit a byte each. *)
Definition packet_ok (x : Z * PacketBuffer) : Prop :=
  u8 (fst x) = fst x /\ u8 (pb_type (snd x)) = pb_type (snd x) /\
  zlen (pb_data (snd x)) <= 255.

Lemma bind_ext_ret {A B} (m : M A) (k k' : A -> M B) w :
  (forall a w1, m w = Ret a w1 -> k a w1 = k' a w1) ->
  bind m k w = bind m k' w.
Proof. unfold bind. intros H. destruct (m w); auto. Qed.

Lemma u8_small x : 0 <= x <= 255 -> u8 x = x.
Proof. intros H. rewrite u8_mod. apply Z.mod_small. lia. Qed.

Lemma frames_cons x t : frames (x :: t) = frame (fst x) (snd x) ++ frames t.
Proof. reflexivity. Qed.

Lemma nth_after (pre : list Z) (a : list Z) c b :
  nth (Z.to_nat (zlen pre + zlen a)) (pre ++ a ++ c :: b) 0 = c.
Proof.
  rewrite <- zlen_app, app_assoc. apply nth_zlen_app.
Qed.

Lemma zdrop_after (pre a b : list Z) :
  zdrop (zlen pre + zlen a) (pre ++ a ++ b) = b.
Proof. rewrite <- zlen_app, app_assoc. apply zdrop_app. Qed.

Lemma parse_loop_deliver pkts :
  forall pre rest w fuel,
    recv_buf w = pre ++ frames pkts ++ rest ->
    Forall packet_ok pkts ->
    zlen pre + zlen (frames pkts) <= 255 ->
    (length pkts <= fuel)%nat ->
    parse_loop fuel (zlen pre) (zlen pre + zlen (frames pkts)) w =
    deliver pkts rest w.
Proof.
  induction pkts as [| [cid pb] t IH]; intros pre rest w fuel Hbuf Hok Hlen Hfuel.
  - change (zlen (frames [])) with 0. rewrite Z.add_0_r.
    destruct fuel; cbn [parse_loop deliver]; rewrite Z.ltb_irrefl; reflexivity.
  - destruct fuel as [| fuel]; [cbn [length] in Hfuel; lia |].
    inversion Hok as [| ? ? (Hcid & Hty & Hdata) Hok']; subst.
    cbn [fst snd] in *.
    rewrite frames_cons in *. cbn [fst snd] in *.
    pose proof (zlen_nonneg pre). pose proof (zlen_nonneg (pb_data pb)).
    pose proof (zlen_nonneg (frames t)).
    rewrite zlen_app, zlen_frame in *.
    cbn [parse_loop deliver fst snd].
    assert (E1 : (zlen pre <? zlen pre + (3 + zlen (pb_data pb) + zlen (frames t))) = true)
      by (apply Z.ltb_lt; lia).
    rewrite E1.
    erewrite bind_ret_eq by reflexivity.
    assert (E2 : (255 <? zlen pre + 2) = false) by (apply Z.ltb_ge; lia).
    rewrite E2. cbv zeta.
    assert (Hb : recv_buf w =
                 pre ++ [u8 (zlen (pb_data pb)); u8 (pb_type pb); u8 cid] ++
                 pb_data pb ++ frames t ++ rest).
    { rewrite Hbuf. unfold frame. rewrite <- !app_assoc. reflexivity. }
    assert (N0 : nth (Z.to_nat (zlen pre)) (recv_buf w) 0 = u8 (zlen (pb_data pb))).
    { rewrite Hb. apply nth_zlen_app. }
    assert (N1 : nth (Z.to_nat (zlen pre + 1)) (recv_buf w) 0 = u8 (pb_type pb)).
    { rewrite Hb. apply (nth_after pre [u8 (zlen (pb_data pb))]). }
    assert (N2 : nth (Z.to_nat (zlen pre + 2)) (recv_buf w) 0 = u8 cid).
    { rewrite Hb.
      apply (nth_after pre [u8 (zlen (pb_data pb)); u8 (pb_type pb)]). }
    assert (D3 : zdrop (zlen pre + 3) (recv_buf w) = pb_data pb ++ frames t ++ rest).
    { rewrite Hb.
      apply (zdrop_after pre [u8 (zlen (pb_data pb)); u8 (pb_type pb); u8 cid]). }
    rewrite N0, N1, N2, D3, !u8_u8, Hty, Hcid, (u8_small (zlen (pb_data pb))) by lia.
    apply bind_ext_ret. intros u w1 Hrun.
    pose proof (stable_env_handle_received_pkt _ _ _ _ _ _ _ Hrun) as He.
    assert (Hr : recv_buf w1 = recv_buf w) by (unfold env in He; congruence).
    replace (zlen pre + 3 + zlen (pb_data pb)) with (zlen (pre ++ frame cid pb))
      by (rewrite zlen_app, zlen_frame; lia).
    replace (zlen pre + (3 + zlen (pb_data pb) + zlen (frames t)))
      with (zlen (pre ++ frame cid pb) + zlen (frames t))
      by (rewrite zlen_app, zlen_frame; lia).
    apply IH.
    + rewrite Hr, Hbuf, <- !app_assoc. reflexivity.
    + exact Hok'.
    + rewrite zlen_app, zlen_frame. lia.
    + cbn [length] in Hfuel. lia.
Qed.

(** X18.  The parser of the A2R ring reads back what the writer of the R2A
    ring writes: a buffer that holds the frames of a sequence of packets is
    handed to [handle_received_pkt] packet by packet, in order, each with its
    type, its channel and its payload. *)
Theorem parse_loop_reads_frames pkts rest w fuel :
  recv_buf w = frames pkts ++ rest ->
  Forall packet_ok pkts ->
  zlen (frames pkts) <= 255 ->
  (length pkts <= fuel)%nat ->
  parse_loop fuel 0 (zlen (frames pkts)) w = deliver pkts rest w.
Proof.
  intros Hbuf Hok Hlen Hfuel.
  exact (parse_loop_deliver pkts [] rest w fuel Hbuf Hok Hlen Hfuel).
Qed.

(** The buffer holds a PKT_CONNECT to "x" on channel 9 and a PKT_RESET of
    channel 9. *)
Definition two_packets : list (Z * PacketBuffer) :=
  [(9, mkPacketBuffer PKT_CONNECT [120]); (9, mkPacketBuffer PKT_RESET [])].
Definition world_two_packets : World :=
  set_recv_buf (frames two_packets ++ zeros 249) (initial_world [] []).

Lemma parse_loop_reads_frames_witness :
  parse_loop 2 0 7 world_two_packets =
  (handle_received_pkt PKT_CONNECT 9 (ptr ([120] ++ [0; PKT_RESET; 9] ++ zeros 249)) 1;;
   handle_received_pkt PKT_RESET 9 (ptr (zeros 249)) 0;;
   ret tt) world_two_packets.
Proof.
  apply (parse_loop_reads_frames two_packets (zeros 249) world_two_packets 2).
  - reflexivity.
  - repeat constructor; vm_compute; discriminate.
  - vm_compute. discriminate.
  - cbn [length two_packets]. lia.
Defined.


Lemma stable_map {T U A} (f : World -> T) (g : T -> U) (m : M A) :
  stable f m -> stable (fun w => g (f w)) m.
Proof. intros H w a w' E. rewrite (H _ _ _ E). reflexivity. Qed.

(** The pointers of the rings and the events to raise. *)
Definition ring_state (w : World) :=
  (channel_status w, channel_status_updated w, base_address w).

Lemma stable_ring_state_parse_loop fuel p len :
  stable ring_state (parse_loop fuel p len).
Proof.
  apply (stable_map env
           (fun e => match e with
                     | (_, _, ba, cs, csu, _, _, _) => (cs, csu, ba)
                     end)).
  apply stable_env_parse_loop.
Qed.

Lemma stable_ring_state_spi_read_mem a n : stable ring_state (spi_read_mem a n).
Proof. unfold spi_read_mem, transfer. cbv zeta. stable_tac. Qed.
#[export] Hint Resolve stable_ring_state_parse_loop
  stable_ring_state_spi_read_mem : stable.

Lemma u8_bounds x : 0 <= u8 x <= 255.
Proof.
  rewrite u8_mod. pose proof (Z.mod_pos_bound x 256 ltac:(lia)). lia.
Qed.

Lemma cs_get_bounds i cs : 0 <= cs_get i cs <= 255.
Proof. unfold cs_get. apply u8_bounds. Qed.

Lemma ring_empty head tail :
  0 <= head <= 255 -> 0 <= tail <= 255 ->
  (Z.land (tail - head) 255 =? 0) = (head =? tail).
Proof.
  intros Hh Ht. rewrite land_255.
  destruct (head =? tail) eqn:E.
  - apply Z.eqb_eq in E. subst. rewrite Z.sub_diag. reflexivity.
  - apply Z.eqb_neq in E. apply Z.eqb_neq. intros H.
    apply Z.mod_divide in H; [| lia]. destruct H as [q Hq].
    assert (q = 0) by lia. lia.
Qed.

Lemma cs_get_set_head v cs :
  cs_get A2R_HEAD_OFFSET (cs_set A2R_HEAD_OFFSET v cs) = u8 v.
Proof. change (u8 (u8 v) = u8 v). apply u8_u8. Qed.

(** X19.  [receive_from_a2r] takes everything the Amiga has put into the
    A2R ring.  With the ring empty it does nothing and says so.  Otherwise,
    when it returns, the head of the ring is where the tail is, the event
    A_EVENT_A2R_HEAD is noted for the Amiga, and tail, the pointers of the R2A
    ring and the base address are as they were. *)
Theorem receive_from_a2r_empties_ring w b w' :
  receive_from_a2r w = Ret b w' ->
  let head := cs_get A2R_HEAD_OFFSET (channel_status w) in
  let tail := cs_get A2R_TAIL_OFFSET (channel_status w) in
  (head = tail -> b = false /\ w' = w) /\
  (head <> tail ->
   b = true /\
   channel_status w' = cs_set A2R_HEAD_OFFSET tail (channel_status w) /\
   cs_get A2R_HEAD_OFFSET (channel_status w') = tail /\
   channel_status_updated w' =
     u8 (Z.lor (channel_status_updated w) A_EVENT_A2R_HEAD) /\
   base_address w' = base_address w).
Proof.
  intros H head tail.
  pose proof (cs_get_bounds A2R_HEAD_OFFSET (channel_status w)) as Hh.
  pose proof (cs_get_bounds A2R_TAIL_OFFSET (channel_status w)) as Ht.
  fold head in Hh. fold tail in Ht.
  unfold receive_from_a2r in H.
  apply bind_inv in H. destruct H as (cs & w0 & H0 & H).
  apply gets_inv in H0. destruct H0 as [-> ->]. cbv zeta in H.
  fold head tail in H. rewrite (ring_empty head tail Hh Ht) in H.
  split.
  - intros E. apply Z.eqb_eq in E. rewrite E in H. inversion H. auto.
  - intros E. apply Z.eqb_neq in E. rewrite E in H.
    apply bind_inv in H. destruct H as (base & w0 & H0 & H).
    apply gets_inv in H0. destruct H0 as [-> ->].
    apply bind_inv in H. destruct H as (u & w1 & H1 & H).
    assert (S1 : ring_state w1 = ring_state w).
    { destruct (head <? tail).
      - apply bind_inv in H1. destruct H1 as (rx & wa & Ha & H1).
        apply modify_inv in H1. subst w1.
        exact (stable_ring_state_spi_read_mem _ _ _ _ _ Ha).
      - apply bind_inv in H1. destruct H1 as (rx & wa & Ha & H1).
        apply bind_inv in H1. destruct H1 as (ub & wb & Hb & H1).
        apply modify_inv in Hb.
        pose proof (stable_ring_state_spi_read_mem _ _ _ _ _ Ha) as Sa.
        destruct (negb (tail =? 0)).
        + apply bind_inv in H1. destruct H1 as (rx2 & wc & Hc & H1).
          apply modify_inv in H1. subst w1.
          pose proof (stable_ring_state_spi_read_mem _ _ _ _ _ Hc) as Sc.
          subst wb. unfold ring_state in *. proj. congruence.
        + inversion H1; subst. exact Sa. }
    clear H1.
    apply bind_inv in H. destruct H as (u2 & w2 & H2 & H).
    pose proof (stable_ring_state_parse_loop _ _ _ _ _ _ H2) as S2.
    apply bind_inv in H. destruct H as (u3 & w3 & H3 & H).
    apply modify_inv in H3.
    apply bind_inv in H. destruct H as (u4 & w4 & H4 & H).
    apply modify_inv in H4. inversion H; subst b w'. clear H.
    unfold ring_state in S1, S2.
    assert (Hcs : channel_status w2 = channel_status w) by congruence.
    assert (Hcsu : channel_status_updated w2 = channel_status_updated w) by congruence.
    assert (Hba : base_address w2 = base_address w) by congruence.
    subst w4 w3. proj. rewrite Hcs, Hcsu, Hba. fold tail.
    repeat split; try reflexivity.
    rewrite cs_get_set_head. unfold tail, cs_get. apply u8_u8.
Qed.

(** The ring holds one packet of four bytes: CONNECT to the service "x" on
    channel 9; the head index is 0 and the tail index is 4. *)
Definition world_ring_four : World :=
  set_script [ok_data ([0; 0; 0; 0] ++ [1; PKT_CONNECT; 9; 120])]
    (set_channel_status (mkChannelStatus 4 3 0 0) (initial_world [] [])).

Lemma receive_from_a2r_empties_ring_witness :
  receive_from_a2r world_ring_four =
    Ret true (after receive_from_a2r world_ring_four) /\
  cs_get A2R_HEAD_OFFSET
    (channel_status (after receive_from_a2r world_ring_four)) = 4.
Proof.
  assert (E : receive_from_a2r world_ring_four =
              Ret true (after receive_from_a2r world_ring_four))
    by (vm_compute; reflexivity).
  split; [exact E |].
  pose proof (receive_from_a2r_empties_ring _ _ _ E) as [_ H].
  cbv zeta in H.
  destruct H as (_ & _ & H & _); [vm_compute; discriminate | exact H].
Defined.


(** * The ids of the channels, again *)

Lemma find_channel_in c l :
  NoDup (map channel_id l) -> In c l -> find_channel (channel_id c) l = Some c.
Proof.
  unfold find_channel. induction l as [| x l IH]; simpl; intros Hnd Hin; [contradiction |].
  inversion Hnd as [| ? ? Hx Hl]; subst.
  destruct Hin as [-> | Hin].
  - rewrite Z.eqb_refl. reflexivity.
  - destruct (channel_id x =? channel_id c) eqn:E.
    + apply Z.eqb_eq in E. exfalso. apply Hx. rewrite E.
      apply in_map. exact Hin.
    + apply IH; assumption.
Qed.

(** X20.  In every world the daemon can reach no two logical channels have
    the same channel id, so that looking a channel up by its id finds the
    very record: [handle_pkt_connect] makes a channel only for an id no
    channel has, and nothing else adds to [channels] or changes an id. *)
Theorem channel_ids_unique w :
  reachable w ->
  NoDup (map channel_id (channels w)) /\
  (forall c, In c (channels w) ->
     find_channel (channel_id c) (channels w) = Some c) /\
  (forall c c', In c (channels w) -> In c' (channels w) ->
     channel_id c = channel_id c' -> c = c').
Proof.
  intros Hr. pose proof (reachable_channel_ids_ok w Hr) as Hnd.
  unfold channel_ids_ok in Hnd.
  split; [exact Hnd |]. split.
  - intros c Hc. apply find_channel_in; assumption.
  - intros c c' Hc Hc' E.
    pose proof (find_channel_in c _ Hnd Hc) as F.
    pose proof (find_channel_in c' _ Hnd Hc') as F'.
    rewrite E in F. congruence.
Qed.

Lemma channel_ids_unique_witness :
  map channel_id (channels world_serving) = [9] /\
  NoDup (map channel_id (channels world_serving)) /\
  (forall c, In c (channels world_serving) ->
     find_channel (channel_id c) (channels world_serving) = Some c) /\
  (forall c c', In c (channels world_serving) ->
     In c' (channels world_serving) ->
     channel_id c = channel_id c' -> c = c').
Proof.
  split; [vm_compute; reflexivity |].
  exact (channel_ids_unique world_serving world_serving_reachable).
Defined.


(** * What a client socket has to read *)

(** The number of bytes [handle_client_connection_event] asks [read] for:
    the rest of the header, or the rest of the payload. *)
Definition wanted (k : ClientConnection) : Z :=
  match payload k with
  | [] => sizeof_MessageHeader - bytes_read k
  | _ :: _ => to_int (mh_length (header k) - bytes_read k)
  end.

Lemma read_loop_failed_read fuel cc w k r scr :
  find_connection cc (connections w) = Some k ->
  script w = r :: scr -> sr_ret r = -1 ->
  read_loop (S fuel) cc w =
  (if (sr_errno r =? EAGAIN) || (sr_errno r =? EWOULDBLOCK) then ret false
   else exit (-1))
    (written (c_read cc (wanted k)) scr w).
Proof.
  intros Hk Hs Hr. cbn [read_loop]. cbv zeta.
  erewrite bind_ret_eq by (apply deref_cc_eq; exact Hk).
  rewrite (find_connection_fd _ _ _ Hk).
  erewrite bind_ret_eq by (apply sys_eq; exact Hs).
  rewrite Hr. reflexivity.
Qed.

Lemma read_loop_end_of_file fuel cc w k r scr :
  find_connection cc (connections w) = Some k ->
  script w = r :: scr -> sr_ret r = 0 ->
  read_loop (S fuel) cc w =
  (close_and_remove_connection cc;; ret true)
    (written (c_read cc (wanted k)) scr w).
Proof.
  intros Hk Hs Hr. cbn [read_loop]. cbv zeta.
  erewrite bind_ret_eq by (apply deref_cc_eq; exact Hk).
  rewrite (find_connection_fd _ _ _ Hk).
  erewrite bind_ret_eq by (apply sys_eq; exact Hs).
  rewrite Hr. reflexivity.
Qed.

(** X21.  The ways [handle_client_connection_event] gives a client up or
    leaves it alone when there is nothing to read.
    - With EPOLLERR among the events the connection is closed and removed
      without a read or a write: the socket is shut down and closed, the
      services of the client leave the registry, and every channel associated
      with the client is dissociated and left with a single PKT_RESET.
    - With EPOLLIN, a [read] that returns 0 (end of file) does the same after
      that one read, and the handler returns without writing, whether
      EPOLLOUT is among the events or not.
    - A [read] that fails with EAGAIN changes nothing; the handler goes on
      to the messages to write if EPOLLOUT is among the events.
    - A [read] that fails with another errno ends the process with
      exit(-1). *)
Theorem client_read_edges :
  (forall cc events w k,
     Z.land events EPOLLERR <> 0 ->
     find_connection cc (connections w) = Some k ->
     NoDup (map fd (connections w)) ->
     resettable (associations k) w ->
     exists w',
       handle_client_connection_event cc events w = Ret tt w' /\
       find_connection cc (connections w') = None /\
       services w' = filter (fun s => negb (srv_cc s =? cc)) (services w) /\
       syscalls (trace w') =
         syscalls (trace w) ++ [c_shutdown cc SHUT_WR; c_close cc] /\
       script w' = script w /\
       (forall ch c, In ch (associations k) ->
          find_channel ch (channels w) = Some c ->
          find_channel ch (channels w') = Some (channel_reset c) /\
          In ch (send_queue w'))) /\
  (forall cc events w k r scr,
     Z.land events EPOLLERR = 0 -> Z.land events EPOLLIN <> 0 ->
     find_connection cc (connections w) = Some k ->
     script w = r :: scr -> sr_ret r = 0 ->
     NoDup (map fd (connections w)) ->
     resettable (associations k) w ->
     exists w',
       handle_client_connection_event cc events w = Ret tt w' /\
       find_connection cc (connections w') = None /\
       services w' = filter (fun s => negb (srv_cc s =? cc)) (services w) /\
       syscalls (trace w') =
         syscalls (trace w) ++
         [c_read cc (wanted k); c_shutdown cc SHUT_WR; c_close cc] /\
       script w' = scr /\
       (forall ch c, In ch (associations k) ->
          find_channel ch (channels w) = Some c ->
          find_channel ch (channels w') = Some (channel_reset c) /\
          In ch (send_queue w'))) /\
  (forall cc events w k r scr,
     Z.land events EPOLLERR = 0 -> Z.land events EPOLLIN <> 0 ->
     find_connection cc (connections w) = Some k ->
     script w = r :: scr -> sr_ret r = -1 ->
     sr_errno r = EAGAIN \/ sr_errno r = EWOULDBLOCK ->
     handle_client_connection_event cc events w =
     (if negb (Z.land events EPOLLOUT =? 0)
      then fueled script_length (fun fuel => drain_loop fuel cc)
      else ret tt)
       (written (c_read cc (wanted k)) scr w)) /\
  (forall cc events w k r scr,
     Z.land events EPOLLERR = 0 -> Z.land events EPOLLIN <> 0 ->
     find_connection cc (connections w) = Some k ->
     script w = r :: scr -> sr_ret r = -1 ->
     sr_errno r <> EAGAIN -> sr_errno r <> EWOULDBLOCK ->
     handle_client_connection_event cc events w =
     Exit (-1) (written (c_read cc (wanted k)) scr w)).
Proof.
  repeat match goal with |- _ /\ _ => split end.
  - intros cc events w k He Hk Hnd Hres. unfold handle_client_connection_event.
    apply Z.eqb_neq in He. rewrite He. cbn [negb].
    destruct (close_and_remove_connection_spec cc w k Hk Hnd Hres)
      as (w' & E & N & _ & S & T & R & P & _).
    exists w'. repeat split; try assumption; apply (P ch c); assumption.
  - intros cc events w k r scr He Hi Hk Hs Hr Hnd Hres.
    unfold handle_client_connection_event.
    rewrite He. apply Z.eqb_neq in Hi. rewrite Hi. cbn [Z.eqb negb].
    unfold fueled, script_length. unfold bind at 1.
    rewrite (read_loop_end_of_file _ cc w k r scr Hk Hs Hr).
    set (w1 := written _ scr w).
    destruct (close_and_remove_connection_spec cc w1 k Hk Hnd Hres)
      as (w' & E & N & _ & S & T & R & P & _).
    unfold bind at 1. rewrite E.
    exists w'. split; [reflexivity |]. split; [exact N |]. split; [exact S |].
    split; [| split; [exact R | exact P]].
    rewrite T. unfold w1, written. proj. rewrite syscalls_app, <- app_assoc.
    reflexivity.
  - intros cc events w k r scr He Hi Hk Hs Hr Herr.
    unfold handle_client_connection_event.
    rewrite He. apply Z.eqb_neq in Hi. rewrite Hi. cbn [Z.eqb negb].
    unfold fueled at 1, script_length at 1. unfold bind at 1.
    rewrite (read_loop_failed_read _ cc w k r scr Hk Hs Hr).
    assert (Hb : (sr_errno r =? EAGAIN) || (sr_errno r =? EWOULDBLOCK) = true).
    { destruct Herr as [-> | ->]; reflexivity. }
    rewrite Hb. reflexivity.
  - intros cc events w k r scr He Hi Hk Hs Hr H1 H2.
    unfold handle_client_connection_event.
    rewrite He. apply Z.eqb_neq in Hi. rewrite Hi. cbn [Z.eqb negb].
    unfold fueled at 1, script_length at 1. unfold bind at 1.
    rewrite (read_loop_failed_read _ cc w k r scr Hk Hs Hr).
    apply Z.eqb_neq in H1, H2. rewrite H1, H2. reflexivity.
Qed.

(** The client on descriptor 5 owns the service "x" and the stream 1 on
    channel 7, a MSG_EOS waits in its message queue, and the peer has closed
    the connection: the next read returns 0. *)
Definition world_end_of_file : World :=
  set_services [mkRegisteredService [120] 5]
    (set_connections [client_message_waiting]
       (set_channels [channel_of_client]
          (initial_world [] [ok 0]))).

Lemma client_read_edges_witness :
  (exists w',
     handle_client_connection_event 5 (Z.lor EPOLLIN EPOLLOUT) world_end_of_file
       = Ret tt w' /\
     find_connection 5 (connections w') = None /\
     services w' = [] /\
     syscalls (trace w') = [c_read 5 9; c_shutdown 5 SHUT_WR; c_close 5] /\
     find_channel 7 (channels w') =
       Some (mkLogicalChannel 7 None 0 false false [mkPacketBuffer PKT_RESET []]) /\
     In 7 (send_queue w')) /\
  handle_client_connection_event 5 EPOLLIN
    (set_script [err ECONNRESET] world_end_of_file) =
  Exit (-1) (written (c_read 5 9) [] (set_script [err ECONNRESET] world_end_of_file)).
Proof.
  assert (Hnd : NoDup (map fd (connections world_end_of_file))).
  { repeat constructor. intros []. }
  assert (Hres : resettable (associations client_message_waiting) world_end_of_file).
  { intros ch [<- | []]. exists channel_of_client.
    split; [reflexivity |]. intros H. exfalso. apply H. reflexivity. }
  split.
  - destruct (proj1 (proj2 client_read_edges) 5 (Z.lor EPOLLIN EPOLLOUT)
                world_end_of_file client_message_waiting (ok 0) []
                eq_refl ltac:(discriminate) eq_refl eq_refl eq_refl Hnd Hres)
      as (w' & E & N & S & T & _ & P).
    exists w'. split; [exact E |]. split; [exact N |]. split; [exact S |].
    split; [exact T |].
    exact (P 7 channel_of_client (or_introl eq_refl) eq_refl).
  - apply (proj2 (proj2 (proj2 client_read_edges)) 5 EPOLLIN
             (set_script [err ECONNRESET] world_end_of_file)
             client_message_waiting (err ECONNRESET) []);
      try reflexivity; discriminate.
Defined.


(** * Messages from a client socket *)

(** One turn of the read loop whose [read] returns bytes. *)
Lemma read_loop_read fuel cc w k r scr :
  find_connection cc (connections w) = Some k ->
  script w = r :: scr ->
  1 <= sr_ret r <= wanted k -> zlen (sr_data r) = sr_ret r ->
  read_loop (S fuel) cc w =
  (update_cc cc (fun k =>
     set_bytes_read (bytes_read k + sr_ret r)
       match payload k with
       | [] => set_header (write_header_bytes (bytes_read k) (map u8 (sr_data r))
                             (header k)) k
       | _ :: _ => set_payload (splice (bytes_read k) (map u8 (sr_data r))
                                  (payload k)) k
       end);;
   (if wanted k - sr_ret r =? 0 then
      (match payload k with
       | [] =>
         k' <- deref_cc cc;;
         if mh_length (header k') =? 0 then handle_received_message cc
         else update_cc cc (set_payload (zeros (mh_length (header k'))))
       | _ :: _ =>
         handle_received_message cc;;
         update_cc cc (set_payload [])
       end);;
      update_cc cc (set_bytes_read 0)
    else ret tt);;
   read_loop fuel cc)
    (written (c_read cc (wanted k)) scr w).
Proof.
  intros Hk Hs Hr Hn. unfold wanted. cbn [read_loop]. cbv zeta.
  erewrite bind_ret_eq by (apply deref_cc_eq; exact Hk).
  rewrite (find_connection_fd _ _ _ Hk).
  erewrite bind_ret_eq by (apply sys_eq; exact Hs).
  unfold wanted in Hr.
  assert (H1 : (sr_ret r =? -1) = false) by (apply Z.eqb_neq; lia).
  assert (H2 : (sr_ret r =? 0) = false) by (apply Z.eqb_neq; lia).
  rewrite H1, H2.
  assert (H3 : (1 <=? sr_ret r) = true) by (apply Z.leb_le; lia).
  rewrite H3. cbn [andb].
  match goal with
  | |- context [sr_ret r <=? ?x] =>
    assert (H4 : (sr_ret r <=? x) = true) by (apply Z.leb_le; lia); rewrite H4
  end.
  assert (H5 : (zlen (sr_data r) =? sr_ret r) = true) by (apply Z.eqb_eq; exact Hn).
  rewrite H5. cbn [andb]. reflexivity.
Qed.

Lemma zeros_cons n : 0 < n -> zeros n = 0 :: zeros (n - 1).
Proof.
  intros H. unfold zeros. replace (Z.to_nat n) with (S (Z.to_nat (n - 1))) by lia.
  reflexivity.
Qed.

Lemma zlen_zeros n : 0 <= n -> zlen (zeros n) = n.
Proof. intros H. unfold zlen, zeros. rewrite repeat_length. lia. Qed.

Lemma to_int_small x : 0 <= x < 2147483648 -> to_int x = x.
Proof.
  intros H. unfold to_int, u32. cbv zeta.
  change 4294967295 with (Z.ones 32). rewrite Z.land_ones by lia.
  rewrite Z.mod_small by lia.
  destruct (x <? 2147483648) eqn:E; [reflexivity |].
  apply Z.ltb_ge in E. lia.
Qed.

(** What a turn of the read loop leaves alone: the other clients, the
    registry, the channels and the send queue. *)
Definition only_client (cc : Z) (w w' : World) : Prop :=
  (forall x, x <> cc ->
     find_connection x (connections w') = find_connection x (connections w)) /\
  services w' = services w /\ channels w' = channels w /\
  send_queue w' = send_queue w.

Lemma only_client_trans cc w1 w2 w3 :
  only_client cc w1 w2 -> only_client cc w2 w3 -> only_client cc w1 w3.
Proof.
  intros (A1 & A2 & A3 & A4) (B1 & B2 & B3 & B4). unfold only_client.
  repeat split; try congruence.
  intros x Hx. rewrite B1, A1 by exact Hx. reflexivity.
Qed.

Lemma only_client_read cc f c scr w :
  (forall k, fd (f k) = fd k) ->
  only_client cc w
    (set_connections
       (update_connection cc f (connections (written c scr w)))
       (written c scr w)).
Proof.
  intros Hf. unfold only_client, written. proj. repeat split.
  intros x Hx. apply find_connection_update_other; assumption.
Qed.

Lemma only_client_update cc f w :
  (forall k, fd (f k) = fd k) ->
  only_client cc w (set_connections (update_connection cc f (connections w)) w).
Proof.
  intros Hf. unfold only_client. proj. repeat split.
  intros x Hx. apply find_connection_update_other; assumption.
Qed.

Lemma read_loop_header_only fuel cc w k r scr :
  find_connection cc (connections w) = Some k ->
  payload k = [] -> bytes_read k = 0 ->
  script w = r :: scr ->
  sr_ret r = sizeof_MessageHeader -> zlen (sr_data r) = sizeof_MessageHeader ->
  let h := write_header_bytes 0 (map u8 (sr_data r)) (header k) in
  exists w1,
    read_loop (S fuel) cc w =
      (((k' <- deref_cc cc;;
         if mh_length (header k') =? 0 then handle_received_message cc
         else update_cc cc (set_payload (zeros (mh_length (header k')))));;
        update_cc cc (set_bytes_read 0));;
       read_loop fuel cc) w1 /\
    find_connection cc (connections w1) =
      Some (set_bytes_read sizeof_MessageHeader (set_header h k)) /\
    only_client cc w w1 /\
    trace w1 = trace w ++ [ev_sys (c_read cc sizeof_MessageHeader)] /\
    script w1 = scr.
Proof.
  intros Hk Hp Hb Hs Hr Hn h.
  assert (Hw : wanted k = sizeof_MessageHeader).
  { unfold wanted. rewrite Hp, Hb. apply Z.sub_0_r. }
  rewrite (read_loop_read fuel cc w k r scr Hk Hs)
    by (rewrite ?Hw, ?Hr, ?Hn; unfold sizeof_MessageHeader; lia).
  rewrite Hw, Hr, Z.sub_diag, Hp. cbn [Z.eqb].
  erewrite bind_ret_eq by reflexivity.
  eexists. split; [reflexivity |]. split; [| split; [| split]].
  - proj. unfold written. proj.
    erewrite find_connection_update_same; [| | exact Hk].
    + rewrite Hp, Hb. reflexivity.
    + intros x. destruct (payload x); reflexivity.
  - apply only_client_read. intros x. destruct (payload x); reflexivity.
  - reflexivity.
  - reflexivity.
Qed.

(** X22.  How the read loop of [handle_client_connection_event] puts a
    message together, for a client at the start of a message.  [h] is the
    header that a read of nine bytes leaves in the connection.
    - If the length in [h] is 0 the handler of the message runs at once, with
      [h] as the header and no payload; then [bytes_read] is reset and the
      loop reads on.
    - If the length is positive (and below 2 GiB) the payload is sized to it
      and the next read asks for that many bytes; when they come in one read
      the handler runs with [h] as the header and these bytes as the payload;
      then the payload is cleared, [bytes_read] is reset and the loop reads
      on.
    Up to the call of the handler nothing changes but the record of the
    client: the other clients, the registry, the channels and the send queue
    are as they were. *)
Theorem read_loop_delivers_message :
  (forall fuel cc w k r scr,
     find_connection cc (connections w) = Some k ->
     payload k = [] -> bytes_read k = 0 ->
     script w = r :: scr ->
     sr_ret r = sizeof_MessageHeader -> zlen (sr_data r) = sizeof_MessageHeader ->
     let h := write_header_bytes 0 (map u8 (sr_data r)) (header k) in
     mh_length h = 0 ->
     exists w1,
       read_loop (S fuel) cc w =
         ((handle_received_message cc;;
           update_cc cc (set_bytes_read 0));;
          read_loop fuel cc) w1 /\
       find_connection cc (connections w1) =
         Some (mkClientConnection (fd k) (next_stream_id k) sizeof_MessageHeader h []
                 (message_queue k) (associations k)) /\
       only_client cc w w1 /\
       trace w1 = trace w ++ [ev_sys (c_read cc sizeof_MessageHeader)] /\
       script w1 = scr) /\
  (forall fuel cc w k r1 r2 scr,
     find_connection cc (connections w) = Some k ->
     payload k = [] -> bytes_read k = 0 ->
     script w = r1 :: r2 :: scr ->
     sr_ret r1 = sizeof_MessageHeader -> zlen (sr_data r1) = sizeof_MessageHeader ->
     let h := write_header_bytes 0 (map u8 (sr_data r1)) (header k) in
     0 < mh_length h < 2147483648 ->
     sr_ret r2 = mh_length h -> zlen (sr_data r2) = mh_length h ->
     exists w2,
       read_loop (S (S fuel)) cc w =
         (((handle_received_message cc;;
            update_cc cc (set_payload []));;
           update_cc cc (set_bytes_read 0));;
          read_loop fuel cc) w2 /\
       find_connection cc (connections w2) =
         Some (mkClientConnection (fd k) (next_stream_id k) (mh_length h) h
                 (map u8 (sr_data r2)) (message_queue k) (associations k)) /\
       only_client cc w w2 /\
       trace w2 = trace w ++ [ev_sys (c_read cc sizeof_MessageHeader);
                              ev_sys (c_read cc (mh_length h))] /\
       script w2 = scr).
Proof.
  split.
  - intros fuel cc w k r scr Hk Hp Hb Hs Hr Hn h Hlen.
    destruct (read_loop_header_only fuel cc w k r scr Hk Hp Hb Hs Hr Hn)
      as (w1 & E & F & O & T & S).
    fold h in F. exists w1. split; [| split; [| auto]].
    + rewrite E. unfold bind. rewrite (deref_cc_eq _ _ _ F).
      cbn [header set_bytes_read set_header]. rewrite Hlen. reflexivity.
    + rewrite F. unfold set_bytes_read, set_header.
      cbn [fd next_stream_id bytes_read header payload message_queue associations].
      rewrite Hp. reflexivity.
  - intros fuel cc w k r1 r2 scr Hk Hp Hb Hs Hr Hn h Hlen Hr2 Hn2.
    destruct (read_loop_header_only (S fuel) cc w k r1 (r2 :: scr) Hk Hp Hb Hs Hr Hn)
      as (w1 & E & F & O & T & S).
    fold h in F. rewrite E.
    set (k1 := set_bytes_read sizeof_MessageHeader (set_header h k)) in *.
    set (k2 := set_bytes_read 0 (set_payload (zeros (mh_length h)) k1)).
    set (w1' := set_connections
                  (update_connection cc (set_bytes_read 0)
                     (update_connection cc (set_payload (zeros (mh_length h)))
                        (connections w1))) w1).
    assert (E1 : ((k' <- deref_cc cc;;
                   (if mh_length (header k') =? 0 then handle_received_message cc
                    else update_cc cc (set_payload (zeros (mh_length (header k'))))));;
                  update_cc cc (set_bytes_read 0)) w1 = Ret tt w1').
    { unfold bind. rewrite (deref_cc_eq _ _ _ F).
      change (mh_length (header k1)) with (mh_length h).
      assert (Hz : (mh_length h =? 0) = false) by (apply Z.eqb_neq; lia).
      rewrite Hz. reflexivity. }
    erewrite bind_ret_eq by exact E1.
    assert (F2 : find_connection cc (connections w1') = Some k2).
    { unfold w1'. proj.
      erewrite find_connection_update_same; [reflexivity | reflexivity |].
      erewrite find_connection_update_same; [reflexivity | reflexivity | exact F]. }
    assert (S2 : script w1' = r2 :: scr) by exact S.
    assert (T2 : trace w1' = trace w1) by reflexivity.
    assert (O2 : only_client cc w1 w1').
    { unfold w1'.
      apply (only_client_trans cc w1
               (set_connections
                  (update_connection cc (set_payload (zeros (mh_length h)))
                     (connections w1)) w1)).
      - apply only_client_update. reflexivity.
      - exact (only_client_update cc (set_bytes_read 0)
                 (set_connections
                    (update_connection cc (set_payload (zeros (mh_length h)))
                       (connections w1)) w1)
                 (fun _ => eq_refl)). }
    clearbody w1'.
    assert (Hpay : payload k2 = 0 :: zeros (mh_length h - 1)).
    { change (payload k2) with (zeros (mh_length h)). apply zeros_cons. lia. }
    assert (Hw : wanted k2 = mh_length h).
    { unfold wanted. rewrite Hpay.
      change (header k2) with h. change (bytes_read k2) with 0.
      rewrite Z.sub_0_r. apply to_int_small. lia. }
    assert (Hrec : set_bytes_read (bytes_read k2 + mh_length h)
                     (set_payload (splice (bytes_read k2) (map u8 (sr_data r2))
                                     (payload k2)) k2) =
                   mkClientConnection (fd k) (next_stream_id k) (mh_length h) h
                     (map u8 (sr_data r2)) (message_queue k) (associations k)).
    { change (payload k2) with (zeros (mh_length h)).
      change (bytes_read k2) with 0.
      rewrite Z.add_0_l, splice_whole
        by (rewrite zlen_map, zlen_zeros by lia; exact Hn2).
      reflexivity. }
    rewrite (read_loop_read fuel cc w1' k2 r2 scr F2 S2)
      by (rewrite ?Hw, ?Hr2, ?Hn2; lia).
    rewrite Hw, Hr2, Z.sub_diag, Hpay. cbn [Z.eqb].
    erewrite bind_ret_eq by reflexivity.
    eexists. split; [reflexivity |]. split; [| split; [| split]].
    + unfold written. cbn [connections set_connections set_trace set_script].
      erewrite find_connection_update_same; [| | exact F2].
      * cbv beta. destruct (payload k2) eqn:Ep; [discriminate Hpay |].
        rewrite Hrec. reflexivity.
      * intros x. destruct (payload x); reflexivity.
    + apply (only_client_trans cc w w1 _ O).
      apply (only_client_trans cc w1 w1' _ O2).
      apply only_client_read. intros x. destruct (payload x); reflexivity.
    + unfold written. cbn [trace set_connections set_trace set_script].
      rewrite T2, T, <- app_assoc. reflexivity.
    + reflexivity.
Qed.

(** A fresh client on descriptor 5 sends a MSG_DATA for stream 1 with the
    two bytes 7 and 8: nine bytes of header, then the payload. *)
Definition world_message_coming : World :=
  set_connections [new_connection 5]
    (initial_world []
       [mkSysRes 9 0 [2; 0; 0; 0; 1; 0; 0; 0; MSG_DATA]; mkSysRes 2 0 [7; 8]]).

Lemma read_loop_delivers_message_witness :
  (exists w2,
     read_loop 2 5 world_message_coming =
       (((handle_received_message 5;;
          update_cc 5 (set_payload []));;
         update_cc 5 (set_bytes_read 0));;
        read_loop 0 5) w2 /\
     find_connection 5 (connections w2) =
       Some (mkClientConnection 5 1 2 (mkMessageHeader 2 1 MSG_DATA) [7; 8] [] [])) /\
  (exists w1,
     read_loop 1 5
       (set_script [mkSysRes 9 0 [0; 0; 0; 0; 1; 0; 0; 0; MSG_EOS]]
          world_message_coming) =
       ((handle_received_message 5;;
         update_cc 5 (set_bytes_read 0));;
        read_loop 0 5) w1 /\
     find_connection 5 (connections w1) =
       Some (mkClientConnection 5 1 9 (mkMessageHeader 0 1 MSG_EOS) [] [] [])).
Proof.
  split.
  - destruct (proj2 read_loop_delivers_message 0%nat 5 world_message_coming
                (new_connection 5)
                (mkSysRes 9 0 [2; 0; 0; 0; 1; 0; 0; 0; MSG_DATA])
                (mkSysRes 2 0 [7; 8]) []
                eq_refl eq_refl eq_refl eq_refl eq_refl eq_refl
                ltac:(vm_compute; split; reflexivity) eq_refl eq_refl)
      as (w2 & E & F & _).
    exists w2. split; [exact E | exact F].
  - destruct (proj1 read_loop_delivers_message 0%nat 5
                (set_script [mkSysRes 9 0 [0; 0; 0; 0; 1; 0; 0; 0; MSG_EOS]]
                   world_message_coming)
                (new_connection 5)
                (mkSysRes 9 0 [0; 0; 0; 0; 1; 0; 0; 0; MSG_EOS]) []
                eq_refl eq_refl eq_refl eq_refl eq_refl eq_refl eq_refl)
      as (w1 & E & F & _).
    exists w1. split; [exact E | exact F].
Defined.


(** * Streams in the long run *)

(** The part of the world the streams of the clients are about. *)
Definition sight (w : World) := (connections w, channels w, trace w).

(** A change of a client's record that leaves alone its descriptor and its
    next stream id. *)
Definition mild (f : ClientConnection -> ClientConnection) : Prop :=
  forall k, fd (f k) = fd k /\ next_stream_id (f k) = next_stream_id k.

(** And that leaves alone its channels. *)
Definition meek (f : ClientConnection -> ClientConnection) : Prop :=
  forall k, fd (f k) = fd k /\ next_stream_id (f k) = next_stream_id k /\
            associations (f k) = associations k.

Lemma meek_mild f : meek f -> mild f.
Proof. intros H k. destruct (H k) as (H1 & H2 & _). split; assumption. Qed.

(** A change of a channel's record that takes the client away, or leaves
    alone the client, the stream id and a [got_eos_from_ami] that is set. *)
Definition gentle (f : LogicalChannel -> LogicalChannel) : Prop :=
  forall c, channel_id (f c) = channel_id c /\
            (association (f c) = None \/
             (association (f c) = association c /\ stream_id (f c) = stream_id c /\
              (got_eos_from_ami c = true -> got_eos_from_ami (f c) = true))).

Lemma erase_channel_incl cid l c : In c (erase_channel cid l) -> In c l.
Proof.
  induction l as [| x l IH]; simpl; [tauto |].
  destruct (channel_id x =? cid); simpl; tauto.
Qed.

(** One step through code built from the monad's combinators, for a
    property of what [sight] shows. *)
Create HintDb passage.
#[export] Hint Resolve preserves_ret preserves_gets preserves_exit
  preserves_fault preserves_stuck : passage.

Ltac meek_tac :=
  let k := fresh "k" in
  intro k; try destruct (payload k); repeat split; reflexivity.

Ltac gentle_tac :=
  let c := fresh "c" in
  intro c; split; [reflexivity |];
  solve [ right; repeat split; auto | left; reflexivity ].

Ltac pass_step :=
  match goal with
  | |- preserves _ (bind _ _) => apply preserves_bind; [| intro]
  | |- preserves _ (when _ _) => apply preserves_when
  | |- preserves _ (fueled _ _) => apply preserves_fueled; intro
  | |- preserves _ (match ?x with _ => _ end) => destruct x
  | |- preserves _ _ => solve [auto with passage]
  end.
Ltac pass := repeat pass_step.

(** A property of the clients, the channels and the trace that their
    primitive operations preserve is preserved by every handler and by the
    main loop.  [ev_ok] are the events the property admits in the trace. *)
Section Passage.
Variable P : World -> Prop.
Variable ev_ok : Event -> Prop.
Hypothesis ev_ok_sys : forall c, ev_ok (ev_sys c).
Hypothesis ev_ok_erase : forall c, ev_ok (ev_erase c).
Hypothesis ev_ok_msg :
  forall cc ty sid body,
    ty <> MSG_DATA -> ty <> MSG_EOS -> ev_ok (ev_msg cc ty sid body).
Hypothesis P_sight : forall w w', sight w' = sight w -> P w -> P w'.
Hypothesis P_event : forall e, ev_ok e -> preserves P (log e).
Hypothesis P_update_cc : forall cc f, meek f -> preserves P (update_cc cc f).
Hypothesis P_update_ch : forall ch f, gentle f -> preserves P (update_ch ch f).
Hypothesis P_channels :
  forall l w, (forall c, In c l -> In c (channels w) \/ association c = None) ->
              P w -> P (set_channels l w).
Hypothesis P_add_connection : forall f, preserves P (add_connection f).
Hypothesis P_associate : forall ch cc, preserves P (associate ch cc).
Hypothesis P_remove_association : forall ch, preserves P (remove_association ch).
Hypothesis P_close_and_remove_connection :
  forall cc, preserves P (close_and_remove_connection cc).
Hypothesis P_handle_pkt_data :
  forall cid data plen, preserves P (handle_pkt_data cid data plen).
Hypothesis P_handle_pkt_eos : forall cid, preserves P (handle_pkt_eos cid).

Lemma pass_modify g : (forall w, sight (g w) = sight w) -> preserves P (modify g).
Proof. intros Hg w a w' H HP. run. eapply P_sight; [apply Hg | exact HP]. Qed.

Lemma pass_sys c : preserves P (sys c).
Proof.
  intros w r w' H HP. unfold sys in H.
  destruct (script w) as [| r0 rest]; [discriminate |]. inversion H; subst.
  apply (P_event (ev_sys c) (ev_ok_sys c) (set_script rest w) tt); [reflexivity |].
  eapply P_sight; [| exact HP]. reflexivity.
Qed.

Lemma pass_sys_ c : preserves P (sys_ c).
Proof. apply P_event, ev_ok_sys. Qed.

Lemma pass_log_erase c : preserves P (log (ev_erase c)).
Proof. apply P_event, ev_ok_erase. Qed.

Lemma pass_deref_cc cc : preserves P (deref_cc cc).
Proof. intros w a w' H HP. run. exact HP. Qed.

Lemma pass_deref_ch ch : preserves P (deref_ch ch).
Proof. intros w a w' H HP. run. exact HP. Qed.

Lemma pass_read_bytes data n : preserves P (read_bytes data n).
Proof. intros w a w' H HP. run. exact HP. Qed.

Lemma pass_resize_and_copy data n : preserves P (resize_and_copy data n).
Proof. intros w a w' H HP. run. exact HP. Qed.

#[local] Hint Resolve pass_sys pass_sys_ pass_log_erase pass_deref_cc
  pass_deref_ch pass_read_bytes pass_resize_and_copy P_add_connection
  P_associate P_remove_association P_close_and_remove_connection
  P_handle_pkt_data P_handle_pkt_eos : passage.
#[local] Hint Extern 1 (preserves _ (modify _)) =>
  solve [apply pass_modify; intro; reflexivity] : passage.
#[local] Hint Extern 1 (preserves _ (update_cc _ _)) =>
  solve [apply P_update_cc; meek_tac] : passage.
#[local] Hint Extern 1 (preserves _ (update_ch _ _)) =>
  solve [apply P_update_ch; gentle_tac] : passage.

Lemma pass_transfer tx len : preserves P (transfer tx len).
Proof. unfold transfer. pass. Qed.

Lemma pass_transfer_ tx len : preserves P (transfer_ tx len).
Proof. unfold transfer_. pass. Qed.
#[local] Hint Resolve pass_transfer pass_transfer_ : passage.

Lemma pass_spi_read_mem address len : preserves P (spi_read_mem address len).
Proof. unfold spi_read_mem. pass. Qed.

Lemma pass_spi_write_mem address buf len :
  preserves P (spi_write_mem address buf len).
Proof. unfold spi_write_mem. pass. Qed.

Lemma pass_spi_read_cmem address : preserves P (spi_read_cmem address).
Proof. unfold spi_read_cmem. pass. Qed.

Lemma pass_spi_write_cmem address data : preserves P (spi_write_cmem address data).
Proof. unfold spi_write_cmem. pass. Qed.
#[local] Hint Resolve pass_spi_read_mem pass_spi_write_mem pass_spi_read_cmem
  pass_spi_write_cmem : passage.

Lemma pass_init_server_socket : preserves P init_server_socket.
Proof. unfold init_server_socket. pass. Qed.

Lemma pass_open_write_close filename txt :
  preserves P (open_write_close filename txt).
Proof. unfold open_write_close. pass. Qed.

Lemma pass_set_direction_loop retries : preserves P (set_direction_loop retries).
Proof.
  induction retries as [| retries IH]; simpl; unfold sleep_10ms; pass.
Qed.
#[local] Hint Resolve pass_init_server_socket pass_open_write_close
  pass_set_direction_loop : passage.

Lemma pass_init_driver : preserves P init_driver.
Proof.
  unfold init_driver, init_sigterm, init_spi, init_gpio, set_direction. pass.
Qed.

Lemma pass_shutdown_server_socket : preserves P shutdown_server_socket.
Proof. unfold shutdown_server_socket. pass. Qed.

Lemma pass_push_message cc mb : preserves P (push_message cc mb).
Proof. unfold push_message. pass. Qed.
#[local] Hint Resolve pass_init_driver pass_shutdown_server_socket
  pass_push_message : passage.

Lemma pass_send_loop fuel : forall cc mb, preserves P (send_loop fuel cc mb).
Proof. induction fuel as [| fuel IH]; intros cc mb; simpl; pass. Qed.
#[local] Hint Resolve pass_send_loop : passage.

(** A message of any type, when the property admits its event. *)
Lemma pass_create_and_send_msg_event cc ty sid data len :
  (forall body, ev_ok (ev_msg cc (u8 ty) (u32 sid) body)) ->
  preserves P (create_and_send_msg cc ty sid data len).
Proof.
  intros Hev. unfold create_and_send_msg. pass.
Qed.

Lemma pass_create_and_send_msg cc ty sid data len :
  u8 ty <> MSG_DATA -> u8 ty <> MSG_EOS ->
  preserves P (create_and_send_msg cc ty sid data len).
Proof.
  intros Hty Hty'. apply pass_create_and_send_msg_event. intros body.
  apply ev_ok_msg; assumption.
Qed.

(** [handle_pkt_eos], when the property admits the event of a MSG_EOS. *)
Lemma pass_handle_pkt_eos_event cid :
  (forall cc sid body, ev_ok (ev_msg cc (u8 MSG_EOS) (u32 sid) body)) ->
  preserves P (handle_pkt_eos cid).
Proof.
  intros Hev. unfold handle_pkt_eos.
  apply preserves_bind; [apply preserves_gets | intro chs].
  destruct (find_channel cid chs) as [ch |]; [| apply preserves_ret].
  destruct (association ch) as [cc |]; [| apply preserves_ret].
  destruct (negb (got_eos_from_ami ch)); [| apply preserves_ret].
  apply preserves_bind; [apply P_update_ch; gentle_tac | intro].
  apply preserves_bind; [| intro; apply preserves_when, P_remove_association].
  apply pass_create_and_send_msg_event. intros body. apply Hev.
Qed.
#[local] Hint Extern 1 (preserves _ (create_and_send_msg _ _ _ _ _)) =>
  solve [apply pass_create_and_send_msg; vm_compute; discriminate] : passage.

Lemma pass_clear_packet_queue ch : preserves P (clear_packet_queue ch).
Proof. unfold clear_packet_queue. pass. Qed.

Lemma pass_create_and_enqueue_packet ch ty data len :
  preserves P (create_and_enqueue_packet ch ty data len).
Proof. unfold create_and_enqueue_packet. pass. Qed.
#[local] Hint Resolve pass_clear_packet_queue pass_create_and_enqueue_packet
  : passage.

Lemma pass_handle_msg_register_req cc : preserves P (handle_msg_register_req cc).
Proof. unfold handle_msg_register_req. pass. Qed.

Lemma pass_handle_msg_deregister_req cc :
  preserves P (handle_msg_deregister_req cc).
Proof. unfold handle_msg_deregister_req. pass. Qed.

Lemma pass_handle_msg_read_mem_req cc : preserves P (handle_msg_read_mem_req cc).
Proof. unfold handle_msg_read_mem_req. pass. Qed.

Lemma pass_handle_msg_write_mem_req cc : preserves P (handle_msg_write_mem_req cc).
Proof. unfold handle_msg_write_mem_req. pass. Qed.

Lemma pass_first_with_stream_id sid ass : preserves P (first_with_stream_id sid ass).
Proof. induction ass as [| ch rest IH]; simpl; pass. Qed.
#[local] Hint Resolve pass_first_with_stream_id : passage.

Lemma pass_get_associated_channel_by_stream_id cc sid :
  preserves P (get_associated_channel_by_stream_id cc sid).
Proof. unfold get_associated_channel_by_stream_id. pass. Qed.
#[local] Hint Resolve pass_get_associated_channel_by_stream_id : passage.

Lemma pass_handle_msg_connect cc : preserves P (handle_msg_connect cc).
Proof. unfold handle_msg_connect. pass. Qed.

Lemma pass_handle_msg_connect_response cc :
  preserves P (handle_msg_connect_response cc).
Proof. unfold handle_msg_connect_response. pass. Qed.

Lemma pass_handle_msg_data cc : preserves P (handle_msg_data cc).
Proof. unfold handle_msg_data. pass. Qed.

Lemma pass_handle_msg_eos cc : preserves P (handle_msg_eos cc).
Proof. unfold handle_msg_eos. pass. Qed.

Lemma pass_handle_msg_reset cc : preserves P (handle_msg_reset cc).
Proof. unfold handle_msg_reset. pass. Qed.
#[local] Hint Resolve pass_handle_msg_register_req
  pass_handle_msg_deregister_req pass_handle_msg_read_mem_req
  pass_handle_msg_write_mem_req pass_handle_msg_connect
  pass_handle_msg_connect_response pass_handle_msg_data pass_handle_msg_eos
  pass_handle_msg_reset : passage.

Lemma pass_handle_received_message cc : preserves P (handle_received_message cc).
Proof. unfold handle_received_message. pass. Qed.
#[local] Hint Resolve pass_handle_received_message : passage.

Lemma pass_start_on_demand od cid name data plen next :
  preserves P next -> preserves P (start_on_demand od cid name data plen next).
Proof. intros Hnext. unfold start_on_demand. pass. Qed.

Lemma pass_on_demand_loop ods cid name data plen :
  preserves P (on_demand_loop ods cid name data plen).
Proof.
  induction ods as [| od rest IH]; cbn [on_demand_loop]; [pass |].
  destruct (bytes_eqb (service_name od) name);
    [apply pass_start_on_demand |]; exact IH.
Qed.
#[local] Hint Resolve pass_on_demand_loop : passage.

Lemma pass_handle_pkt_connect cid data plen :
  preserves P (handle_pkt_connect cid data plen).
Proof.
  intros w a w' H HP. unfold handle_pkt_connect in H.
  apply bind_inv in H. destruct H as (chs & w0 & H0 & H).
  apply gets_inv in H0. destruct H0 as [-> ->].
  destruct (existsb _ (channels w)); [discriminate H |].
  apply bind_inv in H. destruct H as (u & w1 & H1 & H).
  apply modify_inv in H1. subst w1.
  revert H.
  match goal with
  | |- ?m ?w1 = Ret a w' -> _ =>
    assert (Q : preserves P m) by pass;
    intros H; apply (Q _ _ _ H)
  end.
  apply P_channels; [| exact HP].
  intros c Hc. apply in_app_or in Hc. destruct Hc as [Hc | [<- | []]];
    [left; exact Hc | right; reflexivity].
Qed.

Lemma pass_handle_pkt_reset cid : preserves P (handle_pkt_reset cid).
Proof. unfold handle_pkt_reset. pass. Qed.

Lemma pass_remove_channel cid :
  preserves P (remove_channel_if_not_associated_and_empty_pq cid).
Proof.
  intros w a w' H HP. unfold remove_channel_if_not_associated_and_empty_pq in H.
  run; try exact HP.
  apply P_channels.
  - intros c Hc. left. proj. eapply erase_channel_incl. exact Hc.
  - eapply (P_event (ev_erase _) (ev_ok_erase _) _ tt); [reflexivity | exact HP].
Qed.
#[local] Hint Resolve pass_handle_pkt_connect pass_handle_pkt_reset
  pass_remove_channel : passage.

Lemma pass_handle_received_pkt ptype cid data plen :
  preserves P (handle_received_pkt ptype cid data plen).
Proof. unfold handle_received_pkt. pass. Qed.
#[local] Hint Resolve pass_handle_received_pkt : passage.

Lemma pass_parse_loop fuel : forall p len, preserves P (parse_loop fuel p len).
Proof. induction fuel as [| fuel IH]; intros p len; simpl; pass. Qed.
#[local] Hint Resolve pass_parse_loop : passage.

Lemma pass_receive_from_a2r : preserves P receive_from_a2r.
Proof. unfold receive_from_a2r. pass. Qed.

Lemma pass_flush_loop fuel :
  forall left pos buf, preserves P (flush_loop fuel left pos buf).
Proof.
  induction fuel as [| fuel IH]; intros left pos buf; simpl; pass.
Qed.
#[local] Hint Resolve pass_flush_loop : passage.

Lemma pass_flush_send_queue : preserves P flush_send_queue.
Proof. unfold flush_send_queue. pass. Qed.

Lemma pass_read_nibbles addrs : forall ba, preserves P (read_nibbles addrs ba).
Proof. induction addrs as [| i rest IH]; intros ba; simpl; pass. Qed.
#[local] Hint Resolve pass_read_nibbles : passage.

Lemma pass_read_base_address : preserves P read_base_address.
Proof. unfold read_base_address. pass. Qed.

Lemma pass_read_channel_status : preserves P read_channel_status.
Proof. unfold read_channel_status. pass. Qed.

Lemma pass_write_channel_status : preserves P write_channel_status.
Proof. unfold write_channel_status. pass. Qed.
#[local] Hint Resolve pass_receive_from_a2r pass_flush_send_queue
  pass_read_base_address pass_read_channel_status pass_write_channel_status
  : passage.

Lemma pass_close_loop fuel : preserves P (close_loop fuel).
Proof.
  induction fuel as [| fuel IH]; simpl; [pass |].
  apply preserves_bind; [pass | intros chs].
  destruct chs as [| ch chs]; [pass |].
  apply preserves_bind; [pass | intros _].
  intros w r w' H HP.
  apply bind_inv in H. destruct H as (chs' & w0 & H0 & H).
  apply gets_inv in H0. destruct H0 as [-> ->].
  apply bind_inv in H. destruct H as (u & w1 & H1 & H).
  apply (IH _ _ _ H). clear H.
  destruct (channels w) as [| it rest] eqn:Ech; [discriminate H1 |].
  run. apply P_channels.
  - intros c Hc. left. proj. rewrite Ech. right. exact Hc.
  - eapply (P_event (ev_erase _) (ev_ok_erase _) _ tt); [reflexivity | exact HP].
Qed.
#[local] Hint Resolve pass_close_loop : passage.

Lemma pass_close_all_logical_channels : preserves P close_all_logical_channels.
Proof. unfold close_all_logical_channels. pass. Qed.
#[local] Hint Resolve pass_close_all_logical_channels : passage.

Lemma pass_handle_a314_irq : preserves P handle_a314_irq.
Proof. unfold handle_a314_irq, spi_ack_irq. pass. Qed.
#[local] Hint Resolve pass_handle_a314_irq : passage.

Lemma pass_read_loop fuel : forall cc, preserves P (read_loop fuel cc).
Proof. induction fuel as [| fuel IH]; intros cc; simpl; pass. Qed.

Lemma pass_drain_loop fuel : forall cc, preserves P (drain_loop fuel cc).
Proof. induction fuel as [| fuel IH]; intros cc; simpl; pass. Qed.
#[local] Hint Resolve pass_read_loop pass_drain_loop : passage.

Lemma pass_handle_client_connection_event cc events :
  preserves P (handle_client_connection_event cc events).
Proof. unfold handle_client_connection_event. pass. Qed.

Lemma pass_handle_server_socket_ready : preserves P handle_server_socket_ready.
Proof. unfold handle_server_socket_ready. pass. Qed.
#[local] Hint Resolve pass_handle_client_connection_event
  pass_handle_server_socket_ready : passage.

Lemma pass_close_all_connections fuel : preserves P (close_all_connections fuel).
Proof. induction fuel as [| fuel IH]; simpl; pass. Qed.
#[local] Hint Resolve pass_close_all_connections : passage.

Lemma pass_main_loop_body st : preserves P (main_loop_body st).
Proof. unfold main_loop_body. pass. Qed.

(** Every step of the daemon. *)
Lemma pass_step_relation w w' : step w w' -> P w -> P w'.
Proof.
  intros [] HP;
    match goal with
    | H : ?m w = Ret _ w' |- _ =>
      let Q := fresh "Q" in
      assert (Q : preserves P m);
      [| exact (Q _ _ _ H HP)]
    end;
    first
      [ apply pass_main_loop_body
      | solve [auto with passage] ].
Qed.
End Passage.

(** The operations on the channels of a client, for a property that does
    not look at the list of a client's channels. *)
Section Unlisted.
Variable P : World -> Prop.
Hypothesis P_sight : forall w w', sight w' = sight w -> P w -> P w'.
Hypothesis P_update_cc : forall cc f, mild f -> preserves P (update_cc cc f).
Hypothesis P_update_ch : forall ch f, gentle f -> preserves P (update_ch ch f).

Lemma unlisted_remove_association ch : preserves P (remove_association ch).
Proof.
  unfold remove_association.
  apply preserves_bind; [apply pass_deref_ch | intro c].
  destruct (association c) as [cc |]; [| apply preserves_fault].
  apply preserves_bind; [apply pass_deref_cc | intro k].
  destruct (erase_first ch (associations k)); [| apply preserves_fault].
  apply preserves_bind; [| intro].
  - apply P_update_cc. intro x. split; reflexivity.
  - apply P_update_ch. gentle_tac.
Qed.

Lemma unlisted_reset_associations cc ass :
  preserves P (reset_associations cc ass).
Proof.
  induction ass as [| ch rest IH]; simpl; [apply preserves_ret |].
  apply preserves_bind;
    [apply pass_clear_packet_queue; assumption | intro].
  apply preserves_bind;
    [apply pass_create_and_enqueue_packet; assumption | intro].
  apply preserves_bind; [apply P_update_ch; gentle_tac | intro].
  apply preserves_bind; [| intro; exact IH].
  apply P_update_cc. intro x. split; reflexivity.
Qed.
End Unlisted.

(** ** Properties of the trace alone *)

(** What the daemon does in any number of steps. *)
Inductive steps (w : World) : World -> Prop :=
| steps_refl : steps w w
| steps_step w' w'' : steps w w' -> step w' w'' -> steps w w''.

Definition on_trace (T : list Event -> Prop) (w : World) : Prop := T (trace w).

(** A property of the trace that holds on when the trace grows holds on
    through every handler. *)
Section Lasting.
Variable T : list Event -> Prop.
Hypothesis T_grows : forall t e, T t -> T (t ++ [e]).

Lemma lasting_sight w w' : sight w' = sight w -> on_trace T w -> on_trace T w'.
Proof.
  unfold sight, on_trace. intros E H. injection E as _ _ E. rewrite E. exact H.
Qed.

Lemma lasting_event e : True -> preserves (on_trace T) (log e).
Proof. intros _ w a w' H HT. run. unfold on_trace in *. proj. apply T_grows, HT. Qed.

Lemma lasting_stable {A} (m : M A) :
  stable trace m -> preserves (on_trace T) m.
Proof.
  intros Hm w a w' H HT. unfold on_trace in *. rewrite (Hm _ _ _ H). exact HT.
Qed.

Lemma lasting_update_cc cc f : mild f -> preserves (on_trace T) (update_cc cc f).
Proof. intros _. apply lasting_stable. stable_tac. Qed.

Lemma lasting_update_ch ch f : gentle f -> preserves (on_trace T) (update_ch ch f).
Proof. intros _. apply lasting_stable. stable_tac. Qed.

Lemma lasting_channels l w :
  (forall c, In c l -> In c (channels w) \/ association c = None) ->
  on_trace T w -> on_trace T (set_channels l w).
Proof. intros _ H. exact H. Qed.

Lemma lasting_add_connection f : preserves (on_trace T) (add_connection f).
Proof. apply lasting_stable. unfold add_connection. stable_tac. Qed.

Lemma lasting_associate ch cc : preserves (on_trace T) (associate ch cc).
Proof. apply lasting_stable. unfold associate. stable_tac. Qed.

Lemma lasting_close_and_remove_connection cc :
  preserves (on_trace T) (close_and_remove_connection cc).
Proof.
  unfold close_and_remove_connection.
  apply preserves_bind; [apply lasting_stable; stable_tac | intro k].
  apply preserves_bind; [apply lasting_event; exact I | intro].
  apply preserves_bind; [apply lasting_event; exact I | intro].
  apply preserves_bind; [apply lasting_stable; stable_tac | intro].
  apply preserves_bind; [| intro; apply lasting_stable; stable_tac].
  apply unlisted_reset_associations;
    [exact lasting_sight | exact lasting_update_cc | exact lasting_update_ch].
Qed.

Lemma lasting_create_and_send_msg cc ty sid data len :
  preserves (on_trace T) (create_and_send_msg cc ty sid data len).
Proof.
  apply (pass_create_and_send_msg_event (on_trace T) (fun _ => True));
    first [ exact lasting_sight | exact lasting_event
          | exact (fun cc f H => lasting_update_cc cc f (meek_mild f H))
          | intros; exact I ].
Qed.

Lemma lasting_handle_pkt_data cid data plen :
  preserves (on_trace T) (handle_pkt_data cid data plen).
Proof.
  unfold handle_pkt_data.
  apply preserves_bind; [apply preserves_gets | intro chs].
  destruct (find_channel cid chs) as [ch |]; [| apply preserves_ret].
  destruct (association ch); [| apply preserves_ret].
  destruct (negb (got_eos_from_ami ch)); [| apply preserves_ret].
  apply lasting_create_and_send_msg.
Qed.

Lemma lasting_reset_associations cc ass :
  preserves (on_trace T) (reset_associations cc ass).
Proof.
  apply unlisted_reset_associations;
    [exact lasting_sight | exact lasting_update_cc | exact lasting_update_ch].
Qed.

Lemma lasting_remove_association ch :
  preserves (on_trace T) (remove_association ch).
Proof.
  apply unlisted_remove_association;
    [exact lasting_update_cc | exact lasting_update_ch].
Qed.

Lemma lasting_handle_pkt_eos cid : preserves (on_trace T) (handle_pkt_eos cid).
Proof.
  apply (pass_handle_pkt_eos_event (on_trace T) (fun _ => True));
    first [ exact lasting_sight | exact lasting_event
          | exact (fun cc f H => lasting_update_cc cc f (meek_mild f H))
          | exact lasting_update_ch | exact lasting_remove_association
          | intros; exact I ].
Qed.

Ltac lasting_tac :=
  first
    [ exact lasting_sight | exact lasting_event
    | exact (fun cc f H => lasting_update_cc cc f (meek_mild f H))
    | exact lasting_update_ch | exact lasting_channels
    | exact lasting_add_connection | exact lasting_associate
    | exact lasting_remove_association
    | exact lasting_close_and_remove_connection
    | exact lasting_handle_pkt_data | exact lasting_handle_pkt_eos
    | intros; exact I ].

Lemma lasting_close_all_connections fuel :
  preserves (on_trace T) (close_all_connections fuel).
Proof. apply pass_close_all_connections; lasting_tac. Qed.

Lemma lasting_flush_send_queue : preserves (on_trace T) flush_send_queue.
Proof. apply (pass_flush_send_queue (on_trace T) (fun _ => True)); lasting_tac. Qed.

Lemma lasting_write_channel_status : preserves (on_trace T) write_channel_status.
Proof.
  apply (pass_write_channel_status (on_trace T) (fun _ => True)); lasting_tac.
Qed.

Lemma lasting_step w w' : step w w' -> on_trace T w -> on_trace T w'.
Proof. apply (pass_step_relation (on_trace T) (fun _ => True)); lasting_tac. Qed.

Lemma lasting_steps w w' : steps w w' -> on_trace T w -> on_trace T w'.
Proof.
  induction 1 as [| w1 w2 _ IH Hs]; intros HT; [exact HT |].
  eapply lasting_step; [exact Hs |]. apply IH, HT.
Qed.
End Lasting.

(** * Shutting down *)

(** The sockets of the daemon: the clients and the listening socket. *)
Definition doors (w : World) := (connections w, server_socket w).

Lemma stable_doors_flush_loop fuel :
  forall left pos buf, stable doors (flush_loop fuel left pos buf).
Proof.
  induction fuel as [| fuel IH]; intros left pos buf; rewrite flush_loop_eq;
    cbv zeta; unfold remove_channel_if_not_associated_and_empty_pq; stable_tac.
Qed.

Lemma stable_doors_flush_send_queue : stable doors flush_send_queue.
Proof.
  unfold flush_send_queue. cbv zeta.
  apply stable_bind; [stable_tac |]. intros cs.
  apply stable_bind; [apply stable_doors_flush_loop |]. intros r.
  unfold spi_write_mem, transfer_. cbv zeta. stable_tac.
Qed.

Lemma stable_doors_write_channel_status : stable doors write_channel_status.
Proof.
  unfold write_channel_status, spi_write_mem, spi_write_cmem, transfer_.
  cbv zeta. stable_tac.
Qed.

Lemma stable_server_socket_reset_associations cc ass :
  stable server_socket (reset_associations cc ass).
Proof.
  induction ass as [| ch rest IH]; cbn [reset_associations];
    unfold clear_packet_queue, create_and_enqueue_packet; cbv zeta; stable_tac.
Qed.

Lemma stable_server_socket_close_and_remove_connection cc :
  stable server_socket (close_and_remove_connection cc).
Proof.
  unfold close_and_remove_connection.
  pose proof stable_server_socket_reset_associations. stable_tac.
Qed.

Lemma stable_server_socket_close_all_connections fuel :
  stable server_socket (close_all_connections fuel).
Proof.
  pose proof stable_server_socket_close_and_remove_connection.
  induction fuel as [| fuel IH]; cbn [close_all_connections]; stable_tac.
Qed.

Lemma close_all_connections_empties fuel w w' :
  close_all_connections fuel w = Ret tt w' -> connections w' = [].
Proof.
  revert w. induction fuel as [| fuel IH]; intros w H; cbn [close_all_connections] in H;
    apply bind_inv in H; destruct H as (conns & w0 & H0 & H);
    apply gets_inv in H0; destruct H0 as [-> ->];
    destruct (connections w) as [| k rest] eqn:E.
  - inversion H; subst. exact E.
  - discriminate.
  - inversion H; subst. exact E.
  - apply bind_inv in H. destruct H as ([] & w1 & _ & H). apply (IH _ H).
Qed.

(** The calls in a trace go on from [pre]. *)
Definition calls_from (pre : list Call) (t : list Event) : Prop :=
  exists rest, syscalls t = pre ++ rest.

Lemma calls_from_grows pre t e : calls_from pre t -> calls_from pre (t ++ [e]).
Proof.
  intros (rest & H). exists (rest ++ syscalls [e]).
  rewrite syscalls_app, H. symmetry. apply app_assoc.
Qed.

(** [shutdown_server_socket] closes the listening socket, if there is one,
    and forgets it. *)
Lemma shutdown_server_socket_eq w :
  shutdown_server_socket w =
  Ret tt
    (set_server_socket (-1)
       (if server_socket w =? -1 then w
        else set_trace (trace w ++ [ev_sys (c_close (server_socket w))]) w)).
Proof.
  unfold shutdown_server_socket. unfold bind at 1. unfold gets at 1.
  destruct (server_socket w =? -1); reflexivity.
Qed.

(** X23.  How the main loop shuts down.
    - When [epoll_pwait] is interrupted by SIGTERM (EINTR) and the turn of
      the loop returns, the first call after [epoll_pwait] is the [close] of
      the listening socket, if the daemon had one; the listening socket is
      forgotten and no client is left; the loop is done if no logical
      channel is left, and otherwise goes on, shutting down, with a timeout
      of ten seconds.
    - A timeout while shutting down ends the loop; a timeout at any other
      time, and a failure of [epoll_pwait] other than EINTR, end the process
      with exit(-1). *)
Theorem main_loop_shutdown :
  (forall st w r scr st' w',
     script w = r :: scr -> sr_ret r = -1 -> sr_errno r = EINTR ->
     main_loop_body st w = Ret st' w' ->
     (exists rest,
        syscalls (trace w') =
        syscalls (trace w) ++
        [c_epoll_pwait (if shutting_down st then 10000 else -1)] ++
        (if server_socket w =? -1 then [] else [c_close (server_socket w)]) ++
        rest) /\
     connections w' = [] /\ server_socket w' = -1 /\
     st' = match channels w' with
           | [] => mkLoopState (first_gpio_event st) (shutting_down st) true
           | _ :: _ => mkLoopState (first_gpio_event st) true (done st)
           end) /\
  (forall st w r scr,
     script w = r :: scr -> sr_ret r = 0 ->
     main_loop_body st w =
     (if shutting_down st
      then ret (mkLoopState (first_gpio_event st) (shutting_down st) true)
      else exit (-1))
       (written (c_epoll_pwait (if shutting_down st then 10000 else -1)) scr w)) /\
  (forall st w r scr,
     script w = r :: scr -> sr_ret r = -1 -> sr_errno r <> EINTR ->
     main_loop_body st w =
     Exit (-1)
       (written (c_epoll_pwait (if shutting_down st then 10000 else -1)) scr w)).
Proof.
  split; [| split].
  - intros st w r scr st' w' Hs Hr He H. unfold main_loop_body in H.
    erewrite bind_ret_eq in H by (apply sys_eq; exact Hs).
    rewrite Hr, He in H. cbn [Z.eqb Pos.eqb EINTR] in H.
    apply bind_inv in H. destruct H as ([] & w1 & H1 & H).
    assert (T1 : calls_from
                   (syscalls (trace w) ++
                    [c_epoll_pwait (if shutting_down st then 10000 else -1)] ++
                    (if server_socket w =? -1 then []
                     else [c_close (server_socket w)]))
                   (trace w1)).
    { rewrite shutdown_server_socket_eq in H1. injection H1 as <-.
      exists []. rewrite app_nil_r.
      change (server_socket (written ?c scr w)) with (server_socket w).
      destruct (server_socket w =? -1);
        cbn [trace set_server_socket set_trace set_script written];
        rewrite !syscalls_app; [| rewrite <- app_assoc]; reflexivity. }
    apply bind_inv in H. destruct H as ([] & w2 & H2 & H).
    apply bind_inv in H. destruct H as (sent & w3 & H3 & H).
    apply bind_inv in H. destruct H as ([] & w4 & H4 & H).
    apply bind_inv in H. destruct H as (chs & w5 & H5 & H).
    apply gets_inv in H5. destruct H5 as [-> ->].
    assert (T4 : calls_from
                   (syscalls (trace w) ++
                    [c_epoll_pwait (if shutting_down st then 10000 else -1)] ++
                    (if server_socket w =? -1 then []
                     else [c_close (server_socket w)]))
                   (trace w4)).
    { pose proof (lasting_close_all_connections _ (calls_from_grows _)
                    _ _ _ _ H2 T1) as T2.
      pose proof (lasting_flush_send_queue _ (calls_from_grows _)
                    _ _ _ H3 T2) as T3.
      destruct sent.
      - exact (lasting_write_channel_status _ (calls_from_grows _) _ _ _ H4 T3).
      - inversion H4; subst. exact T3. }
    assert (S1 : server_socket w1 = -1).
    { unfold shutdown_server_socket in H1.
      apply bind_inv in H1. destruct H1 as (s & wa & _ & H1).
      apply bind_inv in H1. destruct H1 as ([] & wb & _ & H1).
      apply modify_inv in H1. subst w1. reflexivity. }
    assert (S2 : server_socket w2 = -1).
    { rewrite <- S1.
      exact (stable_server_socket_close_all_connections _ _ _ _ H2). }
    assert (C2 : connections w2 = []).
    { exact (close_all_connections_empties _ _ _ H2). }
    pose proof (stable_doors_flush_send_queue _ _ _ H3) as D3.
    assert (D4 : doors w4 = doors w3).
    { destruct sent; [exact (stable_doors_write_channel_status _ _ _ H4) |].
      inversion H4; subst; reflexivity. }
    unfold doors in D3, D4. rewrite D3 in D4. rewrite C2, S2 in D4.
    injection D4 as D4c D4s.
    assert (T5 : exists rest,
               syscalls (trace w4) =
               syscalls (trace w) ++
               [c_epoll_pwait (if shutting_down st then 10000 else -1)] ++
               (if server_socket w =? -1 then []
                else [c_close (server_socket w)]) ++ rest).
    { destruct T4 as (rest & T4). exists rest. rewrite T4.
      rewrite <- !app_assoc. reflexivity. }
    destruct (channels w4) eqn:Ech; inversion H; subst; rewrite Ech; auto.
  - intros st w r scr Hs Hr. unfold main_loop_body.
    erewrite bind_ret_eq by (apply sys_eq; exact Hs).
    rewrite Hr. cbn [Z.eqb]. destruct (shutting_down st); reflexivity.
  - intros st w r scr Hs Hr He. unfold main_loop_body.
    erewrite bind_ret_eq by (apply sys_eq; exact Hs).
    rewrite Hr. cbn [Z.eqb Pos.eqb]. apply Z.eqb_neq in He. rewrite He.
    reflexivity.
Qed.

(** The client on descriptor 5 holds the stream 1 on channel 7, the daemon
    listens on descriptor 3, and SIGTERM arrives. *)
Definition world_sigterm : World :=
  set_server_socket 3
    (set_connections [client_message_waiting]
       (set_channels [channel_of_client]
          (initial_world [] [err EINTR]))).

Lemma main_loop_shutdown_witness :
  main_loop_body (mkLoopState true false false) world_sigterm =
    Ret (mkLoopState true false true)
      (after (main_loop_body (mkLoopState true false false)) world_sigterm) /\
  (exists rest,
     syscalls
       (trace (after (main_loop_body (mkLoopState true false false)) world_sigterm)) =
     syscalls (trace world_sigterm) ++ [c_epoll_pwait (-1)] ++ [c_close 3] ++ rest) /\
  connections (after (main_loop_body (mkLoopState true false false)) world_sigterm)
    = [] /\
  server_socket (after (main_loop_body (mkLoopState true false false)) world_sigterm)
    = -1 /\
  syscalls
    (trace (after (main_loop_body (mkLoopState true false false)) world_sigterm)) =
  [c_epoll_pwait (-1); c_close 3; c_shutdown 5 SHUT_WR; c_close 5;
   c_spi [16; 1; 4; 0; PKT_RESET; 7] 6; c_spi [16; 0; 2; 3; 0] 5;
   c_spi [62; 1] 2].
Proof.
  assert (E : main_loop_body (mkLoopState true false false) world_sigterm =
              Ret (mkLoopState true false true)
                (after (main_loop_body (mkLoopState true false false)) world_sigterm))
    by (vm_compute; reflexivity).
  split; [exact E |].
  destruct (proj1 main_loop_shutdown (mkLoopState true false false) world_sigterm
              (err EINTR) [] _ _ eq_refl eq_refl eq_refl E) as (T & C & S & _).
  split; [exact T |]. split; [exact C |]. split; [exact S |].
  vm_compute. reflexivity.
Defined.


(** * Services started on demand *)

Lemma find_connection_app l k x :
  find_connection x (l ++ [k]) =
  match find_connection x l with
  | Some y => Some y
  | None => if fd k =? x then Some k else None
  end.
Proof.
  unfold find_connection. induction l as [| d l IH]; simpl; [reflexivity |].
  destruct (fd d =? x); [reflexivity | exact IH].
Qed.

Lemma existsb_find_connection cc l :
  existsb (fun k => fd k =? cc) l =
  match find_connection cc l with Some _ => true | None => false end.
Proof.
  unfold find_connection. induction l as [| k l IH]; [reflexivity |].
  cbn [existsb find]. destruct (fd k =? cc); [reflexivity | exact IH].
Qed.

(** The world in which the program of an on-demand service has been
    started: its socket [f] is a client that owns the service. *)
Definition started (f f1 : Z) (name : list Z) (scr : list SysRes) (w : World)
  : World :=
  set_services (services w ++ [mkRegisteredService name f])
    (set_connections (connections w ++ [new_connection f])
       (set_trace
          (trace w ++
           [ev_sys c_socketpair; ev_sys (c_fork name); ev_sys (c_close f1);
            ev_sys (c_fcntl_cloexec f); ev_sys (c_fcntl_nonblock f);
            ev_sys (c_setsockopt_nodelay f);
            ev_sys (c_epoll_add f (Z.lor EPOLLIN (Z.lor EPOLLOUT EPOLLET)))])
          (set_script scr w))).

Lemma start_on_demand_eq od next cid name data plen w sp child st1 st2 st3 scr :
  script w = sp :: child :: st1 :: st2 :: st3 :: scr ->
  sr_ret sp = 0 -> sr_ret child <> -1 -> sr_ret child <> 0 ->
  sr_ret st1 <> -1 -> sr_ret st2 <> -1 -> sr_ret st3 = 0 ->
  find_connection (nth 0 (sr_data sp) 0) (connections w) = None ->
  start_on_demand od cid name data plen next w =
  (sid <- associate cid (nth 0 (sr_data sp) 0);;
   create_and_send_msg (nth 0 (sr_data sp) 0) MSG_CONNECT sid data plen)
    (started (nth 0 (sr_data sp) 0) (nth 1 (sr_data sp) 0) name scr w).
Proof.
  intros Hs Hsp Hc1 Hc0 H1 H2 H3 Hfree. unfold start_on_demand. cbv zeta.
  erewrite bind_ret_eq by (apply sys_eq; exact Hs).
  rewrite Hsp. cbn [Z.eqb negb].
  erewrite bind_ret_eq by (apply sys_eq; reflexivity).
  apply Z.eqb_neq in Hc1, Hc0, H1, H2. rewrite Hc1, Hc0.
  erewrite bind_ret_eq by reflexivity.
  erewrite bind_ret_eq by (apply sys_eq; reflexivity).
  rewrite H1.
  erewrite bind_ret_eq by (apply sys_eq; reflexivity).
  rewrite H2.
  erewrite bind_ret_eq by reflexivity.
  unfold add_connection.
  erewrite bind_ret_eq.
  2:{ erewrite bind_ret_eq by reflexivity.
      cbn [connections set_trace set_script].
      rewrite existsb_find_connection, Hfree. reflexivity. }
  erewrite bind_ret_eq by (apply sys_eq; reflexivity).
  rewrite H3. cbn [Z.eqb negb].
  erewrite bind_ret_eq by reflexivity.
  f_equal. unfold started.
  cbn [connections services channels send_queue on_demand_services
       have_base_address base_address channel_status channel_status_updated
       recv_buf server_socket gpio_fd script trace
       set_services set_connections set_trace set_script].
  repeat rewrite <- app_assoc. reflexivity.
Qed.

(** X24.  PKT_CONNECT through [handle_received_pkt] for a service that
    nobody has registered but that the configuration file lists.  If
    [socketpair] or [fork] fails the daemon exits.  Otherwise the daemon
    keeps its end [f] of the socket pair as a new client, closes the other
    end, registers the service for that client, associates the channel with
    it under the stream id 1, and hands the client a MSG_CONNECT with the
    name; the next stream id of the client is 3. *)
Theorem pkt_connect_on_demand cid b plen w o :
  0 <= plen <= zlen b ->
  let name := ztake plen b in
  let call := handle_received_pkt PKT_CONNECT cid (ptr b) plen in
  find_channel cid (channels w) = None ->
  unregistered name w ->
  find (fun o => bytes_eqb (service_name o) name) (on_demand_services w) = Some o ->
  (forall sp scr, script w = sp :: scr -> sr_ret sp <> 0 ->
     exists w', call w = Exit (-1) w') /\
  (forall sp child scr, script w = sp :: child :: scr ->
     sr_ret sp = 0 -> sr_ret child = -1 ->
     exists w', call w = Exit (-1) w') /\
  (forall sp child st1 st2 st3 scr,
     script w = sp :: child :: st1 :: st2 :: st3 :: scr ->
     sr_ret sp = 0 -> 0 < sr_ret child ->
     sr_ret st1 <> -1 -> sr_ret st2 <> -1 -> sr_ret st3 = 0 ->
     let f := nth 0 (sr_data sp) 0 in
     find_connection f (connections w) = None ->
     match call w with
     | Ret _ w' =>
       find_channel cid (channels w') =
         Some (mkLogicalChannel cid (Some f) 1 false false []) /\
       services w' = services w ++ [mkRegisteredService name f] /\
       send_queue w' = send_queue w /\
       messages (trace w') = messages (trace w) ++ [(f, MSG_CONNECT, 1, name)] /\
       (exists k',
          find_connection f (connections w') = Some k' /\
          next_stream_id k' = 3 /\ associations k' = [cid]) /\
       (forall x k, find_connection x (connections w) = Some k ->
          exists k', find_connection x (connections w') = Some k' /\
                     face k' = face k)
     | Exit _ _ => True
     | Fault => False
     | Stuck => True
     end).
Proof.
  intros Hlen name call Hc Hun Hod. subst call.
  change (handle_received_pkt PKT_CONNECT cid (ptr b) plen)
    with (handle_pkt_connect cid (ptr b) plen;;
          remove_channel_if_not_associated_and_empty_pq cid).
  set (next := on_demand_loop (behind name (on_demand_services w)) cid name
                 (ptr b) plen).
  assert (Hstart : handle_pkt_connect cid (ptr b) plen w =
                   start_on_demand o cid name (ptr b) plen next
                     (set_channels (channels w ++ [fresh_channel cid]) w)).
  { rewrite handle_pkt_connect_start by assumption.
    unfold unregistered in Hun. fold name. rewrite Hun, Hod. reflexivity. }
  set (w1 := set_channels (channels w ++ [fresh_channel cid]) w) in *.
  split; [| split].
  - intros sp scr Hs Hsp. eexists. unfold bind at 1. rewrite Hstart.
    unfold start_on_demand. cbv zeta.
    erewrite bind_ret_eq by (apply sys_eq; exact Hs).
    apply Z.eqb_neq in Hsp. rewrite Hsp. reflexivity.
  - intros sp child scr Hs Hsp Hch. eexists. unfold bind at 1. rewrite Hstart.
    unfold start_on_demand. cbv zeta.
    erewrite bind_ret_eq by (apply sys_eq; exact Hs).
    rewrite Hsp. cbn [Z.eqb negb].
    erewrite bind_ret_eq by (apply sys_eq; reflexivity).
    rewrite Hch. reflexivity.
  - intros sp child st1 st2 st3 scr Hs Hsp Hch H1 H2 H3 f Hfree.
    match goal with
    | |- match ?m w with _ => _ end =>
      change (ensures m w
                (fun _ w' =>
                   find_channel cid (channels w') =
                     Some (mkLogicalChannel cid (Some f) 1 false false []) /\
                   services w' = services w ++ [mkRegisteredService name f] /\
                   send_queue w' = send_queue w /\
                   messages (trace w') =
                     messages (trace w) ++ [(f, MSG_CONNECT, 1, name)] /\
                   (exists k',
                      find_connection f (connections w') = Some k' /\
                      next_stream_id k' = 3 /\ associations k' = [cid]) /\
                   (forall x k, find_connection x (connections w) = Some k ->
                      exists k', find_connection x (connections w') = Some k' /\
                                 face k' = face k)))
    end.
    apply ensures_bind. unfold ensures at 1. rewrite Hstart.
    rewrite (start_on_demand_eq o next cid name (ptr b) plen w1 sp child st1 st2
               st3 scr Hs Hsp ltac:(lia) ltac:(lia) H1 H2 H3 Hfree).
    fold f. set (w2 := started f (nth 1 (sr_data sp) 0) name scr w1).
    set (k1 := mkClientConnection f 3 0 (mkMessageHeader 0 0 0) [] [] [cid]).
    set (w3 := set_connections
                 (update_connection f
                    (fun k => set_associations (associations k ++ [cid])
                                (set_next_stream_id (next_stream_id k + 2) k))
                    (connections w2))
                 (set_channels
                    (update_channel cid
                       (fun c => set_stream_id 1 (set_association (Some f) c))
                       (channels w2)) w2)).
    assert (Hk2 : find_connection f (connections w2) = Some (new_connection f)).
    { unfold w2, started, w1.
      cbn [connections set_services set_connections set_trace set_script set_channels].
      rewrite find_connection_app, Hfree. cbn [new_connection fd].
      rewrite Z.eqb_refl. reflexivity. }
    assert (Eas : associate cid f w2 = Ret 1 w3).
    { unfold associate.
      erewrite bind_ret_eq by (apply deref_cc_eq; exact Hk2).
      erewrite bind_ret_eq by reflexivity.
      cbn [new_connection next_stream_id].
      change (INT_MAX <? 1 + 2) with false. cbv iota.
      erewrite bind_ret_eq by reflexivity. reflexivity. }
    erewrite bind_ret_eq by exact Eas.
    assert (Hk3 : find_connection f (connections w3) = Some k1).
    { unfold w3. cbn [connections set_connections].
      erewrite find_connection_update_same; [| reflexivity | exact Hk2].
      reflexivity. }
    assert (Hc3 : find_channel cid (channels w3) =
                  Some (mkLogicalChannel cid (Some f) 1 false false [])).
    { unfold w3, w2, started, w1.
      cbn [channels set_services set_connections set_trace set_script set_channels].
      rewrite find_channel_update by reflexivity.
      rewrite find_channel_app, Hc. cbn [fresh_channel channel_id].
      rewrite Z.eqb_refl. reflexivity. }
    assert (Hold : forall x k, find_connection x (connections w) = Some k ->
                   find_connection x (connections w3) = Some k).
    { intros x k Hx. unfold w3. cbn [connections set_connections].
      assert (Hne : x <> f) by (intros ->; congruence).
      rewrite find_connection_update_other by (reflexivity || exact Hne).
      unfold w2, started, w1.
      cbn [connections set_services set_connections set_trace set_script set_channels].
      rewrite find_connection_app, Hx. reflexivity. }
    pose proof (ensures_send f MSG_CONNECT 1 (ptr b) plen w3 _ (ztake plen b)
                  Hk3 (proj1 Hlen)
                  (fun w0 => resize_and_copy_ptr b plen w0 Hlen)) as Hsend.
    unfold ensures in Hsend.
    destruct (create_and_send_msg f MSG_CONNECT 1 (ptr b) plen w3)
      as [u w4 | | |]; auto.
    pose proof (handed_over_channels _ _ _ _ _ _ Hsend) as Hch4.
    pose proof (handed_over_send_queue _ _ _ _ _ _ Hsend) as Hsq4.
    pose proof (handed_over_services _ _ _ _ _ _ Hsend) as Hsv4.
    destruct (handed_over_connection _ _ _ _ _ _ _ _ Hsend Hk3) as (k4 & Hk4 & Hf4).
    pose proof Hsend as (_ & _ & _ & M4 & _).
    unfold remove_channel_if_not_associated_and_empty_pq.
    apply ensures_bind. eapply ensures_ret_eq; [reflexivity |]. cbv beta.
    rewrite Hch4, Hc3. cbn [association].
    eapply ensures_ret_eq; [reflexivity |].
    rewrite Hch4, Hsq4, Hsv4. split; [exact Hc3 |].
    split; [reflexivity |]. split; [reflexivity |].
    split.
    { rewrite M4. unfold w3, w2, started, w1.
      cbn [trace set_services set_connections set_trace set_script set_channels].
      rewrite messages_app. cbn [messages flat_map app].
      rewrite app_nil_r. reflexivity. }
    split.
    { exists k4. split; [exact Hk4 |]. unfold face in Hf4. cbn in Hf4.
      split; congruence. }
    intros x k Hx.
    exact (handed_over_connection _ _ _ _ _ _ _ _ Hsend (Hold x k Hx)).
Qed.

(** The configuration lists the service "x"; the Amiga connects to it on
    channel 9, and [socketpair] gives the descriptors 10 and 11. *)
Definition world_service_listed : World :=
  initial_world [mkOnDemandStart [120] [112] [[112]]]
    [mkSysRes 0 0 [10; 11]; ok 1234; ok 0; ok 0; ok 0; ok 10].
Definition world_program_started : World :=
  after (handle_received_pkt PKT_CONNECT 9 (ptr [120]) 1) world_service_listed.

Lemma pkt_connect_on_demand_witness :
  handle_received_pkt PKT_CONNECT 9 (ptr [120]) 1 world_service_listed =
    Ret tt world_program_started /\
  find_channel 9 (channels world_program_started) =
    Some (mkLogicalChannel 9 (Some 10) 1 false false []) /\
  services world_program_started = [mkRegisteredService [120] 10] /\
  messages (trace world_program_started) = [(10, MSG_CONNECT, 1, [120])] /\
  connections world_program_started =
    [mkClientConnection 10 3 0 (mkMessageHeader 0 0 0) [] [] [9]].
Proof.
  assert (E : handle_received_pkt PKT_CONNECT 9 (ptr [120]) 1 world_service_listed =
              Ret tt world_program_started) by (vm_compute; reflexivity).
  split; [exact E |].
  pose proof (proj2 (proj2 (pkt_connect_on_demand 9 [120] 1 world_service_listed
                       (mkOnDemandStart [120] [112] [[112]])
                       ltac:(vm_compute; split; discriminate)
                       eq_refl eq_refl eq_refl))
                (mkSysRes 0 0 [10; 11]) (ok 1234) (ok 0) (ok 0) (ok 0) [ok 10]
                eq_refl eq_refl eq_refl ltac:(discriminate) ltac:(discriminate)
                eq_refl eq_refl) as H.
  cbv zeta in H. rewrite E in H. destruct H as (Hc & Hs & _ & Hm & _).
  split; [exact Hc |]. split; [exact Hs |]. split; [exact Hm |].
  vm_compute. reflexivity.
Defined.


(** * Telling the Amiga *)

Lemma stable_ring_state_flush_loop fuel :
  forall left pos buf, stable ring_state (flush_loop fuel left pos buf).
Proof.
  induction fuel as [| fuel IH]; intros left pos buf; rewrite flush_loop_eq;
    cbv zeta; unfold remove_channel_if_not_associated_and_empty_pq; stable_tac.
Qed.

Lemma stable_ring_state_spi_write_mem a buf n :
  stable ring_state (spi_write_mem a buf n).
Proof. unfold spi_write_mem, transfer_. cbv zeta. stable_tac. Qed.

Lemma lor_bit_nonzero x e : 0 < e <= 255 -> u8 (Z.lor x e) <> 0.
Proof.
  intros He H. unfold u8 in H.
  assert (Hb : Z.land e 255 = e).
  { change 255 with (Z.ones 8). rewrite Z.land_ones by lia.
    apply Z.mod_small. lia. }
  assert (Hz : Z.land (Z.land (Z.lor x e) 255) e = 0) by (rewrite H; reflexivity).
  rewrite <- Z.land_assoc, (Z.land_comm 255 e), Hb in Hz.
  rewrite Z.land_comm, Z.land_lor_distr_r, Z.land_diag in Hz.
  apply Z.lor_eq_0_iff in Hz. lia.
Qed.

(** What [write_channel_status] does when an event is noted. *)
Definition published (w : World) : World :=
  set_channel_status_updated 0
    (set_trace
       (trace w ++
        [ev_sys (c_spi
           (let hdr := sram_header WRITE_SRAM_CMD (base_address w + 2) in
            [u8 (Z.land (Z.shiftr hdr 16) 255); u8 (Z.land (Z.shiftr hdr 8) 255);
             u8 (Z.land hdr 255);
             cs_get R2A_TAIL_OFFSET (channel_status w);
             cs_get A2R_HEAD_OFFSET (channel_status w)]) 5);
         ev_sys (c_spi
           [u8 (Z.lor (Z.shiftl WRITE_CMEM_CMD 4) (Z.land A_EVENTS_ADDRESS 15));
            u8 (Z.land (channel_status_updated w) 15)] 2)])
       w).

Lemma write_channel_status_pending w :
  channel_status_updated w <> 0 -> write_channel_status w = Ret tt (published w).
Proof.
  intros H. unfold write_channel_status.
  erewrite bind_ret_eq by reflexivity.
  apply Z.eqb_neq in H. rewrite H. cbn [negb].
  erewrite bind_ret_eq by reflexivity.
  erewrite bind_ret_eq by reflexivity.
  unfold spi_write_mem, spi_write_cmem, transfer_. cbv zeta.
  change (2 + 3) with 5.
  change ((5 <? 0) || (65536 <? 5)) with false.
  change ((2 <? 0) || (65536 <? 2)) with false. cbv iota.
  match goal with
  | |- context [ztake 2 [?a; ?b]] => change (ztake 2 [a; b]) with [a; b]
  end.
  cbn [app].
  unfold sys_, log, bind, modify, published.
  unfold set_channel_status_updated, set_trace.
  cbn [connections services channels send_queue on_demand_services
       have_base_address base_address channel_status channel_status_updated
       recv_buf server_socket gpio_fd script trace].
  rewrite <- app_assoc. reflexivity.
Qed.

(** X25.  The main loop follows [flush_send_queue] with
    [write_channel_status] when the former returns true.  When
    [flush_send_queue] returns true it has noted the event A_EVENT_R2A_TAIL,
    and [write_channel_status] then writes the two ring pointers the daemon
    owns (the tail of R2A and the head of A2R) to the two bytes at the base
    address plus 2, sets the noted events in the events register of the
    Amiga, and notes no event any more, so that a second call does nothing.
    When [flush_send_queue] returns false it has changed neither the ring
    pointers nor the noted events. *)
Theorem flush_then_publish :
  (forall w w1,
     flush_send_queue w = Ret true w1 ->
     channel_status_updated w1 =
       u8 (Z.lor (channel_status_updated w) A_EVENT_R2A_TAIL) /\
     base_address w1 = base_address w /\
     write_channel_status w1 = Ret tt (published w1) /\
     write_channel_status (published w1) = Ret tt (published w1)) /\
  (forall w w1,
     flush_send_queue w = Ret false w1 -> ring_state w1 = ring_state w).
Proof.
  assert (Hinv : forall w b w1,
            flush_send_queue w = Ret b w1 ->
            if b
            then channel_status_updated w1 =
                   u8 (Z.lor (channel_status_updated w) A_EVENT_R2A_TAIL) /\
                 base_address w1 = base_address w
            else ring_state w1 = ring_state w).
  { intros w b w1 H. unfold flush_send_queue in H.
    apply bind_inv in H. destruct H as (cs & w0 & H0 & H).
    apply gets_inv in H0. destruct H0 as [-> ->]. cbv zeta in H.
    apply bind_inv in H. destruct H as (r & wa & Ha & H).
    pose proof (stable_ring_state_flush_loop _ _ _ _ _ _ _ Ha) as Sa.
    destruct (fst r =? 0).
    { inversion H; subst. exact Sa. }
    apply bind_inv in H. destruct H as (base & w0 & H0 & H).
    apply gets_inv in H0. destruct H0 as [-> ->].
    apply bind_inv in H. destruct H as (r2 & wb & Hb & H).
    assert (Sb : ring_state wb = ring_state wa).
    { destruct (_ <? _) in Hb.
      - apply bind_inv in Hb. destruct Hb as (u & wc & Hc & Hb).
        inversion Hb; subst.
        exact (stable_ring_state_spi_write_mem _ _ _ _ _ _ Hc).
      - inversion Hb; subst. reflexivity. }
    apply bind_inv in H. destruct H as (u & wc & Hc & H).
    pose proof (stable_ring_state_spi_write_mem _ _ _ _ _ _ Hc) as Sc.
    apply bind_inv in H. destruct H as (u3 & w3 & H3 & H).
    apply modify_inv in H3.
    apply bind_inv in H. destruct H as (u4 & w4 & H4 & H).
    apply modify_inv in H4. inversion H; subst b w1. clear H.
    unfold ring_state in Sa, Sb, Sc.
    subst w4 w3.
    cbn [channel_status_updated base_address set_channel_status_updated
         set_channel_status].
    split; congruence. }
  split.
  - intros w w1 H. destruct (Hinv w true w1 H) as [Hu Hb].
    split; [exact Hu |]. split; [exact Hb |]. split.
    + apply write_channel_status_pending. rewrite Hu.
      apply lor_bit_nonzero. unfold A_EVENT_R2A_TAIL. lia.
    + reflexivity.
  - intros w w1 H. exact (Hinv w false w1 H).
Qed.

(** The channel 9 has an answer to send and the R2A ring is empty. *)
Definition world_answer_waiting : World :=
  set_send_queue [9]
    (set_channels
       [mkLogicalChannel 9 None 0 false false
          [mkPacketBuffer PKT_CONNECT_RESPONSE [CONNECT_UNKNOWN_SERVICE]]]
       (initial_world [] [])).

Lemma flush_then_publish_witness :
  flush_send_queue world_answer_waiting =
    Ret true (after flush_send_queue world_answer_waiting) /\
  channel_status_updated (after flush_send_queue world_answer_waiting) = 1 /\
  syscalls (trace (published (after flush_send_queue world_answer_waiting))) =
    [c_spi [16; 1; 4; 1; PKT_CONNECT_RESPONSE; 9; CONNECT_UNKNOWN_SERVICE] 7;
     c_spi [16; 0; 2; 4; 0] 5; c_spi [62; 1] 2] /\
  write_channel_status (after flush_send_queue world_answer_waiting) =
    Ret tt (published (after flush_send_queue world_answer_waiting)).
Proof.
  assert (E : flush_send_queue world_answer_waiting =
              Ret true (after flush_send_queue world_answer_waiting))
    by (vm_compute; reflexivity).
  split; [exact E |].
  destruct (proj1 flush_then_publish _ _ E) as (Hu & _ & Hw & _).
  split; [exact Hu |]. split; [vm_compute; reflexivity | exact Hw].
Defined.


(** * From the A2R ring to the handlers *)

Lemma spi_read_mem_eq a n w r scr :
  script w = r :: scr -> 0 <= n <= 65532 -> zlen (sr_data r) = n + 4 ->
  spi_read_mem a n w =
  Ret (map u8 (sr_data r))
    (written (c_spi (sram_command READ_SRAM_CMD a ++ [0]) (n + 4)) scr w).
Proof.
  intros Hs Hn Hl. unfold spi_read_mem, transfer. cbv zeta.
  assert (H1 : (n + 4 <? 0) = false) by (apply Z.ltb_ge; lia).
  assert (H2 : (65536 <? n + 4) = false) by (apply Z.ltb_ge; lia).
  rewrite H1, H2. cbn [orb].
  erewrite bind_ret_eq by (apply sys_eq; exact Hs).
  apply Z.eqb_eq in Hl. rewrite Hl. reflexivity.
Qed.

Lemma frames_fuel pkts : (length pkts <= Z.to_nat (zlen (frames pkts)))%nat.
Proof.
  induction pkts as [| x t IH]; [cbn; lia |].
  rewrite frames_cons, zlen_app, zlen_frame. cbn [length].
  pose proof (zlen_nonneg (pb_data (snd x))). pose proof (zlen_nonneg (frames t)).
  lia.
Qed.

Lemma splice_front b buf : splice 0 b buf = b ++ zdrop (zlen b) buf.
Proof. unfold splice. rewrite Z.add_0_l. reflexivity. Qed.

Lemma splice_behind (a b rest : list Z) :
  splice (zlen a) b (a ++ rest) = a ++ b ++ zdrop (zlen b) rest.
Proof.
  unfold splice. rewrite ztake_app. f_equal. f_equal.
  unfold zdrop, zlen. rewrite <- Nat2Z.inj_add, !Nat2Z.id.
  rewrite skipn_app. rewrite skipn_all2 by lia. cbn [app].
  f_equal. lia.
Qed.

Lemma zdrop_zdrop {A} n m (l : list A) :
  0 <= n -> 0 <= m -> zdrop m (zdrop n l) = zdrop (n + m) l.
Proof.
  intros Hn Hm. unfold zdrop. rewrite skipn_skipn. f_equal. lia.
Qed.

Lemma ztake_exact {A} n (l : list A) : zlen l = n -> ztake n l = l.
Proof. intros <-. apply ztake_all. Qed.

(** What [receive_from_a2r] does after [parse_loop]. *)
Definition ring_taken : M bool :=
  modify (fun w => set_channel_status
            (cs_set A2R_HEAD_OFFSET (cs_get A2R_TAIL_OFFSET (channel_status w))
               (channel_status w)) w);;
  modify (fun w => set_channel_status_updated
            (u8 (Z.lor (channel_status_updated w) A_EVENT_A2R_HEAD)) w);;
  ret true.

(** X26.  [receive_from_a2r] hands the packets in the A2R ring to
    [handle_received_pkt] in the order the Amiga wrote them, also when they
    wrap around the end of the ring.  With the head below the tail the bytes
    between them are read in one SPI transfer, from the base address + 4 +
    head.  With the tail below the head, and not 0, the bytes from the head
    to the end of the ring are read first and the bytes from the start of the
    ring to the tail second, from the base address + 4, and are put behind
    the first; with the tail at 0 the first read is the only one.  In each
    case the packets whose frames these bytes are get
    delivered one by one, and then the head is moved to the tail. *)
Theorem receive_from_a2r_delivers w pkts :
  let head := cs_get A2R_HEAD_OFFSET (channel_status w) in
  let tail := cs_get A2R_TAIL_OFFSET (channel_status w) in
  let base := base_address w in
  Forall packet_ok pkts ->
  (forall r scr,
     head < tail -> script w = r :: scr ->
     zlen (sr_data r) = tail - head + 4 ->
     zdrop 4 (map u8 (sr_data r)) = frames pkts ->
     receive_from_a2r w =
     (deliver pkts (zdrop (tail - head) (recv_buf w));; ring_taken)
       (set_recv_buf (frames pkts ++ zdrop (tail - head) (recv_buf w))
          (written (c_spi (sram_command READ_SRAM_CMD (base + 4 + head) ++ [0])
                      (tail - head + 4)) scr w))) /\
  (forall r1 r2 scr,
     0 < tail < head -> script w = r1 :: r2 :: scr ->
     zlen (sr_data r1) = 256 - head + 4 -> zlen (sr_data r2) = tail + 4 ->
     zdrop 4 (map u8 (sr_data r1)) ++ zdrop 4 (map u8 (sr_data r2)) = frames pkts ->
     receive_from_a2r w =
     (deliver pkts (zdrop (256 - head + tail) (recv_buf w));; ring_taken)
       (set_recv_buf (frames pkts ++ zdrop (256 - head + tail) (recv_buf w))
          (written (c_spi (sram_command READ_SRAM_CMD (base + 4) ++ [0]) (tail + 4))
             scr
             (written (c_spi (sram_command READ_SRAM_CMD (base + 4 + head) ++ [0])
                         (256 - head + 4)) (r2 :: scr) w)))) /\
  (forall r scr,
     tail = 0 -> 0 < head -> script w = r :: scr ->
     zlen (sr_data r) = 256 - head + 4 ->
     zdrop 4 (map u8 (sr_data r)) = frames pkts ->
     receive_from_a2r w =
     (deliver pkts (zdrop (256 - head) (recv_buf w));; ring_taken)
       (set_recv_buf (frames pkts ++ zdrop (256 - head) (recv_buf w))
          (written (c_spi (sram_command READ_SRAM_CMD (base + 4 + head) ++ [0])
                      (256 - head + 4)) scr w))).
Proof.
  intros head tail base Hok.
  pose proof (cs_get_bounds A2R_HEAD_OFFSET (channel_status w)) as Hh.
  pose proof (cs_get_bounds A2R_TAIL_OFFSET (channel_status w)) as Ht.
  fold head in Hh. fold tail in Ht.
  split; [| split].
  - intros r scr Hlt Hs Hl Hfr.
    assert (Hlen : Z.land (tail - head) 255 = tail - head).
    { rewrite land_255. apply Z.mod_small. lia. }
    unfold receive_from_a2r.
    erewrite bind_ret_eq by reflexivity. cbv zeta. fold head tail.
    rewrite Hlen.
    assert (E0 : (tail - head =? 0) = false) by (apply Z.eqb_neq; lia).
    rewrite E0.
    erewrite bind_ret_eq by reflexivity. fold base.
    apply Z.ltb_lt in Hlt. rewrite Hlt.
    assert (Hz : zlen (zdrop 4 (map u8 (sr_data r))) = tail - head).
    { rewrite zlen_zdrop by (rewrite zlen_map; lia). rewrite zlen_map. lia. }
    set (w1 := set_recv_buf (frames pkts ++ zdrop (tail - head) (recv_buf w))
                 (written (c_spi (sram_command READ_SRAM_CMD (base + 4 + head) ++ [0])
                             (tail - head + 4)) scr w)).
    erewrite bind_ret_eq with (w1 := w1).
    2:{ erewrite bind_ret_eq
          by (apply spi_read_mem_eq; [exact Hs | lia | exact Hl]).
        unfold READ_SRAM_HDR_LEN. rewrite ztake_exact by exact Hz.
        transitivity
          (Ret tt
             (set_recv_buf
                (splice 0 (zdrop 4 (map u8 (sr_data r))) (recv_buf w))
                (written (c_spi (sram_command READ_SRAM_CMD (base + 4 + head) ++ [0])
                            (tail - head + 4)) scr w)));
          [reflexivity |].
        rewrite splice_front, Hz, Hfr. reflexivity. }
    unfold ring_taken.
    assert (Hf : zlen (frames pkts) = tail - head) by (rewrite <- Hfr; exact Hz).
    assert (Hp : parse_loop (Z.to_nat (zlen (frames pkts))) 0 (zlen (frames pkts)) w1 =
                 deliver pkts (zdrop (tail - head) (recv_buf w)) w1).
    { apply (parse_loop_deliver pkts [] _ w1);
        [reflexivity | exact Hok | change (zlen (@nil Z)) with 0; lia | apply frames_fuel]. }
    rewrite <- Hf at 1 2. unfold bind at 1. rewrite Hp. reflexivity.
  - intros r1 r2 scr Hlt Hs Hl1 Hl2 Hfr.
    assert (Hlen : Z.land (tail - head) 255 = 256 - head + tail).
    { rewrite land_255.
      replace (tail - head) with (256 - head + tail + (-1) * 256) by lia.
      rewrite Z.mod_add by lia. apply Z.mod_small. lia. }
    unfold receive_from_a2r.
    erewrite bind_ret_eq by reflexivity. cbv zeta. fold head tail.
    rewrite Hlen.
    assert (E0 : (256 - head + tail =? 0) = false) by (apply Z.eqb_neq; lia).
    rewrite E0.
    erewrite bind_ret_eq by reflexivity. fold base.
    assert (E1 : (head <? tail) = false) by (apply Z.ltb_ge; lia).
    assert (E2 : (tail =? 0) = false) by (apply Z.eqb_neq; lia).
    rewrite E1, E2. cbn [negb].
    assert (Hz1 : zlen (zdrop 4 (map u8 (sr_data r1))) = 256 - head).
    { rewrite zlen_zdrop by (rewrite zlen_map; lia). rewrite zlen_map. lia. }
    assert (Hz2 : zlen (zdrop 4 (map u8 (sr_data r2))) = tail).
    { rewrite zlen_zdrop by (rewrite zlen_map; lia). rewrite zlen_map. lia. }
    set (wa := written (c_spi (sram_command READ_SRAM_CMD (base + 4 + head) ++ [0])
                          (256 - head + 4)) (r2 :: scr) w).
    set (w1 := set_recv_buf
                 (frames pkts ++ zdrop (256 - head + tail) (recv_buf w))
                 (written (c_spi (sram_command READ_SRAM_CMD (base + 4) ++ [0])
                             (tail + 4)) scr wa)).
    erewrite bind_ret_eq with (w1 := w1).
    2:{ erewrite bind_ret_eq
          by (apply spi_read_mem_eq; [exact Hs | lia | exact Hl1]).
        fold wa. erewrite bind_ret_eq by reflexivity.
        erewrite bind_ret_eq
          by (apply spi_read_mem_eq; [reflexivity | lia | exact Hl2]).
        unfold READ_SRAM_HDR_LEN.
        rewrite (ztake_exact (256 - head)) by exact Hz1.
        rewrite (ztake_exact tail) by exact Hz2.
        assert (Hbuf : splice (256 - head + tail - tail)
                         (zdrop 4 (map u8 (sr_data r2)))
                         (splice 0 (zdrop 4 (map u8 (sr_data r1))) (recv_buf w)) =
                       frames pkts ++ zdrop (256 - head + tail) (recv_buf w)).
        { replace (256 - head + tail - tail) with
            (zlen (zdrop 4 (map u8 (sr_data r1)))) by lia.
          rewrite splice_front, splice_behind, Hz1, Hz2.
          rewrite zdrop_zdrop by lia.
          rewrite app_assoc, Hfr. reflexivity. }
        transitivity
          (Ret tt
             (set_recv_buf
                (splice (256 - head + tail - tail)
                   (zdrop 4 (map u8 (sr_data r2)))
                   (splice 0 (zdrop 4 (map u8 (sr_data r1))) (recv_buf w)))
                (written (c_spi (sram_command READ_SRAM_CMD (base + 4) ++ [0])
                            (tail + 4)) scr wa)));
          [reflexivity |].
        rewrite Hbuf. reflexivity. }
    assert (Hf : zlen (frames pkts) = 256 - head + tail).
    { rewrite <- Hfr, zlen_app. lia. }
    assert (Hp : parse_loop (Z.to_nat (zlen (frames pkts))) 0 (zlen (frames pkts)) w1 =
                 deliver pkts (zdrop (256 - head + tail) (recv_buf w)) w1).
    { apply (parse_loop_deliver pkts [] _ w1);
        [reflexivity | exact Hok | change (zlen (@nil Z)) with 0; lia | apply frames_fuel]. }
    rewrite <- Hf at 1 2. unfold bind at 1. rewrite Hp. reflexivity.
  - intros r scr Ht0 Hlt Hs Hl Hfr.
    assert (Hlen : Z.land (tail - head) 255 = 256 - head).
    { rewrite land_255.
      replace (tail - head) with (256 - head + (-1) * 256) by lia.
      rewrite Z.mod_add by lia. apply Z.mod_small. lia. }
    unfold receive_from_a2r.
    erewrite bind_ret_eq by reflexivity. cbv zeta. fold head tail.
    rewrite Hlen.
    assert (E0 : (256 - head =? 0) = false) by (apply Z.eqb_neq; lia).
    rewrite E0.
    erewrite bind_ret_eq by reflexivity. fold base.
    assert (E1 : (head <? tail) = false) by (apply Z.ltb_ge; lia).
    assert (E2 : (tail =? 0) = true) by (apply Z.eqb_eq; exact Ht0).
    rewrite E1, E2. cbn [negb].
    assert (Hz : zlen (zdrop 4 (map u8 (sr_data r))) = 256 - head).
    { rewrite zlen_zdrop by (rewrite zlen_map; lia). rewrite zlen_map. lia. }
    set (w1 := set_recv_buf (frames pkts ++ zdrop (256 - head) (recv_buf w))
                 (written (c_spi (sram_command READ_SRAM_CMD (base + 4 + head) ++ [0])
                             (256 - head + 4)) scr w)).
    erewrite bind_ret_eq with (w1 := w1).
    2:{ erewrite bind_ret_eq
          by (apply spi_read_mem_eq; [exact Hs | lia | exact Hl]).
        unfold READ_SRAM_HDR_LEN. rewrite ztake_exact by exact Hz.
        erewrite bind_ret_eq by reflexivity.
        transitivity
          (Ret tt
             (set_recv_buf
                (splice 0 (zdrop 4 (map u8 (sr_data r))) (recv_buf w))
                (written (c_spi (sram_command READ_SRAM_CMD (base + 4 + head) ++ [0])
                            (256 - head + 4)) scr w)));
          [reflexivity |].
        rewrite splice_front, Hz, Hfr. reflexivity. }
    assert (Hf : zlen (frames pkts) = 256 - head) by (rewrite <- Hfr; exact Hz).
    assert (Hp : parse_loop (Z.to_nat (zlen (frames pkts))) 0 (zlen (frames pkts)) w1 =
                 deliver pkts (zdrop (256 - head) (recv_buf w)) w1).
    { apply (parse_loop_deliver pkts [] _ w1);
        [reflexivity | exact Hok | change (zlen (@nil Z)) with 0; lia | apply frames_fuel]. }
    rewrite <- Hf at 1 2. unfold bind at 1. rewrite Hp. reflexivity.
Qed.

(** The Amiga has written a PKT_CONNECT to the service "x" on channel 9
    into the last two bytes of the ring and the first two: the head is at
    254 and the tail at 2. *)
Definition world_ring_wrapped : World :=
  set_channel_status (mkChannelStatus 2 0 0 254)
    (initial_world []
       [ok_data ([0; 0; 0; 0] ++ [1; PKT_CONNECT]);
        ok_data ([0; 0; 0; 0] ++ [9; 120])]).

Lemma receive_from_a2r_delivers_witness :
  receive_from_a2r world_ring_wrapped =
    (deliver [(9, mkPacketBuffer PKT_CONNECT [120])] (zeros 252);; ring_taken)
      (set_recv_buf ([1; PKT_CONNECT; 9; 120] ++ zeros 252)
         (written (c_spi [0; 0; 4; 0] 6) []
            (written (c_spi [0; 1; 2; 0] 6)
               [ok_data ([0; 0; 0; 0] ++ [9; 120])] world_ring_wrapped))) /\
  map channel_id (channels (after receive_from_a2r world_ring_wrapped)) = [9] /\
  cs_get A2R_HEAD_OFFSET
    (channel_status (after receive_from_a2r world_ring_wrapped)) = 2.
Proof.
  split; [| split; vm_compute; reflexivity].
  assert (Hok : Forall packet_ok [(9, mkPacketBuffer PKT_CONNECT [120])]).
  { repeat constructor; vm_compute; discriminate. }
  exact (proj1 (proj2 (receive_from_a2r_delivers world_ring_wrapped
                         [(9, mkPacketBuffer PKT_CONNECT [120])] Hok))
           (ok_data ([0; 0; 0; 0] ++ [1; PKT_CONNECT]))
           (ok_data ([0; 0; 0; 0] ++ [9; 120])) []
           ltac:(vm_compute; split; reflexivity) eq_refl eq_refl eq_refl eq_refl).
Defined.

(** ** Data after the end of a stream *)

(** [close] of the descriptor [cc]. *)
Definition is_close (cc : Z) (e : Event) : bool :=
  match e with
  | ev_sys (c_close f) => f =? cc
  | _ => false
  end.

(** A MSG_DATA handed over for the stream [sid] of the client [cc]. *)
Definition is_data (cc sid : Z) (e : Event) : bool :=
  match e with
  | ev_msg c ty s _ => (c =? cc) && (ty =? MSG_DATA) && (s =? u32 sid)
  | _ => false
  end.

(** No MSG_DATA for the stream [sid] of the client [cc] in [t], up to the
    first [close] of the descriptor [cc]; from then on the descriptor may
    stand for another client. *)
Fixpoint no_data_until_close (cc sid : Z) (t : list Event) : bool :=
  match t with
  | [] => true
  | e :: t' =>
    if is_close cc e then true
    else negb (is_data cc sid e) && no_data_until_close cc sid t'
  end.

Lemma no_data_until_close_closed cc sid t l :
  no_data_until_close cc sid t = true -> existsb (is_close cc) t = true ->
  no_data_until_close cc sid (t ++ l) = true.
Proof.
  induction t as [| e t IH]; simpl; [discriminate |].
  destruct (is_close cc e); [reflexivity |]. simpl.
  intros H E. apply andb_true_iff in H. destruct H as [H1 H2].
  rewrite H1. simpl. apply IH; assumption.
Qed.

Lemma no_data_until_close_open cc sid t e :
  no_data_until_close cc sid t = true -> is_data cc sid e = false ->
  no_data_until_close cc sid (t ++ [e]) = true.
Proof.
  intros H He. induction t as [| x t IH]; simpl in *.
  - rewrite He. destruct (is_close cc e); reflexivity.
  - destruct (is_close cc x); [reflexivity |].
    apply andb_true_iff in H. destruct H as [H1 H2].
    rewrite H1. simpl. apply IH, H2.
Qed.

Lemma u32_small x : 0 <= x < 4294967296 -> u32 x = x.
Proof.
  intros H. unfold u32. change 4294967295 with (Z.ones 32).
  rewrite Z.land_ones by lia. apply Z.mod_small. lia.
Qed.

(** The stream [sid] of the client [cc] is at its end: the client is there,
    it handed out [sid] already, and of its channels - whose stream ids it
    handed out - those of the stream [sid] had their EOS from the Amiga. *)
Definition latched (cc sid : Z) (w : World) : Prop :=
  exists k,
    find_connection cc (connections w) = Some k /\
    sid < next_stream_id k <= INT_MAX /\
    forall c, In c (channels w) -> association c = Some cc ->
              0 <= stream_id c < next_stream_id k /\
              (stream_id c = sid -> got_eos_from_ami c = true).

(** Since the trace was [t0]: no data for the stream up to the first
    [close] of the client's descriptor, and while it was not closed the
    stream is at its end. *)
Definition latch (cc sid : Z) (t0 : list Event) (w : World) : Prop :=
  exists t,
    trace w = t0 ++ t /\ no_data_until_close cc sid t = true /\
    (existsb (is_close cc) t = false -> latched cc sid w).

(** Since the trace was [t0] the client's descriptor was closed, with no
    data for the stream before. *)
Definition shut (cc sid : Z) (t0 : list Event) (tr : list Event) : Prop :=
  exists t,
    tr = t0 ++ t /\ no_data_until_close cc sid t = true /\
    existsb (is_close cc) t = true.

Section Latch.
Variables cc sid : Z.
Hypothesis sid_range : 0 <= sid.

Lemma latched_sight w w' : sight w' = sight w -> latched cc sid w -> latched cc sid w'.
Proof.
  unfold sight, latched. intros E H. injection E as E1 E2 _.
  rewrite E1, E2. exact H.
Qed.

Lemma latched_event e : True -> preserves (latched cc sid) (log e).
Proof. intros _ w a w' H HL. run. exact HL. Qed.

Lemma latched_update_cc cc' f :
  mild f -> preserves (latched cc sid) (update_cc cc' f).
Proof.
  intros Hf w a w' H (k & Hk & Hn & Hc). run. unfold latched. proj.
  destruct (Z.eq_dec cc' cc) as [-> | Hne].
  - exists (f k). split.
    + apply find_connection_update_same; [intro; apply Hf | exact Hk].
    + rewrite (proj2 (Hf k)). split; [exact Hn | exact Hc].
  - exists k. split; [| split; [exact Hn | exact Hc]].
    rewrite find_connection_update_other; [exact Hk | intro; apply Hf |].
    intro E. apply Hne. symmetry. exact E.
Qed.

Lemma latched_update_ch ch f :
  gentle f -> preserves (latched cc sid) (update_ch ch f).
Proof.
  intros Hf w a w' H (k & Hk & Hn & Hc). run. exists k. proj.
  split; [exact Hk |]. split; [exact Hn |].
  intros c Hin Ha. unfold update_channel in Hin. apply in_map_iff in Hin.
  destruct Hin as (c0 & <- & Hin0).
  destruct (channel_id c0 =? ch); [| exact (Hc c0 Hin0 Ha)].
  destruct (Hf c0) as [_ [Hnone | (Ea & Es & Ef)]]; [congruence |].
  rewrite Ea in Ha. destruct (Hc c0 Hin0 Ha) as [Hr Hfl].
  rewrite Es. split; [exact Hr |]. intro E. apply Ef, Hfl, E.
Qed.

Lemma latched_channels l w :
  (forall c, In c l -> In c (channels w) \/ association c = None) ->
  latched cc sid w -> latched cc sid (set_channels l w).
Proof.
  intros Hl (k & Hk & Hn & Hc). exists k. proj.
  split; [exact Hk |]. split; [exact Hn |].
  intros c Hin Ha. destruct (Hl c Hin) as [H0 | H0]; [| congruence].
  exact (Hc c H0 Ha).
Qed.

Lemma latched_add_connection f : preserves (latched cc sid) (add_connection f).
Proof.
  intros w a w' H (k & Hk & Hn & Hc). unfold add_connection in H. run.
  exists k. proj. rewrite find_connection_app, Hk.
  split; [reflexivity |]. split; [exact Hn | exact Hc].
Qed.

Lemma latched_associate ch cc' : preserves (latched cc sid) (associate ch cc').
Proof.
  intros w a w' H (k & Hk & Hn & Hc). unfold associate in H.
  apply bind_inv in H. destruct H as (k' & w0 & H0 & H).
  apply deref_cc_inv in H0. destruct H0 as [-> Hk'].
  apply bind_inv in H. destruct H as (u & w1 & H1 & H).
  apply update_ch_inv in H1. subst w1. cbv beta in H.
  destruct (INT_MAX <? next_stream_id k' + 2) eqn:Emax; [discriminate H |].
  apply Z.ltb_ge in Emax.
  apply bind_inv in H. destruct H as (u' & w2 & H2 & H).
  apply update_cc_inv in H2. subst w2. apply ret_inv in H. destruct H as [-> _].
  unfold latched. proj.
  destruct (Z.eq_dec cc' cc) as [-> | Hne].
  - rewrite Hk in Hk'. injection Hk' as <-.
    eexists. split.
    + apply find_connection_update_same; [intro; reflexivity | exact Hk].
    + cbn [next_stream_id set_associations set_next_stream_id].
      split; [lia |].
      intros c Hin Ha. unfold update_channel in Hin. apply in_map_iff in Hin.
      destruct Hin as (c0 & <- & Hin0).
      destruct (channel_id c0 =? ch).
      * cbn [stream_id set_stream_id set_association]. split; lia.
      * destruct (Hc c0 Hin0 Ha) as [Hr Hfl]. split; [lia | exact Hfl].
  - exists k. split.
    + rewrite find_connection_update_other; [exact Hk | intro; reflexivity |].
      intro E. apply Hne. symmetry. exact E.
    + split; [exact Hn |].
      intros c Hin Ha. unfold update_channel in Hin. apply in_map_iff in Hin.
      destruct Hin as (c0 & <- & Hin0).
      destruct (channel_id c0 =? ch); [| exact (Hc c0 Hin0 Ha)].
      cbn [association set_stream_id set_association] in Ha. congruence.
Qed.

Lemma latched_create_and_send_msg cc' ty s data len :
  preserves (latched cc sid) (create_and_send_msg cc' ty s data len).
Proof.
  apply (pass_create_and_send_msg_event (latched cc sid) (fun _ => True));
    first [ exact latched_sight | exact latched_event
          | exact (fun cc f H => latched_update_cc cc f (meek_mild f H))
          | intros; exact I ].
Qed.

Lemma latched_remove_association ch :
  preserves (latched cc sid) (remove_association ch).
Proof.
  apply unlisted_remove_association;
    [exact latched_update_cc | exact latched_update_ch].
Qed.

Variable t0 : list Event.

Lemma shut_grows t e : shut cc sid t0 t -> shut cc sid t0 (t ++ [e]).
Proof.
  intros (t1 & -> & Hn & Hc). exists (t1 ++ [e]).
  split; [symmetry; apply app_assoc |].
  split; [apply no_data_until_close_closed; assumption |].
  rewrite existsb_app, Hc. reflexivity.
Qed.

Lemma latch_of_shut w : on_trace (shut cc sid t0) w -> latch cc sid t0 w.
Proof.
  intros (t & Ht & Hn & Hc). exists t. split; [exact Ht |].
  split; [exact Hn |]. rewrite Hc. discriminate.
Qed.

Lemma latch_sight w w' : sight w' = sight w -> latch cc sid t0 w -> latch cc sid t0 w'.
Proof.
  intros E (t & Ht & Hn & Hc). exists t.
  split; [unfold sight in E; injection E as _ _ E; rewrite E; exact Ht |].
  split; [exact Hn |]. intro Hcl. eapply latched_sight; [exact E | exact (Hc Hcl)].
Qed.

Lemma latch_quiet {A} (m : M A) :
  stable trace m -> preserves (latched cc sid) m -> preserves (latch cc sid t0) m.
Proof.
  intros Hs Hl w a w' H (t & Ht & Hn & Hc). exists t.
  rewrite (Hs _ _ _ H). split; [exact Ht |]. split; [exact Hn |].
  intro E. exact (Hl _ _ _ H (Hc E)).
Qed.

Lemma latch_event e :
  is_data cc sid e = false -> preserves (latch cc sid t0) (log e).
Proof.
  intros He w a w' H (t & Ht & Hn & Hc). run. exists (t ++ [e]). proj.
  split; [rewrite Ht; symmetry; apply app_assoc |].
  split.
  - destruct (existsb (is_close cc) t) eqn:E.
    + apply no_data_until_close_closed; assumption.
    + apply no_data_until_close_open; assumption.
  - rewrite existsb_app. intro E. apply orb_false_iff in E. destruct E as [E _].
    exact (Hc E).
Qed.

Lemma latch_update_cc cc' f :
  mild f -> preserves (latch cc sid t0) (update_cc cc' f).
Proof.
  intros Hf. apply latch_quiet; [stable_tac | apply latched_update_cc, Hf].
Qed.

Lemma latch_update_ch ch f :
  gentle f -> preserves (latch cc sid t0) (update_ch ch f).
Proof.
  intros Hf. apply latch_quiet; [stable_tac | apply latched_update_ch, Hf].
Qed.

Lemma latch_channels l w :
  (forall c, In c l -> In c (channels w) \/ association c = None) ->
  latch cc sid t0 w -> latch cc sid t0 (set_channels l w).
Proof.
  intros Hl (t & Ht & Hn & Hc). exists t. split; [exact Ht |].
  split; [exact Hn |]. intro E. apply latched_channels; [exact Hl | exact (Hc E)].
Qed.

Lemma latch_add_connection f : preserves (latch cc sid t0) (add_connection f).
Proof.
  apply latch_quiet; [unfold add_connection; stable_tac |].
  apply latched_add_connection.
Qed.

Lemma latch_associate ch cc' : preserves (latch cc sid t0) (associate ch cc').
Proof.
  apply latch_quiet; [unfold associate; stable_tac | apply latched_associate].
Qed.

Lemma is_data_sys c : is_data cc sid (ev_sys c) = false.
Proof. reflexivity. Qed.

Lemma is_data_erase c : is_data cc sid (ev_erase c) = false.
Proof. reflexivity. Qed.

Lemma is_data_msg c ty s body :
  ty <> MSG_DATA -> is_data cc sid (ev_msg c ty s body) = false.
Proof.
  intros H. apply Z.eqb_neq in H. cbn [is_data]. rewrite H.
  rewrite andb_false_r. reflexivity.
Qed.

(** The latch: data of a channel whose stream is not at its end is data of
    another stream. *)
Lemma latch_handle_pkt_data cid data plen :
  preserves (latch cc sid t0) (handle_pkt_data cid data plen).
Proof.
  intros w a w' H HL. unfold handle_pkt_data in H.
  apply bind_inv in H. destruct H as (chs & w0 & H0 & H).
  apply gets_inv in H0. destruct H0 as [-> ->].
  destruct (find_channel cid (channels w)) as [ch |] eqn:Ech;
    [| apply ret_inv in H; destruct H as [-> _]; exact HL].
  destruct (association ch) as [cc' |] eqn:Ea;
    [| apply ret_inv in H; destruct H as [-> _]; exact HL].
  destruct (got_eos_from_ami ch) eqn:Ef; cbn [negb] in H;
    [apply ret_inv in H; destruct H as [-> _]; exact HL |].
  destruct HL as (t & Ht & Hn & Hc).
  destruct (existsb (is_close cc) t) eqn:Ecl.
  - apply latch_of_shut.
    refine (lasting_create_and_send_msg (shut cc sid t0) shut_grows
              _ _ _ _ _ _ _ _ H _).
    exists t. auto.
  - assert (HL : latch cc sid t0 w).
    { exists t. split; [exact Ht |]. split; [exact Hn |].
      intros _. exact (Hc eq_refl). }
    refine (pass_create_and_send_msg_event (latch cc sid t0)
              (fun e => is_data cc sid e = false)
              is_data_sys latch_sight latch_event
              (fun cc f H => latch_update_cc cc f (meek_mild f H))
              _ _ _ _ _ _ _ _ _ H HL).
    intros body. cbn [is_data].
    destruct (cc' =? cc) eqn:Ecc; [| reflexivity].
    apply Z.eqb_eq in Ecc. subst cc'.
    destruct (Hc eq_refl) as (k & Hk & Hnx & Hch).
    unfold find_channel in Ech. apply find_some in Ech. destruct Ech as [Hin _].
    destruct (Hch ch Hin Ea) as [Hr Hfl].
    assert (Hne : stream_id ch <> sid).
    { intro E. rewrite (Hfl E) in Ef. discriminate. }
    replace (u32 (stream_id ch) =? u32 sid) with false;
      [rewrite andb_false_r; reflexivity |].
    symmetry. apply Z.eqb_neq.
    rewrite !u32_small; [exact Hne | |]; unfold INT_MAX in *; lia.
Qed.

Lemma latch_remove_association ch :
  preserves (latch cc sid t0) (remove_association ch).
Proof.
  apply unlisted_remove_association;
    [exact latch_update_cc | exact latch_update_ch].
Qed.

Lemma latch_handle_pkt_eos cid : preserves (latch cc sid t0) (handle_pkt_eos cid).
Proof.
  apply (pass_handle_pkt_eos_event (latch cc sid t0)
           (fun e => is_data cc sid e = false));
    first [ exact is_data_sys | exact latch_sight | exact latch_event
          | exact (fun cc f H => latch_update_cc cc f (meek_mild f H))
          | exact latch_update_ch | exact latch_remove_association
          | intros; apply is_data_msg; vm_compute; discriminate ].
Qed.

Lemma latch_close_and_remove_connection cc' :
  preserves (latch cc sid t0) (close_and_remove_connection cc').
Proof.
  intros w a w' H HL. unfold close_and_remove_connection in H.
  apply bind_inv in H. destruct H as (k & w0 & H0 & H).
  apply deref_cc_inv in H0. destruct H0 as [-> Hk].
  pose proof (find_connection_fd _ _ _ Hk) as Hfd. rewrite Hfd in H.
  apply bind_inv in H. destruct H as (u1 & w1 & H1 & H).
  apply (latch_event _ (is_data_sys _) _ _ _ H1) in HL. clear H1.
  apply bind_inv in H. destruct H as (u2 & w2 & H2 & H).
  destruct (Z.eq_dec cc' cc) as [-> | Hne].
  - apply latch_of_shut.
    assert (HS : on_trace (shut cc sid t0) w2).
    { apply log_inv in H2. subst w2. destruct HL as (t & Ht & Hn & _).
      exists (t ++ [ev_sys (c_close cc)]). proj.
      split; [rewrite Ht; symmetry; apply app_assoc |].
      split.
      - destruct (existsb (is_close cc) t) eqn:E.
        + apply no_data_until_close_closed; assumption.
        + apply no_data_until_close_open; [assumption | reflexivity].
      - rewrite existsb_app. cbn [existsb is_close]. rewrite Z.eqb_refl.
        apply orb_true_iff. right. reflexivity. }
    clear HL H2.
    match type of H with
    | ?m _ = Ret _ _ =>
      assert (Q : preserves (on_trace (shut cc sid t0)) m);
        [| exact (Q _ _ _ H HS)]
    end.
    apply preserves_bind; [apply lasting_stable; stable_tac | intro].
    apply preserves_bind; [| intro; apply lasting_stable; stable_tac].
    apply lasting_reset_associations.
  - apply (latch_event _ (is_data_sys _) _ _ _ H2) in HL. clear H2.
    match type of H with
    | ?m _ = Ret _ _ =>
      assert (Q : preserves (latch cc sid t0) m); [| exact (Q _ _ _ H HL)]
    end.
    apply preserves_bind; [| intro].
    { intros w3 a3 w3' H3 HL3. run. eapply latch_sight; [| exact HL3]. reflexivity. }
    apply preserves_bind; [| intro].
    { apply unlisted_reset_associations;
        [exact latch_sight | exact latch_update_cc | exact latch_update_ch]. }
    apply latch_quiet; [stable_tac |].
    intros w3 a3 w3' H3 (k3 & Hk3 & Hn3 & Hc3). run. exists k3. proj.
    rewrite find_connection_erase_other by (intro E; apply Hne; symmetry; exact E).
    split; [exact Hk3 |]. split; [exact Hn3 | exact Hc3].
Qed.

Lemma latch_step w w' : step w w' -> latch cc sid t0 w -> latch cc sid t0 w'.
Proof.
  apply (pass_step_relation (latch cc sid t0) (fun e => is_data cc sid e = false));
    first [ exact is_data_sys | exact is_data_erase
          | exact (fun c ty s body H _ => is_data_msg c ty s body H)
          | exact latch_sight | exact latch_event
          | exact (fun cc f H => latch_update_cc cc f (meek_mild f H))
          | exact latch_update_ch | exact latch_channels
          | exact latch_add_connection | exact latch_associate
          | exact latch_remove_association
          | exact latch_close_and_remove_connection
          | exact latch_handle_pkt_data | exact latch_handle_pkt_eos ].
Qed.

Lemma latch_steps w w' : steps w w' -> latch cc sid t0 w -> latch cc sid t0 w'.
Proof.
  induction 1 as [| w1 w2 _ IH Hs]; intros HL; [exact HL |].
  eapply latch_step; [exact Hs |]. apply IH, HL.
Qed.
End Latch.

(** After its PKT_EOS the stream of a channel is at its end. *)
Lemma handle_pkt_eos_latched w cid ch cc k w1 :
  find_channel cid (channels w) = Some ch ->
  association ch = Some cc -> got_eos_from_ami ch = false ->
  find_connection cc (connections w) = Some k ->
  next_stream_id k <= INT_MAX ->
  (forall c, In c (channels w) -> association c = Some cc ->
             0 <= stream_id c < next_stream_id k /\
             (stream_id c = stream_id ch -> channel_id c = cid)) ->
  handle_pkt_eos cid w = Ret tt w1 ->
  latched cc (stream_id ch) w1.
Proof.
  intros Hc Ha Hf Hk Hmax Hall H.
  assert (Hin : In ch (channels w)).
  { unfold find_channel in Hc. apply find_some in Hc. tauto. }
  destruct (Hall ch Hin Ha) as [Hr _].
  unfold handle_pkt_eos in H.
  apply bind_inv in H. destruct H as (chs & w0 & H0 & H).
  apply gets_inv in H0. destruct H0 as [-> ->].
  rewrite Hc, Ha, Hf in H. cbn [negb] in H.
  apply bind_inv in H. destruct H as (u1 & w2 & H1 & H).
  apply update_ch_inv in H1. subst w2.
  apply bind_inv in H. destruct H as (u2 & w3 & H2 & H).
  assert (L3 : latched cc (stream_id ch) w3).
  { refine (latched_create_and_send_msg _ _ _ _ _ _ _ _ _ _ H2 _).
    exists k. proj. split; [exact Hk |]. split; [lia |].
    intros c Hi Hac. unfold update_channel in Hi. apply in_map_iff in Hi.
    destruct Hi as (c0 & <- & Hi0).
    destruct (channel_id c0 =? cid) eqn:Eid.
    - cbn [association set_got_eos_from_ami] in Hac.
      destruct (Hall c0 Hi0 Hac) as [Hr0 _].
      cbn [stream_id got_eos_from_ami set_got_eos_from_ami]. split; [exact Hr0 | auto].
    - destruct (Hall c0 Hi0 Hac) as [Hr0 Hid]. split; [exact Hr0 |].
      intro E. apply Hid in E. apply Z.eqb_neq in Eid. contradiction. }
  destruct (got_eos_from_client ch); cbn [when] in H.
  - exact (latched_remove_association _ _ _ _ _ _ H L3).
  - apply ret_inv in H. destruct H as [-> _]. exact L3.
Qed.

(** What follows a PKT_EOS: in the steps the daemon takes afterwards no
    MSG_DATA is handed over for the stream, for as long as the descriptor of
    the client is not closed. *)
Lemma no_data_after_eos w cid ch cc k w1 w2 :
  find_channel cid (channels w) = Some ch ->
  association ch = Some cc -> got_eos_from_ami ch = false ->
  find_connection cc (connections w) = Some k ->
  next_stream_id k <= INT_MAX ->
  (forall c, In c (channels w) -> association c = Some cc ->
             0 <= stream_id c < next_stream_id k /\
             (stream_id c = stream_id ch -> channel_id c = cid)) ->
  handle_pkt_eos cid w = Ret tt w1 -> steps w1 w2 ->
  exists t, trace w2 = trace w1 ++ t /\
            no_data_until_close cc (stream_id ch) t = true.
Proof.
  intros Hc Ha Hf Hk Hmax Hall H Hsteps.
  assert (Hin : In ch (channels w)).
  { unfold find_channel in Hc. apply find_some in Hc. tauto. }
  destruct (Hall ch Hin Ha) as [Hr _].
  pose proof (handle_pkt_eos_latched _ _ _ _ _ _ Hc Ha Hf Hk Hmax Hall H) as HL.
  assert (L1 : latch cc (stream_id ch) (trace w1) w1).
  { exists []. split; [symmetry; apply app_nil_r |].
    split; [reflexivity |]. intros _. exact HL. }
  destruct (latch_steps cc (stream_id ch) ltac:(lia) (trace w1) _ _ Hsteps L1)
    as (t & Ht & Hn & _).
  exists t. split; assumption.
Qed.

(** ** The streams of the clients *)

(** The streams are in order: no two clients have the same descriptor; a
    client's next stream id is an [int]; a channel that has a client has a
    stream id the client handed out - one below the client's next stream
    id - and is in the client's list of channels; and two channels of a
    client have different stream ids. *)
Definition streams_ok (w : World) : Prop :=
  NoDup (map fd (connections w)) /\
  (forall cc k, find_connection cc (connections w) = Some k ->
                0 <= next_stream_id k <= INT_MAX) /\
  (forall c cc, In c (channels w) -> association c = Some cc ->
     exists k, find_connection cc (connections w) = Some k /\
               0 <= stream_id c < next_stream_id k /\
               In (channel_id c) (associations k)) /\
  (forall c c' cc, In c (channels w) -> In c' (channels w) ->
     association c = Some cc -> association c' = Some cc ->
     stream_id c = stream_id c' -> channel_id c = channel_id c').

Lemma find_connection_update x cc f l :
  (forall k, fd (f k) = fd k) ->
  find_connection x (update_connection cc f l) =
  match find_connection x l with
  | Some k => Some (if fd k =? cc then f k else k)
  | None => None
  end.
Proof.
  intros Hf. unfold find_connection, update_connection.
  induction l as [| k l IH]; simpl; [reflexivity |].
  assert (E : fd (if fd k =? cc then f k else k) = fd k)
    by (destruct (fd k =? cc); [apply Hf | reflexivity]).
  rewrite E. destruct (fd k =? x); [reflexivity | exact IH].
Qed.

Lemma erase_connection_incl cc l k : In k (erase_connection cc l) -> In k l.
Proof.
  induction l as [| x l IH]; simpl; [tauto |].
  destruct (fd x =? cc); simpl; tauto.
Qed.

Lemma erase_connection_fds cc l :
  NoDup (map fd l) -> NoDup (map fd (erase_connection cc l)).
Proof.
  induction l as [| x l IH]; simpl; intros H; [constructor |].
  inversion H as [| ? ? Hnin Hnd]; subst.
  destruct (fd x =? cc); [exact Hnd |]. simpl. constructor; [| exact (IH Hnd)].
  intro Hin. apply Hnin. apply in_map_iff in Hin.
  destruct Hin as (k & Hk & Hin). apply in_map_iff. exists k.
  split; [exact Hk | eapply erase_connection_incl; exact Hin].
Qed.

(** The record a gentle change was made to. *)
Lemma gentle_origin ch f l c cc :
  gentle f -> In c (update_channel ch f l) -> association c = Some cc ->
  exists c0, In c0 l /\ association c0 = Some cc /\
             stream_id c0 = stream_id c /\ channel_id c0 = channel_id c.
Proof.
  intros Hf Hin Ha. unfold update_channel in Hin. apply in_map_iff in Hin.
  destruct Hin as (c0 & <- & Hin0). exists c0. split; [exact Hin0 |].
  destruct (channel_id c0 =? ch); [| auto].
  destruct (Hf c0) as [Hid [Hnone | (Ea & Es & _)]]; [congruence |].
  rewrite Ea in Ha. auto.
Qed.

Lemma streams_ok_sight w w' : sight w' = sight w -> streams_ok w -> streams_ok w'.
Proof.
  unfold sight, streams_ok. intros E H. injection E as E1 E2 _.
  rewrite E1, E2. exact H.
Qed.

Lemma streams_ok_event e : True -> preserves streams_ok (log e).
Proof. intros _ w a w' H Hok. run. exact Hok. Qed.

Lemma streams_ok_update_cc cc f : meek f -> preserves streams_ok (update_cc cc f).
Proof.
  intros Hf w a w' H (HE & HB & HA & HC). run. unfold streams_ok. proj.
  assert (Hfd : forall k, fd (f k) = fd k) by (intro k; apply Hf).
  split; [rewrite map_fd_update; [exact HE | exact Hfd] |].
  split; [| split; [| exact HC]].
  - intros x k Hk. rewrite (find_connection_update _ _ _ _ Hfd) in Hk.
    destruct (find_connection x (connections w)) as [k1 |] eqn:E1;
      [| discriminate].
    injection Hk as <-. specialize (HB _ _ E1).
    destruct (fd k1 =? cc); [| exact HB].
    destruct (Hf k1) as (_ & -> & _). exact HB.
  - intros c x Hin Ha. destruct (HA c x Hin Ha) as (k1 & Hk1 & Hr & Hl).
    rewrite (find_connection_update _ _ _ _ Hfd), Hk1. eexists.
    split; [reflexivity |].
    destruct (fd k1 =? cc); [| auto].
    destruct (Hf k1) as (_ & -> & ->). auto.
Qed.

Lemma streams_ok_update_ch ch f : gentle f -> preserves streams_ok (update_ch ch f).
Proof.
  intros Hf w a w' H (HE & HB & HA & HC). run. unfold streams_ok. proj.
  split; [exact HE |]. split; [exact HB |]. split.
  - intros c x Hin Ha.
    destruct (gentle_origin _ _ _ _ _ Hf Hin Ha) as (c0 & H0 & Ha0 & Es & Ei).
    rewrite <- Es, <- Ei. exact (HA c0 x H0 Ha0).
  - intros c c' x Hin Hin' Ha Ha' Es.
    destruct (gentle_origin _ _ _ _ _ Hf Hin Ha) as (c0 & H0 & Ha0 & Es0 & Ei0).
    destruct (gentle_origin _ _ _ _ _ Hf Hin' Ha') as (c1 & H1 & Ha1 & Es1 & Ei1).
    rewrite <- Ei0, <- Ei1. apply (HC c0 c1 x); auto. congruence.
Qed.

Lemma streams_ok_channels l w :
  (forall c, In c l -> In c (channels w) \/ association c = None) ->
  streams_ok w -> streams_ok (set_channels l w).
Proof.
  intros Hl (HE & HB & HA & HC). unfold streams_ok. proj.
  split; [exact HE |]. split; [exact HB |]. split.
  - intros c x Hin Ha. destruct (Hl c Hin) as [H0 | H0]; [| congruence].
    exact (HA c x H0 Ha).
  - intros c c' x Hin Hin' Ha Ha' Es.
    destruct (Hl c Hin) as [H0 | H0]; [| congruence].
    destruct (Hl c' Hin') as [H1 | H1]; [| congruence].
    exact (HC c c' x H0 H1 Ha Ha' Es).
Qed.

Lemma streams_ok_add_connection f : preserves streams_ok (add_connection f).
Proof.
  intros w a w' H (HE & HB & HA & HC). unfold add_connection in H.
  apply bind_inv in H. destruct H as (conns & w0 & H0 & H).
  apply gets_inv in H0. destruct H0 as [-> ->].
  destruct (existsb (fun k => fd k =? f) (connections w)) eqn:Eex;
    [discriminate H |].
  apply modify_inv in H. subst w'. unfold streams_ok. proj.
  split; [| split; [| split; [| exact HC]]].
  - apply NoDup_map_app_one; [exact HE |].
    intro Hin. apply in_map_iff in Hin. destruct Hin as (k & Hk & Hin).
    assert (existsb (fun k => fd k =? f) (connections w) = true).
    { apply existsb_exists. exists k. split; [exact Hin |].
      apply Z.eqb_eq. exact Hk. }
    congruence.
  - intros x k Hk. rewrite find_connection_app in Hk.
    destruct (find_connection x (connections w)) as [k1 |] eqn:E1.
    + injection Hk as <-. exact (HB _ _ E1).
    + destruct (fd (new_connection f) =? x); [| discriminate].
      injection Hk as <-. cbn [next_stream_id new_connection]. unfold INT_MAX. lia.
  - intros c x Hin Ha. destruct (HA c x Hin Ha) as (k1 & Hk1 & Hr).
    exists k1. rewrite find_connection_app, Hk1. auto.
Qed.

Lemma streams_ok_associate ch cc : preserves streams_ok (associate ch cc).
Proof.
  intros w a w' H (HE & HB & HA & HC). unfold associate in H.
  apply bind_inv in H. destruct H as (k & w0 & H0 & H).
  apply deref_cc_inv in H0. destruct H0 as [-> Hk].
  apply bind_inv in H. destruct H as (u & w1 & H1 & H).
  apply update_ch_inv in H1. subst w1. cbv beta in H.
  destruct (INT_MAX <? next_stream_id k + 2) eqn:Emax; [discriminate H |].
  apply Z.ltb_ge in Emax.
  apply bind_inv in H. destruct H as (u' & w2 & H2 & H).
  apply update_cc_inv in H2. subst w2. apply ret_inv in H. destruct H as [-> _].
  pose proof (HB _ _ Hk) as Hnk. pose proof (find_connection_fd _ _ _ Hk) as Hfdk.
  set (g := fun k0 => set_associations (associations k0 ++ [ch])
                        (set_next_stream_id (next_stream_id k0 + 2) k0)).
  assert (Hg : forall k0, fd (g k0) = fd k0) by reflexivity.
  assert (Hold : forall c x, In c (channels w) -> association c = Some x ->
            exists k', find_connection x (update_connection cc g (connections w))
                       = Some k' /\
                       0 <= stream_id c < next_stream_id k' /\
                       In (channel_id c) (associations k') /\
                       (x = cc -> stream_id c < next_stream_id k)).
  { intros c x Hin Ha. destruct (HA c x Hin Ha) as (k1 & Hk1 & Hr & Hl).
    rewrite (find_connection_update _ _ _ _ Hg), Hk1. eexists.
    split; [reflexivity |].
    pose proof (find_connection_fd _ _ _ Hk1) as Hfd1.
    destruct (fd k1 =? cc) eqn:Efd.
    - apply Z.eqb_eq in Efd.
      assert (x = cc) by congruence. subst x.
      assert (k1 = k) by congruence. subst k1.
      cbn [next_stream_id associations g set_associations set_next_stream_id].
      split; [lia |]. split; [apply in_or_app; left; exact Hl | intros _; lia].
    - split; [exact Hr |]. split; [exact Hl |].
      intros ->. apply Z.eqb_neq in Efd. contradiction. }
  unfold streams_ok. proj. fold g.
  split; [rewrite map_fd_update; [exact HE | exact Hg] |].
  split; [| split].
  - intros x k0 Hk0. rewrite (find_connection_update _ _ _ _ Hg) in Hk0.
    destruct (find_connection x (connections w)) as [k1 |] eqn:E1;
      [| discriminate].
    injection Hk0 as <-. specialize (HB _ _ E1).
    pose proof (find_connection_fd _ _ _ E1) as Hfd1.
    destruct (fd k1 =? cc) eqn:Efd; [| exact HB].
    apply Z.eqb_eq in Efd.
    assert (x = cc) by congruence. subst x.
    assert (k1 = k) by congruence. subst k1.
    cbn [next_stream_id g set_associations set_next_stream_id]. lia.
  - intros c x Hin Ha. unfold update_channel in Hin. apply in_map_iff in Hin.
    destruct Hin as (c0 & <- & Hin0).
    destruct (channel_id c0 =? ch) eqn:Eid.
    + cbn [association set_stream_id set_association] in Ha. injection Ha as <-.
      rewrite (find_connection_update _ _ _ _ Hg), Hk, Hfdk, Z.eqb_refl.
      eexists. split; [reflexivity |].
      cbn [stream_id channel_id next_stream_id associations g set_stream_id
           set_association set_associations set_next_stream_id].
      split; [lia |]. apply in_or_app. right. left.
      symmetry. apply Z.eqb_eq. exact Eid.
    + destruct (Hold c0 x Hin0 Ha) as (k' & Hk' & Hr & Hl & _).
      exists k'. auto.
  - intros c c' x Hin Hin' Ha Ha' Es.
    unfold update_channel in Hin, Hin'.
    apply in_map_iff in Hin. destruct Hin as (c0 & <- & Hin0).
    apply in_map_iff in Hin'. destruct Hin' as (c1 & <- & Hin1).
    destruct (channel_id c0 =? ch) eqn:Eid0;
      destruct (channel_id c1 =? ch) eqn:Eid1.
    + apply Z.eqb_eq in Eid0, Eid1. cbn [channel_id set_stream_id set_association].
      congruence.
    + cbn [association set_stream_id set_association] in Ha. injection Ha as <-.
      cbn [stream_id set_stream_id set_association] in Es.
      destruct (Hold c1 cc Hin1 Ha') as (_ & _ & _ & _ & Hlt).
      specialize (Hlt eq_refl). lia.
    + cbn [association set_stream_id set_association] in Ha'. injection Ha' as <-.
      cbn [stream_id set_stream_id set_association] in Es.
      destruct (Hold c0 cc Hin0 Ha) as (_ & _ & _ & _ & Hlt).
      specialize (Hlt eq_refl). lia.
    + exact (HC c0 c1 x Hin0 Hin1 Ha Ha' Es).
Qed.

(** The channels of the client [cc] are those of the list [ass]. *)
Definition listed (cc : Z) (ass : list Z) (w : World) : Prop :=
  exists k, find_connection cc (connections w) = Some k /\ associations k = ass.

(** A channel is taken from its client, and from the client's list as far
    as [ass] says. *)
Lemma streams_ok_dissociate ch cc k ass w :
  streams_ok w -> find_connection cc (connections w) = Some k ->
  (forall y, y <> ch -> In y (associations k) -> In y ass) ->
  streams_ok
    (set_connections (update_connection cc (set_associations ass) (connections w))
       (set_channels
          (update_channel ch (fun c => set_stream_id 0 (set_association None c))
             (channels w)) w)).
Proof.
  intros (HE & HB & HA & HC) Hk Hass. unfold streams_ok. proj.
  assert (Hg : forall k0, fd (set_associations ass k0) = fd k0) by reflexivity.
  assert (Hold : forall c x,
            In c (update_channel ch
                    (fun c => set_stream_id 0 (set_association None c))
                    (channels w)) ->
            association c = Some x ->
            In c (channels w) /\ channel_id c <> ch).
  { intros c x Hin Ha. unfold update_channel in Hin. apply in_map_iff in Hin.
    destruct Hin as (c0 & <- & Hin0).
    destruct (channel_id c0 =? ch) eqn:Eid; [discriminate Ha |].
    apply Z.eqb_neq in Eid. auto. }
  split; [rewrite map_fd_update; [exact HE | exact Hg] |].
  split; [| split].
  - intros x k0 Hk0. rewrite (find_connection_update _ _ _ _ Hg) in Hk0.
    destruct (find_connection x (connections w)) as [k1 |] eqn:E1;
      [| discriminate].
    injection Hk0 as <-. specialize (HB _ _ E1).
    destruct (fd k1 =? cc); exact HB.
  - intros c x Hin Ha. destruct (Hold c x Hin Ha) as [Hin0 Hne].
    destruct (HA c x Hin0 Ha) as (k1 & Hk1 & Hr & Hl).
    rewrite (find_connection_update _ _ _ _ Hg), Hk1. eexists.
    split; [reflexivity |].
    pose proof (find_connection_fd _ _ _ Hk1) as Hfd1.
    destruct (fd k1 =? cc) eqn:Efd; [| auto].
    apply Z.eqb_eq in Efd.
    assert (x = cc) by congruence. subst x.
    assert (k1 = k) by congruence. subst k1.
    cbn [next_stream_id associations set_associations].
    split; [exact Hr |]. apply Hass; assumption.
  - intros c c' x Hin Hin' Ha Ha' Es.
    destruct (Hold c x Hin Ha) as [Hin0 _].
    destruct (Hold c' x Hin' Ha') as [Hin1 _].
    exact (HC c c' x Hin0 Hin1 Ha Ha' Es).
Qed.

Lemma streams_ok_remove_association ch : preserves streams_ok (remove_association ch).
Proof.
  intros w a w' H Hok. unfold remove_association in H.
  apply bind_inv in H. destruct H as (c & w0 & H0 & H).
  apply deref_ch_inv in H0. destruct H0 as [-> Hc]. cbv beta in H.
  destruct (association c) as [cc |] eqn:Ea; [| discriminate H].
  apply bind_inv in H. destruct H as (k & w0 & H0 & H).
  apply deref_cc_inv in H0. destruct H0 as [-> Hk]. cbv beta in H.
  destruct (erase_first ch (associations k)) as [ass |] eqn:Ee; [| discriminate H].
  apply bind_inv in H. destruct H as (u & w1 & H1 & H).
  apply update_cc_inv in H1. subst w1. apply update_ch_inv in H. subst w'.
  eapply streams_ok_sight;
    [| apply (streams_ok_dissociate ch cc k ass w Hok Hk)].
  - reflexivity.
  - intros y Hy Hin. exact (proj1 (proj2 (proj2 (erase_first_spec _ _ _ Ee))) y Hy Hin).
Qed.

Lemma listed_stable {A} (m : M A) cc ass :
  stable connections m -> preserves (listed cc ass) m.
Proof.
  intros Hm w a w' H (k & Hk & Hl). exists k. rewrite (Hm _ _ _ H). auto.
Qed.

Lemma streams_ok_reset_associations cc ass :
  hoare (fun w => streams_ok w /\ listed cc ass w) (reset_associations cc ass)
    (fun _ w => streams_ok w /\ listed cc [] w).
Proof.
  induction ass as [| ch rest IH]; simpl.
  - intros w a w' H HP. apply ret_inv in H. destruct H as [-> _]. exact HP.
  - eapply hoare_bind.
    { apply preserves_and.
      - apply pass_clear_packet_queue;
          [exact streams_ok_sight | exact streams_ok_update_ch].
      - apply listed_stable. unfold clear_packet_queue. stable_tac. }
    intros ?. cbv beta.
    eapply hoare_bind.
    { apply preserves_and.
      - apply pass_create_and_enqueue_packet;
          [exact streams_ok_sight | exact streams_ok_update_ch].
      - apply listed_stable. unfold create_and_enqueue_packet. stable_tac. }
    intros ?. cbv beta.
    intros w r w' H [Hok (k & Hk & Hl)].
    apply bind_inv in H. destruct H as (u1 & w1 & H1 & H).
    apply update_ch_inv in H1. subst w1.
    apply bind_inv in H. destruct H as (u2 & w2 & H2 & H).
    apply update_cc_inv in H2. subst w2.
    apply (IH _ _ _ H). clear H. split.
    + eapply streams_ok_sight;
        [| apply (streams_ok_dissociate ch cc k rest w Hok Hk)].
      * reflexivity.
      * intros y Hy Hin. rewrite Hl in Hin. destruct Hin as [E | Hin];
          [congruence | exact Hin].
    + exists (set_associations rest k). proj.
      split; [| reflexivity].
      apply find_connection_update_same; [intro; reflexivity | exact Hk].
Qed.

Lemma streams_ok_close_and_remove_connection cc :
  preserves streams_ok (close_and_remove_connection cc).
Proof.
  intros w a w' H Hok. unfold close_and_remove_connection in H.
  apply bind_inv in H. destruct H as (k & w0 & H0 & H).
  apply deref_cc_inv in H0. destruct H0 as [-> Hk].
  apply bind_inv in H. destruct H as (u1 & w1 & H1 & H).
  apply log_inv in H1. subst w1.
  apply bind_inv in H. destruct H as (u2 & w2 & H2 & H).
  apply log_inv in H2. subst w2.
  apply bind_inv in H. destruct H as (u3 & w3 & H3 & H).
  apply modify_inv in H3. subst w3.
  apply bind_inv in H. destruct H as (u4 & w4 & H4 & H).
  apply modify_inv in H. subst w'.
  destruct (streams_ok_reset_associations _ _ _ _ _ H4)
    as [(HE & HB & HA & HC) (k' & Hk' & Hl)].
  { split.
    - unfold streams_ok. proj. exact Hok.
    - exists k. proj. auto. }
  unfold streams_ok. proj.
  split; [apply erase_connection_fds; exact HE |].
  split; [| split; [| exact HC]].
  - intros x k0 Hk0. destruct (Z.eq_dec x cc) as [-> | Hne].
    + rewrite find_connection_erase in Hk0 by exact HE. discriminate.
    + rewrite find_connection_erase_other in Hk0 by exact Hne.
      exact (HB _ _ Hk0).
  - intros c x Hin Ha. destruct (HA c x Hin Ha) as (k1 & Hk1 & Hr & Hin1).
    destruct (Z.eq_dec x cc) as [-> | Hne].
    + assert (k1 = k') by congruence. subst k1. rewrite Hl in Hin1.
      destruct Hin1.
    + exists k1. rewrite find_connection_erase_other by exact Hne. auto.
Qed.

Lemma streams_ok_handle_pkt_data cid data plen :
  preserves streams_ok (handle_pkt_data cid data plen).
Proof.
  unfold handle_pkt_data.
  apply preserves_bind; [apply preserves_gets | intro chs].
  destruct (find_channel cid chs) as [ch |]; [| apply preserves_ret].
  destruct (association ch); [| apply preserves_ret].
  destruct (negb (got_eos_from_ami ch)); [| apply preserves_ret].
  apply (pass_create_and_send_msg_event streams_ok (fun _ => True));
    first [ exact streams_ok_sight | exact streams_ok_event
          | exact streams_ok_update_cc | intros; exact I ].
Qed.

Lemma streams_ok_handle_pkt_eos cid : preserves streams_ok (handle_pkt_eos cid).
Proof.
  apply (pass_handle_pkt_eos_event streams_ok (fun _ => True));
    first [ exact streams_ok_sight | exact streams_ok_event
          | exact streams_ok_update_cc | exact streams_ok_update_ch
          | exact streams_ok_remove_association | intros; exact I ].
Qed.

Lemma streams_ok_step w w' : step w w' -> streams_ok w -> streams_ok w'.
Proof.
  apply (pass_step_relation streams_ok (fun _ => True));
    first [ exact streams_ok_sight | exact streams_ok_event
          | exact streams_ok_update_cc | exact streams_ok_update_ch
          | exact streams_ok_channels | exact streams_ok_add_connection
          | exact streams_ok_associate | exact streams_ok_remove_association
          | exact streams_ok_close_and_remove_connection
          | exact streams_ok_handle_pkt_data | exact streams_ok_handle_pkt_eos
          | intros; exact I ].
Qed.

(** The streams are in order in every world the daemon can reach. *)
Lemma reachable_streams_ok w : reachable w -> streams_ok w.
Proof.
  induction 1 as [on_demand scr | w w' _ IH Hstep].
  - unfold streams_ok. simpl. repeat split; try constructor;
      try discriminate; intros; contradiction.
  - eapply streams_ok_step; eauto.
Qed.

(** What follows a PKT_EOS in a world the daemon can reach. *)
Lemma no_data_after_eos_reachable w cid ch cc w1 w2 :
  reachable w ->
  find_channel cid (channels w) = Some ch ->
  association ch = Some cc -> got_eos_from_ami ch = false ->
  handle_pkt_eos cid w = Ret tt w1 -> steps w1 w2 ->
  exists t, trace w2 = trace w1 ++ t /\
            no_data_until_close cc (stream_id ch) t = true.
Proof.
  intros Hr Hc Ha Hf H Hsteps.
  destruct (reachable_streams_ok w Hr) as (HE & HB & HA & HC).
  assert (Hin : In ch (channels w)).
  { unfold find_channel in Hc. apply find_some in Hc. tauto. }
  destruct (HA ch cc Hin Ha) as (k & Hk & Hrg & _).
  refine (no_data_after_eos w cid ch cc k w1 w2 Hc Ha Hf Hk _ _ H Hsteps).
  - exact (proj2 (HB _ _ Hk)).
  - intros c Hinc Hac. destruct (HA c cc Hinc Hac) as (k1 & Hk1 & Hr1 & _).
    assert (k1 = k) by congruence. subst k1. split; [exact Hr1 |].
    intro Es. rewrite (HC c ch cc Hinc Hin Hac Ha Es).
    apply find_channel_id in Hc. exact Hc.
Qed.

(** ** The end of a stream in the trace *)

(** Reading a trace: the streams that had their MSG_EOS, as pairs of the
    descriptor of a client and a stream id, and whether no MSG_DATA was
    handed over for one of them so far.  The [close] of a descriptor ends
    the streams of its client: from then on the descriptor can stand for
    another client. *)
Definition same_stream (cc s : Z) (p : Z * Z) : bool :=
  (fst p =? cc) && (snd p =? s).

Definition note (st : list (Z * Z) * bool) (e : Event) : list (Z * Z) * bool :=
  match e with
  | ev_msg cc ty s _ =>
    if ty =? MSG_EOS then ((cc, s) :: fst st, snd st)
    else if ty =? MSG_DATA
         then (fst st, snd st && negb (existsb (same_stream cc s) (fst st)))
         else st
  | ev_sys (c_close f) => (filter (fun p => negb (fst p =? f)) (fst st), snd st)
  | _ => st
  end.

Definition eos_state (t : list Event) : list (Z * Z) * bool :=
  fold_left note t ([], true).

(** The streams at their end. *)
Definition ended (t : list Event) : list (Z * Z) := fst (eos_state t).

(** No MSG_DATA was handed over for a stream after its MSG_EOS. *)
Definition eos_kept (t : list Event) : bool := snd (eos_state t).

Lemma eos_state_snoc t e : eos_state (t ++ [e]) = note (eos_state t) e.
Proof. unfold eos_state. rewrite fold_left_app. reflexivity. Qed.

(** The events that neither end a stream nor carry data. *)
Definition calm (e : Event) : Prop :=
  match e with
  | ev_msg _ ty _ _ => ty <> MSG_DATA /\ ty <> MSG_EOS
  | _ => True
  end.

(** The streams are in order, no data followed a MSG_EOS, and the streams
    that had their MSG_EOS are at their end. *)
Definition eos_ok (w : World) : Prop :=
  streams_ok w /\ eos_kept (trace w) = true /\
  forall cc s, In (cc, s) (ended (trace w)) -> 0 <= s /\ latched cc s w.

Lemma latched_frame cc s w w' :
  connections w' = connections w -> channels w' = channels w ->
  latched cc s w -> latched cc s w'.
Proof. unfold latched. intros -> ->. auto. Qed.

Lemma streams_ok_frame w w' :
  connections w' = connections w -> channels w' = channels w ->
  streams_ok w -> streams_ok w'.
Proof. unfold streams_ok. intros -> ->. auto. Qed.

Lemma eos_ok_sight w w' : sight w' = sight w -> eos_ok w -> eos_ok w'.
Proof.
  intros E (Hs & Hk & Hl). unfold sight in E. injection E as E1 E2 E3.
  split; [exact (streams_ok_frame _ _ E1 E2 Hs) |]. rewrite E3.
  split; [exact Hk |]. intros cc s Hin. destruct (Hl cc s Hin) as [H0 H1].
  split; [exact H0 | exact (latched_frame _ _ _ _ E1 E2 H1)].
Qed.

Lemma eos_ok_quiet {A} (m : M A) :
  stable trace m -> preserves streams_ok m ->
  (forall cc s, 0 <= s -> preserves (latched cc s) m) ->
  preserves eos_ok m.
Proof.
  intros Ht Hm Hlm w a w' H (Hs & Hk & Hl).
  split; [exact (Hm _ _ _ H Hs) |]. rewrite (Ht _ _ _ H).
  split; [exact Hk |]. intros cc s Hin. destruct (Hl cc s Hin) as [H0 H1].
  split; [exact H0 | exact (Hlm cc s H0 _ _ _ H H1)].
Qed.

Lemma eos_ok_event e : calm e -> preserves eos_ok (log e).
Proof.
  intros He w a w' H (Hs & Hk & Hl). run. unfold eos_ok. proj.
  split; [exact Hs |]. unfold eos_kept, ended in *. rewrite eos_state_snoc.
  assert (Hsame : note (eos_state (trace w)) e = eos_state (trace w) ->
            snd (note (eos_state (trace w)) e) = true /\
            forall cc s, In (cc, s) (fst (note (eos_state (trace w)) e)) ->
                         0 <= s /\ latched cc s
                                     (set_trace (trace w ++ [e]) w)).
  { intros ->. split; [exact Hk |]. intros cc s Hin.
    destruct (Hl cc s Hin) as [H0 H1]. split; [exact H0 | exact H1]. }
  destruct e as [c | cc ty s body | c].
  - destruct c; try (apply Hsame; reflexivity).
    cbn [note fst snd]. split; [exact Hk |].
    intros cc s Hin. apply filter_In in Hin. destruct Hin as [Hin _].
    destruct (Hl cc s Hin) as [H0 H1]. split; [exact H0 | exact H1].
  - apply Hsame. destruct He as [H1 H2].
    apply Z.eqb_neq in H1, H2. cbn [note]. rewrite H1, H2. reflexivity.
  - apply Hsame. reflexivity.
Qed.

Lemma eos_ok_update_cc cc f : meek f -> preserves eos_ok (update_cc cc f).
Proof.
  intros Hf. apply eos_ok_quiet; [stable_tac | apply streams_ok_update_cc, Hf |].
  intros x s _. apply latched_update_cc, meek_mild, Hf.
Qed.

Lemma eos_ok_update_ch ch f : gentle f -> preserves eos_ok (update_ch ch f).
Proof.
  intros Hf. apply eos_ok_quiet; [stable_tac | apply streams_ok_update_ch, Hf |].
  intros x s _. apply latched_update_ch, Hf.
Qed.

Lemma eos_ok_channels l w :
  (forall c, In c l -> In c (channels w) \/ association c = None) ->
  eos_ok w -> eos_ok (set_channels l w).
Proof.
  intros Hin (Hs & Hk & Hl).
  split; [exact (streams_ok_channels _ _ Hin Hs) |]. split; [exact Hk |].
  intros cc s Hi. destruct (Hl cc s Hi) as [H0 H1].
  split; [exact H0 | exact (latched_channels _ _ _ _ Hin H1)].
Qed.

Lemma eos_ok_add_connection f : preserves eos_ok (add_connection f).
Proof.
  apply eos_ok_quiet;
    [unfold add_connection; stable_tac | apply streams_ok_add_connection |].
  intros x s _. apply latched_add_connection.
Qed.

Lemma eos_ok_associate ch cc : preserves eos_ok (associate ch cc).
Proof.
  apply eos_ok_quiet;
    [unfold associate; stable_tac | apply streams_ok_associate |].
  intros x s Hs. apply latched_associate, Hs.
Qed.

Lemma eos_ok_remove_association ch : preserves eos_ok (remove_association ch).
Proof.
  apply eos_ok_quiet;
    [unfold remove_association; stable_tac
    | apply streams_ok_remove_association |].
  intros x s _. apply latched_remove_association.
Qed.

(** When a client is closed its streams are streams no more. *)
Lemma eos_ok_close_and_remove_connection cc :
  preserves eos_ok (close_and_remove_connection cc).
Proof.
  intros w a w' H Hok.
  pose proof (streams_ok_close_and_remove_connection cc _ _ _ H (proj1 Hok)) as Hs'.
  unfold close_and_remove_connection in H.
  apply bind_inv in H. destruct H as (k & w0 & H0 & H).
  apply deref_cc_inv in H0. destruct H0 as [-> Hk].
  pose proof (find_connection_fd _ _ _ Hk) as Hfd. rewrite Hfd in H.
  apply bind_inv in H. destruct H as (u1 & w1 & H1 & H).
  apply (eos_ok_event (ev_sys (c_shutdown cc SHUT_WR)) I _ _ _ H1) in Hok.
  clear H1.
  apply bind_inv in H. destruct H as (u2 & w2 & H2 & H).
  apply log_inv in H2.
  assert (Q : eos_kept (trace w2) = true /\
              forall x s, In (x, s) (ended (trace w2)) ->
                          x <> cc /\ 0 <= s /\ latched x s w2).
  { destruct Hok as (_ & Hk1 & Hl1). subst w2. proj.
    unfold eos_kept, ended in *. rewrite eos_state_snoc. cbn [note fst snd].
    split; [exact Hk1 |].
    intros x s Hin. apply filter_In in Hin. destruct Hin as [Hin Hne].
    cbn [fst] in Hne. apply negb_true_iff, Z.eqb_neq in Hne.
    destruct (Hl1 x s Hin) as [Hr Hla]. auto. }
  clear Hok H2. destruct Q as [Qk Ql].
  assert (Kr : forall ass, stable trace (reset_associations cc ass)).
  { induction ass as [| ch rest IH]; simpl;
      unfold clear_packet_queue, create_and_enqueue_packet; stable_tac. }
  assert (Ht : trace w' = trace w2).
  { revert H.
    match goal with
    | |- ?m w2 = Ret a w' -> _ =>
      assert (K : stable trace m) by stable_tac; exact (K w2 a w')
    end. }
  clear Kr.
  split; [exact Hs' |]. rewrite Ht. split; [exact Qk |].
  intros x s Hin. destruct (Ql x s Hin) as (Hne & Hr & Hla).
  split; [exact Hr |]. revert H Hla.
  match goal with
  | |- ?m w2 = Ret a w' -> _ =>
    assert (K : preserves (latched x s) m); [| exact (K w2 a w')]
  end.
  apply preserves_bind; [| intro].
  { intros v b v' Hv Hlv. run. exact Hlv. }
  apply preserves_bind; [| intro].
  { apply unlisted_reset_associations;
      [apply latched_sight | apply latched_update_cc | apply latched_update_ch]. }
  intros v b v' Hv (k3 & Hk3 & Hn3 & Hc3). run. exists k3. proj.
  rewrite find_connection_erase_other by exact Hne.
  split; [exact Hk3 |]. split; [exact Hn3 | exact Hc3].
Qed.

Lemma eos_ok_create_and_send_msg cc ty sid data len :
  u8 ty <> MSG_DATA -> u8 ty <> MSG_EOS ->
  preserves eos_ok (create_and_send_msg cc ty sid data len).
Proof.
  intros H1 H2.
  apply (pass_create_and_send_msg_event eos_ok calm);
    first [ exact eos_ok_sight | exact eos_ok_event | exact eos_ok_update_cc
          | intros; exact I | idtac ].
  intros body. split; assumption.
Qed.

(** An [int] that is no less than 0 is the same as an [uint32_t]. *)
Lemma streams_ok_stream_id w c cc :
  streams_ok w -> In c (channels w) -> association c = Some cc ->
  u32 (stream_id c) = stream_id c /\ 0 <= stream_id c.
Proof.
  intros (_ & HB & HA & _) Hin Ha. destruct (HA c cc Hin Ha) as (k & Hk & Hr & _).
  pose proof (HB _ _ Hk) as Hn. unfold INT_MAX in Hn.
  split; [apply u32_small; lia | lia].
Qed.

(** The latch in the trace: data is handed over only for a channel that had
    no EOS from the Amiga, and a stream at its end has no such channel. *)
Lemma eos_ok_handle_pkt_data cid data plen :
  preserves eos_ok (handle_pkt_data cid data plen).
Proof.
  intros w a w' H Hok. unfold handle_pkt_data in H.
  apply bind_inv in H. destruct H as (chs & w0 & H0 & H).
  apply gets_inv in H0. destruct H0 as [-> ->].
  destruct (find_channel cid (channels w)) as [ch |] eqn:Ech;
    [| apply ret_inv in H; destruct H as [-> _]; exact Hok].
  destruct (association ch) as [cc |] eqn:Ea;
    [| apply ret_inv in H; destruct H as [-> _]; exact Hok].
  destruct (got_eos_from_ami ch) eqn:Ef; cbn [negb] in H;
    [apply ret_inv in H; destruct H as [-> _]; exact Hok |].
  assert (Hin : In ch (channels w)).
  { unfold find_channel in Ech. apply find_some in Ech. tauto. }
  destruct (streams_ok_stream_id w ch cc (proj1 Hok) Hin Ea) as [Hu Hr].
  (* the event of this message changes nothing in the reading of the trace *)
  assert (Hev : forall body v, eos_ok v -> trace v = trace w ->
                  connections v = connections w -> channels v = channels w ->
                  eos_ok (set_trace
                            (trace v ++ [ev_msg cc (u8 MSG_DATA)
                                           (u32 (stream_id ch)) body]) v)).
  { intros body v (Hs & Hk & Hl) Et Ec Eh. unfold eos_ok. proj.
    split; [exact Hs |]. unfold eos_kept, ended in *. rewrite eos_state_snoc.
    assert (Hnot : existsb (same_stream cc (u32 (stream_id ch)))
                     (fst (eos_state (trace v))) = false).
    { apply not_true_is_false. intro Hex. apply existsb_exists in Hex.
      destruct Hex as ([x s] & Hi & Hsame). unfold same_stream in Hsame.
      cbn [fst snd] in Hsame. apply andb_true_iff in Hsame.
      destruct Hsame as [E1 E2]. apply Z.eqb_eq in E1, E2. subst x s.
      destruct (Hl _ _ Hi) as [_ (k & Hk1 & Hn1 & Hc1)].
      rewrite Eh in Hc1. destruct (Hc1 ch Hin Ea) as [_ Hflag].
      rewrite Hflag in Ef by (symmetry; exact Hu). discriminate. }
    change (u8 MSG_DATA) with MSG_DATA. cbn [note].
    change (MSG_DATA =? MSG_EOS) with false. rewrite Z.eqb_refl. cbv iota.
    cbn [fst snd]. rewrite Hnot, Hk. split; [reflexivity |].
    intros x s Hi. destruct (Hl x s Hi) as [H0 H1].
    split; [exact H0 | exact H1]. }
  unfold create_and_send_msg in H.
  destruct (plen <? 0); [discriminate H |].
  apply bind_inv in H. destruct H as (body & w1 & H1 & H).
  apply resize_and_copy_inv in H1. subst w1.
  apply bind_inv in H. destruct H as (u & w2 & H2 & H).
  apply log_inv in H2. subst w2.
  specialize (Hev body w Hok eq_refl eq_refl eq_refl).
  revert H Hev.
  match goal with
  | |- ?m ?v = Ret a w' -> _ =>
    assert (K : preserves eos_ok m); [| exact (K v a w')]
  end.
  apply preserves_bind; [apply pass_deref_cc | intro k].
  assert (Hpush : forall mb, preserves eos_ok (push_message cc mb)).
  { intro mb. apply pass_push_message. exact eos_ok_update_cc. }
  destruct (message_queue k); [| apply Hpush].
  apply preserves_fueled. intro fuel.
  apply (pass_send_loop eos_ok calm);
    first [ exact eos_ok_sight | exact eos_ok_event | exact eos_ok_update_cc
          | intros; exact I ].
Qed.

(** The flag and the message of a PKT_EOS: when the MSG_EOS is handed over
    the stream is at its end. *)
Lemma eos_ok_handle_pkt_eos cid : preserves eos_ok (handle_pkt_eos cid).
Proof.
  intros w a w' H Hok. unfold handle_pkt_eos in H.
  apply bind_inv in H. destruct H as (chs & w0 & H0 & H).
  apply gets_inv in H0. destruct H0 as [-> ->].
  destruct (find_channel cid (channels w)) as [ch |] eqn:Ech;
    [| apply ret_inv in H; destruct H as [-> _]; exact Hok].
  destruct (association ch) as [cc |] eqn:Ea;
    [| apply ret_inv in H; destruct H as [-> _]; exact Hok].
  destruct (got_eos_from_ami ch) eqn:Ef; cbn [negb] in H;
    [apply ret_inv in H; destruct H as [-> _]; exact Hok |].
  assert (Hin : In ch (channels w)).
  { unfold find_channel in Ech. apply find_some in Ech. tauto. }
  destruct (streams_ok_stream_id w ch cc (proj1 Hok) Hin Ea) as [Hu Hr].
  apply bind_inv in H. destruct H as (u1 & w1 & H1 & H).
  (* with the flag set the stream is at its end *)
  assert (L1 : eos_ok w1 /\ latched cc (stream_id ch) w1).
  { split; [refine (eos_ok_update_ch _ _ _ _ _ _ H1 Hok); gentle_tac |].
    apply update_ch_inv in H1. subst w1.
    destruct Hok as ((HE & HB & HA & HC) & _).
    destruct (HA ch cc Hin Ea) as (k & Hk & Hrg & _).
    exists k. proj. split; [exact Hk |].
    split; [split; [lia | exact (proj2 (HB _ _ Hk))] |].
    intros c Hi Hac. unfold update_channel in Hi. apply in_map_iff in Hi.
    destruct Hi as (c0 & <- & Hi0).
    destruct (channel_id c0 =? cid) eqn:Eid.
    - cbn [association set_got_eos_from_ami] in Hac.
      destruct (HA c0 cc Hi0 Hac) as (k0 & Hk0 & Hr0 & _).
      assert (k0 = k) by congruence. subst k0.
      cbn [stream_id got_eos_from_ami set_got_eos_from_ami]. auto.
    - destruct (HA c0 cc Hi0 Hac) as (k0 & Hk0 & Hr0 & _).
      assert (k0 = k) by congruence. subst k0. split; [exact Hr0 |].
      intro E. pose proof (HC c0 ch cc Hi0 Hin Hac Ea E) as Hid.
      apply find_channel_id in Ech. apply Z.eqb_neq in Eid. congruence. }
  clear H1 Hok.
  apply bind_inv in H. destruct H as (u2 & w2 & H2 & H).
  assert (L2 : eos_ok w2 /\ latched cc (stream_id ch) w2).
  { split; [| exact (latched_create_and_send_msg _ _ _ _ _ _ _ _ _ _ H2 (proj2 L1))].
    clear H. unfold create_and_send_msg in H2.
    change (0 <? 0) with false in H2. cbv iota in H2.
    apply bind_inv in H2. destruct H2 as (body & w3 & H3 & H2).
    apply resize_and_copy_inv in H3. subst w3.
    apply bind_inv in H2. destruct H2 as (u & w4 & H4 & H2).
    apply log_inv in H4. subst w4.
    assert (Hev : eos_ok (set_trace
                            (trace w1 ++ [ev_msg cc (u8 MSG_EOS)
                                            (u32 (stream_id ch)) body]) w1)).
    { destruct L1 as [(Hs & Hk & Hl) Hla]. unfold eos_ok. proj.
      split; [exact Hs |]. unfold eos_kept, ended in *. rewrite eos_state_snoc.
      change (u8 MSG_EOS) with MSG_EOS. cbn [note]. rewrite Z.eqb_refl.
      cbn [fst snd]. split; [exact Hk |].
      intros x s [E | Hi].
      - injection E as <- <-. rewrite Hu. split; [exact Hr | exact Hla].
      - destruct (Hl x s Hi) as [H0 H1']. split; [exact H0 | exact H1']. }
    revert H2 Hev.
    match goal with
    | |- ?m ?v = Ret u2 w2 -> _ =>
      assert (K : preserves eos_ok m); [| exact (K v u2 w2)]
    end.
    apply preserves_bind; [apply pass_deref_cc | intro k].
    assert (Hpush : forall mb, preserves eos_ok (push_message cc mb)).
    { intro mb. apply pass_push_message. exact eos_ok_update_cc. }
    destruct (message_queue k); [| apply Hpush].
    apply preserves_fueled. intro fuel.
    apply (pass_send_loop eos_ok calm);
      first [ exact eos_ok_sight | exact eos_ok_event | exact eos_ok_update_cc
            | intros; exact I ]. }
  destruct (got_eos_from_client ch); cbn [when] in H.
  - exact (eos_ok_remove_association _ _ _ _ H (proj1 L2)).
  - apply ret_inv in H. destruct H as [-> _]. exact (proj1 L2).
Qed.

Lemma eos_ok_step w w' : step w w' -> eos_ok w -> eos_ok w'.
Proof.
  apply (pass_step_relation eos_ok calm);
    first [ exact eos_ok_sight | exact eos_ok_event | exact eos_ok_update_cc
          | exact eos_ok_update_ch | exact eos_ok_channels
          | exact eos_ok_add_connection | exact eos_ok_associate
          | exact eos_ok_remove_association
          | exact eos_ok_close_and_remove_connection
          | exact eos_ok_handle_pkt_data | exact eos_ok_handle_pkt_eos
          | intros; exact I | idtac ].
  intros cc ty sid body H1 H2. split; assumption.
Qed.

(** In every world the daemon can reach, no MSG_DATA was handed over for a
    stream after its MSG_EOS. *)
Lemma reachable_eos_ok w : reachable w -> eos_ok w.
Proof.
  induction 1 as [on_demand scr | w w' Hr IH Hstep].
  - split; [apply (reachable_streams_ok _ (reach_init on_demand scr)) |].
    split; [reflexivity |]. intros cc s [].
  - eapply eos_ok_step; eauto.
Qed.

(** C5, as the code has it.  A PKT_EOS on a channel that has a client and had
    no EOS from the Amiga yet sets [got_eos_from_ami], hands MSG_EOS to the
    client and dissociates the channel exactly when [got_eos_from_client] was
    set; afterwards [handle_pkt_data] sends nothing for the channel.  A
    PKT_EOS on a channel without a client, or a second PKT_EOS, is ignored.
    And the end lasts: when the PKT_EOS came in a world the daemon can reach,
    then in whatever steps the daemon takes afterwards no MSG_DATA is handed
    over for the stream of the channel, up to the [close] of the client's
    descriptor, from when on the descriptor can stand for another client.
    So that in the trace of every world the daemon can reach no MSG_DATA for
    a stream of a client follows the MSG_EOS for that stream, unless the
    descriptor of the client was closed in between. *)
Theorem eos_from_remote :
  (forall w cid ch cc k,
     find_channel cid (channels w) = Some ch ->
     association ch = Some cc -> got_eos_from_ami ch = false ->
     find_connection cc (connections w) = Some k -> In cid (associations k) ->
     match handle_pkt_eos cid w with
     | Ret _ w' =>
       messages (trace w') =
         messages (trace w) ++ [(cc, MSG_EOS, u32 (stream_id ch), [])] /\
       (exists ch', find_channel cid (channels w') = Some ch' /\
                    got_eos_from_ami ch' = true /\
                    (association ch' = None <-> got_eos_from_client ch = true) /\
                    (got_eos_from_client ch = false -> association ch' = Some cc)) /\
       (forall data plen, handle_pkt_data cid data plen w' = Ret tt w')
     | Exit _ _ => True
     | Fault => False
     | Stuck => True
     end) /\
  (forall w cid ch,
     find_channel cid (channels w) = Some ch ->
     association ch = None \/ got_eos_from_ami ch = true ->
     handle_pkt_eos cid w = Ret tt w) /\
  (forall w cid ch data plen,
     find_channel cid (channels w) = Some ch -> got_eos_from_ami ch = true ->
     handle_pkt_data cid data plen w = Ret tt w) /\
  (forall w cid ch cc w1 w2,
     reachable w ->
     find_channel cid (channels w) = Some ch ->
     association ch = Some cc -> got_eos_from_ami ch = false ->
     handle_pkt_eos cid w = Ret tt w1 -> steps w1 w2 ->
     exists t, trace w2 = trace w1 ++ t /\
               no_data_until_close cc (stream_id ch) t = true) /\
  (forall w, reachable w -> eos_kept (trace w) = true).
Proof.
  split; [| split; [| split; [| split]]].
  - intros w cid ch cc k Hc Ha Hf Hk Hin.
    unfold handle_pkt_eos. unfold bind at 1. unfold gets at 1.
    rewrite Hc, Ha, Hf. cbn [negb].
    erewrite bind_ret_eq by reflexivity.
    set (w1 := set_channels
                 (update_channel cid (set_got_eos_from_ami true) (channels w)) w).
    assert (Hc1 : find_channel cid (channels w1) = Some (set_got_eos_from_ami true ch)).
    { unfold w1. proj. rewrite find_channel_update by reflexivity.
      rewrite Z.eqb_refl, Hc. reflexivity. }
    unfold bind at 1.
    destruct (create_and_send_msg cc MSG_EOS (stream_id ch) nullptr 0 w1)
      as [u w2 | | |] eqn:E; try exact I.
    + destruct (create_and_send_msg_ret _ _ _ _ _ _ _ _ E)
        as (body & B1 & B2 & B3 & B4 & B5).
      injection B1 as <-.
      unfold core in B2. injection B2 as _ Hch2 _.
      assert (Hc2 : find_channel cid (channels w2) = Some (set_got_eos_from_ami true ch))
        by (rewrite Hch2; exact Hc1).
      destruct (got_eos_from_client ch) eqn:Ecl; cbn [when].
      * destruct (find_connection_skel cc _ _ k B3 Hk) as (k' & Hk' & Hsk).
        assert (Hass : associations k' = associations k)
          by (unfold skel in Hsk; congruence).
        destruct (erase_first_in cid (associations k') ltac:(rewrite Hass; exact Hin))
          as (ass & Hass').
        rewrite (remove_association_eq cid w2 _ cc k' ass Hc2 Ha Hk' Hass').
        proj. split; [exact B4 |].
        assert (Hc3 : find_channel cid
                  (update_channel cid
                     (fun c => set_stream_id 0 (set_association None c))
                     (channels w2)) =
                  Some (set_stream_id 0 (set_association None
                          (set_got_eos_from_ami true ch)))).
        { rewrite find_channel_update by reflexivity.
          rewrite Z.eqb_refl, Hc2. reflexivity. }
        split.
        { eexists. split; [exact Hc3 |]. simpl.
          repeat split; auto. discriminate. }
        intros data plen. eapply handle_pkt_data_latched; [proj; exact Hc3 | reflexivity].
      * unfold ret. split; [exact B4 |]. split.
        { eexists. split; [exact Hc2 |]. simpl. rewrite Ha.
          repeat split; auto; discriminate. }
        intros data plen. eapply handle_pkt_data_latched; [exact Hc2 | reflexivity].
    + apply (create_and_send_msg_no_fault cc MSG_EOS (stream_id ch) nullptr 0 w1 k [])
        in E; [exact E | exact Hk | lia | reflexivity].
  - intros w cid ch Hc Hcond. unfold handle_pkt_eos, bind, gets. rewrite Hc.
    destruct Hcond as [-> | Hf]; [reflexivity |].
    rewrite Hf. destruct (association ch); reflexivity.
  - intros w cid ch data plen. apply handle_pkt_data_latched.
  - intros w cid ch cc w1 w2 Hr Hc Ha Hf H Hs.
    exact (no_data_after_eos_reachable w cid ch cc w1 w2 Hr Hc Ha Hf H Hs).
  - intros w Hr. exact (proj1 (proj2 (reachable_eos_ok w Hr))).
Qed.

(** A client on descriptor 5 registers the service "x", the Amiga connects
    channel 7 to it - the stream 1 of the client - and ends the stream; a
    PKT_DATA for the channel comes all the same, and then the client is
    closed. *)
Definition eos_script : list SysRes := registration_script ++ [ok 10; ok 9].
Definition world_eos_listening : World := world_started [] eos_script.
Definition world_eos_accepted : World :=
  after handle_server_socket_ready world_eos_listening.
Definition world_eos_registered : World :=
  after (handle_client_connection_event 5 EPOLLIN) world_eos_accepted.
Definition world_stream_open : World :=
  after (handle_received_pkt PKT_CONNECT 7 (ptr [120]) 1) world_eos_registered.
Definition world_stream_ended : World :=
  after (handle_pkt_eos 7) world_stream_open.
Definition world_data_dropped : World :=
  after (handle_received_pkt PKT_DATA 7 (ptr [1; 2]) 2) world_stream_ended.
Definition world_client_closed : World :=
  after (close_and_remove_connection 5) world_data_dropped.

(** The same through [handle_received_pkt], as [receive_from_a2r] has it. *)
Definition world_eos_handled : World :=
  after (handle_received_pkt PKT_EOS 7 nullptr 0) world_stream_open.
Definition world_data_ignored : World :=
  after (handle_received_pkt PKT_DATA 7 (ptr [1; 2]) 2) world_eos_handled.

Lemma eos_from_remote_witness :
  (exists w',
     handle_pkt_eos 7 world_half_closed = Ret tt w' /\
     messages (trace w') = [(5, MSG_EOS, 1, [])] /\
     find_channel 7 (channels w') = Some (mkLogicalChannel 7 None 0 true true []) /\
     syscalls (trace w') = [c_write 5 [0; 0; 0; 0; 1; 0; 0; 0; MSG_EOS]]) /\
  (reachable world_stream_open /\
   find_channel 7 (channels world_stream_open) =
     Some (mkLogicalChannel 7 (Some 5) 1 false false []) /\
   handle_pkt_eos 7 world_stream_open = Ret tt world_stream_ended /\
   steps world_stream_ended world_client_closed /\
   exists t, trace world_client_closed = trace world_stream_ended ++ t /\
             no_data_until_close 5 1 t = true) /\
  (reachable world_data_ignored /\
   messages (trace world_data_ignored) =
     [(5, MSG_REGISTER_RES, 0, [MSG_SUCCESS]); (5, MSG_CONNECT, 1, [120]);
      (5, MSG_EOS, 1, [])] /\
   eos_kept (trace world_data_ignored) = true /\
   eos_kept (trace world_data_ignored ++ [ev_msg 5 MSG_DATA 1 [1; 2]]) = false).
Proof.
  assert (R : reachable world_stream_open).
  { apply (reach_step world_eos_registered).
    - apply (reach_step world_eos_accepted).
      + apply (reach_step world_eos_listening);
          [apply world_started_reachable |].
        apply step_handle_server_socket_ready. vm_compute. reflexivity.
      + apply (step_handle_client_connection_event _ _ 5 EPOLLIN).
        vm_compute. reflexivity.
    - apply (step_handle_received_pkt _ _ PKT_CONNECT 7 (ptr [120]) 1).
      vm_compute. reflexivity. }
  split; [| split].
  - pose proof (proj1 eos_from_remote world_half_closed 7 channel_half_closed 5
                  client_half_closed eq_refl eq_refl eq_refl eq_refl
                  (or_introl eq_refl)) as H.
    destruct (handle_pkt_eos 7 world_half_closed) as [[] w' | | |] eqn:E;
      try discriminate E; try contradiction.
    exists w'. split; [reflexivity |].
    injection E as <-. vm_compute. repeat split; reflexivity.
  - assert (F : find_channel 7 (channels world_stream_open) =
                Some (mkLogicalChannel 7 (Some 5) 1 false false []))
      by (vm_compute; reflexivity).
    assert (E : handle_pkt_eos 7 world_stream_open = Ret tt world_stream_ended)
      by (vm_compute; reflexivity).
    assert (S : steps world_stream_ended world_client_closed).
    { apply (steps_step _ world_data_dropped).
      - apply (steps_step _ world_stream_ended); [apply steps_refl |].
        apply (step_handle_received_pkt _ _ PKT_DATA 7 (ptr [1; 2]) 2).
        vm_compute. reflexivity.
      - apply (step_close_and_remove_connection _ _ 5). vm_compute. reflexivity. }
    split; [exact R |]. split; [exact F |]. split; [exact E |].
    split; [exact S |].
    exact (proj1 (proj2 (proj2 (proj2 eos_from_remote))) world_stream_open 7 _ 5
             world_stream_ended world_client_closed R F eq_refl eq_refl E S).
  - assert (R' : reachable world_data_ignored).
    { apply (reach_step world_eos_handled).
      - apply (reach_step world_stream_open); [exact R |].
        apply (step_handle_received_pkt _ _ PKT_EOS 7 nullptr 0).
        vm_compute. reflexivity.
      - apply (step_handle_received_pkt _ _ PKT_DATA 7 (ptr [1; 2]) 2).
        vm_compute. reflexivity. }
    split; [exact R' |]. split; [vm_compute; reflexivity |].
    split; [| vm_compute; reflexivity].
    exact (proj2 (proj2 (proj2 (proj2 eos_from_remote))) world_data_ignored R').
Defined.
